(** * simpleEvents: the SimpleEvents and TinyEvents event loops

    A shallow embedding of [src/simpleEvents.h] and [src/tinyEvents.h]:
    the fixed-capacity schedule and reaction tables, the control
    operations, [begin()] and [run()], followed by the properties of the
    tick-processing algorithm.

    Conventions of the embedding.
    - [unsigned long] is the 32-bit type of the Arduino cores the library
      targets; arithmetic on it wraps modulo [2^32] ([ulong]).
    - A C array is a [list] read with [aget] and written with [aset]; the
      code guards every index it receives, so out-of-range accesses only
      arise where the guards are tested.
    - A function pointer is an address ([fnptr]); what the pointed code does
      is given by the interpretation [action]/[check] of the host sketch.
      A callback sees and may change the whole system: the engine (through
      its public methods), the clock (time passes while it runs) and the
      sketch's own variables.
    - [millis()] reads the field [clk] of the system state.
    - The lines the source prints under [SIMPLE_EVENTS_VERBOSE] are kept as
      a trace of events, which callbacks cannot alter. *)

From stdpp Require Import base list.
From Stdlib Require Import ZArith Lia Bool Sorting.Sorted.
Open Scope Z_scope.

(** ** Machine integers and arrays *)

Definition ULONG_BITS : Z := 32.
Definition ULONG_MOD : Z := 2 ^ ULONG_BITS.
Definition ULONG_MAX : Z := ULONG_MOD - 1.

(** Conversion to [unsigned long]. *)
Definition ulong (z : Z) : Z := z mod ULONG_MOD.

(** An [int] converted to [int8_t], as in a call whose parameter is an
    [int8_t]: the value modulo [2^8], taken in [-128, 127]. *)
Definition int8 (z : Z) : Z := (z + 128) mod 256 - 128.

(** Conversion to an unsigned type of [w] bits. *)
Definition utrunc (w : Z) (z : Z) : Z := z mod 2 ^ w.

Definition fnptr : Type := nat.
Definition nullptr : fnptr := 0%nat.

(** [a[i]], and [a[i] = v]. *)
Definition aget {A : Type} (d : A) (a : list A) (i : Z) : A :=
  default d (a !! Z.to_nat i).
Definition aset {A : Type} (a : list A) (i : Z) (v : A) : list A :=
  <[Z.to_nat i := v]> a.

(** [for (i = start; i <= last; i++) body], where [last] is re-read from the
    state before every iteration.  The index never leaves the array the
    loop walks over, so the capacity of that array bounds the number of
    iterations; [cap] is that bound. *)
Fixpoint for_upto {S : Type} (cap : nat) (last : S -> Z) (body : Z -> S -> S)
    (i : Z) (s : S) : S :=
  match cap with
  | O => s
  | Datatypes.S cap' =>
      if i <=? last s then for_upto cap' last body (i + 1) (body i s) else s
  end.

Lemma ulong_range z : 0 <= ulong z < ULONG_MOD.
Proof. unfold ulong. apply Z.mod_pos_bound. reflexivity. Qed.

Lemma ulong_small z : 0 <= z < ULONG_MOD -> ulong z = z.
Proof. intros H. unfold ulong. apply Z.mod_small. exact H. Qed.

Lemma ulong_add_l a b : ulong (ulong a + b) = ulong (a + b).
Proof. unfold ulong. apply Zplus_mod_idemp_l. Qed.

Lemma ulong_add_r a b : ulong (a + ulong b) = ulong (a + b).
Proof. unfold ulong. apply Zplus_mod_idemp_r. Qed.

Lemma length_aset {A} (a : list A) i v : length (aset a i v) = length a.
Proof. unfold aset. apply length_insert. Qed.

Lemma aget_aset_eq {A} (d : A) a i v :
  0 <= i < Z.of_nat (length a) -> aget d (aset a i v) i = v.
Proof.
  intros H. unfold aget, aset.
  rewrite list_lookup_insert_eq by lia. reflexivity.
Qed.

Lemma aget_aset_ne {A} (d : A) a i j v :
  0 <= i -> 0 <= j -> i <> j -> aget d (aset a i v) j = aget d a j.
Proof.
  intros Hi Hj Hne. unfold aget, aset.
  rewrite list_lookup_insert_ne by lia. reflexivity.
Qed.

(** Writing back what was read changes nothing. *)
Lemma aset_aget {A} (d : A) (a : list A) i : aset a i (aget d a i) = a.
Proof.
  unfold aset, aget. destruct (a !! Z.to_nat i) as [v|] eqn:E; simpl.
  - apply list_insert_id. exact E.
  - apply list_insert_ge. apply lookup_ge_None. exact E.
Qed.

(** Writing a flag that is already up: only an entry of the array reads
    [true], the default being [false]. *)
Lemma aset_true (a : list bool) i : aget false a i = true -> aset a i true = a.
Proof.
  unfold aset, aget. destruct (a !! Z.to_nat i) as [v|] eqn:E; simpl.
  - intros ->. apply list_insert_id. exact E.
  - discriminate.
Qed.

Lemma aset_aset {A} (a : list A) i v w : aset (aset a i v) i w = aset a i w.
Proof. unfold aset. apply list_insert_insert_eq. Qed.

(** The loop leaves at an index [k] its test rejects, unless the bound
    [cap] was reached first; an invariant [P] of the body, which may
    depend on the index, holds there. *)
Lemma for_upto_ind {S : Type} (P : Z -> S -> Prop) (last : S -> Z)
    (body : Z -> S -> S) :
  (forall j s, P j s -> j <= last s -> P (j + 1) (body j s)) ->
  forall cap i s, P i s ->
  exists k, i <= k <= i + Z.of_nat cap /\
    P k (for_upto cap last body i s) /\
    (last (for_upto cap last body i s) < k \/ k = i + Z.of_nat cap).
Proof.
  intros Hstep cap. induction cap as [|cap IH]; intros i s HP; simpl.
  - exists i. split; [lia|]. split; [exact HP|]. right. lia.
  - destruct (Z.leb_spec i (last s)) as [Hle|Hgt].
    + destruct (IH (i + 1) (body i s) (Hstep i s HP Hle)) as (k & Hk & HPk & Hend).
      exists k. split; [lia|]. split; [exact HPk|].
      destruct Hend as [Hend|Hend]; [left; exact Hend|right; lia].
    + exists i. split; [lia|]. split; [exact HP|]. left. exact Hgt.
Qed.

(** An invariant that does not mention the index. *)
Lemma for_upto_inv {S : Type} (P : S -> Prop) (last : S -> Z)
    (body : Z -> S -> S) :
  (forall j s, P s -> j <= last s -> P (body j s)) ->
  forall cap i s, P s -> P (for_upto cap last body i s).
Proof.
  intros Hstep cap i s HP.
  destruct (for_upto_ind (fun _ => P) last body Hstep cap i s HP)
    as (k & _ & H & _).
  exact H.
Qed.

(** The same for a loop that starts at [i0], whose body may rely on the
    index being at least [i0]. *)
Lemma for_upto_inv_from {S : Type} (P : S -> Prop) (last : S -> Z)
    (body : Z -> S -> S) (i0 : Z) :
  (forall j s, i0 <= j -> P s -> P (body j s)) ->
  forall cap s, P s -> P (for_upto cap last body i0 s).
Proof.
  intros Hstep cap s HP.
  destruct (for_upto_ind (fun j s => i0 <= j /\ P s) last body) with
    (cap := cap) (i := i0) (s := s) as (k & _ & (_ & H) & _).
  - intros j s' (Hj & HPs) _. split; [lia|]. apply Hstep; assumption.
  - split; [lia|exact HP].
  - exact H.
Qed.

(** The bound [cap] never cuts a loop short when the body keeps an invariant
    under which the last index stays below the capacity: with any larger
    bound the loop computes the same state. *)
Lemma for_upto_enough {S : Type} (Inv : S -> Prop) (last : S -> Z)
    (body : Z -> S -> S) (bound : Z) :
  (forall j s, Inv s -> Inv (body j s)) ->
  (forall s, Inv s -> last s < bound) ->
  forall cap extra i s, Inv s -> bound <= i + Z.of_nat cap ->
  for_upto (cap + extra) last body i s = for_upto cap last body i s.
Proof.
  intros Hbody Hlast cap. induction cap as [|cap IH]; intros extra i s HI Hb.
  - simpl. destruct extra as [|extra]; [reflexivity|]. simpl.
    pose proof (Hlast s HI).
    destruct (Z.leb_spec i (last s)); [lia|reflexivity].
  - simpl. destruct (Z.leb_spec i (last s)); [|reflexivity].
    apply IH; [apply Hbody; exact HI|lia].
Qed.

(** A loop of [a + b] turns at most is a loop of [a] turns at most followed
    by one of [b] turns at most from the index the first one stopped at. *)
Lemma for_upto_split {S : Type} (last : S -> Z) (body : Z -> S -> S)
    (a b : nat) : forall k s,
  for_upto (a + b) last body k s =
  for_upto b last body (k + Z.of_nat a) (for_upto a last body k s).
Proof.
  induction a as [|a IH]; intros k s.
  - simpl. rewrite Z.add_0_r. reflexivity.
  - cbn [for_upto Nat.add]. destruct (Z.leb_spec k (last s)) as [Hle|Hgt].
    + rewrite IH. f_equal. lia.
    + destruct b as [|b]; [reflexivity|]. cbn [for_upto].
      destruct (Z.leb_spec (k + Z.of_nat (Datatypes.S a)) (last s)); [lia|].
      reflexivity.
Qed.

(** Entry [i] is visited: the loop over a table of capacity [cap] is its
    first [i] turns, then the body at [i] when [i] is not above the last
    index, then the turns from [i + 1] on. *)
Lemma for_upto_reach {S : Type} (last : S -> Z) (body : Z -> S -> S)
    (cap i : Z) (s : S) :
  0 <= i < cap ->
  i <= last (for_upto (Z.to_nat i) last body 0 s) ->
  for_upto (Z.to_nat cap) last body 0 s =
  for_upto (Z.to_nat (cap - i - 1)) last body (i + 1)
    (body i (for_upto (Z.to_nat i) last body 0 s)).
Proof.
  intros Hi Hle.
  replace (Z.to_nat cap)
    with (Z.to_nat i + Datatypes.S (Z.to_nat (cap - i - 1)))%nat by lia.
  rewrite for_upto_split. rewrite Z.add_0_l, Z2Nat.id by lia.
  cbn [for_upto]. destruct (Z.leb_spec i (last (for_upto (Z.to_nat i) last body 0 s)));
    [reflexivity|lia].
Qed.

(** An invariant of the turns the bound [cap] allows. *)
Lemma for_upto_inv_below {S : Type} (P : S -> Prop) (last : S -> Z)
    (body : Z -> S -> S) : forall cap i0,
  (forall j s, i0 <= j < i0 + Z.of_nat cap -> P s -> P (body j s)) ->
  forall s, P s -> P (for_upto cap last body i0 s).
Proof.
  induction cap as [|cap IH]; intros i0 Hstep s HP; [exact HP|].
  cbn [for_upto]. destruct (i0 <=? last s); [|exact HP].
  apply IH.
  - intros j s' Hj. apply Hstep. lia.
  - apply Hstep; [lia|exact HP].
Qed.

Lemma StronglySorted_snoc {A : Type} (R : A -> A -> Prop) (l1 l2 : list A) :
  StronglySorted R l1 -> StronglySorted R l2 ->
  (forall a b, In a l1 -> In b l2 -> R a b) ->
  StronglySorted R (l1 ++ l2).
Proof.
  intros H1 H2 H12. induction H1 as [|a l1 Hl1 IH Ha]; simpl.
  - exact H2.
  - constructor.
    + apply IH. intros x y Hx Hy. apply H12; [right; exact Hx|exact Hy].
    + rewrite Forall_app. split; [exact Ha|].
      rewrite Forall_forall. intros y Hy. apply H12; [left; reflexivity|].
      apply list_elem_of_In. exact Hy.
Qed.

(** ** Trace of a tick

    One event per line the verbose build prints from [run()], annotated with
    the clock value [now] of the tick; [ScheduleExecuted] also records the
    due time that was compared with [now].  [TriggerChecked] has no printed
    counterpart: it records that a predicate was called and what it
    returned. *)
Inductive Event : Type :=
  | ScheduleExecuted (i due now : Z)
  | ReactionExecuted (i now : Z)
  | TriggerChecked (i now : Z) (fired : bool)
  | ReactionTriggeredExecuted (i now : Z)
  | ReactionTriggered (i now : Z).

Definition event_now (ev : Event) : Z :=
  match ev with
  | ScheduleExecuted _ _ now => now
  | ReactionExecuted _ now => now
  | TriggerChecked _ now _ => now
  | ReactionTriggeredExecuted _ now => now
  | ReactionTriggered _ now => now
  end.

Definition event_id (ev : Event) : Z :=
  match ev with
  | ScheduleExecuted i _ _ => i
  | ReactionExecuted i _ => i
  | TriggerChecked i _ _ => i
  | ReactionTriggeredExecuted i _ => i
  | ReactionTriggered i _ => i
  end.

Definition is_schedule_event (ev : Event) : bool :=
  match ev with ScheduleExecuted _ _ _ => true | _ => false end.
Definition is_settle_event (ev : Event) : bool :=
  match ev with ReactionExecuted _ _ => true | _ => false end.
Definition is_scan_event (ev : Event) : bool :=
  match ev with
  | TriggerChecked _ _ _ | ReactionTriggeredExecuted _ _
  | ReactionTriggered _ _ => true
  | _ => false
  end.

(** Is [ev] the execution of schedule [i]; of the queued action of reaction
    [i]; the acceptance of a delayed trigger of reaction [i]; a call of its
    predicate? *)
Definition schedule_fired (i : Z) (ev : Event) : bool :=
  match ev with ScheduleExecuted j _ _ => j =? i | _ => false end.
Definition reaction_settled (i : Z) (ev : Event) : bool :=
  match ev with ReactionExecuted j _ => j =? i | _ => false end.
Definition reaction_queued (i : Z) (ev : Event) : bool :=
  match ev with ReactionTriggered j _ => j =? i | _ => false end.
Definition trigger_checked (i : Z) (ev : Event) : bool :=
  match ev with TriggerChecked j _ _ => j =? i | _ => false end.
(** Is [ev] an event of the trigger scan about reaction [i]: a call of its
    predicate, the acceptance of a trigger or an immediate execution? *)
Definition scan_of (i : Z) (ev : Event) : bool :=
  is_scan_event ev && (event_id ev =? i).

(** The events of the trigger scan about reaction [i], in order. *)
Definition scan_events (i : Z) (l : list Event) : list Event :=
  filter (fun ev => scan_of i ev = true) l.

Definition count_events (p : Event -> bool) (l : list Event) : nat :=
  length (filter (fun ev => p ev = true) l).

Lemma count_events_app p l1 l2 :
  count_events p (l1 ++ l2) = (count_events p l1 + count_events p l2)%nat.
Proof. unfold count_events. rewrite filter_app, length_app. reflexivity. Qed.

Lemma count_events_nil p : count_events p [] = 0%nat.
Proof. reflexivity. Qed.

Lemma count_events_one p ev :
  count_events p [ev] = if p ev then 1%nat else 0%nat.
Proof.
  unfold count_events. rewrite filter_cons, filter_nil.
  destruct (p ev); simpl; reflexivity.
Qed.

Lemma count_events_cons p ev l :
  count_events p (ev :: l) =
    ((if p ev then 1 else 0) + count_events p l)%nat.
Proof.
  change (ev :: l) with ([ev] ++ l).
  rewrite count_events_app, count_events_one. reflexivity.
Qed.

Lemma count_events_none p l :
  Forall (fun ev => p ev = false) l -> count_events p l = 0%nat.
Proof.
  induction 1 as [|ev l Hev Hl IH]; [reflexivity|].
  change (ev :: l) with ([ev] ++ l).
  rewrite count_events_app, count_events_one, Hev, IH. reflexivity.
Qed.

(** In a list ordered by strictly ascending ids, at most one event is about
    entry [i]. *)
Lemma count_events_sorted p i l :
  (forall ev, p ev = true -> event_id ev = i) ->
  StronglySorted (fun a b => event_id a < event_id b) l ->
  (count_events p l <= 1)%nat.
Proof.
  intros Hp Hs. induction Hs as [|ev l Hl IH Hev];
    [rewrite count_events_nil; lia|].
  change (ev :: l) with ([ev] ++ l).
  rewrite count_events_app, count_events_one.
  destruct (p ev) eqn:E; [|lia].
  rewrite count_events_none; [lia|].
  eapply Forall_impl; [exact Hev|]. simpl. intros b Hb.
  destruct (p b) eqn:Eb; [|reflexivity].
  apply Hp in E, Eb. lia.
Qed.

(** The executions of schedule [i], oldest first: the due time that had
    passed, and the clock value of the tick that ran it. *)
Fixpoint schedule_firings (i : Z) (l : list Event) : list (Z * Z) :=
  match l with
  | [] => []
  | ScheduleExecuted j due now :: l' =>
      if j =? i then (due, now) :: schedule_firings i l'
      else schedule_firings i l'
  | _ :: l' => schedule_firings i l'
  end.

(** The executions of the queued action of reaction [i], oldest first: the
    clock value of the tick that ran it. *)
Fixpoint reaction_runs (i : Z) (l : list Event) : list Z :=
  match l with
  | [] => []
  | ReactionExecuted j now :: l' =>
      if j =? i then now :: reaction_runs i l' else reaction_runs i l'
  | _ :: l' => reaction_runs i l'
  end.

(** The calls of the predicate of reaction [i], oldest first: the clock
    value of the tick and what the predicate returned. *)
Fixpoint trigger_checks (i : Z) (l : list Event) : list (Z * bool) :=
  match l with
  | [] => []
  | TriggerChecked j now fired :: l' =>
      if j =? i then (now, fired) :: trigger_checks i l'
      else trigger_checks i l'
  | _ :: l' => trigger_checks i l'
  end.

(** After a call that returned [true] at [t1], the next call comes at a
    clock value above [t1 + timeout], as an [unsigned long]. *)
Fixpoint debounced (timeout : Z) (cs : list (Z * bool)) : Prop :=
  match cs with
  | [] => True
  | (t1, f1) :: rest =>
      match rest with
      | [] => True
      | (t2, _) :: _ => f1 = true -> ulong (t1 + timeout) < t2
      end /\ debounced timeout rest
  end.

(** Once the predicate has returned [true] at [t1], the next check of the
    trigger is set to [t1 + timeout]. *)
Definition armed (timeout : Z) (c : option (Z * bool)) (next_check : Z)
    : Prop :=
  match c with
  | Some (t1, true) => next_check = ulong (t1 + timeout)
  | _ => True
  end.

Definition schedule_dues (i : Z) (l : list Event) : list Z :=
  map fst (schedule_firings i l).

(** The arithmetic sequence [a, a + d, a + 2 d, ...] of [n] terms, in
    [unsigned long] arithmetic and in plain integers. *)
Definition progression (a d : Z) (n : nat) : list Z :=
  map (fun k => ulong (a + Z.of_nat k * d)) (seq 0 n).



(** The ids a table of capacity [cap] that already holds [used] entries
    hands out to [n] further add calls: the next free indices while there
    is room, then the failure value [-1]. *)
Fixpoint dense_ids (cap used : Z) (n : nat) : list Z :=
  match n with
  | O => []
  | S n' =>
      if used <? cap then used :: dense_ids cap (used + 1) n'
      else -1 :: dense_ids cap used n'
  end.

(** ** The system a callback runs in *)

Section System.
Context {E U : Type}.

Record Sys : Type := mkSys {
  eng : E;          (* the event-loop object *)
  clk : Z;          (* what millis() returns *)
  usr : U           (* the sketch's own variables *)
}.

Record Machine : Type := mkMachine {
  sys : Sys;
  trace : list Event
}.

Definition with_eng (e : E) (s : Sys) : Sys :=
  {| eng := e; clk := clk s; usr := usr s |}.

Definition with_sys (s : Sys) (m : Machine) : Machine :=
  {| sys := s; trace := trace m |}.

Definition emit (ev : Event) (m : Machine) : Machine :=
  {| sys := sys m; trace := trace m ++ [ev] |}.

(** A public method of the engine called from the sketch: it reads the
    clock through [millis()] and updates the engine. *)
Definition method (f : Z -> E -> E) (s : Sys) : Sys :=
  with_eng (f (clk s) (eng s)) s.
End System.

Arguments Sys : clear implicits.
Arguments Machine : clear implicits.

(** ** Shape of the trace a loop of [run()] leaves *)

(** [ev] was emitted for entry [j] by the loop that emits events of kind
    [kind], in the tick whose clock value is [now]. *)
Definition phase_event (kind : Event -> bool) (now j : Z) (ev : Event) : Prop :=
  kind ev = true /\ event_id ev = j /\ event_now ev = now.

Definition id_lt (a b : Event) : Prop := event_id a < event_id b.
Definition id_le (a b : Event) : Prop := event_id a <= event_id b.

(** The events of one loop: all of one kind, stamped with the tick's [now],
    about entries from [i] on, in the order [R] on entry ids. *)
Definition phase_trace (kind : Event -> bool) (R : Event -> Event -> Prop)
    (now i : Z) (l : list Event) : Prop :=
  Forall (fun ev => kind ev = true /\ i <= event_id ev /\ event_now ev = now) l /\
  StronglySorted R l.

Lemma phase_trace_count kind R now i0 l p :
  phase_trace kind R now i0 l ->
  (forall ev, p ev = true -> kind ev = false) ->
  count_events p l = 0%nat.
Proof.
  intros [Hall _] Hp. apply count_events_none.
  eapply Forall_impl; [exact Hall|]. simpl. intros ev (Hk & _).
  destruct (p ev) eqn:E; [|reflexivity].
  apply Hp in E. congruence.
Qed.

Lemma for_upto_phase_trace {E U : Type} (kind : Event -> bool)
    (R : Event -> Event -> Prop) (now : Z)
    (last : Machine E U -> Z) (body : Z -> Machine E U -> Machine E U) :
  (forall a b, event_id a < event_id b -> R a b) ->
  (forall j m, exists l, trace (body j m) = trace m ++ l /\
      Forall (phase_event kind now j) l /\ StronglySorted R l) ->
  forall cap i m, exists l,
    trace (for_upto cap last body i m) = trace m ++ l /\
    phase_trace kind R now i l.
Proof.
  intros HR Hbody cap i m.
  pose (P := fun (j : Z) (m' : Machine E U) =>
    i <= j /\ exists l, trace m' = trace m ++ l /\
      Forall (fun ev => kind ev = true /\ i <= event_id ev < j /\ event_now ev = now) l /\
      StronglySorted R l).
  assert (Hstep : forall j s, P j s -> j <= last s -> P (j + 1) (body j s)).
  { intros j s (Hij & l & Hl & Hall & Hsorted) _.
    destruct (Hbody j s) as (lj & Hlj & Hallj & Hsortedj).
    split; [lia|].
    exists (l ++ lj). split; [rewrite Hlj, Hl, app_assoc; reflexivity|].
    split.
    - rewrite Forall_app. split.
      + eapply Forall_impl; [exact Hall|]. simpl. intros ev (Hk & Hid & Hn).
        repeat split; try assumption; lia.
      + eapply Forall_impl; [exact Hallj|]. simpl. intros ev (Hk & Hid & Hn).
        repeat split; try assumption; lia.
    - apply StronglySorted_snoc; try assumption.
      intros a b Ha Hb. apply HR.
      rewrite Forall_forall in Hall, Hallj.
      apply list_elem_of_In in Ha, Hb.
      destruct (Hall a Ha) as (_ & Hida & _).
      destruct (Hallj b Hb) as (_ & Hidb & _). lia. }
  assert (H0 : P i m).
  { split; [lia|]. exists []. rewrite app_nil_r.
    repeat split; constructor. }
  destruct (for_upto_ind P last body Hstep cap i m H0)
    as (k & _ & (_ & l & Hl & Hall & Hsorted) & _).
  exists l. split; [exact Hl|]. split; [|exact Hsorted].
  eapply Forall_impl; [exact Hall|]. simpl. intros ev (Hk & Hid & Hn).
  repeat split; try assumption; lia.
Qed.

Lemma sorted_one (R : Event -> Event -> Prop) ev : StronglySorted R [ev].
Proof. repeat constructor. Qed.


Lemma sorted_same_id ev1 ev2 :
  event_id ev1 = event_id ev2 -> StronglySorted id_le [ev1; ev2].
Proof.
  intros H. repeat constructor. unfold id_le. lia.
Qed.


Lemma id_lt_le a b : event_id a < event_id b -> id_le a b.
Proof. unfold id_le. lia. Qed.


Lemma schedule_firings_app i l1 l2 :
  schedule_firings i (l1 ++ l2) = schedule_firings i l1 ++ schedule_firings i l2.
Proof.
  induction l1 as [|ev l1 IH]; simpl; [reflexivity|].
  destruct ev; try exact IH.
  destruct (i0 =? i); simpl; rewrite IH; reflexivity.
Qed.

Lemma reaction_runs_app i l1 l2 :
  reaction_runs i (l1 ++ l2) = reaction_runs i l1 ++ reaction_runs i l2.
Proof.
  induction l1 as [|ev l1 IH]; simpl; [reflexivity|].
  destruct ev; try exact IH.
  destruct (i0 =? i); simpl; rewrite IH; reflexivity.
Qed.

Lemma trigger_checks_app i l1 l2 :
  trigger_checks i (l1 ++ l2) = trigger_checks i l1 ++ trigger_checks i l2.
Proof.
  induction l1 as [|ev l1 IH]; simpl; [reflexivity|].
  destruct ev; try exact IH.
  destruct (i0 =? i); simpl; rewrite IH; reflexivity.
Qed.

Lemma trigger_checks_none i l :
  count_events (scan_of i) l = 0%nat -> trigger_checks i l = [].
Proof.
  induction l as [|ev l IH]; [reflexivity|].
  rewrite count_events_cons. intros H.
  destruct (scan_of i ev) eqn:E; [discriminate|].
  specialize (IH H). destruct ev; simpl; try exact IH.
  unfold scan_of in E. simpl in E. rewrite E. exact IH.
Qed.

Lemma scan_events_app i l1 l2 :
  scan_events i (l1 ++ l2) = scan_events i l1 ++ scan_events i l2.
Proof. unfold scan_events. apply filter_app. Qed.

Lemma scan_events_none i l :
  count_events (scan_of i) l = 0%nat -> scan_events i l = [].
Proof. unfold count_events, scan_events. apply nil_length_inv. Qed.

Lemma scan_events_phase kind R now i0 i l :
  phase_trace kind R now i0 l ->
  (i < i0 \/ forall ev, kind ev = true -> is_scan_event ev = false) ->
  scan_events i l = [].
Proof.
  intros [Hall _] H. apply scan_events_none, count_events_none.
  eapply Forall_impl; [exact Hall|]. simpl. intros ev (Hk & Hid & _).
  unfold scan_of. destruct H as [H|H].
  - destruct (Z.eqb_spec (event_id ev) i); [lia|]. apply andb_false_r.
  - rewrite (H ev Hk). reflexivity.
Qed.

Lemma reaction_runs_phase kind R now i0 i l :
  phase_trace kind R now i0 l ->
  (forall ev, kind ev = true -> is_settle_event ev = false) ->
  reaction_runs i l = [].
Proof.
  intros [Hall _] H. induction Hall as [|ev l (Hk & _) _ IH]; [reflexivity|].
  specialize (H ev Hk). destruct ev; cbn [reaction_runs]; try exact IH.
  discriminate.
Qed.

(** The calls of the predicate are read off the events of the scan. *)
Lemma trigger_checks_scan i l :
  trigger_checks i (scan_events i l) = trigger_checks i l.
Proof.
  induction l as [|ev l IH]; [reflexivity|].
  unfold scan_events in *. rewrite filter_cons.
  destruct (decide (scan_of i ev = true)) as [E|E].
  - destruct ev; cbn [trigger_checks]; rewrite IH; reflexivity.
  - rewrite IH. destruct ev; cbn [trigger_checks]; try reflexivity.
    unfold scan_of in E. cbn [is_scan_event event_id andb] in E.
    destruct (i0 =? i); [congruence|reflexivity].
Qed.

Lemma debounced_snoc timeout cs t2 f2 :
  debounced timeout cs ->
  (forall t1, last cs = Some (t1, true) -> ulong (t1 + timeout) < t2) ->
  debounced timeout (cs ++ [(t2, f2)]).
Proof.
  induction cs as [|[a fa] rest IH]; intros D H; [simpl; auto|].
  destruct rest as [|[b fb] rest'].
  - simpl. split; [|auto]. intros ->. apply H. reflexivity.
  - destruct D as [D1 D2]. split; [exact D1|].
    apply IH; [exact D2|]. intros t1 Ht1. apply H. exact Ht1.
Qed.

(** In the trace of a tick, whatever follows an event of the trigger scan
    belongs to the trigger scan too: no queued action is executed after
    it. *)
Lemma scan_events_come_last now R1 R2 R3 l1 l2 l3 la ev lb :
  phase_trace is_schedule_event R1 now 0 l1 ->
  phase_trace is_settle_event R2 now 0 l2 ->
  phase_trace is_scan_event R3 now 0 l3 ->
  l1 ++ l2 ++ l3 = la ++ ev :: lb ->
  is_scan_event ev = true ->
  Forall (fun e => is_scan_event e = true) lb.
Proof.
  intros [P1 _] [P2 _] [P3 _] Heq Hev.
  assert (Hscan : Forall (fun e => is_scan_event e = true) l3).
  { eapply Forall_impl; [exact P3|]. simpl. intros e (H & _). exact H. }
  assert (Hnot : Forall (fun e => is_scan_event e = false) (l1 ++ l2)).
  { rewrite Forall_app. split.
    - eapply Forall_impl; [exact P1|]. simpl. intros [] (H & _); simpl in *; congruence.
    - eapply Forall_impl; [exact P2|]. simpl. intros [] (H & _); simpl in *; congruence. }
  rewrite app_assoc in Heq.
  apply app_eq_app in Heq. destruct Heq as (l & [[H1 H2]|[H1 H2]]).
  - destruct l as [|e0 l].
    + simpl in H2. rewrite <- H2 in Hscan.
      apply Forall_cons in Hscan. exact (proj2 Hscan).
    + simpl in H2. injection H2 as -> H2.
      rewrite H1, Forall_app in Hnot. destruct Hnot as [_ Hnot].
      apply Forall_cons in Hnot. destruct Hnot as [Hnot _]. congruence.
  - rewrite H2, Forall_app in Hscan. destruct Hscan as [_ Hscan].
    apply Forall_cons in Hscan. exact (proj2 Hscan).
Qed.

Lemma no_settle_among_scan i lb :
  Forall (fun e => is_scan_event e = true) lb ->
  count_events (reaction_settled i) lb = 0%nat.
Proof.
  intros H. apply count_events_none.
  eapply Forall_impl; [exact H|]. simpl. intros [] He; simpl in *; congruence.
Qed.
(** ** SimpleEvents (src/simpleEvents.h) *)

Module Simple.

(** The data members of [class SimpleEvents<T_MAX, R_MAX>]. *)
Record Engine : Type := mkEngine {
  last_schd : Z;
  last_rct : Z;
  last_case : Z;
  schd_calls : list fnptr;
  rct_calls : list fnptr;
  rct_trigs : list fnptr;
  schd_tIntrvls : list Z;
  rct_tTimeouts : list Z;
  rct_tDelays : list Z;
  schd_areActive : list bool;
  rct_areActive : list bool;
  rct_areTrigged : list bool;
  schd_nextCalls : list Z;
  rct_nextTrigs : list Z;
  rct_nextCalls : list Z
}.

Definition set_last_schd (v : Z) (e : Engine) : Engine :=
  mkEngine v (last_rct e) (last_case e) (schd_calls e) (rct_calls e)
    (rct_trigs e) (schd_tIntrvls e) (rct_tTimeouts e) (rct_tDelays e)
    (schd_areActive e) (rct_areActive e) (rct_areTrigged e)
    (schd_nextCalls e) (rct_nextTrigs e) (rct_nextCalls e).
Definition set_last_rct (v : Z) (e : Engine) : Engine :=
  mkEngine (last_schd e) v (last_case e) (schd_calls e) (rct_calls e)
    (rct_trigs e) (schd_tIntrvls e) (rct_tTimeouts e) (rct_tDelays e)
    (schd_areActive e) (rct_areActive e) (rct_areTrigged e)
    (schd_nextCalls e) (rct_nextTrigs e) (rct_nextCalls e).
Definition set_schd_calls (v : list fnptr) (e : Engine) : Engine :=
  mkEngine (last_schd e) (last_rct e) (last_case e) v (rct_calls e)
    (rct_trigs e) (schd_tIntrvls e) (rct_tTimeouts e) (rct_tDelays e)
    (schd_areActive e) (rct_areActive e) (rct_areTrigged e)
    (schd_nextCalls e) (rct_nextTrigs e) (rct_nextCalls e).
Definition set_rct_calls (v : list fnptr) (e : Engine) : Engine :=
  mkEngine (last_schd e) (last_rct e) (last_case e) (schd_calls e) v
    (rct_trigs e) (schd_tIntrvls e) (rct_tTimeouts e) (rct_tDelays e)
    (schd_areActive e) (rct_areActive e) (rct_areTrigged e)
    (schd_nextCalls e) (rct_nextTrigs e) (rct_nextCalls e).
Definition set_rct_trigs (v : list fnptr) (e : Engine) : Engine :=
  mkEngine (last_schd e) (last_rct e) (last_case e) (schd_calls e)
    (rct_calls e) v (schd_tIntrvls e) (rct_tTimeouts e) (rct_tDelays e)
    (schd_areActive e) (rct_areActive e) (rct_areTrigged e)
    (schd_nextCalls e) (rct_nextTrigs e) (rct_nextCalls e).
Definition set_schd_tIntrvls (v : list Z) (e : Engine) : Engine :=
  mkEngine (last_schd e) (last_rct e) (last_case e) (schd_calls e)
    (rct_calls e) (rct_trigs e) v (rct_tTimeouts e) (rct_tDelays e)
    (schd_areActive e) (rct_areActive e) (rct_areTrigged e)
    (schd_nextCalls e) (rct_nextTrigs e) (rct_nextCalls e).
Definition set_rct_tTimeouts (v : list Z) (e : Engine) : Engine :=
  mkEngine (last_schd e) (last_rct e) (last_case e) (schd_calls e)
    (rct_calls e) (rct_trigs e) (schd_tIntrvls e) v (rct_tDelays e)
    (schd_areActive e) (rct_areActive e) (rct_areTrigged e)
    (schd_nextCalls e) (rct_nextTrigs e) (rct_nextCalls e).
Definition set_rct_tDelays (v : list Z) (e : Engine) : Engine :=
  mkEngine (last_schd e) (last_rct e) (last_case e) (schd_calls e)
    (rct_calls e) (rct_trigs e) (schd_tIntrvls e) (rct_tTimeouts e) v
    (schd_areActive e) (rct_areActive e) (rct_areTrigged e)
    (schd_nextCalls e) (rct_nextTrigs e) (rct_nextCalls e).
Definition set_schd_areActive (v : list bool) (e : Engine) : Engine :=
  mkEngine (last_schd e) (last_rct e) (last_case e) (schd_calls e)
    (rct_calls e) (rct_trigs e) (schd_tIntrvls e) (rct_tTimeouts e)
    (rct_tDelays e) v (rct_areActive e) (rct_areTrigged e)
    (schd_nextCalls e) (rct_nextTrigs e) (rct_nextCalls e).
Definition set_rct_areActive (v : list bool) (e : Engine) : Engine :=
  mkEngine (last_schd e) (last_rct e) (last_case e) (schd_calls e)
    (rct_calls e) (rct_trigs e) (schd_tIntrvls e) (rct_tTimeouts e)
    (rct_tDelays e) (schd_areActive e) v (rct_areTrigged e)
    (schd_nextCalls e) (rct_nextTrigs e) (rct_nextCalls e).
Definition set_rct_areTrigged (v : list bool) (e : Engine) : Engine :=
  mkEngine (last_schd e) (last_rct e) (last_case e) (schd_calls e)
    (rct_calls e) (rct_trigs e) (schd_tIntrvls e) (rct_tTimeouts e)
    (rct_tDelays e) (schd_areActive e) (rct_areActive e) v
    (schd_nextCalls e) (rct_nextTrigs e) (rct_nextCalls e).
Definition set_schd_nextCalls (v : list Z) (e : Engine) : Engine :=
  mkEngine (last_schd e) (last_rct e) (last_case e) (schd_calls e)
    (rct_calls e) (rct_trigs e) (schd_tIntrvls e) (rct_tTimeouts e)
    (rct_tDelays e) (schd_areActive e) (rct_areActive e) (rct_areTrigged e)
    v (rct_nextTrigs e) (rct_nextCalls e).
Definition set_rct_nextTrigs (v : list Z) (e : Engine) : Engine :=
  mkEngine (last_schd e) (last_rct e) (last_case e) (schd_calls e)
    (rct_calls e) (rct_trigs e) (schd_tIntrvls e) (rct_tTimeouts e)
    (rct_tDelays e) (schd_areActive e) (rct_areActive e) (rct_areTrigged e)
    (schd_nextCalls e) v (rct_nextCalls e).
Definition set_rct_nextCalls (v : list Z) (e : Engine) : Engine :=
  mkEngine (last_schd e) (last_rct e) (last_case e) (schd_calls e)
    (rct_calls e) (rct_trigs e) (schd_tIntrvls e) (rct_tTimeouts e)
    (rct_tDelays e) (schd_areActive e) (rct_areActive e) (rct_areTrigged e)
    (schd_nextCalls e) (rct_nextTrigs e) v.

(** One row of the schedule table and one row of the reaction table, as the
    data model of the specification names their fields. *)
Record Schedule : Type := mkSchedule {
  s_action : fnptr;
  s_interval : Z;
  s_next_fire : Z;
  s_active : bool
}.

Record Reaction : Type := mkReaction {
  r_predicate : fnptr;
  r_action : fnptr;
  r_timeout : Z;
  r_delay : Z;
  r_next_trigger_check : Z;
  r_next_execution : Z;
  r_pending : bool;
  r_trigger_active : bool
}.

Definition schedule (e : Engine) (i : Z) : Schedule :=
  {| s_action := aget nullptr (schd_calls e) i;
     s_interval := aget 0 (schd_tIntrvls e) i;
     s_next_fire := aget 0 (schd_nextCalls e) i;
     s_active := aget false (schd_areActive e) i |}.

Definition reaction (e : Engine) (i : Z) : Reaction :=
  {| r_predicate := aget nullptr (rct_trigs e) i;
     r_action := aget nullptr (rct_calls e) i;
     r_timeout := aget 0 (rct_tTimeouts e) i;
     r_delay := aget 0 (rct_tDelays e) i;
     r_next_trigger_check := aget 0 (rct_nextTrigs e) i;
     r_next_execution := aget 0 (rct_nextCalls e) i;
     r_pending := aget false (rct_areTrigged e) i;
     r_trigger_active := aget false (rct_areActive e) i |}.

Section Methods.
Variables T_MAX R_MAX : Z.

(** A freshly constructed [SimpleEvents<T_MAX, R_MAX>] object. *)
Definition init : Engine :=
  {| last_schd := -1; last_rct := -1; last_case := -1;
     schd_calls := replicate (Z.to_nat T_MAX) nullptr;
     rct_calls := replicate (Z.to_nat R_MAX) nullptr;
     rct_trigs := replicate (Z.to_nat R_MAX) nullptr;
     schd_tIntrvls := replicate (Z.to_nat T_MAX) 0;
     rct_tTimeouts := replicate (Z.to_nat R_MAX) 0;
     rct_tDelays := replicate (Z.to_nat R_MAX) 0;
     schd_areActive := replicate (Z.to_nat T_MAX) false;
     rct_areActive := replicate (Z.to_nat R_MAX) false;
     rct_areTrigged := replicate (Z.to_nat R_MAX) false;
     schd_nextCalls := replicate (Z.to_nat T_MAX) 0;
     rct_nextTrigs := replicate (Z.to_nat R_MAX) 0;
     rct_nextCalls := replicate (Z.to_nat R_MAX) 0 |}.

(** [addSchedule(callback, interval, delay_start)]: the returned [int] and
    the engine afterwards. *)
Definition addSchedule (callback : fnptr) (interval delay_start : Z)
    (e : Engine) : Z * Engine :=
  if last_schd e >? T_MAX - 2 then (-1, e)
  else
    let e := set_last_schd (last_schd e + 1) e in
    let e := set_schd_calls (aset (schd_calls e) (last_schd e) callback) e in
    let e := set_schd_tIntrvls (aset (schd_tIntrvls e) (last_schd e) interval) e in
    let e := set_schd_nextCalls (aset (schd_nextCalls e) (last_schd e) delay_start) e in
    let e := set_schd_areActive (aset (schd_areActive e) (last_schd e) true) e in
    (last_schd e, e).

(** [addReaction(trigger, callback, timeout, delay, delay_start)]. *)
Definition addReaction (trigger callback : fnptr)
    (timeout delay delay_start : Z) (e : Engine) : Z * Engine :=
  if last_rct e >? R_MAX - 2 then (-1, e)
  else
    let e := set_last_rct (last_rct e + 1) e in
    let e := set_rct_trigs (aset (rct_trigs e) (last_rct e) trigger) e in
    let e := set_rct_calls (aset (rct_calls e) (last_rct e) callback) e in
    let e := set_rct_tTimeouts (aset (rct_tTimeouts e) (last_rct e) timeout) e in
    let e := set_rct_tDelays (aset (rct_tDelays e) (last_rct e) delay) e in
    let e := set_rct_nextTrigs (aset (rct_nextTrigs e) (last_rct e) delay_start) e in
    let e := set_rct_areActive (aset (rct_areActive e) (last_rct e) true) e in
    (last_rct e, e).

(** A [setup()] that registers the schedules [args] one after the other:
    the ids returned, in call order, and the engine afterwards. *)
Fixpoint addSchedules (args : list (fnptr * Z * Z)) (e : Engine)
    : list Z * Engine :=
  match args with
  | [] => ([], e)
  | (callback, interval, delay_start) :: args' =>
      let (id, e1) := addSchedule callback interval delay_start e in
      let (ids, e2) := addSchedules args' e1 in
      (id :: ids, e2)
  end.

Fixpoint addReactions (args : list (fnptr * fnptr * Z * Z * Z)) (e : Engine)
    : list Z * Engine :=
  match args with
  | [] => ([], e)
  | (trigger, callback, timeout, delay, delay_start) :: args' =>
      let (id, e1) := addReaction trigger callback timeout delay delay_start e in
      let (ids, e2) := addReactions args' e1 in
      (id :: ids, e2)
  end.
End Methods.

(** The control operations.  [millis] is the value [millis()] returns when
    the method asks for it. *)
Definition pauseSchedule (schd_id : Z) (e : Engine) : Engine :=
  if (schd_id <? 0) || (schd_id >? last_schd e) then e
  else set_schd_areActive (aset (schd_areActive e) schd_id false) e.

Definition pauseTrigger (rct_id : Z) (e : Engine) : Engine :=
  if (rct_id <? 0) || (rct_id >? last_rct e) then e
  else set_rct_areActive (aset (rct_areActive e) rct_id false) e.

Definition resumeSchedule (schd_id timestamp : Z) (abs : bool) (millis : Z)
    (e : Engine) : Engine :=
  if (schd_id <? 0) || (schd_id >? last_schd e) then e
  else
    let timestamp := if negb abs then ulong (timestamp + millis) else timestamp in
    let e := set_schd_areActive (aset (schd_areActive e) schd_id true) e in
    set_schd_nextCalls (aset (schd_nextCalls e) schd_id timestamp) e.

Definition resumeTrigger (rct_id timestamp : Z) (abs : bool) (millis : Z)
    (e : Engine) : Engine :=
  if (rct_id <? 0) || (rct_id >? last_rct e) then e
  else
    let timestamp := if negb abs then ulong (timestamp + millis) else timestamp in
    let e := set_rct_areActive (aset (rct_areActive e) rct_id true) e in
    set_rct_nextTrigs (aset (rct_nextTrigs e) rct_id timestamp) e.

Definition cancelReaction (rct_id timestamp : Z) (abs : bool) (millis : Z)
    (e : Engine) : Engine :=
  if (rct_id <? 0) || (rct_id >? last_rct e) then e
  else
    let timestamp := if negb abs then ulong (timestamp + millis) else timestamp in
    let e := set_rct_nextTrigs (aset (rct_nextTrigs e) rct_id timestamp) e in
    set_rct_areTrigged (aset (rct_areTrigged e) rct_id false) e.

Definition stopReaction (rct_id : Z) (e : Engine) : Engine :=
  if (rct_id <? 0) || (rct_id >? last_rct e) then e
  else set_rct_areTrigged (aset (rct_areTrigged e) rct_id false) e.

(** [begin()]: the two loops that turn the relative start delays into
    absolute times. *)
Definition begin_schedule (now i : Z) (e : Engine) : Engine :=
  set_schd_nextCalls
    (aset (schd_nextCalls e) i (ulong (aget 0 (schd_nextCalls e) i + now))) e.

Definition begin_reaction (now i : Z) (e : Engine) : Engine :=
  set_rct_nextTrigs
    (aset (rct_nextTrigs e) i (ulong (aget 0 (rct_nextTrigs e) i + now))) e.

Section Loop.
Variables T_MAX R_MAX : Z.
Context {U : Type}.

(** What the sketch's functions do when called through their address. *)
Variable action : fnptr -> Sys Engine U -> Sys Engine U.
Variable check : fnptr -> Sys Engine U -> bool * Sys Engine U.

Definition begin (millis : Z) (e : Engine) : Engine :=
  let now := millis in
  let e := for_upto (Z.to_nat T_MAX) last_schd (begin_schedule now) 0 e in
  for_upto (Z.to_nat R_MAX) last_rct (begin_reaction now) 0 e.

(** Body of the first loop of [run()]: scheduled task [i]. *)
Definition run_schedule (now i : Z) (m : Machine Engine U) : Machine Engine U :=
  let e := eng (sys m) in
  if aget false (schd_areActive e) i && (aget 0 (schd_nextCalls e) i <? now)
  then
    let due := aget 0 (schd_nextCalls e) i in
    let e := set_schd_nextCalls
               (aset (schd_nextCalls e) i
                  (ulong (due + aget 0 (schd_tIntrvls e) i))) e in
    let s := action (aget nullptr (schd_calls e) i) (with_eng e (sys m)) in
    emit (ScheduleExecuted i due now) (with_sys s m)
  else m.

(** Body of the second loop: the pending execution of reaction [i]. *)
Definition run_pending (now i : Z) (m : Machine Engine U) : Machine Engine U :=
  let e := eng (sys m) in
  if aget false (rct_areTrigged e) i && (aget 0 (rct_nextCalls e) i <? now)
  then
    let e := set_rct_areTrigged (aset (rct_areTrigged e) i false) e in
    let s := action (aget nullptr (rct_calls e) i) (with_eng e (sys m)) in
    emit (ReactionExecuted i now) (with_sys s m)
  else m.

(** Body of the third loop: the trigger of reaction [i].  The predicate is
    the last operand of the [&&] chain, so it is called only when the two
    tests before it hold. *)
Definition run_trigger (now i : Z) (m : Machine Engine U) : Machine Engine U :=
  let e := eng (sys m) in
  if aget false (rct_areActive e) i && (aget 0 (rct_nextTrigs e) i <? now)
  then
    let (fired, s) := check (aget nullptr (rct_trigs e) i) (sys m) in
    let m := emit (TriggerChecked i now fired) (with_sys s m) in
    if fired then
      let e := eng s in
      if aget 0 (rct_tDelays e) i =? 0 then
        let e := set_rct_nextTrigs
                   (aset (rct_nextTrigs e) i
                      (ulong (now + aget 0 (rct_tTimeouts e) i))) e in
        let s := action (aget nullptr (rct_calls e) i) (with_eng e s) in
        emit (ReactionTriggeredExecuted i now) (with_sys s m)
      else
        let e := set_rct_nextTrigs
                   (aset (rct_nextTrigs e) i
                      (ulong (now + aget 0 (rct_tTimeouts e) i))) e in
        let e := set_rct_nextCalls
                   (aset (rct_nextCalls e) i
                      (ulong (now + aget 0 (rct_tDelays e) i))) e in
        let e := set_rct_areTrigged (aset (rct_areTrigged e) i true) e in
        emit (ReactionTriggered i now) (with_sys (with_eng e s) m)
    else m
  else m.

Definition m_last_schd (m : Machine Engine U) : Z := last_schd (eng (sys m)).
Definition m_last_rct (m : Machine Engine U) : Z := last_rct (eng (sys m)).

Definition schedule_phase (now : Z) (m : Machine Engine U) : Machine Engine U :=
  for_upto (Z.to_nat T_MAX) m_last_schd (run_schedule now) 0 m.
Definition pending_phase (now : Z) (m : Machine Engine U) : Machine Engine U :=
  for_upto (Z.to_nat R_MAX) m_last_rct (run_pending now) 0 m.
Definition trigger_phase (now : Z) (m : Machine Engine U) : Machine Engine U :=
  for_upto (Z.to_nat R_MAX) m_last_rct (run_trigger now) 0 m.

(** [run()]: one tick. *)
Definition run (m : Machine Engine U) : Machine Engine U :=
  let now := clk (sys m) in
  let m := schedule_phase now m in
  let m := pending_phase now m in
  trigger_phase now m.

(** One iteration of the sketch's [loop()] reached when the clock reads [t],
    and a sequence of them. *)
Definition tick (t : Z) (m : Machine Engine U) : Machine Engine U :=
  run (with_sys {| eng := eng (sys m); clk := t; usr := usr (sys m) |} m).

Definition ticks (ts : list Z) (m : Machine Engine U) : Machine Engine U :=
  fold_left (fun m t => tick t m) ts m.
End Loop.

(** *** Well-formed engines

    The arrays have the capacity fixed by the template arguments and the
    high-water marks stay inside them. *)
Definition wf (T_MAX R_MAX : Z) (e : Engine) : Prop :=
  (-1 <= last_schd e < T_MAX) /\
  (-1 <= last_rct e < R_MAX) /\
  (Z.of_nat (length (schd_calls e)) = T_MAX /\
   Z.of_nat (length (schd_tIntrvls e)) = T_MAX /\
   Z.of_nat (length (schd_areActive e)) = T_MAX /\
   Z.of_nat (length (schd_nextCalls e)) = T_MAX) /\
  (Z.of_nat (length (rct_calls e)) = R_MAX /\
   Z.of_nat (length (rct_trigs e)) = R_MAX /\
   Z.of_nat (length (rct_tTimeouts e)) = R_MAX /\
   Z.of_nat (length (rct_tDelays e)) = R_MAX) /\
  (Z.of_nat (length (rct_areActive e)) = R_MAX /\
   Z.of_nat (length (rct_areTrigged e)) = R_MAX /\
   Z.of_nat (length (rct_nextTrigs e)) = R_MAX /\
   Z.of_nat (length (rct_nextCalls e)) = R_MAX).

End Simple.

(** ** TinyEvents (src/tinyEvents.h) *)

Module Tiny.

(** The data members of
    [class TinyEvents<T_MAX, R_MAX, TDur_t, TWait_t>].  The high-water marks
    are [int8_t]; intervals are [TDur_t] and timeouts and delays [TWait_t]
    values, which the methods receive already converted to these types and
    widen to [unsigned long] where they add them to a time.  There are no
    activity flags, and the pending flags are packed eight to a byte. *)
Record Engine : Type := mkEngine {
  last_schd : Z;
  last_rct : Z;
  last_case : Z;
  schd_calls : list fnptr;
  rct_calls : list fnptr;
  rct_trigs : list fnptr;
  schd_tIntrvls : list Z;
  rct_tTimeouts : list Z;
  rct_tDelays : list Z;
  rct_areTrigged : list Z;
  schd_nextCalls : list Z;
  rct_nextTrigs : list Z;
  rct_nextCalls : list Z
}.

Definition set_last_schd (v : Z) (e : Engine) : Engine :=
  mkEngine v (last_rct e) (last_case e) (schd_calls e) (rct_calls e)
    (rct_trigs e) (schd_tIntrvls e) (rct_tTimeouts e) (rct_tDelays e)
    (rct_areTrigged e) (schd_nextCalls e) (rct_nextTrigs e) (rct_nextCalls e).
Definition set_last_rct (v : Z) (e : Engine) : Engine :=
  mkEngine (last_schd e) v (last_case e) (schd_calls e) (rct_calls e)
    (rct_trigs e) (schd_tIntrvls e) (rct_tTimeouts e) (rct_tDelays e)
    (rct_areTrigged e) (schd_nextCalls e) (rct_nextTrigs e) (rct_nextCalls e).
Definition set_schd_calls (v : list fnptr) (e : Engine) : Engine :=
  mkEngine (last_schd e) (last_rct e) (last_case e) v (rct_calls e)
    (rct_trigs e) (schd_tIntrvls e) (rct_tTimeouts e) (rct_tDelays e)
    (rct_areTrigged e) (schd_nextCalls e) (rct_nextTrigs e) (rct_nextCalls e).
Definition set_rct_calls (v : list fnptr) (e : Engine) : Engine :=
  mkEngine (last_schd e) (last_rct e) (last_case e) (schd_calls e) v
    (rct_trigs e) (schd_tIntrvls e) (rct_tTimeouts e) (rct_tDelays e)
    (rct_areTrigged e) (schd_nextCalls e) (rct_nextTrigs e) (rct_nextCalls e).
Definition set_rct_trigs (v : list fnptr) (e : Engine) : Engine :=
  mkEngine (last_schd e) (last_rct e) (last_case e) (schd_calls e)
    (rct_calls e) v (schd_tIntrvls e) (rct_tTimeouts e) (rct_tDelays e)
    (rct_areTrigged e) (schd_nextCalls e) (rct_nextTrigs e) (rct_nextCalls e).
Definition set_schd_tIntrvls (v : list Z) (e : Engine) : Engine :=
  mkEngine (last_schd e) (last_rct e) (last_case e) (schd_calls e)
    (rct_calls e) (rct_trigs e) v (rct_tTimeouts e) (rct_tDelays e)
    (rct_areTrigged e) (schd_nextCalls e) (rct_nextTrigs e) (rct_nextCalls e).
Definition set_rct_tTimeouts (v : list Z) (e : Engine) : Engine :=
  mkEngine (last_schd e) (last_rct e) (last_case e) (schd_calls e)
    (rct_calls e) (rct_trigs e) (schd_tIntrvls e) v (rct_tDelays e)
    (rct_areTrigged e) (schd_nextCalls e) (rct_nextTrigs e) (rct_nextCalls e).
Definition set_rct_tDelays (v : list Z) (e : Engine) : Engine :=
  mkEngine (last_schd e) (last_rct e) (last_case e) (schd_calls e)
    (rct_calls e) (rct_trigs e) (schd_tIntrvls e) (rct_tTimeouts e) v
    (rct_areTrigged e) (schd_nextCalls e) (rct_nextTrigs e) (rct_nextCalls e).
Definition set_rct_areTrigged (v : list Z) (e : Engine) : Engine :=
  mkEngine (last_schd e) (last_rct e) (last_case e) (schd_calls e)
    (rct_calls e) (rct_trigs e) (schd_tIntrvls e) (rct_tTimeouts e)
    (rct_tDelays e) v (schd_nextCalls e) (rct_nextTrigs e) (rct_nextCalls e).
Definition set_schd_nextCalls (v : list Z) (e : Engine) : Engine :=
  mkEngine (last_schd e) (last_rct e) (last_case e) (schd_calls e)
    (rct_calls e) (rct_trigs e) (schd_tIntrvls e) (rct_tTimeouts e)
    (rct_tDelays e) (rct_areTrigged e) v (rct_nextTrigs e) (rct_nextCalls e).
Definition set_rct_nextTrigs (v : list Z) (e : Engine) : Engine :=
  mkEngine (last_schd e) (last_rct e) (last_case e) (schd_calls e)
    (rct_calls e) (rct_trigs e) (schd_tIntrvls e) (rct_tTimeouts e)
    (rct_tDelays e) (rct_areTrigged e) (schd_nextCalls e) v (rct_nextCalls e).
Definition set_rct_nextCalls (v : list Z) (e : Engine) : Engine :=
  mkEngine (last_schd e) (last_rct e) (last_case e) (schd_calls e)
    (rct_calls e) (rct_trigs e) (schd_tIntrvls e) (rct_tTimeouts e)
    (rct_tDelays e) (rct_areTrigged e) (schd_nextCalls e) (rct_nextTrigs e) v.

(** The three expressions on the packed pending flags:
    [(rct_areTrigged[i/8] & (0x01 << (i%8))) != 0],
    [rct_areTrigged[i/8] &= ~(0x01 << (i%8))] and
    [rct_areTrigged[i/8] |= (0x01 << (i%8))].  The operands are promoted to
    [int]; the result is stored back into a [uint8_t]. *)
Definition flag_mask (i : Z) : Z := Z.shiftl 1 (Z.rem i 8).

Definition flag_is_set (a : list Z) (i : Z) : bool :=
  negb (Z.land (aget 0 a (Z.quot i 8)) (flag_mask i) =? 0).

Definition flag_clear (a : list Z) (i : Z) : list Z :=
  aset a (Z.quot i 8)
    (utrunc 8 (Z.land (aget 0 a (Z.quot i 8)) (Z.lnot (flag_mask i)))).

Definition flag_set (a : list Z) (i : Z) : list Z :=
  aset a (Z.quot i 8)
    (utrunc 8 (Z.lor (aget 0 a (Z.quot i 8)) (flag_mask i))).

(** One row of each table. *)
Record Schedule : Type := mkSchedule {
  s_action : fnptr;
  s_interval : Z;
  s_next_fire : Z
}.

Record Reaction : Type := mkReaction {
  r_predicate : fnptr;
  r_action : fnptr;
  r_timeout : Z;
  r_delay : Z;
  r_next_trigger_check : Z;
  r_next_execution : Z;
  r_pending : bool
}.

Definition schedule (e : Engine) (i : Z) : Schedule :=
  {| s_action := aget nullptr (schd_calls e) i;
     s_interval := aget 0 (schd_tIntrvls e) i;
     s_next_fire := aget 0 (schd_nextCalls e) i |}.

Definition reaction (e : Engine) (i : Z) : Reaction :=
  {| r_predicate := aget nullptr (rct_trigs e) i;
     r_action := aget nullptr (rct_calls e) i;
     r_timeout := aget 0 (rct_tTimeouts e) i;
     r_delay := aget 0 (rct_tDelays e) i;
     r_next_trigger_check := aget 0 (rct_nextTrigs e) i;
     r_next_execution := aget 0 (rct_nextCalls e) i;
     r_pending := flag_is_set (rct_areTrigged e) i |}.

Section Methods.
Variables T_MAX R_MAX : Z.

(** A freshly constructed [TinyEvents<T_MAX, R_MAX>] object. *)
Definition init : Engine :=
  {| last_schd := -1; last_rct := -1; last_case := -1;
     schd_calls := replicate (Z.to_nat T_MAX) nullptr;
     rct_calls := replicate (Z.to_nat R_MAX) nullptr;
     rct_trigs := replicate (Z.to_nat R_MAX) nullptr;
     schd_tIntrvls := replicate (Z.to_nat T_MAX) 0;
     rct_tTimeouts := replicate (Z.to_nat R_MAX) 0;
     rct_tDelays := replicate (Z.to_nat R_MAX) 0;
     rct_areTrigged := replicate (Z.to_nat (Z.quot (7 + R_MAX) 8)) 0;
     schd_nextCalls := replicate (Z.to_nat T_MAX) 0;
     rct_nextTrigs := replicate (Z.to_nat R_MAX) 0;
     rct_nextCalls := replicate (Z.to_nat R_MAX) 0 |}.

Definition addSchedule (callback : fnptr) (interval delay_start : Z)
    (e : Engine) : Z * Engine :=
  if last_schd e >? T_MAX - 2 then (-1, e)
  else
    let e := set_last_schd (last_schd e + 1) e in
    let e := set_schd_calls (aset (schd_calls e) (last_schd e) callback) e in
    let e := set_schd_tIntrvls (aset (schd_tIntrvls e) (last_schd e) interval) e in
    let e := set_schd_nextCalls (aset (schd_nextCalls e) (last_schd e) delay_start) e in
    (last_schd e, e).

Definition addReaction (trigger callback : fnptr)
    (timeout delay delay_start : Z) (e : Engine) : Z * Engine :=
  if last_rct e >? R_MAX - 2 then (-1, e)
  else
    let e := set_last_rct (last_rct e + 1) e in
    let e := set_rct_trigs (aset (rct_trigs e) (last_rct e) trigger) e in
    let e := set_rct_calls (aset (rct_calls e) (last_rct e) callback) e in
    let e := set_rct_tTimeouts (aset (rct_tTimeouts e) (last_rct e) timeout) e in
    let e := set_rct_tDelays (aset (rct_tDelays e) (last_rct e) delay) e in
    let e := set_rct_nextTrigs (aset (rct_nextTrigs e) (last_rct e) delay_start) e in
    (last_rct e, e).

Fixpoint addSchedules (args : list (fnptr * Z * Z)) (e : Engine)
    : list Z * Engine :=
  match args with
  | [] => ([], e)
  | (callback, interval, delay_start) :: args' =>
      let (id, e1) := addSchedule callback interval delay_start e in
      let (ids, e2) := addSchedules args' e1 in
      (id :: ids, e2)
  end.

Fixpoint addReactions (args : list (fnptr * fnptr * Z * Z * Z)) (e : Engine)
    : list Z * Engine :=
  match args with
  | [] => ([], e)
  | (trigger, callback, timeout, delay, delay_start) :: args' =>
      let (id, e1) := addReaction trigger callback timeout delay delay_start e in
      let (ids, e2) := addReactions args' e1 in
      (id :: ids, e2)
  end.
End Methods.

(** The control operations; [reset_debounce] and [abs] are [int8_t]. *)
Definition cancelReaction (rct_id reset_debounce timestamp abs : Z)
    (millis : Z) (e : Engine) : Engine :=
  if (rct_id <? 0) || (rct_id >? last_rct e) then e
  else
    let e :=
      if reset_debounce >? 0 then
        let timestamp := if abs <? 1 then ulong (timestamp + millis) else timestamp in
        set_rct_nextTrigs (aset (rct_nextTrigs e) rct_id timestamp) e
      else e in
    set_rct_areTrigged (flag_clear (rct_areTrigged e) rct_id) e.

Definition setNextSchedule (schd_id timestamp abs : Z) (millis : Z)
    (e : Engine) : Engine :=
  if (schd_id <? 0) || (schd_id >? last_schd e) then e
  else
    let timestamp := if abs <? 1 then ulong (timestamp + millis) else timestamp in
    set_schd_nextCalls (aset (schd_nextCalls e) schd_id timestamp) e.

Definition setNextTrigger (rct_id timestamp abs : Z) (millis : Z)
    (e : Engine) : Engine :=
  if (rct_id <? 0) || (rct_id >? last_rct e) then e
  else
    let timestamp := if abs <? 1 then ulong (timestamp + millis) else timestamp in
    set_rct_nextTrigs (aset (rct_nextTrigs e) rct_id timestamp) e.

(** The same three methods as a caller reaches them.  The arguments of a
    call are converted to the types of the parameters: [int8_t] for the id,
    for [reset_debounce] and for [abs], [unsigned long] for the
    timestamp. *)
Definition call_cancelReaction (rct_id reset_debounce timestamp abs : Z)
    (millis : Z) (e : Engine) : Engine :=
  cancelReaction (int8 rct_id) (int8 reset_debounce) (ulong timestamp)
    (int8 abs) millis e.

Definition call_setNextSchedule (schd_id timestamp abs : Z) (millis : Z)
    (e : Engine) : Engine :=
  setNextSchedule (int8 schd_id) (ulong timestamp) (int8 abs) millis e.

Definition call_setNextTrigger (rct_id timestamp abs : Z) (millis : Z)
    (e : Engine) : Engine :=
  setNextTrigger (int8 rct_id) (ulong timestamp) (int8 abs) millis e.

Definition begin_schedule (now i : Z) (e : Engine) : Engine :=
  set_schd_nextCalls
    (aset (schd_nextCalls e) i (ulong (aget 0 (schd_nextCalls e) i + now))) e.

Definition begin_reaction (now i : Z) (e : Engine) : Engine :=
  set_rct_nextTrigs
    (aset (rct_nextTrigs e) i (ulong (aget 0 (rct_nextTrigs e) i + now))) e.

Section Loop.
Variables T_MAX R_MAX : Z.
Context {U : Type}.

Variable action : fnptr -> Sys Engine U -> Sys Engine U.
Variable check : fnptr -> Sys Engine U -> bool * Sys Engine U.

Definition begin (millis : Z) (e : Engine) : Engine :=
  let now := millis in
  let e := for_upto (Z.to_nat T_MAX) last_schd (begin_schedule now) 0 e in
  for_upto (Z.to_nat R_MAX) last_rct (begin_reaction now) 0 e.

Definition run_schedule (now i : Z) (m : Machine Engine U) : Machine Engine U :=
  let e := eng (sys m) in
  if aget 0 (schd_nextCalls e) i <? now then
    let due := aget 0 (schd_nextCalls e) i in
    let e := set_schd_nextCalls
               (aset (schd_nextCalls e) i
                  (ulong (due + ulong (aget 0 (schd_tIntrvls e) i)))) e in
    let s := action (aget nullptr (schd_calls e) i) (with_eng e (sys m)) in
    emit (ScheduleExecuted i due now) (with_sys s m)
  else m.

Definition run_pending (now i : Z) (m : Machine Engine U) : Machine Engine U :=
  let e := eng (sys m) in
  if flag_is_set (rct_areTrigged e) i && (aget 0 (rct_nextCalls e) i <? now)
  then
    let e := set_rct_areTrigged (flag_clear (rct_areTrigged e) i) e in
    let s := action (aget nullptr (rct_calls e) i) (with_eng e (sys m)) in
    emit (ReactionExecuted i now) (with_sys s m)
  else m.

Definition run_trigger (now i : Z) (m : Machine Engine U) : Machine Engine U :=
  let e := eng (sys m) in
  if aget 0 (rct_nextTrigs e) i <? now then
    let (fired, s) := check (aget nullptr (rct_trigs e) i) (sys m) in
    let m := emit (TriggerChecked i now fired) (with_sys s m) in
    if fired then
      let e := eng s in
      if aget 0 (rct_tDelays e) i =? 0 then
        let e := set_rct_nextTrigs
                   (aset (rct_nextTrigs e) i
                      (ulong (now + ulong (aget 0 (rct_tTimeouts e) i)))) e in
        let s := action (aget nullptr (rct_calls e) i) (with_eng e s) in
        emit (ReactionTriggeredExecuted i now) (with_sys s m)
      else
        let e := set_rct_nextTrigs
                   (aset (rct_nextTrigs e) i
                      (ulong (now + ulong (aget 0 (rct_tTimeouts e) i)))) e in
        let e := set_rct_nextCalls
                   (aset (rct_nextCalls e) i
                      (ulong (now + ulong (aget 0 (rct_tDelays e) i)))) e in
        let e := set_rct_areTrigged (flag_set (rct_areTrigged e) i) e in
        emit (ReactionTriggered i now) (with_sys (with_eng e s) m)
    else m
  else m.

Definition m_last_schd (m : Machine Engine U) : Z := last_schd (eng (sys m)).
Definition m_last_rct (m : Machine Engine U) : Z := last_rct (eng (sys m)).

Definition schedule_phase (now : Z) (m : Machine Engine U) : Machine Engine U :=
  for_upto (Z.to_nat T_MAX) m_last_schd (run_schedule now) 0 m.
Definition pending_phase (now : Z) (m : Machine Engine U) : Machine Engine U :=
  for_upto (Z.to_nat R_MAX) m_last_rct (run_pending now) 0 m.
Definition trigger_phase (now : Z) (m : Machine Engine U) : Machine Engine U :=
  for_upto (Z.to_nat R_MAX) m_last_rct (run_trigger now) 0 m.

Definition run (m : Machine Engine U) : Machine Engine U :=
  let now := clk (sys m) in
  let m := schedule_phase now m in
  let m := pending_phase now m in
  trigger_phase now m.

Definition tick (t : Z) (m : Machine Engine U) : Machine Engine U :=
  run (with_sys {| eng := eng (sys m); clk := t; usr := usr (sys m) |} m).

Definition ticks (ts : list Z) (m : Machine Engine U) : Machine Engine U :=
  fold_left (fun m t => tick t m) ts m.
End Loop.

Definition wf (T_MAX R_MAX : Z) (e : Engine) : Prop :=
  (-1 <= last_schd e < T_MAX) /\
  (-1 <= last_rct e < R_MAX) /\
  (Z.of_nat (length (schd_calls e)) = T_MAX /\
   Z.of_nat (length (schd_tIntrvls e)) = T_MAX /\
   Z.of_nat (length (schd_nextCalls e)) = T_MAX) /\
  (Z.of_nat (length (rct_calls e)) = R_MAX /\
   Z.of_nat (length (rct_trigs e)) = R_MAX /\
   Z.of_nat (length (rct_tTimeouts e)) = R_MAX /\
   Z.of_nat (length (rct_tDelays e)) = R_MAX) /\
  (Z.of_nat (length (rct_areTrigged e)) = Z.quot (7 + R_MAX) 8 /\
   Z.of_nat (length (rct_nextTrigs e)) = R_MAX /\
   Z.of_nat (length (rct_nextCalls e)) = R_MAX).

End Tiny.

(** ** Sketches used as concrete instances

    A sketch whose actions do nothing and whose predicate reads a button
    that is held down (it always returns [true]) or never pressed; the
    sketch has no variables of its own. *)

Definition idle_action {E : Type} (p : fnptr) (s : Sys E unit) : Sys E unit := s.

Definition button_held {E : Type} (p : fnptr) (s : Sys E unit)
    : bool * Sys E unit := (true, s).

Definition button_released {E : Type} (p : fnptr) (s : Sys E unit)
    : bool * Sys E unit := (false, s).

(** The machine a sketch starts [loop()] with: its [setup()] has built the
    engine [e] and called [begin()] while the clock read [t0]. *)
Definition boot {E : Type} (e : E) (t0 : Z) : Machine E unit :=
  {| sys := {| eng := e; clk := t0; usr := tt |}; trace := [] |}.

(** A SimpleEvents sketch with one schedule: every 1000 ms, no start
    delay, [begin()] at time 0. *)
Definition simple_blink : Machine Simple.Engine unit :=
  boot (Simple.begin 8 8 0
          (snd (Simple.addSchedule 8 1%nat 1000 0 (Simple.init 8 8)))) 0.

(** The same sketch on TinyEvents. *)
Definition tiny_blink : Machine Tiny.Engine unit :=
  boot (Tiny.begin 4 4 0
          (snd (Tiny.addSchedule 4 1%nat 1000 0 (Tiny.init 4 4)))) 0.

(** A sketch with one reaction whose debounce timeout (100 ms) is shorter
    than its delay (500 ms). *)
Definition simple_short_timeout : Machine Simple.Engine unit :=
  boot (Simple.begin 8 8 0
          (snd (Simple.addReaction 8 1%nat 2%nat 100 500 0 (Simple.init 8 8)))) 0.

Definition tiny_short_timeout : Machine Tiny.Engine unit :=
  boot (Tiny.begin 4 4 0
          (snd (Tiny.addReaction 4 1%nat 2%nat 100 500 0 (Tiny.init 4 4)))) 0.

(** The debounced reaction of the tutorial: timeout 4000 ms, delay
    2000 ms. *)
Definition simple_debounced : Machine Simple.Engine unit :=
  boot (Simple.begin 8 8 0
          (snd (Simple.addReaction 8 1%nat 2%nat 4000 2000 0 (Simple.init 8 8)))) 0.

Definition tiny_debounced : Machine Tiny.Engine unit :=
  boot (Tiny.begin 4 4 0
          (snd (Tiny.addReaction 4 1%nat 2%nat 4000 2000 0 (Tiny.init 4 4)))) 0.

(** An engine with room for a single schedule on which [setup()] calls
    [addSchedule] twice: the two returned ids and the engine after each
    call. *)
Definition simple_cap1_first : Z * Simple.Engine :=
  Simple.addSchedule 1 1%nat 1000 0 (Simple.init 1 8).
Definition simple_cap1_second : Z * Simple.Engine :=
  Simple.addSchedule 1 2%nat 500 0 (snd simple_cap1_first).

Definition tiny_cap1_first : Z * Tiny.Engine :=
  Tiny.addSchedule 1 1%nat 1000 0 (Tiny.init 1 4).
Definition tiny_cap1_second : Z * Tiny.Engine :=
  Tiny.addSchedule 1 2%nat 500 0 (snd tiny_cap1_first).

(** The debounced sketch after the poll at 100 ms, the button being held:
    the trigger has been accepted and the action is queued for 2100 ms. *)
Definition simple_queued : Machine Simple.Engine unit :=
  Simple.tick 8 8 idle_action button_held 100 simple_debounced.

Definition tiny_queued : Machine Tiny.Engine unit :=
  Tiny.tick 4 4 idle_action button_held 100 tiny_debounced.

(** A schedule every 1000 ms whose due time, after seven weeks of running,
    is 500 ms below [2^32]. *)
Definition simple_near_wrap : Machine Simple.Engine unit :=
  boot (Simple.resumeSchedule 0 4294966796 true 0 (eng (sys simple_blink)))
       4294966000.

(** The debounced sketch as [loop()] is entered at 100 ms. *)
Definition simple_debounced_polled : Machine Simple.Engine unit :=
  boot (eng (sys simple_debounced)) 100.

(** The two sketches with their action queued for 2100 ms, as [loop()] is
    entered at 2101 ms. *)
Definition simple_queued_polled : Machine Simple.Engine unit :=
  with_sys {| eng := eng (sys simple_queued); clk := 2101; usr := tt |}
    simple_queued.

Definition tiny_queued_polled : Machine Tiny.Engine unit :=
  with_sys {| eng := eng (sys tiny_queued); clk := 2101; usr := tt |}
    tiny_queued.


(** ** The sketch [pause_resume_schedule.ino]

    A green LED is switched on by schedule 0 and off by schedule 1 and a
    red LED is toggled by schedule 2; a push button pauses or resumes the
    two schedules of the green LED through reaction 0. *)

Module PauseResume.

(** The globals of the sketch, the level of its two output pins, and what
    the sketch reads from outside: the level of the button pin as a
    function of the clock, and the two values [millis()] returns to the two
    calls of [resumeSchedule] in [toggle_schedule], one after the other,
    when [toggle_schedule] is called in the [run()] entered at a given
    clock value.  Nothing is assumed of the two: the clock may advance
    between the calls. *)
Record Vars : Type := mkVars {
  button_parity : Z;
  red_state : Z;
  red_pin : bool;
  grn_pin : bool;
  button_pin : Z -> bool;
  millis_reads : Z -> Z * Z
}.

Definition set_button_parity (v : Z) (u : Vars) : Vars :=
  {| button_parity := v; red_state := red_state u; red_pin := red_pin u;
     grn_pin := grn_pin u; button_pin := button_pin u;
     millis_reads := millis_reads u |}.

Definition set_red (state : Z) (pin : bool) (u : Vars) : Vars :=
  {| button_parity := button_parity u; red_state := state; red_pin := pin;
     grn_pin := grn_pin u; button_pin := button_pin u;
     millis_reads := millis_reads u |}.

Definition set_grn_pin (pin : bool) (u : Vars) : Vars :=
  {| button_parity := button_parity u; red_state := red_state u;
     red_pin := red_pin u; grn_pin := pin; button_pin := button_pin u;
     millis_reads := millis_reads u |}.

Definition with_usr (u : Vars) (s : Sys Simple.Engine Vars)
    : Sys Simple.Engine Vars :=
  {| eng := eng s; clk := clk s; usr := u |}.

(** The functions of the sketch, as the engine stores them. *)
Definition fn_check_button : fnptr := 1%nat.
Definition fn_toggle_schedule : fnptr := 2%nat.
Definition fn_turn_on_green : fnptr := 3%nat.
Definition fn_turn_off_green : fnptr := 4%nat.
Definition fn_toggle_red : fnptr := 5%nat.

Definition check_button (s : Sys Simple.Engine Vars)
    : bool * Sys Simple.Engine Vars :=
  if button_pin (usr s) (clk s) then (true, s) else (false, s).

(** [pauseSchedule] does not read the clock.  [resumeSchedule(id)] is
    [resumeSchedule(id, 0, false)] and adds [millis()] to the timestamp:
    each of the two calls reads the clock itself. *)
Definition toggle_schedule (s : Sys Simple.Engine Vars)
    : Sys Simple.Engine Vars :=
  if button_parity (usr s) =? 0 then
    let s := with_eng (Simple.pauseSchedule 0 (eng s)) s in
    let s := with_eng (Simple.pauseSchedule 1 (eng s)) s in
    with_usr (set_button_parity 1 (usr s)) s
  else
    let millis1 := fst (millis_reads (usr s) (clk s)) in
    let millis2 := snd (millis_reads (usr s) (clk s)) in
    let s := with_eng (Simple.resumeSchedule 0 0 false millis1 (eng s)) s in
    let s := with_eng (Simple.resumeSchedule 1 0 false millis2 (eng s)) s in
    with_usr (set_button_parity 0 (usr s)) s.

Definition turn_on_green (s : Sys Simple.Engine Vars)
    : Sys Simple.Engine Vars :=
  with_usr (set_grn_pin true (usr s)) s.

Definition turn_off_green (s : Sys Simple.Engine Vars)
    : Sys Simple.Engine Vars :=
  with_usr (set_grn_pin false (usr s)) s.

Definition toggle_red (s : Sys Simple.Engine Vars)
    : Sys Simple.Engine Vars :=
  if red_state (usr s) =? 0 then with_usr (set_red 1 true (usr s)) s
  else with_usr (set_red 0 false (usr s)) s.

(** What calling a stored function pointer does. *)
Definition action (p : fnptr) (s : Sys Simple.Engine Vars)
    : Sys Simple.Engine Vars :=
  match p with
  | 2%nat => toggle_schedule s
  | 3%nat => turn_on_green s
  | 4%nat => turn_off_green s
  | 5%nat => toggle_red s
  | _ => s
  end.

Definition check (p : fnptr) (s : Sys Simple.Engine Vars)
    : bool * Sys Simple.Engine Vars :=
  match p with
  | 1%nat => check_button s
  | _ => (false, s)
  end.

(** [setup()], run while the clock reads [t0], with [button] the level of
    the button pin over time and [reads] the clock values the calls of
    [resumeSchedule] are to read; the engine is a [SimpleEvents<>], of
    capacity 8 and 8. *)
Definition setup (reads : Z -> Z * Z) (button : Z -> bool) (t0 : Z)
    : Machine Simple.Engine Vars :=
  let u := {| button_parity := 0; red_state := 0; red_pin := false;
              grn_pin := false; button_pin := button;
              millis_reads := reads |} in
  let e := Simple.init 8 8 in
  let e := snd (Simple.addReaction 8 fn_check_button fn_toggle_schedule 250 0 0 e) in
  let e := snd (Simple.addSchedule 8 fn_turn_on_green 1000 0 e) in
  let e := snd (Simple.addSchedule 8 fn_turn_off_green 1000 500 e) in
  let e := snd (Simple.addSchedule 8 fn_toggle_red 500 0 e) in
  let e := Simple.begin 8 8 t0 e in
  {| sys := {| eng := e; clk := t0; usr := u |}; trace := [] |}.

(** [loop()] entered when the clock reads [t]: one call of [run()]. *)
Definition loop (t : Z) (m : Machine Simple.Engine Vars)
    : Machine Simple.Engine Vars :=
  Simple.tick 8 8 action check t m.

Definition loops (ts : list Z) (m : Machine Simple.Engine Vars)
    : Machine Simple.Engine Vars :=
  Simple.ticks 8 8 action check ts m.

End PauseResume.

(** ** The sketch [cancel_reaction_tiny.ino]

    A first press of the button starts a sequence of two LEDs through
    reactions 1, 2 and 3; a second press cancels it through reaction 0. *)

Module CancelTiny.

Record Vars : Type := mkVars {
  red_pin : bool;
  grn_pin : bool;
  button_pin : Z -> bool
}.

Definition set_red_pin (pin : bool) (u : Vars) : Vars :=
  {| red_pin := pin; grn_pin := grn_pin u; button_pin := button_pin u |}.

Definition set_grn_pin (pin : bool) (u : Vars) : Vars :=
  {| red_pin := red_pin u; grn_pin := pin; button_pin := button_pin u |}.

Definition with_usr (u : Vars) (s : Sys Tiny.Engine Vars)
    : Sys Tiny.Engine Vars :=
  {| eng := eng s; clk := clk s; usr := u |}.

Definition far_future : Z := 4294967295.

Definition fn_check_button : fnptr := 1%nat.
Definition fn_cancel_reset_LEDs : fnptr := 2%nat.
Definition fn_turn_on_red : fnptr := 3%nat.
Definition fn_switch_red_green : fnptr := 4%nat.
Definition fn_turn_off_green : fnptr := 5%nat.

Definition check_button (s : Sys Tiny.Engine Vars)
    : bool * Sys Tiny.Engine Vars :=
  if button_pin (usr s) (clk s) then (true, s) else (false, s).

(** [setNextTrigger(0, 250)]: the third parameter takes its default, 0. *)
Definition turn_on_red (s : Sys Tiny.Engine Vars) : Sys Tiny.Engine Vars :=
  let s := with_usr (set_red_pin true (usr s)) s in
  method (Tiny.setNextTrigger 0 250 0) s.

Definition switch_red_green (s : Sys Tiny.Engine Vars)
    : Sys Tiny.Engine Vars :=
  let s := with_usr (set_red_pin false (usr s)) s in
  with_usr (set_grn_pin true (usr s)) s.

Definition turn_off_green (s : Sys Tiny.Engine Vars) : Sys Tiny.Engine Vars :=
  let s := with_usr (set_grn_pin false (usr s)) s in
  method (Tiny.setNextTrigger 0 far_future 1) s.

(** [cancelReaction(1, 250)]: the parameters of [cancelReaction] are
    [(int8_t rct_id, int8_t reset_debounce = 1, unsigned long timestamp = 0,
    int8_t abs = 0)], so the 250 is converted to the [int8_t]
    [reset_debounce], and the last two take their defaults. *)
Definition cancel_reset_LEDs (s : Sys Tiny.Engine Vars)
    : Sys Tiny.Engine Vars :=
  let s := method (Tiny.setNextTrigger 0 far_future 1) s in
  let s := method (Tiny.cancelReaction 1 (int8 250) 0 0) s in
  let s := method (Tiny.cancelReaction 2 (int8 250) 0 0) s in
  let s := method (Tiny.cancelReaction 3 (int8 250) 0 0) s in
  let s := with_usr (set_red_pin false (usr s)) s in
  with_usr (set_grn_pin false (usr s)) s.

Definition action (p : fnptr) (s : Sys Tiny.Engine Vars)
    : Sys Tiny.Engine Vars :=
  match p with
  | 2%nat => cancel_reset_LEDs s
  | 3%nat => turn_on_red s
  | 4%nat => switch_red_green s
  | 5%nat => turn_off_green s
  | _ => s
  end.

Definition check (p : fnptr) (s : Sys Tiny.Engine Vars)
    : bool * Sys Tiny.Engine Vars :=
  match p with
  | 1%nat => check_button s
  | _ => (false, s)
  end.

(** [setup()], run while the clock reads [t0]; the engine is a
    [TinyEvents<>], of capacity 4 and 4. *)
Definition setup (button : Z -> bool) (t0 : Z) : Machine Tiny.Engine Vars :=
  let u := {| red_pin := false; grn_pin := false; button_pin := button |} in
  let e := Tiny.init 4 4 in
  let e := snd (Tiny.addReaction 4 fn_check_button fn_cancel_reset_LEDs 250 0 0 e) in
  let e := snd (Tiny.addReaction 4 fn_check_button fn_turn_on_red 4000 0 0 e) in
  let e := snd (Tiny.addReaction 4 fn_check_button fn_switch_red_green 4000 2000 0 e) in
  let e := snd (Tiny.addReaction 4 fn_check_button fn_turn_off_green 4000 4000 0 e) in
  let e := Tiny.begin 4 4 t0 e in
  let e := Tiny.setNextTrigger 0 far_future 1 t0 e in
  {| sys := {| eng := e; clk := t0; usr := u |}; trace := [] |}.

Definition loops (ts : list Z) (m : Machine Tiny.Engine Vars)
    : Machine Tiny.Engine Vars :=
  Tiny.ticks 4 4 action check ts m.

End CancelTiny.

(** The sketch started at time 0 with the button held down, the clock
    standing still during each [run()]: the poll at 300 ms pauses the green
    LED, the poll at 700 ms resumes it, and the poll at 701 ms runs both of
    its schedules. *)
Definition sketch_resumed : Machine Simple.Engine PauseResume.Vars :=
  PauseResume.loops [300; 700; 701]
    (PauseResume.setup (fun t => (t, t)) (fun _ => true) 0).

(** The same, the clock advancing by 1 ms between the two calls of
    [resumeSchedule]: the poll at 701 ms runs [turn_on_green] alone. *)
Definition sketch_resumed_late : Machine Simple.Engine PauseResume.Vars :=
  PauseResume.loops [300; 700; 701]
    (PauseResume.setup (fun t => (t, t + 1)) (fun _ => true) 0).

(** The sketch [cancel_reaction_tiny.ino] started at time 0, the button
    being pressed at the poll at 100 ms: the red LED is on and the two
    later steps of the sequence are queued. *)
Definition sequence_started : Machine Tiny.Engine CancelTiny.Vars :=
  CancelTiny.loops [100] (CancelTiny.setup (fun _ => true) 0).

(** * Properties of SimpleEvents *)

Module SimpleFacts.
Import Simple.

(** Frames: what an operation on one row leaves alone. *)
Definition marks_kept (e e' : Engine) : Prop :=
  last_schd e' = last_schd e /\ last_rct e' = last_rct e /\
  last_case e' = last_case e.

Definition schedules_kept (e e' : Engine) : Prop :=
  forall j, schedule e' j = schedule e j.

Definition reactions_kept (e e' : Engine) : Prop :=
  forall j, reaction e' j = reaction e j.

Definition other_schedules_kept (i : Z) (e e' : Engine) : Prop :=
  forall j, 0 <= j -> j <> i -> schedule e' j = schedule e j.

Definition other_reactions_kept (i : Z) (e e' : Engine) : Prop :=
  forall j, 0 <= j -> j <> i -> reaction e' j = reaction e j.

(** What a callback that reaches the engine only through its public
    methods guarantees: the arrays keep their capacity and the tables do
    not shrink. *)
Definition grows (e e' : Engine) : Prop :=
  last_schd e <= last_schd e' /\ last_rct e <= last_rct e'.

Definition respects {U : Type} (T_MAX R_MAX : Z)
    (f : Sys Engine U -> Sys Engine U) : Prop :=
  forall s, wf T_MAX R_MAX (eng s) ->
    wf T_MAX R_MAX (eng (f s)) /\ grows (eng s) (eng (f s)).

Ltac guard_cases :=
  repeat match goal with
  | |- context [?a <? ?b] => destruct (Z.ltb_spec a b)
  | |- context [?a >? ?b] => rewrite (Z.gtb_ltb a b); destruct (Z.ltb_spec b a)
  | |- context [?a <=? ?b] => destruct (Z.leb_spec a b)
  | |- context [?a =? ?b] => destruct (Z.eqb_spec a b)
  end; simpl.

Ltac wf_lengths :=
  repeat match goal with
  | H : wf _ _ _ |- _ => unfold wf in H; simpl in H; decompose [and] H; clear H
  end;
  unfold wf; simpl; rewrite ?length_aset; repeat split; try lia.

Ltac rows :=
  unfold schedule, reaction, marks_kept, schedules_kept, reactions_kept,
    other_schedules_kept, other_reactions_kept; simpl;
  repeat first
    [ rewrite aget_aset_eq by lia
    | rewrite aget_aset_ne by lia ].

Lemma wf_init T_MAX R_MAX : 0 <= T_MAX -> 0 <= R_MAX -> wf T_MAX R_MAX (init T_MAX R_MAX).
Proof.
  intros HT HR. unfold wf, init; simpl.
  rewrite !length_replicate. repeat split; lia.
Qed.

Lemma wf_addSchedule T_MAX R_MAX cb iv d e :
  wf T_MAX R_MAX e -> wf T_MAX R_MAX (snd (addSchedule T_MAX cb iv d e)).
Proof.
  intros H. unfold addSchedule. guard_cases; [exact H|]. wf_lengths.
Qed.

Lemma wf_addReaction T_MAX R_MAX tr cb to dl d e :
  wf T_MAX R_MAX e -> wf T_MAX R_MAX (snd (addReaction R_MAX tr cb to dl d e)).
Proof.
  intros H. unfold addReaction. guard_cases; [exact H|]. wf_lengths.
Qed.

Lemma wf_pauseSchedule T_MAX R_MAX id e :
  wf T_MAX R_MAX e -> wf T_MAX R_MAX (pauseSchedule id e).
Proof. intros H. unfold pauseSchedule. guard_cases; try exact H. wf_lengths. Qed.

Lemma wf_pauseTrigger T_MAX R_MAX id e :
  wf T_MAX R_MAX e -> wf T_MAX R_MAX (pauseTrigger id e).
Proof. intros H. unfold pauseTrigger. guard_cases; try exact H. wf_lengths. Qed.

Lemma wf_resumeSchedule T_MAX R_MAX id ts abs now e :
  wf T_MAX R_MAX e -> wf T_MAX R_MAX (resumeSchedule id ts abs now e).
Proof. intros H. unfold resumeSchedule. guard_cases; try exact H. wf_lengths. Qed.

Lemma wf_resumeTrigger T_MAX R_MAX id ts abs now e :
  wf T_MAX R_MAX e -> wf T_MAX R_MAX (resumeTrigger id ts abs now e).
Proof. intros H. unfold resumeTrigger. guard_cases; try exact H. wf_lengths. Qed.

Lemma wf_cancelReaction T_MAX R_MAX id ts abs now e :
  wf T_MAX R_MAX e -> wf T_MAX R_MAX (cancelReaction id ts abs now e).
Proof. intros H. unfold cancelReaction. guard_cases; try exact H. wf_lengths. Qed.

Lemma wf_stopReaction T_MAX R_MAX id e :
  wf T_MAX R_MAX e -> wf T_MAX R_MAX (stopReaction id e).
Proof. intros H. unfold stopReaction. guard_cases; try exact H. wf_lengths. Qed.

(** *** Adding entries *)

Lemma addSchedule_full T_MAX cb iv d e :
  T_MAX - 1 <= last_schd e -> addSchedule T_MAX cb iv d e = (-1, e).
Proof. intros H. unfold addSchedule. guard_cases; [reflexivity|lia]. Qed.

Lemma addReaction_full R_MAX tr cb to dl d e :
  R_MAX - 1 <= last_rct e -> addReaction R_MAX tr cb to dl d e = (-1, e).
Proof. intros H. unfold addReaction. guard_cases; [reflexivity|lia]. Qed.

Lemma addSchedule_room T_MAX R_MAX cb iv d e :
  wf T_MAX R_MAX e -> last_schd e < T_MAX - 1 ->
  let id := last_schd e + 1 in
  let e' := snd (addSchedule T_MAX cb iv d e) in
  fst (addSchedule T_MAX cb iv d e) = id /\
  last_schd e' = id /\ last_rct e' = last_rct e /\
  schedule e' id =
    {| s_action := cb; s_interval := iv; s_next_fire := d; s_active := true |} /\
  other_schedules_kept id e e' /\ reactions_kept e e'.
Proof.
  intros Hwf Hroom. unfold addSchedule. guard_cases; [lia|].
  unfold wf in Hwf. decompose [and] Hwf. clear Hwf.
  repeat split; rows; try reflexivity.
  intros j Hj Hne. rows. reflexivity.
Qed.

Lemma addReaction_room T_MAX R_MAX tr cb to dl d e :
  wf T_MAX R_MAX e -> last_rct e < R_MAX - 1 ->
  let id := last_rct e + 1 in
  let e' := snd (addReaction R_MAX tr cb to dl d e) in
  fst (addReaction R_MAX tr cb to dl d e) = id /\
  last_rct e' = id /\ last_schd e' = last_schd e /\
  reaction e' id =
    {| r_predicate := tr; r_action := cb; r_timeout := to; r_delay := dl;
       r_next_trigger_check := d;
       r_next_execution := r_next_execution (reaction e id);
       r_pending := r_pending (reaction e id);
       r_trigger_active := true |} /\
  other_reactions_kept id e e' /\ schedules_kept e e'.
Proof.
  intros Hwf Hroom. unfold addReaction. guard_cases; [lia|].
  unfold wf in Hwf. decompose [and] Hwf. clear Hwf.
  repeat split; rows; try reflexivity.
  intros j Hj Hne. rows. reflexivity.
Qed.

(** Ids are handed out densely, in call order, until the table is full. *)
Lemma addSchedules_ids T_MAX R_MAX args : forall e,
  wf T_MAX R_MAX e ->
  fst (addSchedules T_MAX args e) =
    dense_ids T_MAX (last_schd e + 1) (length args).
Proof.
  induction args as [|[[cb iv] d] args IH]; intros e Hwf; [reflexivity|].
  cbn [addSchedules length dense_ids].
  pose proof (wf_addSchedule T_MAX R_MAX cb iv d e Hwf) as W1.
  destruct (Z.ltb_spec (last_schd e + 1) T_MAX) as [Hroom|Hfull].
  - destruct (addSchedule_room T_MAX R_MAX cb iv d e Hwf) as (Hid & Hlast & _);
      [lia|].
    destruct (addSchedule T_MAX cb iv d e) as [id e1]. simpl in *.
    specialize (IH e1 W1).
    destruct (addSchedules T_MAX args e1) as [ids e2]. simpl in *.
    rewrite IH, Hid, Hlast. reflexivity.
  - rewrite addSchedule_full by lia.
    specialize (IH e Hwf).
    destruct (addSchedules T_MAX args e) as [ids e2]. simpl in *.
    rewrite IH. reflexivity.
Qed.

Lemma addReactions_ids T_MAX R_MAX args : forall e,
  wf T_MAX R_MAX e ->
  fst (addReactions R_MAX args e) =
    dense_ids R_MAX (last_rct e + 1) (length args).
Proof.
  induction args as [|[[[[tr cb] to] dl] d] args IH]; intros e Hwf;
    [reflexivity|].
  cbn [addReactions length dense_ids].
  pose proof (wf_addReaction T_MAX R_MAX tr cb to dl d e Hwf) as W1.
  destruct (Z.ltb_spec (last_rct e + 1) R_MAX) as [Hroom|Hfull].
  - destruct (addReaction_room T_MAX R_MAX tr cb to dl d e Hwf) as (Hid & Hlast & _);
      [lia|].
    destruct (addReaction R_MAX tr cb to dl d e) as [id e1]. simpl in *.
    specialize (IH e1 W1).
    destruct (addReactions R_MAX args e1) as [ids e2]. simpl in *.
    rewrite IH, Hid, Hlast. reflexivity.
  - rewrite addReaction_full by lia.
    specialize (IH e Hwf).
    destruct (addReactions R_MAX args e) as [ids e2]. simpl in *.
    rewrite IH. reflexivity.
Qed.

(** *** The control operations on a valid id *)

Lemma pauseSchedule_valid T_MAX R_MAX id e :
  wf T_MAX R_MAX e -> 0 <= id <= last_schd e ->
  let e' := pauseSchedule id e in
  schedule e' id =
    {| s_action := s_action (schedule e id);
       s_interval := s_interval (schedule e id);
       s_next_fire := s_next_fire (schedule e id);
       s_active := false |} /\
  other_schedules_kept id e e' /\ reactions_kept e e' /\ marks_kept e e'.
Proof.
  intros Hwf Hid. unfold pauseSchedule. guard_cases; try lia.
  unfold wf in Hwf. decompose [and] Hwf. clear Hwf.
  repeat split; rows; try reflexivity.
  intros j Hj Hne. rows. reflexivity.
Qed.

Lemma resumeSchedule_valid T_MAX R_MAX id ts abs now e :
  wf T_MAX R_MAX e -> 0 <= id <= last_schd e ->
  let e' := resumeSchedule id ts abs now e in
  schedule e' id =
    {| s_action := s_action (schedule e id);
       s_interval := s_interval (schedule e id);
       s_next_fire := if abs then ts else ulong (now + ts);
       s_active := true |} /\
  other_schedules_kept id e e' /\ reactions_kept e e' /\ marks_kept e e'.
Proof.
  intros Hwf Hid. unfold resumeSchedule. guard_cases; try lia.
  unfold wf in Hwf. decompose [and] Hwf. clear Hwf.
  repeat split; rows; try reflexivity.
  - destruct abs; simpl; [reflexivity|]. rewrite (Z.add_comm ts now). reflexivity.
  - intros j Hj Hne. rows. reflexivity.
Qed.

Lemma cancelReaction_valid T_MAX R_MAX id ts abs now e :
  wf T_MAX R_MAX e -> 0 <= id <= last_rct e ->
  let e' := cancelReaction id ts abs now e in
  reaction e' id =
    {| r_predicate := r_predicate (reaction e id);
       r_action := r_action (reaction e id);
       r_timeout := r_timeout (reaction e id);
       r_delay := r_delay (reaction e id);
       r_next_trigger_check := if abs then ts else ulong (now + ts);
       r_next_execution := r_next_execution (reaction e id);
       r_pending := false;
       r_trigger_active := r_trigger_active (reaction e id) |} /\
  other_reactions_kept id e e' /\ schedules_kept e e' /\ marks_kept e e'.
Proof.
  intros Hwf Hid. unfold cancelReaction. guard_cases; try lia.
  unfold wf in Hwf. decompose [and] Hwf. clear Hwf.
  repeat split; rows; try reflexivity.
  - destruct abs; simpl; [reflexivity|]. rewrite (Z.add_comm ts now). reflexivity.
  - intros j Hj Hne. rows. reflexivity.
Qed.

Lemma stopReaction_valid T_MAX R_MAX id e :
  wf T_MAX R_MAX e -> 0 <= id <= last_rct e ->
  let e' := stopReaction id e in
  reaction e' id =
    {| r_predicate := r_predicate (reaction e id);
       r_action := r_action (reaction e id);
       r_timeout := r_timeout (reaction e id);
       r_delay := r_delay (reaction e id);
       r_next_trigger_check := r_next_trigger_check (reaction e id);
       r_next_execution := r_next_execution (reaction e id);
       r_pending := false;
       r_trigger_active := r_trigger_active (reaction e id) |} /\
  other_reactions_kept id e e' /\ schedules_kept e e' /\ marks_kept e e'.
Proof.
  intros Hwf Hid. unfold stopReaction. guard_cases; try lia.
  unfold wf in Hwf. decompose [and] Hwf. clear Hwf.
  repeat split; rows; try reflexivity.
  intros j Hj Hne. rows. reflexivity.
Qed.

(** *** The control operations on an id outside [0, last] *)

Lemma pauseSchedule_invalid id e :
  id < 0 \/ last_schd e < id -> pauseSchedule id e = e.
Proof. intros H. unfold pauseSchedule. guard_cases; try reflexivity; lia. Qed.

Lemma pauseTrigger_invalid id e :
  id < 0 \/ last_rct e < id -> pauseTrigger id e = e.
Proof. intros H. unfold pauseTrigger. guard_cases; try reflexivity; lia. Qed.

Lemma resumeSchedule_invalid id ts abs now e :
  id < 0 \/ last_schd e < id -> resumeSchedule id ts abs now e = e.
Proof. intros H. unfold resumeSchedule. guard_cases; try reflexivity; lia. Qed.

Lemma resumeTrigger_invalid id ts abs now e :
  id < 0 \/ last_rct e < id -> resumeTrigger id ts abs now e = e.
Proof. intros H. unfold resumeTrigger. guard_cases; try reflexivity; lia. Qed.

Lemma cancelReaction_invalid id ts abs now e :
  id < 0 \/ last_rct e < id -> cancelReaction id ts abs now e = e.
Proof. intros H. unfold cancelReaction. guard_cases; try reflexivity; lia. Qed.

Lemma stopReaction_invalid id e :
  id < 0 \/ last_rct e < id -> stopReaction id e = e.
Proof. intros H. unfold stopReaction. guard_cases; try reflexivity; lia. Qed.

(** *** What one call of [run()] adds to the trace *)

Section RunTrace.
Variables T_MAX R_MAX : Z.
Context {U : Type}.
Variable action : fnptr -> Sys Engine U -> Sys Engine U.
Variable check : fnptr -> Sys Engine U -> bool * Sys Engine U.

Lemma run_schedule_trace now j m :
  exists l, trace (run_schedule action now j m) = trace m ++ l /\
    Forall (phase_event is_schedule_event now j) l /\ StronglySorted id_lt l.
Proof.
  unfold run_schedule.
  destruct (aget false (schd_areActive (eng (sys m))) j &&
            (aget 0 (schd_nextCalls (eng (sys m))) j <? now)).
  - eexists [_]. simpl. split; [reflexivity|]. split; [|apply sorted_one].
    repeat constructor.
  - exists []. rewrite app_nil_r. repeat constructor.
Qed.

Lemma run_pending_trace now j m :
  exists l, trace (run_pending action now j m) = trace m ++ l /\
    Forall (phase_event is_settle_event now j) l /\ StronglySorted id_lt l.
Proof.
  unfold run_pending.
  destruct (aget false (rct_areTrigged (eng (sys m))) j &&
            (aget 0 (rct_nextCalls (eng (sys m))) j <? now)).
  - eexists [_]. simpl. split; [reflexivity|]. split; [|apply sorted_one].
    repeat constructor.
  - exists []. rewrite app_nil_r. repeat constructor.
Qed.

Lemma run_trigger_trace now j m :
  exists l, trace (run_trigger action check now j m) = trace m ++ l /\
    Forall (phase_event is_scan_event now j) l /\ StronglySorted id_le l.
Proof.
  unfold run_trigger.
  destruct (aget false (rct_areActive (eng (sys m))) j &&
            (aget 0 (rct_nextTrigs (eng (sys m))) j <? now)).
  - destruct (check (aget nullptr (rct_trigs (eng (sys m))) j) (sys m))
      as [fired s].
    destruct fired.
    + destruct (aget 0 (rct_tDelays (eng s)) j =? 0); simpl.
      * eexists [_; _]. rewrite <- app_assoc. split; [reflexivity|].
        split; [|apply sorted_same_id; reflexivity]. repeat constructor.
      * eexists [_; _]. rewrite <- app_assoc. split; [reflexivity|].
        split; [|apply sorted_same_id; reflexivity]. repeat constructor.
    + eexists [_]. simpl. split; [reflexivity|]. split; [|apply sorted_one].
      repeat constructor.
  - exists []. rewrite app_nil_r. repeat constructor.
Qed.

(** The three loops of [run()] leave, in this order, the events of the
    schedules, of the pending executions and of the trigger scan. *)
Lemma run_trace m :
  exists l1 l2 l3,
    trace (run T_MAX R_MAX action check m) = trace m ++ l1 ++ l2 ++ l3 /\
    phase_trace is_schedule_event id_lt (clk (sys m)) 0 l1 /\
    phase_trace is_settle_event id_lt (clk (sys m)) 0 l2 /\
    phase_trace is_scan_event id_le (clk (sys m)) 0 l3.
Proof.
  unfold run, schedule_phase, pending_phase, trigger_phase.
  set (now := clk (sys m)).
  destruct (for_upto_phase_trace is_schedule_event id_lt now m_last_schd
              (run_schedule action now) (fun a b H => H)
              (run_schedule_trace now) (Z.to_nat T_MAX) 0 m)
    as (l1 & H1 & P1).
  set (m1 := for_upto (Z.to_nat T_MAX) m_last_schd (run_schedule action now) 0 m) in *.
  destruct (for_upto_phase_trace is_settle_event id_lt now m_last_rct
              (run_pending action now) (fun a b H => H)
              (run_pending_trace now) (Z.to_nat R_MAX) 0 m1)
    as (l2 & H2 & P2).
  set (m2 := for_upto (Z.to_nat R_MAX) m_last_rct (run_pending action now) 0 m1) in *.
  destruct (for_upto_phase_trace is_scan_event id_le now m_last_rct
              (run_trigger action check now) id_lt_le
              (run_trigger_trace now) (Z.to_nat R_MAX) 0 m2)
    as (l3 & H3 & P3).
  exists l1, l2, l3. rewrite H3, H2, H1, <- !app_assoc. auto.
Qed.

End RunTrace.

(** *** One schedule followed through a tick *)

Lemma grows_refl e : grows e e.
Proof. unfold grows. lia. Qed.

Lemma grows_trans e1 e2 e3 : grows e1 e2 -> grows e2 e3 -> grows e1 e3.
Proof. unfold grows. lia. Qed.

Section OneSchedule.
Variables T_MAX R_MAX : Z.
Context {U : Type}.
Variable action : fnptr -> Sys Engine U -> Sys Engine U.
Variable check : fnptr -> Sys Engine U -> bool * Sys Engine U.

(** The sketch's functions use the engine through its methods only. *)
Hypothesis action_respects : forall p, respects T_MAX R_MAX (action p).
Hypothesis check_respects :
  forall p, respects T_MAX R_MAX (fun s => snd (check p s)).

Variable i : Z.

(** No function of the sketch pauses, resumes or otherwise alters
    schedule [i]. *)
Definition keeps_schedule (f : Sys Engine U -> Sys Engine U) : Prop :=
  forall s, schedule (eng (f s)) i = schedule (eng s) i.

Hypothesis action_keeps : forall p, keeps_schedule (action p).
Hypothesis check_keeps : forall p, keeps_schedule (fun s => snd (check p s)).

(** A step that leaves schedule [i] as it is and does not execute it. *)
Definition quiet (m m' : Machine Engine U) : Prop :=
  wf T_MAX R_MAX (eng (sys m')) /\
  grows (eng (sys m)) (eng (sys m')) /\
  schedule (eng (sys m')) i = schedule (eng (sys m)) i /\
  exists l, trace m' = trace m ++ l /\ schedule_firings i l = [].

Lemma quiet_refl m : wf T_MAX R_MAX (eng (sys m)) -> quiet m m.
Proof.
  intros Hwf. split; [exact Hwf|]. split; [apply grows_refl|].
  split; [reflexivity|]. exists []. rewrite app_nil_r. auto.
Qed.

Lemma quiet_trans m1 m2 m3 : quiet m1 m2 -> quiet m2 m3 -> quiet m1 m3.
Proof.
  intros (_ & G1 & S1 & l1 & T1 & D1) (W2 & G2 & S2 & l2 & T2 & D2).
  split; [exact W2|]. split; [eapply grows_trans; eassumption|].
  split; [congruence|]. exists (l1 ++ l2).
  rewrite T2, T1, app_assoc, schedule_firings_app, D1, D2. auto.
Qed.

Ltac call_action p s :=
  let W := fresh "W" in let G := fresh "G" in let K := fresh "K" in
  pose proof (action_keeps p s) as K;
  destruct (action_respects p s) as [W G]; [wf_lengths|].

Lemma run_schedule_other now j m :
  wf T_MAX R_MAX (eng (sys m)) -> 0 <= i -> 0 <= j -> j <> i ->
  quiet m (run_schedule action now j m).
Proof.
  intros Hwf Hi Hj Hne. unfold run_schedule.
  destruct (aget false (schd_areActive (eng (sys m))) j &&
            (aget 0 (schd_nextCalls (eng (sys m))) j <? now));
    [|apply quiet_refl; exact Hwf].
  match goal with |- context [action ?p ?s] => call_action p s end.
  split; [exact W|]. split; [exact G|]. split.
  - cbn [sys emit with_sys]. rewrite K. rows. reflexivity.
  - eexists [_]. split; [reflexivity|]. simpl.
    destruct (Z.eqb_spec j i); [contradiction|reflexivity].
Qed.

Lemma run_schedule_at now m :
  wf T_MAX R_MAX (eng (sys m)) -> 0 <= i <= last_schd (eng (sys m)) ->
  let r := schedule (eng (sys m)) i in
  let m' := run_schedule action now i m in
  wf T_MAX R_MAX (eng (sys m')) /\
  grows (eng (sys m)) (eng (sys m')) /\
  exists l, trace m' = trace m ++ l /\
    if s_active r && (s_next_fire r <? now)
    then l = [ScheduleExecuted i (s_next_fire r) now] /\
         schedule (eng (sys m')) i =
           {| s_action := s_action r; s_interval := s_interval r;
              s_next_fire := ulong (s_next_fire r + s_interval r);
              s_active := s_active r |}
    else l = [] /\ schedule (eng (sys m')) i = r.
Proof.
  intros Hwf Hi. simpl. unfold run_schedule.
  change (aget false (schd_areActive (eng (sys m))) i)
    with (s_active (schedule (eng (sys m)) i)).
  change (aget 0 (schd_nextCalls (eng (sys m))) i)
    with (s_next_fire (schedule (eng (sys m)) i)).
  destruct (s_active (schedule (eng (sys m)) i) &&
            (s_next_fire (schedule (eng (sys m)) i) <? now)).
  - match goal with |- context [action ?p ?s] => call_action p s end.
    split; [exact W|]. split; [exact G|].
    eexists [_]. split; [reflexivity|]. split; [reflexivity|].
    cbn [sys emit with_sys]. rewrite K. unfold wf in Hwf. decompose [and] Hwf.
    rows. reflexivity.
  - split; [exact Hwf|]. split; [apply grows_refl|].
    exists []. rewrite app_nil_r. auto.
Qed.

Lemma run_pending_quiet now j m :
  wf T_MAX R_MAX (eng (sys m)) -> quiet m (run_pending action now j m).
Proof.
  intros Hwf. unfold run_pending.
  destruct (aget false (rct_areTrigged (eng (sys m))) j &&
            (aget 0 (rct_nextCalls (eng (sys m))) j <? now));
    [|apply quiet_refl; exact Hwf].
  match goal with |- context [action ?p ?s] => call_action p s end.
  split; [exact W|]. split; [exact G|]. split.
  - cbn [sys emit with_sys]. rewrite K. reflexivity.
  - eexists [_]. split; reflexivity.
Qed.

Lemma run_trigger_quiet now j m :
  wf T_MAX R_MAX (eng (sys m)) -> quiet m (run_trigger action check now j m).
Proof.
  intros Hwf. unfold run_trigger.
  destruct (aget false (rct_areActive (eng (sys m))) j &&
            (aget 0 (rct_nextTrigs (eng (sys m))) j <? now));
    [|apply quiet_refl; exact Hwf].
  pose proof (check_keeps (aget nullptr (rct_trigs (eng (sys m))) j) (sys m)) as Kc.
  unfold keeps_schedule in Kc. cbv beta in Kc.
  destruct (check_respects (aget nullptr (rct_trigs (eng (sys m))) j) (sys m) Hwf)
    as [Wc Gc].
  destruct (check (aget nullptr (rct_trigs (eng (sys m))) j) (sys m))
    as [fired s]. simpl in Kc, Wc, Gc.
  destruct fired.
  - destruct (aget 0 (rct_tDelays (eng s)) j =? 0).
    + match goal with |- context [action ?p ?s] => call_action p s end.
      split; [exact W|]. split; [eapply grows_trans; eassumption|]. split.
      * cbn [sys emit with_sys]. rewrite K. exact Kc.
      * eexists [_; _]. simpl. rewrite <- app_assoc. split; reflexivity.
    + split; [simpl; wf_lengths|]. split; [exact Gc|]. split.
      * simpl. exact Kc.
      * eexists [_; _]. simpl. rewrite <- app_assoc. split; reflexivity.
  - split; [exact Wc|]. split; [exact Gc|]. split; [exact Kc|].
    eexists [_]. split; reflexivity.
Qed.

(** What a tick whose clock reads [now] does to a schedule whose row was
    [r] when the tick began: [fs] are its executions in the tick and [r']
    its row afterwards. *)
Definition schedule_outcome (now : Z) (r : Schedule) (fs : list (Z * Z))
    (r' : Schedule) : Prop :=
  if s_active r && (s_next_fire r <? now)
  then fs = [(s_next_fire r, now)] /\
       r' = {| s_action := s_action r; s_interval := s_interval r;
               s_next_fire := ulong (s_next_fire r + s_interval r);
               s_active := s_active r |}
  else fs = [] /\ r' = r.

Lemma schedule_phase_at now m :
  wf T_MAX R_MAX (eng (sys m)) -> 0 <= i <= last_schd (eng (sys m)) ->
  let m' := schedule_phase T_MAX action now m in
  wf T_MAX R_MAX (eng (sys m')) /\
  grows (eng (sys m)) (eng (sys m')) /\
  exists l, trace m' = trace m ++ l /\
    schedule_outcome now (schedule (eng (sys m)) i)
      (schedule_firings i l) (schedule (eng (sys m')) i).
Proof.
  intros Hwf Hi. simpl. unfold schedule_phase.
  remember (schedule (eng (sys m)) i) as r eqn:Hr.
  pose (P := fun (j : Z) (m' : Machine Engine U) =>
    0 <= j /\ wf T_MAX R_MAX (eng (sys m')) /\
    grows (eng (sys m)) (eng (sys m')) /\
    exists l, trace m' = trace m ++ l /\
      ((j <= i /\ schedule_firings i l = [] /\ schedule (eng (sys m')) i = r) \/
       (i < j /\ schedule_outcome now r (schedule_firings i l)
                   (schedule (eng (sys m')) i)))).
  assert (Hstep : forall j s, P j s -> j <= m_last_schd s ->
                    P (j + 1) (run_schedule action now j s)).
  { intros j s (Hj & W & G & l & T & Hcase) _.
    destruct (Z.eq_dec j i) as [->|Hne].
    - destruct Hcase as [(_ & D & R)|(Hlt & _)]; [|lia].
      destruct (run_schedule_at now s W) as (W' & G' & l' & T' & O').
      { unfold grows in G. lia. }
      split; [lia|]. split; [exact W'|].
      split; [eapply grows_trans; eassumption|].
      exists (l ++ l'). split; [rewrite T', T, app_assoc; reflexivity|].
      right. split; [lia|]. unfold schedule_outcome.
      rewrite schedule_firings_app, D. rewrite R in O'.
      destruct (s_active r && (s_next_fire r <? now));
        destruct O' as [-> ->]; simpl; rewrite ?Z.eqb_refl; auto.
    - destruct (run_schedule_other now j s W) as (W' & G' & R' & l' & T' & D');
        try lia.
      split; [lia|]. split; [exact W'|].
      split; [eapply grows_trans; eassumption|].
      exists (l ++ l'). split; [rewrite T', T, app_assoc; reflexivity|].
      rewrite schedule_firings_app, D', app_nil_r, R'.
      destruct Hcase as [(Hle & D & R)|(Hlt & O)].
      + left. repeat split; try assumption; lia.
      + right. split; [lia|exact O]. }
  assert (H0 : P 0 m).
  { split; [lia|]. split; [exact Hwf|]. split; [apply grows_refl|].
    exists []. rewrite app_nil_r. split; [reflexivity|].
    left. repeat split; auto; lia. }
  pose proof (for_upto_ind P m_last_schd (run_schedule action now) Hstep
                (Z.to_nat T_MAX) 0 m H0) as Hloop.
  set (mf := for_upto (Z.to_nat T_MAX) m_last_schd (run_schedule action now) 0 m) in *.
  destruct Hloop as (k & Hk & (_ & W & G & l & T & Hcase) & Hend).
  split; [exact W|]. split; [exact G|].
  exists l. split; [exact T|].
  destruct Hcase as [(Hle & _)|(_ & O)]; [|exact O].
  exfalso. unfold m_last_schd in Hend. unfold grows in G.
  unfold wf in W. destruct W as ((? & ?) & _).
  unfold wf in Hwf. destruct Hwf as ((? & ?) & _). lia.
Qed.

Lemma quiet_phases now m :
  wf T_MAX R_MAX (eng (sys m)) ->
  quiet m (trigger_phase R_MAX action check now (pending_phase R_MAX action now m)).
Proof.
  intros Hwf.
  assert (H1 : quiet m (pending_phase R_MAX action now m)).
  { unfold pending_phase.
    apply (for_upto_inv (quiet m)); [|apply quiet_refl; exact Hwf].
    intros j s Q _. eapply quiet_trans; [exact Q|].
    apply run_pending_quiet. destruct Q as (W & _). exact W. }
  unfold trigger_phase.
  apply (for_upto_inv (quiet m)); [|exact H1].
  intros j s Q _. eapply quiet_trans; [exact Q|].
  apply run_trigger_quiet. destruct Q as (W & _). exact W.
Qed.

(** One call of [run()]. *)
Lemma run_one_schedule m :
  wf T_MAX R_MAX (eng (sys m)) -> 0 <= i <= last_schd (eng (sys m)) ->
  let m' := run T_MAX R_MAX action check m in
  wf T_MAX R_MAX (eng (sys m')) /\
  grows (eng (sys m)) (eng (sys m')) /\
  exists l, trace m' = trace m ++ l /\
    schedule_outcome (clk (sys m)) (schedule (eng (sys m)) i)
      (schedule_firings i l) (schedule (eng (sys m')) i).
Proof.
  intros Hwf Hi. simpl. unfold run.
  destruct (schedule_phase_at (clk (sys m)) m Hwf Hi)
    as (W1 & G1 & l1 & T1 & O1).
  destruct (quiet_phases (clk (sys m)) _ W1) as (W2 & G2 & R2 & l2 & T2 & D2).
  split; [exact W2|]. split; [eapply grows_trans; eassumption|].
  exists (l1 ++ l2). split; [rewrite T2, T1, app_assoc; reflexivity|].
  rewrite schedule_firings_app, D2, app_nil_r, R2. exact O1.
Qed.

Lemma tick_one_schedule t m :
  wf T_MAX R_MAX (eng (sys m)) -> 0 <= i <= last_schd (eng (sys m)) ->
  let m' := tick T_MAX R_MAX action check t m in
  wf T_MAX R_MAX (eng (sys m')) /\
  grows (eng (sys m)) (eng (sys m')) /\
  exists l, trace m' = trace m ++ l /\
    schedule_outcome t (schedule (eng (sys m)) i)
      (schedule_firings i l) (schedule (eng (sys m')) i).
Proof.
  intros Hwf Hi. unfold tick.
  exact (run_one_schedule
           (with_sys {| eng := eng (sys m); clk := t; usr := usr (sys m) |} m)
           Hwf Hi).
Qed.

(** Over any sequence of ticks the due times of an active schedule that the
    sketch leaves alone are the terms of an arithmetic sequence, at most
    one more per tick. *)
Lemma ticks_progression ts : forall m r,
  wf T_MAX R_MAX (eng (sys m)) -> 0 <= i <= last_schd (eng (sys m)) ->
  schedule (eng (sys m)) i = r -> s_active r = true ->
  0 <= s_next_fire r < ULONG_MOD ->
  let m' := ticks T_MAX R_MAX action check ts m in
  wf T_MAX R_MAX (eng (sys m')) /\
  grows (eng (sys m)) (eng (sys m')) /\
  exists l, trace m' = trace m ++ l /\
    let n := length (schedule_firings i l) in
    (n <= length ts)%nat /\
    schedule_dues i l = progression (s_next_fire r) (s_interval r) n /\
    schedule (eng (sys m')) i =
      {| s_action := s_action r; s_interval := s_interval r;
         s_next_fire := ulong (s_next_fire r + Z.of_nat n * s_interval r);
         s_active := true |}.
Proof.
  induction ts as [|t ts IH]; intros m r Hwf Hi Hr Hact Hnf; simpl.
  - split; [exact Hwf|]. split; [apply grows_refl|].
    exists []. rewrite app_nil_r. split; [reflexivity|]. simpl.
    split; [lia|]. split; [reflexivity|].
    rewrite Z.add_0_r, ulong_small by exact Hnf.
    rewrite Hr. destruct r; simpl in *. subst. reflexivity.
  - destruct (tick_one_schedule t m Hwf Hi) as (W1 & G1 & l1 & T1 & O1).
    rewrite Hr in O1. unfold schedule_outcome in O1. rewrite Hact in O1.
    simpl in O1.
    set (m1 := tick T_MAX R_MAX action check t m) in *.
    assert (Hi1 : 0 <= i <= last_schd (eng (sys m1))).
    { unfold grows in G1. lia. }
    destruct (Z.ltb_spec (s_next_fire r) t) as [Hdue|Hnot];
      destruct O1 as [F1 R1].
    + assert (Hnf1 : 0 <= s_next_fire (schedule (eng (sys m1)) i) < ULONG_MOD).
      { rewrite R1. simpl. apply ulong_range. }
      destruct (IH m1 _ W1 Hi1 eq_refl) as (W & G & l & T & Hn & D & R);
        [rewrite R1; reflexivity|exact Hnf1|].
      split; [exact W|]. split; [eapply grows_trans; eassumption|].
      exists (l1 ++ l). split; [rewrite T, T1, app_assoc; reflexivity|].
      unfold schedule_dues in *. rewrite schedule_firings_app, F1.
      simpl. split; [lia|]. rewrite D, R, R1. simpl.
      set (n := length (schedule_firings i l)).
      split.
      * unfold progression. cbn [seq map].
        replace (s_next_fire r + Z.of_nat 0 * s_interval r)
          with (s_next_fire r) by lia.
        rewrite (ulong_small (s_next_fire r)) by exact Hnf. f_equal.
        rewrite <- seq_shift, map_map. apply map_ext. intros k.
        rewrite ulong_add_l. f_equal. lia.
      * rewrite ulong_add_l. do 2 f_equal. lia.
    + destruct (IH m1 _ W1 Hi1 eq_refl) as (W & G & l & T & Hn & D & R);
        [rewrite R1; exact Hact|rewrite R1; exact Hnf|].
      split; [exact W|]. split; [eapply grows_trans; eassumption|].
      exists (l1 ++ l). split; [rewrite T, T1, app_assoc; reflexivity|].
      unfold schedule_dues in *. rewrite schedule_firings_app, F1.
      simpl. split; [lia|]. rewrite D, R, R1. auto.
Qed.


End OneSchedule.



(** *** One reaction followed through the ticks *)

Section OneReaction.
Variables T_MAX R_MAX : Z.
Context {U : Type}.
Variable action : fnptr -> Sys Engine U -> Sys Engine U.
Variable check : fnptr -> Sys Engine U -> bool * Sys Engine U.

Hypothesis action_respects : forall p, respects T_MAX R_MAX (action p).
Hypothesis check_respects :
  forall p, respects T_MAX R_MAX (fun s => snd (check p s)).

Variable i : Z.
Hypothesis i_range : 0 <= i < R_MAX.

(** No method of the engine other than [run()] sets the pending flag, so a
    function of the sketch can clear the flag of reaction [i] but cannot
    raise it. *)
Definition never_queues (f : Sys Engine U -> Sys Engine U) : Prop :=
  forall s, r_pending (reaction (eng (f s)) i) = true ->
            r_pending (reaction (eng s) i) = true.

Hypothesis action_never_queues : forall p, never_queues (action p).
Hypothesis check_never_queues :
  forall p, never_queues (fun s => snd (check p s)).

Definition pending_now (m : Machine Engine U) : Z :=
  Z.b2z (r_pending (reaction (eng (sys m)) i)).

(** The ledger of reaction [i] since the state [m0]: the executions of its
    queued action, plus the one still queued if any, never exceed the
    accepted delayed triggers, plus the one that was queued in [m0]. *)
Definition ledger (m0 m : Machine Engine U) : Prop :=
  wf T_MAX R_MAX (eng (sys m)) /\
  exists l, trace m = trace m0 ++ l /\
    Z.of_nat (count_events (reaction_settled i) l) + pending_now m <=
    Z.of_nat (count_events (reaction_queued i) l) + pending_now m0.

Lemma ledger_refl m : wf T_MAX R_MAX (eng (sys m)) -> ledger m m.
Proof.
  intros Hwf. split; [exact Hwf|]. exists []. rewrite app_nil_r.
  split; [reflexivity|]. rewrite !count_events_nil. lia.
Qed.

Lemma b2z_never_queues (f : Sys Engine U -> Sys Engine U) s :
  never_queues f ->
  Z.b2z (r_pending (reaction (eng (f s)) i)) <=
  Z.b2z (r_pending (reaction (eng s) i)).
Proof.
  intros H. specialize (H s).
  destruct (r_pending (reaction (eng (f s)) i)).
  - rewrite H by reflexivity. cbn [Z.b2z]. lia.
  - destruct (r_pending (reaction (eng s) i)); cbn [Z.b2z]; lia.
Qed.

Lemma ledger_emit m0 m ev :
  ledger m0 m -> reaction_settled i ev = false -> ledger m0 (emit ev m).
Proof.
  intros (Hwf & l & T & L) Hev. split; [exact Hwf|].
  exists (l ++ [ev]). split; [simpl; rewrite T, app_assoc; reflexivity|].
  rewrite !count_events_app, !count_events_one, Hev.
  unfold pending_now in *. cbn [sys emit].
  destruct (reaction_queued i ev); lia.
Qed.

Lemma ledger_update m0 m e1 :
  ledger m0 m -> wf T_MAX R_MAX e1 ->
  Z.b2z (r_pending (reaction e1 i)) <= pending_now m ->
  ledger m0 (with_sys (with_eng e1 (sys m)) m).
Proof.
  intros (Hwf & l & T & L) W1 H1. split; [exact W1|].
  exists l. split; [exact T|].
  unfold pending_now in *. cbn [sys with_sys eng with_eng]. lia.
Qed.

Lemma ledger_call m0 m (f : Sys Engine U -> Sys Engine U) :
  ledger m0 m -> respects T_MAX R_MAX f -> never_queues f ->
  ledger m0 (with_sys (f (sys m)) m).
Proof.
  intros (Hwf & l & T & L) Hf Hq. destruct (Hf (sys m) Hwf) as [W _].
  split; [exact W|]. exists l. split; [exact T|].
  pose proof (b2z_never_queues f (sys m) Hq).
  unfold pending_now in *. cbn [sys with_sys]. lia.
Qed.

(** Executing the queued action: the flag goes down as the count of
    executions goes up. *)
Lemma ledger_settle m0 m e1 now (f : Sys Engine U -> Sys Engine U) :
  ledger m0 m -> r_pending (reaction (eng (sys m)) i) = true ->
  wf T_MAX R_MAX e1 -> r_pending (reaction e1 i) = false ->
  respects T_MAX R_MAX f -> never_queues f ->
  ledger m0 (emit (ReactionExecuted i now)
               (with_sys (f (with_eng e1 (sys m))) m)).
Proof.
  intros (Hwf & l & T & L) Hp W1 H1 Hf Hq.
  destruct (Hf (with_eng e1 (sys m)) W1) as [W _].
  split; [exact W|].
  exists (l ++ [ReactionExecuted i now]).
  split; [simpl; rewrite T, app_assoc; reflexivity|].
  rewrite !count_events_app, !count_events_one.
  cbn [reaction_settled reaction_queued]. rewrite Z.eqb_refl.
  pose proof (b2z_never_queues f (with_eng e1 (sys m)) Hq) as K.
  cbn [eng with_eng] in K. rewrite H1 in K.
  unfold pending_now in *. cbn [sys emit with_sys]. rewrite Hp in L.
  cbn [Z.b2z] in *. lia.
Qed.

(** Accepting a delayed trigger: the flag is raised (or stays raised) as
    the count of accepted triggers goes up. *)
Lemma ledger_queue m0 m e1 now :
  ledger m0 m -> wf T_MAX R_MAX e1 ->
  ledger m0 (emit (ReactionTriggered i now)
               (with_sys (with_eng e1 (sys m)) m)).
Proof.
  intros (Hwf & l & T & L) W1. split; [exact W1|].
  exists (l ++ [ReactionTriggered i now]).
  split; [simpl; rewrite T, app_assoc; reflexivity|].
  rewrite !count_events_app, !count_events_one.
  cbn [reaction_settled reaction_queued]. rewrite Z.eqb_refl.
  unfold pending_now in *. cbn [sys emit with_sys eng with_eng].
  destruct (r_pending (reaction e1 i)), (r_pending (reaction (eng (sys m)) i));
    cbn [Z.b2z] in *; lia.
Qed.

Lemma ledger_wf m0 m : ledger m0 m -> wf T_MAX R_MAX (eng (sys m)).
Proof. intros (Hwf & _). exact Hwf. Qed.

Lemma run_schedule_ledger now j m0 m :
  ledger m0 m -> ledger m0 (run_schedule action now j m).
Proof.
  intros L. pose proof (ledger_wf _ _ L) as Hwf.
  unfold run_schedule. cbv zeta.
  destruct (aget false (schd_areActive (eng (sys m))) j &&
            (aget 0 (schd_nextCalls (eng (sys m))) j <? now));
    [|exact L].
  apply ledger_emit; [|reflexivity].
  match goal with |- context [action ?p (with_eng ?e1 _)] =>
    apply (ledger_call m0 (with_sys (with_eng e1 (sys m)) m) (action p));
      [apply ledger_update; [exact L|wf_lengths|reflexivity]
      |apply action_respects|apply action_never_queues]
  end.
Qed.

Lemma run_pending_ledger now j m0 m :
  0 <= j -> ledger m0 m -> ledger m0 (run_pending action now j m).
Proof.
  intros Hj L. pose proof (ledger_wf _ _ L) as Hwf.
  unfold run_pending. cbv zeta.
  destruct (aget false (rct_areTrigged (eng (sys m))) j) eqn:Hp;
    [|exact L].
  destruct (aget 0 (rct_nextCalls (eng (sys m))) j <? now); [|exact L].
  cbn [andb].
  destruct (Z.eq_dec j i) as [->|Hne].
  - apply ledger_settle; try assumption.
    + wf_lengths.
    + unfold wf in Hwf. decompose [and] Hwf. rows. reflexivity.
    + apply action_respects.
    + apply action_never_queues.
  - apply ledger_emit; [|simpl; destruct (Z.eqb_spec j i); congruence].
    match goal with |- context [action ?p (with_eng ?e1 _)] =>
      apply (ledger_call m0 (with_sys (with_eng e1 (sys m)) m) (action p));
        [apply ledger_update; [exact L|wf_lengths|]
        |apply action_respects|apply action_never_queues]
    end.
    unfold pending_now. rows. lia.
Qed.

Lemma run_trigger_ledger now j m0 m :
  0 <= j -> ledger m0 m -> ledger m0 (run_trigger action check now j m).
Proof.
  intros Hj L. pose proof (ledger_wf _ _ L) as Hwf.
  unfold run_trigger. cbv zeta.
  destruct (aget false (rct_areActive (eng (sys m))) j &&
            (aget 0 (rct_nextTrigs (eng (sys m))) j <? now));
    [|exact L].
  pose proof (ledger_call m0 m _ L
                (check_respects (aget nullptr (rct_trigs (eng (sys m))) j))
                (check_never_queues (aget nullptr (rct_trigs (eng (sys m))) j)))
    as Lc.
  cbv beta in Lc.
  destruct (check (aget nullptr (rct_trigs (eng (sys m))) j) (sys m))
    as [fired s]. cbn [snd] in Lc.
  pose proof (ledger_wf _ _ Lc) as Wc. cbn [sys with_sys] in Wc.
  pose proof (ledger_emit _ _ (TriggerChecked j now fired) Lc eq_refl) as Le.
  destruct fired; [|exact Le].
  destruct (aget 0 (rct_tDelays (eng s)) j =? 0).
  - apply ledger_emit; [|reflexivity].
    match goal with |- context [action ?p (with_eng ?e1 _)] =>
      apply (ledger_call m0
               (with_sys (with_eng e1 s)
                  (emit (TriggerChecked j now true) (with_sys s m)))
               (action p));
        [apply (ledger_update m0 _ e1 Le); [wf_lengths|]
        |apply action_respects|apply action_never_queues]
    end.
    unfold pending_now. cbn [sys emit with_sys]. rows. lia.
  - destruct (Z.eq_dec j i) as [->|Hne].
    + match goal with |- context [with_eng ?e1 _] =>
        apply (ledger_queue m0 (emit (TriggerChecked i now true) (with_sys s m)) e1)
      end; [exact Le|wf_lengths].
    + apply ledger_emit; [|reflexivity].
      match goal with |- context [with_eng ?e1 _] =>
        apply (ledger_update m0 (emit (TriggerChecked j now true) (with_sys s m)) e1 Le);
          [wf_lengths|]
      end.
      unfold pending_now. cbn [sys emit with_sys]. rows. lia.
Qed.

Lemma run_ledger m0 m :
  ledger m0 m -> ledger m0 (run T_MAX R_MAX action check m).
Proof.
  intros L. unfold run, schedule_phase, pending_phase, trigger_phase.
  apply (for_upto_inv_from (ledger m0)).
  { intros j s Hj. apply run_trigger_ledger. exact Hj. }
  apply (for_upto_inv_from (ledger m0)).
  { intros j s Hj. apply run_pending_ledger. exact Hj. }
  apply (for_upto_inv_from (ledger m0)); [|exact L].
  intros j s _. apply run_schedule_ledger.
Qed.

Lemma ticks_ledger ts : forall m0 m,
  ledger m0 m -> ledger m0 (ticks T_MAX R_MAX action check ts m).
Proof.
  induction ts as [|t ts IH]; intros m0 m L; [exact L|].
  simpl. apply IH. unfold tick. apply run_ledger.
  destruct L as (Hwf & l & T & L). split; [exact Hwf|].
  exists l. split; [exact T|exact L].
Qed.

End OneReaction.

(** *** At most one execution per entry and per tick *)

Lemma run_once {U : Type} T_MAX R_MAX
    (action : fnptr -> Sys Engine U -> Sys Engine U)
    (check : fnptr -> Sys Engine U -> bool * Sys Engine U)
    (i : Z) (m : Machine Engine U) :
  exists l, trace (run T_MAX R_MAX action check m) = trace m ++ l /\
    (count_events (schedule_fired i) l <= 1)%nat /\
    (count_events (reaction_settled i) l <= 1)%nat.
Proof.
  destruct (run_trace T_MAX R_MAX action check m)
    as (l1 & l2 & l3 & T & P1 & P2 & P3).
  exists (l1 ++ l2 ++ l3). split; [exact T|].
  rewrite !count_events_app.
  assert (Hsched : forall ev, schedule_fired i ev = true -> event_id ev = i).
  { intros [] H; simpl in *; try discriminate. lia. }
  assert (Hsett : forall ev, reaction_settled i ev = true -> event_id ev = i).
  { intros [] H; simpl in *; try discriminate. lia. }
  split.
  - rewrite (phase_trace_count _ _ _ _ l2 _ P2),
            (phase_trace_count _ _ _ _ l3 _ P3);
      try (intros [] H; simpl in *; congruence).
    pose proof (count_events_sorted _ i l1 Hsched (proj2 P1)). lia.
  - rewrite (phase_trace_count _ _ _ _ l1 _ P1),
            (phase_trace_count _ _ _ _ l3 _ P3);
      try (intros [] H; simpl in *; congruence).
    pose proof (count_events_sorted _ i l2 Hsett (proj2 P2)). lia.
Qed.

(** *** The bodies of the two reaction loops *)

Section ReactionBodies.
Variables T_MAX R_MAX : Z.
Context {U : Type}.
Variable action : fnptr -> Sys Engine U -> Sys Engine U.
Variable check : fnptr -> Sys Engine U -> bool * Sys Engine U.
Variables now i : Z.
Variable m : Machine Engine U.

Let r := reaction (eng (sys m)) i.
Let fired := fst (check (r_predicate r) (sys m)).
Let s := snd (check (r_predicate r) (sys m)).
Let r1 := reaction (eng s) i.

Ltac open_trigger :=
  unfold run_trigger; cbv zeta;
  change (aget false (rct_areActive (eng (sys m))) i) with (r_trigger_active r);
  change (aget 0 (rct_nextTrigs (eng (sys m))) i) with (r_next_trigger_check r);
  change (aget nullptr (rct_trigs (eng (sys m))) i) with (r_predicate r).

Lemma run_trigger_skipped :
  r_trigger_active r = false \/ now <= r_next_trigger_check r ->
  run_trigger action check now i m = m.
Proof.
  intros H. open_trigger.
  destruct H as [->|H]; [reflexivity|].
  destruct (Z.ltb_spec (r_next_trigger_check r) now); [lia|].
  rewrite andb_false_r. reflexivity.
Qed.

Lemma run_trigger_rejected :
  r_trigger_active r = true -> r_next_trigger_check r < now ->
  fired = false ->
  run_trigger action check now i m =
    emit (TriggerChecked i now false) (with_sys s m).
Proof.
  intros Ha Hd Hf. open_trigger. rewrite Ha.
  destruct (Z.ltb_spec (r_next_trigger_check r) now); [|lia].
  cbn [andb]. subst fired s.
  destruct (check (r_predicate r) (sys m)) as [f s']. simpl in *.
  subst f. reflexivity.
Qed.

Lemma run_trigger_immediate :
  r_trigger_active r = true -> r_next_trigger_check r < now ->
  fired = true -> wf T_MAX R_MAX (eng s) -> 0 <= i < R_MAX ->
  r_delay r1 = 0 ->
  exists e1,
    reaction e1 i =
      {| r_predicate := r_predicate r1; r_action := r_action r1;
         r_timeout := r_timeout r1; r_delay := r_delay r1;
         r_next_trigger_check := ulong (now + r_timeout r1);
         r_next_execution := r_next_execution r1;
         r_pending := r_pending r1;
         r_trigger_active := r_trigger_active r1 |} /\
    other_reactions_kept i (eng s) e1 /\ schedules_kept (eng s) e1 /\
    marks_kept (eng s) e1 /\
    run_trigger action check now i m =
      emit (ReactionTriggeredExecuted i now)
        (with_sys (action (r_action r1) (with_eng e1 s))
           (emit (TriggerChecked i now true) m)).
Proof.
  intros Ha Hd Hf Hwf Hi Hdl. open_trigger. rewrite Ha.
  destruct (Z.ltb_spec (r_next_trigger_check r) now); [|lia].
  cbn [andb]. subst r1 fired s.
  destruct (check (r_predicate r) (sys m)) as [f s'].
  cbn [fst snd] in Hf, Hwf, Hdl.
  cbn [snd]. subst f.
  change (aget 0 (rct_tDelays (eng s')) i) with (r_delay (reaction (eng s') i)).
  destruct (Z.eqb_spec (r_delay (reaction (eng s') i)) 0); [|contradiction].
  eexists. split; [|split; [|split; [|split; [|reflexivity]]]].
  - unfold wf in Hwf. decompose [and] Hwf. rows. reflexivity.
  - intros j Hj Hne. rows. reflexivity.
  - intros j. reflexivity.
  - repeat split.
Qed.

Lemma run_trigger_delayed :
  r_trigger_active r = true -> r_next_trigger_check r < now ->
  fired = true -> wf T_MAX R_MAX (eng s) -> 0 <= i < R_MAX ->
  r_delay r1 <> 0 ->
  exists e1,
    reaction e1 i =
      {| r_predicate := r_predicate r1; r_action := r_action r1;
         r_timeout := r_timeout r1; r_delay := r_delay r1;
         r_next_trigger_check := ulong (now + r_timeout r1);
         r_next_execution := ulong (now + r_delay r1);
         r_pending := true;
         r_trigger_active := r_trigger_active r1 |} /\
    other_reactions_kept i (eng s) e1 /\ schedules_kept (eng s) e1 /\
    marks_kept (eng s) e1 /\
    run_trigger action check now i m =
      emit (ReactionTriggered i now)
        (with_sys (with_eng e1 s) (emit (TriggerChecked i now true) m)).
Proof.
  intros Ha Hd Hf Hwf Hi Hdl. open_trigger. rewrite Ha.
  destruct (Z.ltb_spec (r_next_trigger_check r) now); [|lia].
  cbn [andb]. subst r1 fired s.
  destruct (check (r_predicate r) (sys m)) as [f s'].
  cbn [fst snd] in Hf, Hwf, Hdl.
  cbn [snd]. subst f.
  change (aget 0 (rct_tDelays (eng s')) i) with (r_delay (reaction (eng s') i)).
  destruct (Z.eqb_spec (r_delay (reaction (eng s') i)) 0); [contradiction|].
  eexists. split; [|split; [|split; [|split; [|reflexivity]]]].
  - unfold wf in Hwf. decompose [and] Hwf. rows. reflexivity.
  - intros j Hj Hne. rows. reflexivity.
  - intros j. reflexivity.
  - repeat split.
Qed.

Ltac open_pending :=
  unfold run_pending; cbv zeta;
  change (aget false (rct_areTrigged (eng (sys m))) i) with (r_pending r);
  change (aget 0 (rct_nextCalls (eng (sys m))) i) with (r_next_execution r).

Lemma run_pending_idle :
  r_pending r = false \/ now <= r_next_execution r ->
  run_pending action now i m = m.
Proof.
  intros H. open_pending.
  destruct H as [->|H]; [reflexivity|].
  destruct (Z.ltb_spec (r_next_execution r) now); [lia|].
  rewrite andb_false_r. reflexivity.
Qed.

(** The queued action is entered with the pending flag already cleared. *)
Lemma run_pending_due :
  wf T_MAX R_MAX (eng (sys m)) -> 0 <= i < R_MAX ->
  r_pending r = true -> r_next_execution r < now ->
  exists e1,
    reaction e1 i =
      {| r_predicate := r_predicate r; r_action := r_action r;
         r_timeout := r_timeout r; r_delay := r_delay r;
         r_next_trigger_check := r_next_trigger_check r;
         r_next_execution := r_next_execution r;
         r_pending := false;
         r_trigger_active := r_trigger_active r |} /\
    other_reactions_kept i (eng (sys m)) e1 /\
    schedules_kept (eng (sys m)) e1 /\ marks_kept (eng (sys m)) e1 /\
    run_pending action now i m =
      emit (ReactionExecuted i now)
        (with_sys (action (r_action r) (with_eng e1 (sys m))) m).
Proof.
  intros Hwf Hi Hp Hd. open_pending. rewrite Hp.
  destruct (Z.ltb_spec (r_next_execution r) now); [|lia].
  cbn [andb].
  eexists. split; [|split; [|split; [|split; [|reflexivity]]]].
  - unfold wf in Hwf. decompose [and] Hwf. subst r. rows. reflexivity.
  - intros j Hj Hne. rows. reflexivity.
  - intros j. reflexivity.
  - repeat split.
Qed.

End ReactionBodies.

(** *** Assumptions on a sketch, bundled *)

(** Every function of the sketch uses the engine through its methods. *)
Definition sketch_respects {U : Type} (T_MAX R_MAX : Z)
    (action : fnptr -> Sys Engine U -> Sys Engine U)
    (check : fnptr -> Sys Engine U -> bool * Sys Engine U) : Prop :=
  (forall p, respects T_MAX R_MAX (action p)) /\
  (forall p, respects T_MAX R_MAX (fun s => snd (check p s))).

(** No function of the sketch pauses or reschedules schedule [i]. *)
Definition sketch_keeps_schedule {U : Type} (i : Z)
    (action : fnptr -> Sys Engine U -> Sys Engine U)
    (check : fnptr -> Sys Engine U -> bool * Sys Engine U) : Prop :=
  (forall p, keeps_schedule i (action p)) /\
  (forall p, keeps_schedule i (fun s => snd (check p s))).

(** No function of the sketch raises the pending flag of reaction [i]
    (none can, short of calling [run()] itself). *)
Definition sketch_never_queues {U : Type} (i : Z)
    (action : fnptr -> Sys Engine U -> Sys Engine U)
    (check : fnptr -> Sys Engine U -> bool * Sys Engine U) : Prop :=
  (forall p, never_queues i (action p)) /\
  (forall p, never_queues i (fun s => snd (check p s))).

(** *** The loops of [run()] leave by their own test *)

Section Fuel.
Variables T_MAX R_MAX : Z.
Context {U : Type}.
Variable action : fnptr -> Sys Engine U -> Sys Engine U.
Variable check : fnptr -> Sys Engine U -> bool * Sys Engine U.
Hypothesis sketch_ok : sketch_respects T_MAX R_MAX action check.

Definition machine_wf (m : Machine Engine U) : Prop :=
  wf T_MAX R_MAX (eng (sys m)).

Lemma run_schedule_wf now j m :
  machine_wf m -> machine_wf (run_schedule action now j m).
Proof.
  unfold machine_wf. intros Hwf. unfold run_schedule. cbv zeta.
  destruct (aget false (schd_areActive (eng (sys m))) j &&
            (aget 0 (schd_nextCalls (eng (sys m))) j <? now)); [|exact Hwf].
  cbn [sys emit with_sys]. apply (proj1 sketch_ok). wf_lengths.
Qed.

Lemma run_pending_wf now j m :
  machine_wf m -> machine_wf (run_pending action now j m).
Proof.
  unfold machine_wf. intros Hwf. unfold run_pending. cbv zeta.
  destruct (aget false (rct_areTrigged (eng (sys m))) j &&
            (aget 0 (rct_nextCalls (eng (sys m))) j <? now)); [|exact Hwf].
  cbn [sys emit with_sys]. apply (proj1 sketch_ok). wf_lengths.
Qed.

Lemma run_trigger_wf now j m :
  machine_wf m -> machine_wf (run_trigger action check now j m).
Proof.
  unfold machine_wf. intros Hwf. unfold run_trigger. cbv zeta.
  destruct (aget false (rct_areActive (eng (sys m))) j &&
            (aget 0 (rct_nextTrigs (eng (sys m))) j <? now)); [|exact Hwf].
  pose proof (proj1 (proj2 sketch_ok (aget nullptr (rct_trigs (eng (sys m))) j)
                       (sys m) Hwf)) as Wc.
  cbv beta in Wc.
  destruct (check (aget nullptr (rct_trigs (eng (sys m))) j) (sys m))
    as [fired s]. cbn [snd] in Wc.
  destruct fired; [|exact Wc].
  destruct (aget 0 (rct_tDelays (eng s)) j =? 0); cbn [sys emit with_sys].
  - apply (proj1 sketch_ok). wf_lengths.
  - wf_lengths.
Qed.

Lemma run_wf m : machine_wf m -> machine_wf (run T_MAX R_MAX action check m).
Proof.
  intros Hwf. unfold run, schedule_phase, pending_phase, trigger_phase.
  apply (for_upto_inv machine_wf); [intros; apply run_trigger_wf; assumption|].
  apply (for_upto_inv machine_wf); [intros; apply run_pending_wf; assumption|].
  apply (for_upto_inv machine_wf); [intros; apply run_schedule_wf; assumption|].
  exact Hwf.
Qed.

(** With any larger bound each loop computes what it computes with the
    capacity of its table. *)
Lemma phases_fuel now extra m :
  machine_wf m ->
  for_upto (Z.to_nat T_MAX + extra) m_last_schd (run_schedule action now) 0 m =
    schedule_phase T_MAX action now m /\
  for_upto (Z.to_nat R_MAX + extra) m_last_rct (run_pending action now) 0 m =
    pending_phase R_MAX action now m /\
  for_upto (Z.to_nat R_MAX + extra) m_last_rct (run_trigger action check now) 0 m =
    trigger_phase R_MAX action check now m.
Proof.
  intros Hwf. unfold schedule_phase, pending_phase, trigger_phase.
  split; [|split].
  - apply (for_upto_enough machine_wf _ _ T_MAX); try assumption.
    + intros; apply run_schedule_wf; assumption.
    + intros s ((_ & H) & _). exact H.
    + destruct Hwf as ((? & ?) & _). lia.
  - apply (for_upto_enough machine_wf _ _ R_MAX); try assumption.
    + intros; apply run_pending_wf; assumption.
    + intros s (_ & (_ & H) & _). exact H.
    + destruct Hwf as (_ & (? & ?) & _). lia.
  - apply (for_upto_enough machine_wf _ _ R_MAX); try assumption.
    + intros; apply run_trigger_wf; assumption.
    + intros s (_ & (_ & H) & _). exact H.
    + destruct Hwf as (_ & (? & ?) & _). lia.
Qed.

End Fuel.

End SimpleFacts.

(** * Properties of TinyEvents *)

Module TinyFacts.
Import Tiny.

(** *** The packed pending flags *)

Lemma mask_bits k n :
  0 <= k -> Z.testbit (Z.shiftl 1 k) n = (k =? n).
Proof.
  intros Hk. rewrite Z.shiftl_1_l. apply Z.pow2_bits_eqb. exact Hk.
Qed.

Lemma test_mask b k :
  0 <= k -> negb (Z.land b (Z.shiftl 1 k) =? 0) = Z.testbit b k.
Proof.
  intros Hk. destruct (Z.testbit b k) eqn:E.
  - destruct (Z.eqb_spec (Z.land b (Z.shiftl 1 k)) 0) as [H|H]; [|reflexivity].
    assert (Hb : Z.testbit (Z.land b (Z.shiftl 1 k)) k = true).
    { rewrite Z.land_spec, mask_bits, E, Z.eqb_refl by exact Hk. reflexivity. }
    rewrite H, Z.bits_0 in Hb. discriminate.
  - replace (Z.land b (Z.shiftl 1 k)) with 0; [reflexivity|].
    symmetry. apply Z.bits_inj'. intros n Hn.
    rewrite Z.land_spec, mask_bits, Z.bits_0 by exact Hk.
    destruct (Z.eqb_spec k n) as [->|]; [rewrite E|]; auto using andb_false_r.
Qed.

Lemma rem8 i : 0 <= i -> 0 <= Z.rem i 8 < 8.
Proof. intros Hi. rewrite Z.rem_mod_nonneg by lia. apply Z.mod_pos_bound. lia. Qed.

Lemma quot8 i : 0 <= i -> 0 <= Z.quot i 8.
Proof. intros Hi. rewrite Z.quot_div_nonneg by lia. apply Z.div_pos; lia. Qed.

Lemma quot_rem_inj i j :
  0 <= i -> 0 <= j -> Z.quot i 8 = Z.quot j 8 -> Z.rem i 8 = Z.rem j 8 -> i = j.
Proof.
  intros Hi Hj Hq Hr.
  rewrite (Z.quot_rem' i 8), (Z.quot_rem' j 8), Hq, Hr. reflexivity.
Qed.

Lemma flag_is_set_testbit a i :
  0 <= i ->
  flag_is_set a i = Z.testbit (aget 0 a (Z.quot i 8)) (Z.rem i 8).
Proof.
  intros Hi. unfold flag_is_set, flag_mask. apply test_mask.
  apply rem8. exact Hi.
Qed.

Lemma utrunc8_bits b n :
  0 <= n < 8 -> Z.testbit (utrunc 8 b) n = Z.testbit b n.
Proof. intros Hn. unfold utrunc. apply Z.mod_pow2_bits_low. lia. Qed.

Lemma length_flag_clear a i : length (flag_clear a i) = length a.
Proof. unfold flag_clear. apply length_aset. Qed.

Lemma length_flag_set a i : length (flag_set a i) = length a.
Proof. unfold flag_set. apply length_aset. Qed.

Lemma flag_clear_eq a i :
  0 <= i -> Z.quot i 8 < Z.of_nat (length a) ->
  flag_is_set (flag_clear a i) i = false.
Proof.
  intros Hi Hlen. pose proof (rem8 i Hi). pose proof (quot8 i Hi).
  rewrite flag_is_set_testbit by exact Hi. unfold flag_clear, flag_mask.
  rewrite aget_aset_eq, utrunc8_bits by lia.
  rewrite Z.land_spec, Z.lnot_spec, mask_bits, Z.eqb_refl by lia.
  apply andb_false_r.
Qed.

Lemma flag_set_eq a i :
  0 <= i -> Z.quot i 8 < Z.of_nat (length a) ->
  flag_is_set (flag_set a i) i = true.
Proof.
  intros Hi Hlen. pose proof (rem8 i Hi). pose proof (quot8 i Hi).
  rewrite flag_is_set_testbit by exact Hi. unfold flag_set, flag_mask.
  rewrite aget_aset_eq, utrunc8_bits by lia.
  rewrite Z.lor_spec, mask_bits, Z.eqb_refl by lia.
  apply orb_true_r.
Qed.

Lemma flag_clear_ne a i j :
  0 <= i -> 0 <= j -> i <> j ->
  flag_is_set (flag_clear a i) j = flag_is_set a j.
Proof.
  intros Hi Hj Hne. pose proof (rem8 i Hi). pose proof (quot8 i Hi).
  pose proof (rem8 j Hj). pose proof (quot8 j Hj).
  rewrite !flag_is_set_testbit by exact Hj. unfold flag_clear, flag_mask.
  destruct (Z.eq_dec (Z.quot i 8) (Z.quot j 8)) as [Hq|Hq].
  - destruct (Z_lt_dec (Z.quot i 8) (Z.of_nat (length a))) as [Hlen|Hlen].
    + rewrite Hq in *. rewrite aget_aset_eq, utrunc8_bits by lia.
      rewrite Z.land_spec, Z.lnot_spec, mask_bits by lia.
      destruct (Z.eqb_spec (Z.rem i 8) (Z.rem j 8)) as [Hr|Hr].
      * exfalso. apply Hne. apply quot_rem_inj; assumption.
      * apply andb_true_r.
    + unfold aset. rewrite list_insert_ge by lia. reflexivity.
  - rewrite aget_aset_ne by lia. reflexivity.
Qed.

Lemma flag_set_ne a i j :
  0 <= i -> 0 <= j -> i <> j ->
  flag_is_set (flag_set a i) j = flag_is_set a j.
Proof.
  intros Hi Hj Hne. pose proof (rem8 i Hi). pose proof (quot8 i Hi).
  pose proof (rem8 j Hj). pose proof (quot8 j Hj).
  rewrite !flag_is_set_testbit by exact Hj. unfold flag_set, flag_mask.
  destruct (Z.eq_dec (Z.quot i 8) (Z.quot j 8)) as [Hq|Hq].
  - destruct (Z_lt_dec (Z.quot i 8) (Z.of_nat (length a))) as [Hlen|Hlen].
    + rewrite Hq in *. rewrite aget_aset_eq, utrunc8_bits by lia.
      rewrite Z.lor_spec, mask_bits by lia.
      destruct (Z.eqb_spec (Z.rem i 8) (Z.rem j 8)) as [Hr|Hr].
      * exfalso. apply Hne. apply quot_rem_inj; assumption.
      * apply orb_false_r.
    + unfold aset. rewrite list_insert_ge by lia. reflexivity.
  - rewrite aget_aset_ne by lia. reflexivity.
Qed.

(** The byte of reaction [i] exists in a table of capacity [R_MAX]. *)
Lemma flag_byte_in_range R_MAX i :
  0 <= i < R_MAX -> Z.quot i 8 < Z.quot (7 + R_MAX) 8.
Proof.
  intros Hi. rewrite !Z.quot_div_nonneg by lia.
  apply Z.div_lt_upper_bound; [lia|].
  pose proof (Z.mul_div_le (7 + R_MAX) 8). pose proof (Z.mod_pos_bound (7 + R_MAX) 8).
  pose proof (Z.div_mod (7 + R_MAX) 8). lia.
Qed.

(** *** Frames and well-formedness *)

Definition marks_kept (e e' : Engine) : Prop :=
  last_schd e' = last_schd e /\ last_rct e' = last_rct e /\
  last_case e' = last_case e.

Definition schedules_kept (e e' : Engine) : Prop :=
  forall j, schedule e' j = schedule e j.

Definition reactions_kept (e e' : Engine) : Prop :=
  forall j, reaction e' j = reaction e j.

Definition other_schedules_kept (i : Z) (e e' : Engine) : Prop :=
  forall j, 0 <= j -> j <> i -> schedule e' j = schedule e j.

Definition other_reactions_kept (i : Z) (e e' : Engine) : Prop :=
  forall j, 0 <= j -> j <> i -> reaction e' j = reaction e j.

Definition grows (e e' : Engine) : Prop :=
  last_schd e <= last_schd e' /\ last_rct e <= last_rct e'.

Definition respects {U : Type} (T_MAX R_MAX : Z)
    (f : Sys Engine U -> Sys Engine U) : Prop :=
  forall s, wf T_MAX R_MAX (eng s) ->
    wf T_MAX R_MAX (eng (f s)) /\ grows (eng s) (eng (f s)).

Ltac guard_cases :=
  repeat match goal with
  | |- context [?a <? ?b] => destruct (Z.ltb_spec a b)
  | |- context [?a >? ?b] => rewrite (Z.gtb_ltb a b); destruct (Z.ltb_spec b a)
  | |- context [?a <=? ?b] => destruct (Z.leb_spec a b)
  | |- context [?a =? ?b] => destruct (Z.eqb_spec a b)
  end; simpl.

Ltac wf_lengths :=
  repeat match goal with
  | H : wf _ _ _ |- _ => unfold wf in H; simpl in H; decompose [and] H; clear H
  end;
  unfold wf; simpl;
  rewrite ?length_aset, ?length_flag_clear, ?length_flag_set;
  repeat split; try lia.

Ltac flag_range :=
  match goal with
  | Hi : 0 <= ?i < ?R, Hl : Z.of_nat (length ?a) = Z.quot (7 + ?R) 8
    |- Z.quot ?i 8 < Z.of_nat (length ?a) =>
      rewrite Hl; apply flag_byte_in_range; exact Hi
  | Hi : 0 <= ?i <= ?l, Hr : ?l < ?R, Hl : Z.of_nat (length ?a) = Z.quot (7 + ?R) 8
    |- Z.quot ?i 8 < Z.of_nat (length ?a) =>
      rewrite Hl; apply flag_byte_in_range; lia
  end.

Ltac rows :=
  unfold schedule, reaction, marks_kept, schedules_kept, reactions_kept,
    other_schedules_kept, other_reactions_kept; simpl;
  repeat first
    [ rewrite aget_aset_eq by lia
    | rewrite aget_aset_ne by lia
    | rewrite flag_clear_eq by first [lia | flag_range]
    | rewrite flag_set_eq by first [lia | flag_range]
    | rewrite flag_clear_ne by lia
    | rewrite flag_set_ne by lia ].

Lemma tiny_grows_refl e : grows e e.
Proof. unfold grows. lia. Qed.

Lemma tiny_grows_trans e1 e2 e3 : grows e1 e2 -> grows e2 e3 -> grows e1 e3.
Proof. unfold grows. lia. Qed.

Lemma tiny_wf_init T_MAX R_MAX :
  0 <= T_MAX -> 0 <= R_MAX -> wf T_MAX R_MAX (init T_MAX R_MAX).
Proof.
  intros HT HR. unfold wf, init; simpl.
  rewrite !length_replicate.
  assert (0 <= Z.quot (7 + R_MAX) 8) by (apply Z.quot_pos; lia).
  repeat split; lia.
Qed.

Lemma tiny_wf_addSchedule T_MAX R_MAX cb iv d e :
  wf T_MAX R_MAX e -> wf T_MAX R_MAX (snd (addSchedule T_MAX cb iv d e)).
Proof.
  intros H. unfold addSchedule. guard_cases; [exact H|]. wf_lengths.
Qed.

Lemma tiny_wf_addReaction T_MAX R_MAX tr cb to dl d e :
  wf T_MAX R_MAX e -> wf T_MAX R_MAX (snd (addReaction R_MAX tr cb to dl d e)).
Proof.
  intros H. unfold addReaction. guard_cases; [exact H|]. wf_lengths.
Qed.

Lemma tiny_wf_cancelReaction T_MAX R_MAX id rd ts abs now e :
  wf T_MAX R_MAX e -> wf T_MAX R_MAX (cancelReaction id rd ts abs now e).
Proof.
  intros H. unfold cancelReaction.
  destruct ((id <? 0) || (id >? last_rct e)); [exact H|].
  destruct (rd >? 0); wf_lengths.
Qed.

Lemma wf_setNextSchedule T_MAX R_MAX id ts abs now e :
  wf T_MAX R_MAX e -> wf T_MAX R_MAX (setNextSchedule id ts abs now e).
Proof.
  intros H. unfold setNextSchedule.
  destruct ((id <? 0) || (id >? last_schd e)); [exact H|]. wf_lengths.
Qed.

Lemma wf_setNextTrigger T_MAX R_MAX id ts abs now e :
  wf T_MAX R_MAX e -> wf T_MAX R_MAX (setNextTrigger id ts abs now e).
Proof.
  intros H. unfold setNextTrigger.
  destruct ((id <? 0) || (id >? last_rct e)); [exact H|]. wf_lengths.
Qed.

(** *** Adding entries *)

Lemma tiny_addSchedule_full T_MAX cb iv d e :
  T_MAX - 1 <= last_schd e -> addSchedule T_MAX cb iv d e = (-1, e).
Proof. intros H. unfold addSchedule. guard_cases; [reflexivity|lia]. Qed.

Lemma tiny_addReaction_full R_MAX tr cb to dl d e :
  R_MAX - 1 <= last_rct e -> addReaction R_MAX tr cb to dl d e = (-1, e).
Proof. intros H. unfold addReaction. guard_cases; [reflexivity|lia]. Qed.

Lemma tiny_addSchedule_room T_MAX R_MAX cb iv d e :
  wf T_MAX R_MAX e -> last_schd e < T_MAX - 1 ->
  let id := last_schd e + 1 in
  let e' := snd (addSchedule T_MAX cb iv d e) in
  fst (addSchedule T_MAX cb iv d e) = id /\
  last_schd e' = id /\ last_rct e' = last_rct e /\
  schedule e' id =
    {| s_action := cb; s_interval := iv; s_next_fire := d |} /\
  other_schedules_kept id e e' /\ reactions_kept e e'.
Proof.
  intros Hwf Hroom. unfold addSchedule. guard_cases; [lia|].
  unfold wf in Hwf. decompose [and] Hwf. clear Hwf.
  repeat split; rows; try reflexivity.
  intros j Hj Hne. rows. reflexivity.
Qed.

Lemma tiny_addReaction_room T_MAX R_MAX tr cb to dl d e :
  wf T_MAX R_MAX e -> last_rct e < R_MAX - 1 ->
  let id := last_rct e + 1 in
  let e' := snd (addReaction R_MAX tr cb to dl d e) in
  fst (addReaction R_MAX tr cb to dl d e) = id /\
  last_rct e' = id /\ last_schd e' = last_schd e /\
  reaction e' id =
    {| r_predicate := tr; r_action := cb; r_timeout := to; r_delay := dl;
       r_next_trigger_check := d;
       r_next_execution := r_next_execution (reaction e id);
       r_pending := r_pending (reaction e id) |} /\
  other_reactions_kept id e e' /\ schedules_kept e e'.
Proof.
  intros Hwf Hroom. unfold addReaction. guard_cases; [lia|].
  unfold wf in Hwf. decompose [and] Hwf. clear Hwf.
  repeat split; rows; try reflexivity.
  intros j Hj Hne. rows. reflexivity.
Qed.

Lemma tiny_addSchedules_ids T_MAX R_MAX args : forall e,
  wf T_MAX R_MAX e ->
  fst (addSchedules T_MAX args e) =
    dense_ids T_MAX (last_schd e + 1) (length args).
Proof.
  induction args as [|[[cb iv] d] args IH]; intros e Hwf; [reflexivity|].
  cbn [addSchedules length dense_ids].
  pose proof (tiny_wf_addSchedule T_MAX R_MAX cb iv d e Hwf) as W1.
  destruct (Z.ltb_spec (last_schd e + 1) T_MAX) as [Hroom|Hfull].
  - destruct (tiny_addSchedule_room T_MAX R_MAX cb iv d e Hwf) as (Hid & Hlast & _);
      [lia|].
    destruct (addSchedule T_MAX cb iv d e) as [id e1]. simpl in *.
    specialize (IH e1 W1).
    destruct (addSchedules T_MAX args e1) as [ids e2]. simpl in *.
    rewrite IH, Hid, Hlast. reflexivity.
  - rewrite tiny_addSchedule_full by lia.
    specialize (IH e Hwf).
    destruct (addSchedules T_MAX args e) as [ids e2]. simpl in *.
    rewrite IH. reflexivity.
Qed.

Lemma tiny_addReactions_ids T_MAX R_MAX args : forall e,
  wf T_MAX R_MAX e ->
  fst (addReactions R_MAX args e) =
    dense_ids R_MAX (last_rct e + 1) (length args).
Proof.
  induction args as [|[[[[tr cb] to] dl] d] args IH]; intros e Hwf;
    [reflexivity|].
  cbn [addReactions length dense_ids].
  pose proof (tiny_wf_addReaction T_MAX R_MAX tr cb to dl d e Hwf) as W1.
  destruct (Z.ltb_spec (last_rct e + 1) R_MAX) as [Hroom|Hfull].
  - destruct (tiny_addReaction_room T_MAX R_MAX tr cb to dl d e Hwf) as (Hid & Hlast & _);
      [lia|].
    destruct (addReaction R_MAX tr cb to dl d e) as [id e1]. simpl in *.
    specialize (IH e1 W1).
    destruct (addReactions R_MAX args e1) as [ids e2]. simpl in *.
    rewrite IH, Hid, Hlast. reflexivity.
  - rewrite tiny_addReaction_full by lia.
    specialize (IH e Hwf).
    destruct (addReactions R_MAX args e) as [ids e2]. simpl in *.
    rewrite IH. reflexivity.
Qed.

(** *** The control operations on an id outside [0, last] *)

Lemma tiny_cancelReaction_invalid id rd ts abs now e :
  id < 0 \/ last_rct e < id -> cancelReaction id rd ts abs now e = e.
Proof.
  intros H. unfold cancelReaction.
  destruct (Z.ltb_spec id 0); [reflexivity|].
  rewrite Z.gtb_ltb. destruct (Z.ltb_spec (last_rct e) id); [reflexivity|lia].
Qed.

Lemma setNextSchedule_invalid id ts abs now e :
  id < 0 \/ last_schd e < id -> setNextSchedule id ts abs now e = e.
Proof.
  intros H. unfold setNextSchedule.
  destruct (Z.ltb_spec id 0); [reflexivity|].
  rewrite Z.gtb_ltb. destruct (Z.ltb_spec (last_schd e) id); [reflexivity|lia].
Qed.

Lemma setNextTrigger_invalid id ts abs now e :
  id < 0 \/ last_rct e < id -> setNextTrigger id ts abs now e = e.
Proof.
  intros H. unfold setNextTrigger.
  destruct (Z.ltb_spec id 0); [reflexivity|].
  rewrite Z.gtb_ltb. destruct (Z.ltb_spec (last_rct e) id); [reflexivity|lia].
Qed.

(** *** What one call of [run()] adds to the trace *)

Section RunTrace.
Variables T_MAX R_MAX : Z.
Context {U : Type}.
Variable action : fnptr -> Sys Engine U -> Sys Engine U.
Variable check : fnptr -> Sys Engine U -> bool * Sys Engine U.

Lemma tiny_run_schedule_trace now j m :
  exists l, trace (run_schedule action now j m) = trace m ++ l /\
    Forall (phase_event is_schedule_event now j) l /\ StronglySorted id_lt l.
Proof.
  unfold run_schedule.
  destruct (aget 0 (schd_nextCalls (eng (sys m))) j <? now).
  - eexists [_]. simpl. split; [reflexivity|]. split; [|apply sorted_one].
    repeat constructor.
  - exists []. rewrite app_nil_r. repeat constructor.
Qed.

Lemma tiny_run_pending_trace now j m :
  exists l, trace (run_pending action now j m) = trace m ++ l /\
    Forall (phase_event is_settle_event now j) l /\ StronglySorted id_lt l.
Proof.
  unfold run_pending.
  destruct (flag_is_set (rct_areTrigged (eng (sys m))) j &&
            (aget 0 (rct_nextCalls (eng (sys m))) j <? now)).
  - eexists [_]. simpl. split; [reflexivity|]. split; [|apply sorted_one].
    repeat constructor.
  - exists []. rewrite app_nil_r. repeat constructor.
Qed.

Lemma tiny_run_trigger_trace now j m :
  exists l, trace (run_trigger action check now j m) = trace m ++ l /\
    Forall (phase_event is_scan_event now j) l /\ StronglySorted id_le l.
Proof.
  unfold run_trigger.
  destruct (aget 0 (rct_nextTrigs (eng (sys m))) j <? now).
  - destruct (check (aget nullptr (rct_trigs (eng (sys m))) j) (sys m))
      as [fired s].
    destruct fired.
    + destruct (aget 0 (rct_tDelays (eng s)) j =? 0); simpl.
      * eexists [_; _]. rewrite <- app_assoc. split; [reflexivity|].
        split; [|apply sorted_same_id; reflexivity]. repeat constructor.
      * eexists [_; _]. rewrite <- app_assoc. split; [reflexivity|].
        split; [|apply sorted_same_id; reflexivity]. repeat constructor.
    + eexists [_]. simpl. split; [reflexivity|]. split; [|apply sorted_one].
      repeat constructor.
  - exists []. rewrite app_nil_r. repeat constructor.
Qed.

(** The three loops of [run()] leave, in this order, the events of the
    schedules, of the pending executions and of the trigger scan. *)
Lemma tiny_run_trace m :
  exists l1 l2 l3,
    trace (run T_MAX R_MAX action check m) = trace m ++ l1 ++ l2 ++ l3 /\
    phase_trace is_schedule_event id_lt (clk (sys m)) 0 l1 /\
    phase_trace is_settle_event id_lt (clk (sys m)) 0 l2 /\
    phase_trace is_scan_event id_le (clk (sys m)) 0 l3.
Proof.
  unfold run, schedule_phase, pending_phase, trigger_phase.
  set (now := clk (sys m)).
  destruct (for_upto_phase_trace is_schedule_event id_lt now m_last_schd
              (run_schedule action now) (fun a b H => H)
              (tiny_run_schedule_trace now) (Z.to_nat T_MAX) 0 m)
    as (l1 & H1 & P1).
  set (m1 := for_upto (Z.to_nat T_MAX) m_last_schd (run_schedule action now) 0 m) in *.
  destruct (for_upto_phase_trace is_settle_event id_lt now m_last_rct
              (run_pending action now) (fun a b H => H)
              (tiny_run_pending_trace now) (Z.to_nat R_MAX) 0 m1)
    as (l2 & H2 & P2).
  set (m2 := for_upto (Z.to_nat R_MAX) m_last_rct (run_pending action now) 0 m1) in *.
  destruct (for_upto_phase_trace is_scan_event id_le now m_last_rct
              (run_trigger action check now) id_lt_le
              (tiny_run_trigger_trace now) (Z.to_nat R_MAX) 0 m2)
    as (l3 & H3 & P3).
  exists l1, l2, l3. rewrite H3, H2, H1, <- !app_assoc. auto.
Qed.

End RunTrace.

(** *** One schedule followed through a tick *)

Section OneSchedule.
Variables T_MAX R_MAX : Z.
Context {U : Type}.
Variable action : fnptr -> Sys Engine U -> Sys Engine U.
Variable check : fnptr -> Sys Engine U -> bool * Sys Engine U.

(** The sketch's functions use the engine through its methods only. *)
Hypothesis action_respects : forall p, respects T_MAX R_MAX (action p).
Hypothesis check_respects :
  forall p, respects T_MAX R_MAX (fun s => snd (check p s)).

Variable i : Z.

(** No function of the sketch pauses, resumes or otherwise alters
    schedule [i]. *)
Definition keeps_schedule (f : Sys Engine U -> Sys Engine U) : Prop :=
  forall s, schedule (eng (f s)) i = schedule (eng s) i.

Hypothesis action_keeps : forall p, keeps_schedule (action p).
Hypothesis check_keeps : forall p, keeps_schedule (fun s => snd (check p s)).

(** A step that leaves schedule [i] as it is and does not execute it. *)
Definition quiet (m m' : Machine Engine U) : Prop :=
  wf T_MAX R_MAX (eng (sys m')) /\
  grows (eng (sys m)) (eng (sys m')) /\
  schedule (eng (sys m')) i = schedule (eng (sys m)) i /\
  exists l, trace m' = trace m ++ l /\ schedule_firings i l = [].

Lemma tiny_quiet_refl m : wf T_MAX R_MAX (eng (sys m)) -> quiet m m.
Proof.
  intros Hwf. split; [exact Hwf|]. split; [apply tiny_grows_refl|].
  split; [reflexivity|]. exists []. rewrite app_nil_r. auto.
Qed.

Lemma tiny_quiet_trans m1 m2 m3 : quiet m1 m2 -> quiet m2 m3 -> quiet m1 m3.
Proof.
  intros (_ & G1 & S1 & l1 & T1 & D1) (W2 & G2 & S2 & l2 & T2 & D2).
  split; [exact W2|]. split; [eapply tiny_grows_trans; eassumption|].
  split; [congruence|]. exists (l1 ++ l2).
  rewrite T2, T1, app_assoc, schedule_firings_app, D1, D2. auto.
Qed.

Ltac call_action p s :=
  let W := fresh "W" in let G := fresh "G" in let K := fresh "K" in
  pose proof (action_keeps p s) as K;
  destruct (action_respects p s) as [W G]; [wf_lengths|].

Lemma tiny_run_schedule_other now j m :
  wf T_MAX R_MAX (eng (sys m)) -> 0 <= i -> 0 <= j -> j <> i ->
  quiet m (run_schedule action now j m).
Proof.
  intros Hwf Hi Hj Hne. unfold run_schedule.
  destruct (aget 0 (schd_nextCalls (eng (sys m))) j <? now);
    [|apply tiny_quiet_refl; exact Hwf].
  match goal with |- context [action ?p ?s] => call_action p s end.
  split; [exact W|]. split; [exact G|]. split.
  - cbn [sys emit with_sys]. rewrite K. rows. reflexivity.
  - eexists [_]. split; [reflexivity|]. simpl.
    destruct (Z.eqb_spec j i); [contradiction|reflexivity].
Qed.

Lemma tiny_run_schedule_at now m :
  wf T_MAX R_MAX (eng (sys m)) -> 0 <= i <= last_schd (eng (sys m)) ->
  let r := schedule (eng (sys m)) i in
  let m' := run_schedule action now i m in
  wf T_MAX R_MAX (eng (sys m')) /\
  grows (eng (sys m)) (eng (sys m')) /\
  exists l, trace m' = trace m ++ l /\
    if s_next_fire r <? now
    then l = [ScheduleExecuted i (s_next_fire r) now] /\
         schedule (eng (sys m')) i =
           {| s_action := s_action r; s_interval := s_interval r;
              s_next_fire := ulong (s_next_fire r + s_interval r) |}
    else l = [] /\ schedule (eng (sys m')) i = r.
Proof.
  intros Hwf Hi. simpl. unfold run_schedule.
  change (aget 0 (schd_nextCalls (eng (sys m))) i)
    with (s_next_fire (schedule (eng (sys m)) i)).
  destruct (s_next_fire (schedule (eng (sys m)) i) <? now).
  - match goal with |- context [action ?p ?s] => call_action p s end.
    split; [exact W|]. split; [exact G|].
    eexists [_]. split; [reflexivity|]. split; [reflexivity|].
    cbn [sys emit with_sys]. rewrite K. unfold wf in Hwf. decompose [and] Hwf.
    rows. rewrite ulong_add_r. reflexivity.
  - split; [exact Hwf|]. split; [apply tiny_grows_refl|].
    exists []. rewrite app_nil_r. auto.
Qed.

Lemma tiny_run_pending_quiet now j m :
  wf T_MAX R_MAX (eng (sys m)) -> quiet m (run_pending action now j m).
Proof.
  intros Hwf. unfold run_pending.
  destruct (flag_is_set (rct_areTrigged (eng (sys m))) j &&
            (aget 0 (rct_nextCalls (eng (sys m))) j <? now));
    [|apply tiny_quiet_refl; exact Hwf].
  match goal with |- context [action ?p ?s] => call_action p s end.
  split; [exact W|]. split; [exact G|]. split.
  - cbn [sys emit with_sys]. rewrite K. reflexivity.
  - eexists [_]. split; reflexivity.
Qed.

Lemma tiny_run_trigger_quiet now j m :
  wf T_MAX R_MAX (eng (sys m)) -> quiet m (run_trigger action check now j m).
Proof.
  intros Hwf. unfold run_trigger.
  destruct (aget 0 (rct_nextTrigs (eng (sys m))) j <? now);
    [|apply tiny_quiet_refl; exact Hwf].
  pose proof (check_keeps (aget nullptr (rct_trigs (eng (sys m))) j) (sys m)) as Kc.
  unfold keeps_schedule in Kc. cbv beta in Kc.
  destruct (check_respects (aget nullptr (rct_trigs (eng (sys m))) j) (sys m) Hwf)
    as [Wc Gc].
  destruct (check (aget nullptr (rct_trigs (eng (sys m))) j) (sys m))
    as [fired s]. simpl in Kc, Wc, Gc.
  destruct fired.
  - destruct (aget 0 (rct_tDelays (eng s)) j =? 0).
    + match goal with |- context [action ?p ?s] => call_action p s end.
      split; [exact W|]. split; [eapply tiny_grows_trans; eassumption|]. split.
      * cbn [sys emit with_sys]. rewrite K. exact Kc.
      * eexists [_; _]. simpl. rewrite <- app_assoc. split; reflexivity.
    + split; [simpl; wf_lengths|]. split; [exact Gc|]. split.
      * simpl. exact Kc.
      * eexists [_; _]. simpl. rewrite <- app_assoc. split; reflexivity.
  - split; [exact Wc|]. split; [exact Gc|]. split; [exact Kc|].
    eexists [_]. split; reflexivity.
Qed.

(** What a tick whose clock reads [now] does to a schedule whose row was
    [r] when the tick began: [fs] are its executions in the tick and [r']
    its row afterwards. *)
Definition schedule_outcome (now : Z) (r : Schedule) (fs : list (Z * Z))
    (r' : Schedule) : Prop :=
  if s_next_fire r <? now
  then fs = [(s_next_fire r, now)] /\
       r' = {| s_action := s_action r; s_interval := s_interval r;
               s_next_fire := ulong (s_next_fire r + s_interval r) |}
  else fs = [] /\ r' = r.

Lemma tiny_schedule_phase_at now m :
  wf T_MAX R_MAX (eng (sys m)) -> 0 <= i <= last_schd (eng (sys m)) ->
  let m' := schedule_phase T_MAX action now m in
  wf T_MAX R_MAX (eng (sys m')) /\
  grows (eng (sys m)) (eng (sys m')) /\
  exists l, trace m' = trace m ++ l /\
    schedule_outcome now (schedule (eng (sys m)) i)
      (schedule_firings i l) (schedule (eng (sys m')) i).
Proof.
  intros Hwf Hi. simpl. unfold schedule_phase.
  remember (schedule (eng (sys m)) i) as r eqn:Hr.
  pose (P := fun (j : Z) (m' : Machine Engine U) =>
    0 <= j /\ wf T_MAX R_MAX (eng (sys m')) /\
    grows (eng (sys m)) (eng (sys m')) /\
    exists l, trace m' = trace m ++ l /\
      ((j <= i /\ schedule_firings i l = [] /\ schedule (eng (sys m')) i = r) \/
       (i < j /\ schedule_outcome now r (schedule_firings i l)
                   (schedule (eng (sys m')) i)))).
  assert (Hstep : forall j s, P j s -> j <= m_last_schd s ->
                    P (j + 1) (run_schedule action now j s)).
  { intros j s (Hj & W & G & l & T & Hcase) _.
    destruct (Z.eq_dec j i) as [->|Hne].
    - destruct Hcase as [(_ & D & R)|(Hlt & _)]; [|lia].
      destruct (tiny_run_schedule_at now s W) as (W' & G' & l' & T' & O').
      { unfold grows in G. lia. }
      split; [lia|]. split; [exact W'|].
      split; [eapply tiny_grows_trans; eassumption|].
      exists (l ++ l'). split; [rewrite T', T, app_assoc; reflexivity|].
      right. split; [lia|]. unfold schedule_outcome.
      rewrite schedule_firings_app, D. rewrite R in O'.
      destruct (s_next_fire r <? now);
        destruct O' as [-> ->]; simpl; rewrite ?Z.eqb_refl; auto.
    - destruct (tiny_run_schedule_other now j s W) as (W' & G' & R' & l' & T' & D');
        try lia.
      split; [lia|]. split; [exact W'|].
      split; [eapply tiny_grows_trans; eassumption|].
      exists (l ++ l'). split; [rewrite T', T, app_assoc; reflexivity|].
      rewrite schedule_firings_app, D', app_nil_r, R'.
      destruct Hcase as [(Hle & D & R)|(Hlt & O)].
      + left. repeat split; try assumption; lia.
      + right. split; [lia|exact O]. }
  assert (H0 : P 0 m).
  { split; [lia|]. split; [exact Hwf|]. split; [apply tiny_grows_refl|].
    exists []. rewrite app_nil_r. split; [reflexivity|].
    left. repeat split; auto; lia. }
  pose proof (for_upto_ind P m_last_schd (run_schedule action now) Hstep
                (Z.to_nat T_MAX) 0 m H0) as Hloop.
  set (mf := for_upto (Z.to_nat T_MAX) m_last_schd (run_schedule action now) 0 m) in *.
  destruct Hloop as (k & Hk & (_ & W & G & l & T & Hcase) & Hend).
  split; [exact W|]. split; [exact G|].
  exists l. split; [exact T|].
  destruct Hcase as [(Hle & _)|(_ & O)]; [|exact O].
  exfalso. unfold m_last_schd in Hend. unfold grows in G.
  unfold wf in W. destruct W as ((? & ?) & _).
  unfold wf in Hwf. destruct Hwf as ((? & ?) & _). lia.
Qed.

Lemma tiny_quiet_phases now m :
  wf T_MAX R_MAX (eng (sys m)) ->
  quiet m (trigger_phase R_MAX action check now (pending_phase R_MAX action now m)).
Proof.
  intros Hwf.
  assert (H1 : quiet m (pending_phase R_MAX action now m)).
  { unfold pending_phase.
    apply (for_upto_inv (quiet m)); [|apply tiny_quiet_refl; exact Hwf].
    intros j s Q _. eapply tiny_quiet_trans; [exact Q|].
    apply tiny_run_pending_quiet. destruct Q as (W & _). exact W. }
  unfold trigger_phase.
  apply (for_upto_inv (quiet m)); [|exact H1].
  intros j s Q _. eapply tiny_quiet_trans; [exact Q|].
  apply tiny_run_trigger_quiet. destruct Q as (W & _). exact W.
Qed.

(** One call of [run()]. *)
Lemma tiny_run_one_schedule m :
  wf T_MAX R_MAX (eng (sys m)) -> 0 <= i <= last_schd (eng (sys m)) ->
  let m' := run T_MAX R_MAX action check m in
  wf T_MAX R_MAX (eng (sys m')) /\
  grows (eng (sys m)) (eng (sys m')) /\
  exists l, trace m' = trace m ++ l /\
    schedule_outcome (clk (sys m)) (schedule (eng (sys m)) i)
      (schedule_firings i l) (schedule (eng (sys m')) i).
Proof.
  intros Hwf Hi. simpl. unfold run.
  destruct (tiny_schedule_phase_at (clk (sys m)) m Hwf Hi)
    as (W1 & G1 & l1 & T1 & O1).
  destruct (tiny_quiet_phases (clk (sys m)) _ W1) as (W2 & G2 & R2 & l2 & T2 & D2).
  split; [exact W2|]. split; [eapply tiny_grows_trans; eassumption|].
  exists (l1 ++ l2). split; [rewrite T2, T1, app_assoc; reflexivity|].
  rewrite schedule_firings_app, D2, app_nil_r, R2. exact O1.
Qed.

Lemma tiny_tick_one_schedule t m :
  wf T_MAX R_MAX (eng (sys m)) -> 0 <= i <= last_schd (eng (sys m)) ->
  let m' := tick T_MAX R_MAX action check t m in
  wf T_MAX R_MAX (eng (sys m')) /\
  grows (eng (sys m)) (eng (sys m')) /\
  exists l, trace m' = trace m ++ l /\
    schedule_outcome t (schedule (eng (sys m)) i)
      (schedule_firings i l) (schedule (eng (sys m')) i).
Proof.
  intros Hwf Hi. unfold tick.
  exact (tiny_run_one_schedule
           (with_sys {| eng := eng (sys m); clk := t; usr := usr (sys m) |} m)
           Hwf Hi).
Qed.



End OneSchedule.


Lemma tiny_run_schedule_idle {U : Type}
    (action : fnptr -> Sys Engine U -> Sys Engine U) now i
    (m : Machine Engine U) :
  let r := schedule (eng (sys m)) i in
  now <= s_next_fire r ->
  run_schedule action now i m = m.
Proof.
  intros r H. subst r. unfold run_schedule. cbv zeta.
  change (aget 0 (schd_nextCalls (eng (sys m))) i)
    with (s_next_fire (schedule (eng (sys m)) i)).
  destruct (Z.ltb_spec (s_next_fire (schedule (eng (sys m)) i)) now); [lia|].
  reflexivity.
Qed.

(** *** One reaction followed through the ticks *)

Section OneReaction.
Variables T_MAX R_MAX : Z.
Context {U : Type}.
Variable action : fnptr -> Sys Engine U -> Sys Engine U.
Variable check : fnptr -> Sys Engine U -> bool * Sys Engine U.

Hypothesis action_respects : forall p, respects T_MAX R_MAX (action p).
Hypothesis check_respects :
  forall p, respects T_MAX R_MAX (fun s => snd (check p s)).

Variable i : Z.
Hypothesis i_range : 0 <= i < R_MAX.

(** No method of the engine other than [run()] sets the pending flag, so a
    function of the sketch can clear the flag of reaction [i] but cannot
    raise it. *)
Definition never_queues (f : Sys Engine U -> Sys Engine U) : Prop :=
  forall s, r_pending (reaction (eng (f s)) i) = true ->
            r_pending (reaction (eng s) i) = true.

Hypothesis action_never_queues : forall p, never_queues (action p).
Hypothesis check_never_queues :
  forall p, never_queues (fun s => snd (check p s)).

Definition pending_now (m : Machine Engine U) : Z :=
  Z.b2z (r_pending (reaction (eng (sys m)) i)).

(** The ledger of reaction [i] since the state [m0]: the executions of its
    queued action, plus the one still queued if any, never exceed the
    accepted delayed triggers, plus the one that was queued in [m0]. *)
Definition ledger (m0 m : Machine Engine U) : Prop :=
  wf T_MAX R_MAX (eng (sys m)) /\
  exists l, trace m = trace m0 ++ l /\
    Z.of_nat (count_events (reaction_settled i) l) + pending_now m <=
    Z.of_nat (count_events (reaction_queued i) l) + pending_now m0.

Lemma tiny_ledger_refl m : wf T_MAX R_MAX (eng (sys m)) -> ledger m m.
Proof.
  intros Hwf. split; [exact Hwf|]. exists []. rewrite app_nil_r.
  split; [reflexivity|]. rewrite !count_events_nil. lia.
Qed.

Lemma tiny_b2z_never_queues (f : Sys Engine U -> Sys Engine U) s :
  never_queues f ->
  Z.b2z (r_pending (reaction (eng (f s)) i)) <=
  Z.b2z (r_pending (reaction (eng s) i)).
Proof.
  intros H. specialize (H s).
  destruct (r_pending (reaction (eng (f s)) i)).
  - rewrite H by reflexivity. cbn [Z.b2z]. lia.
  - destruct (r_pending (reaction (eng s) i)); cbn [Z.b2z]; lia.
Qed.

Lemma tiny_ledger_emit m0 m ev :
  ledger m0 m -> reaction_settled i ev = false -> ledger m0 (emit ev m).
Proof.
  intros (Hwf & l & T & L) Hev. split; [exact Hwf|].
  exists (l ++ [ev]). split; [simpl; rewrite T, app_assoc; reflexivity|].
  rewrite !count_events_app, !count_events_one, Hev.
  unfold pending_now in *. cbn [sys emit].
  destruct (reaction_queued i ev); lia.
Qed.

Lemma tiny_ledger_update m0 m e1 :
  ledger m0 m -> wf T_MAX R_MAX e1 ->
  Z.b2z (r_pending (reaction e1 i)) <= pending_now m ->
  ledger m0 (with_sys (with_eng e1 (sys m)) m).
Proof.
  intros (Hwf & l & T & L) W1 H1. split; [exact W1|].
  exists l. split; [exact T|].
  unfold pending_now in *. cbn [sys with_sys eng with_eng]. lia.
Qed.

Lemma tiny_ledger_call m0 m (f : Sys Engine U -> Sys Engine U) :
  ledger m0 m -> respects T_MAX R_MAX f -> never_queues f ->
  ledger m0 (with_sys (f (sys m)) m).
Proof.
  intros (Hwf & l & T & L) Hf Hq. destruct (Hf (sys m) Hwf) as [W _].
  split; [exact W|]. exists l. split; [exact T|].
  pose proof (tiny_b2z_never_queues f (sys m) Hq).
  unfold pending_now in *. cbn [sys with_sys]. lia.
Qed.

(** Executing the queued action: the flag goes down as the count of
    executions goes up. *)
Lemma tiny_ledger_settle m0 m e1 now (f : Sys Engine U -> Sys Engine U) :
  ledger m0 m -> r_pending (reaction (eng (sys m)) i) = true ->
  wf T_MAX R_MAX e1 -> r_pending (reaction e1 i) = false ->
  respects T_MAX R_MAX f -> never_queues f ->
  ledger m0 (emit (ReactionExecuted i now)
               (with_sys (f (with_eng e1 (sys m))) m)).
Proof.
  intros (Hwf & l & T & L) Hp W1 H1 Hf Hq.
  destruct (Hf (with_eng e1 (sys m)) W1) as [W _].
  split; [exact W|].
  exists (l ++ [ReactionExecuted i now]).
  split; [simpl; rewrite T, app_assoc; reflexivity|].
  rewrite !count_events_app, !count_events_one.
  cbn [reaction_settled reaction_queued]. rewrite Z.eqb_refl.
  pose proof (tiny_b2z_never_queues f (with_eng e1 (sys m)) Hq) as K.
  cbn [eng with_eng] in K. rewrite H1 in K.
  unfold pending_now in *. cbn [sys emit with_sys]. rewrite Hp in L.
  cbn [Z.b2z] in *. lia.
Qed.

(** Accepting a delayed trigger: the flag is raised (or stays raised) as
    the count of accepted triggers goes up. *)
Lemma tiny_ledger_queue m0 m e1 now :
  ledger m0 m -> wf T_MAX R_MAX e1 ->
  ledger m0 (emit (ReactionTriggered i now)
               (with_sys (with_eng e1 (sys m)) m)).
Proof.
  intros (Hwf & l & T & L) W1. split; [exact W1|].
  exists (l ++ [ReactionTriggered i now]).
  split; [simpl; rewrite T, app_assoc; reflexivity|].
  rewrite !count_events_app, !count_events_one.
  cbn [reaction_settled reaction_queued]. rewrite Z.eqb_refl.
  unfold pending_now in *. cbn [sys emit with_sys eng with_eng].
  destruct (r_pending (reaction e1 i)), (r_pending (reaction (eng (sys m)) i));
    cbn [Z.b2z] in *; lia.
Qed.

Lemma tiny_ledger_wf m0 m : ledger m0 m -> wf T_MAX R_MAX (eng (sys m)).
Proof. intros (Hwf & _). exact Hwf. Qed.

Lemma tiny_run_schedule_ledger now j m0 m :
  ledger m0 m -> ledger m0 (run_schedule action now j m).
Proof.
  intros L. pose proof (tiny_ledger_wf _ _ L) as Hwf.
  unfold run_schedule. cbv zeta.
  destruct (aget 0 (schd_nextCalls (eng (sys m))) j <? now);
    [|exact L].
  apply tiny_ledger_emit; [|reflexivity].
  match goal with |- context [action ?p (with_eng ?e1 _)] =>
    apply (tiny_ledger_call m0 (with_sys (with_eng e1 (sys m)) m) (action p));
      [apply tiny_ledger_update; [exact L|wf_lengths|reflexivity]
      |apply action_respects|apply action_never_queues]
  end.
Qed.

Lemma tiny_run_pending_ledger now j m0 m :
  0 <= j -> ledger m0 m -> ledger m0 (run_pending action now j m).
Proof.
  intros Hj L. pose proof (tiny_ledger_wf _ _ L) as Hwf.
  unfold run_pending. cbv zeta.
  destruct (flag_is_set (rct_areTrigged (eng (sys m))) j) eqn:Hp;
    [|exact L].
  destruct (aget 0 (rct_nextCalls (eng (sys m))) j <? now); [|exact L].
  cbn [andb].
  destruct (Z.eq_dec j i) as [->|Hne].
  - apply tiny_ledger_settle; try assumption.
    + wf_lengths.
    + unfold wf in Hwf. decompose [and] Hwf. rows. reflexivity.
    + apply action_respects.
    + apply action_never_queues.
  - apply tiny_ledger_emit; [|simpl; destruct (Z.eqb_spec j i); congruence].
    match goal with |- context [action ?p (with_eng ?e1 _)] =>
      apply (tiny_ledger_call m0 (with_sys (with_eng e1 (sys m)) m) (action p));
        [apply tiny_ledger_update; [exact L|wf_lengths|]
        |apply action_respects|apply action_never_queues]
    end.
    unfold pending_now. rows. lia.
Qed.

Lemma tiny_run_trigger_ledger now j m0 m :
  0 <= j -> ledger m0 m -> ledger m0 (run_trigger action check now j m).
Proof.
  intros Hj L. pose proof (tiny_ledger_wf _ _ L) as Hwf.
  unfold run_trigger. cbv zeta.
  destruct (aget 0 (rct_nextTrigs (eng (sys m))) j <? now);
    [|exact L].
  pose proof (tiny_ledger_call m0 m _ L
                (check_respects (aget nullptr (rct_trigs (eng (sys m))) j))
                (check_never_queues (aget nullptr (rct_trigs (eng (sys m))) j)))
    as Lc.
  cbv beta in Lc.
  destruct (check (aget nullptr (rct_trigs (eng (sys m))) j) (sys m))
    as [fired s]. cbn [snd] in Lc.
  pose proof (tiny_ledger_wf _ _ Lc) as Wc. cbn [sys with_sys] in Wc.
  pose proof (tiny_ledger_emit _ _ (TriggerChecked j now fired) Lc eq_refl) as Le.
  destruct fired; [|exact Le].
  destruct (aget 0 (rct_tDelays (eng s)) j =? 0).
  - apply tiny_ledger_emit; [|reflexivity].
    match goal with |- context [action ?p (with_eng ?e1 _)] =>
      apply (tiny_ledger_call m0
               (with_sys (with_eng e1 s)
                  (emit (TriggerChecked j now true) (with_sys s m)))
               (action p));
        [apply (tiny_ledger_update m0 _ e1 Le); [wf_lengths|]
        |apply action_respects|apply action_never_queues]
    end.
    unfold pending_now. cbn [sys emit with_sys]. rows. lia.
  - destruct (Z.eq_dec j i) as [->|Hne].
    + match goal with |- context [with_eng ?e1 _] =>
        apply (tiny_ledger_queue m0 (emit (TriggerChecked i now true) (with_sys s m)) e1)
      end; [exact Le|wf_lengths].
    + apply tiny_ledger_emit; [|reflexivity].
      match goal with |- context [with_eng ?e1 _] =>
        apply (tiny_ledger_update m0 (emit (TriggerChecked j now true) (with_sys s m)) e1 Le);
          [wf_lengths|]
      end.
      unfold pending_now. cbn [sys emit with_sys]. rows. lia.
Qed.

Lemma tiny_run_ledger m0 m :
  ledger m0 m -> ledger m0 (run T_MAX R_MAX action check m).
Proof.
  intros L. unfold run, schedule_phase, pending_phase, trigger_phase.
  apply (for_upto_inv_from (ledger m0)).
  { intros j s Hj. apply tiny_run_trigger_ledger. exact Hj. }
  apply (for_upto_inv_from (ledger m0)).
  { intros j s Hj. apply tiny_run_pending_ledger. exact Hj. }
  apply (for_upto_inv_from (ledger m0)); [|exact L].
  intros j s _. apply tiny_run_schedule_ledger.
Qed.

Lemma tiny_ticks_ledger ts : forall m0 m,
  ledger m0 m -> ledger m0 (ticks T_MAX R_MAX action check ts m).
Proof.
  induction ts as [|t ts IH]; intros m0 m L; [exact L|].
  simpl. apply IH. unfold tick. apply tiny_run_ledger.
  destruct L as (Hwf & l & T & L). split; [exact Hwf|].
  exists l. split; [exact T|exact L].
Qed.

End OneReaction.

(** *** At most one execution per entry and per tick *)

Lemma tiny_run_once {U : Type} T_MAX R_MAX
    (action : fnptr -> Sys Engine U -> Sys Engine U)
    (check : fnptr -> Sys Engine U -> bool * Sys Engine U)
    (i : Z) (m : Machine Engine U) :
  exists l, trace (run T_MAX R_MAX action check m) = trace m ++ l /\
    (count_events (schedule_fired i) l <= 1)%nat /\
    (count_events (reaction_settled i) l <= 1)%nat.
Proof.
  destruct (tiny_run_trace T_MAX R_MAX action check m)
    as (l1 & l2 & l3 & T & P1 & P2 & P3).
  exists (l1 ++ l2 ++ l3). split; [exact T|].
  rewrite !count_events_app.
  assert (Hsched : forall ev, schedule_fired i ev = true -> event_id ev = i).
  { intros [] H; simpl in *; try discriminate. lia. }
  assert (Hsett : forall ev, reaction_settled i ev = true -> event_id ev = i).
  { intros [] H; simpl in *; try discriminate. lia. }
  split.
  - rewrite (phase_trace_count _ _ _ _ l2 _ P2),
            (phase_trace_count _ _ _ _ l3 _ P3);
      try (intros [] H; simpl in *; congruence).
    pose proof (count_events_sorted _ i l1 Hsched (proj2 P1)). lia.
  - rewrite (phase_trace_count _ _ _ _ l1 _ P1),
            (phase_trace_count _ _ _ _ l3 _ P3);
      try (intros [] H; simpl in *; congruence).
    pose proof (count_events_sorted _ i l2 Hsett (proj2 P2)). lia.
Qed.


(** *** The bodies of the two reaction loops *)

Section ReactionBodies.
Variables T_MAX R_MAX : Z.
Context {U : Type}.
Variable action : fnptr -> Sys Engine U -> Sys Engine U.
Variable check : fnptr -> Sys Engine U -> bool * Sys Engine U.
Variables now i : Z.
Variable m : Machine Engine U.

Let r := reaction (eng (sys m)) i.
Let fired := fst (check (r_predicate r) (sys m)).
Let s := snd (check (r_predicate r) (sys m)).
Let r1 := reaction (eng s) i.

Ltac open_trigger :=
  unfold run_trigger; cbv zeta;
  change (aget 0 (rct_nextTrigs (eng (sys m))) i) with (r_next_trigger_check r);
  change (aget nullptr (rct_trigs (eng (sys m))) i) with (r_predicate r).

Lemma tiny_run_trigger_skipped :
  now <= r_next_trigger_check r ->
  run_trigger action check now i m = m.
Proof.
  intros H. open_trigger.
  destruct (Z.ltb_spec (r_next_trigger_check r) now); [lia|].
  reflexivity.
Qed.

Lemma tiny_run_trigger_rejected :
  r_next_trigger_check r < now ->
  fired = false ->
  run_trigger action check now i m =
    emit (TriggerChecked i now false) (with_sys s m).
Proof.
  intros Hd Hf. open_trigger.
  destruct (Z.ltb_spec (r_next_trigger_check r) now); [|lia].
  subst fired s.
  destruct (check (r_predicate r) (sys m)) as [f s']. simpl in *.
  subst f. reflexivity.
Qed.

Lemma tiny_run_trigger_immediate :
  r_next_trigger_check r < now ->
  fired = true -> wf T_MAX R_MAX (eng s) -> 0 <= i < R_MAX ->
  r_delay r1 = 0 ->
  exists e1,
    reaction e1 i =
      {| r_predicate := r_predicate r1; r_action := r_action r1;
         r_timeout := r_timeout r1; r_delay := r_delay r1;
         r_next_trigger_check := ulong (now + r_timeout r1);
         r_next_execution := r_next_execution r1;
         r_pending := r_pending r1 |} /\
    other_reactions_kept i (eng s) e1 /\ schedules_kept (eng s) e1 /\
    marks_kept (eng s) e1 /\
    run_trigger action check now i m =
      emit (ReactionTriggeredExecuted i now)
        (with_sys (action (r_action r1) (with_eng e1 s))
           (emit (TriggerChecked i now true) m)).
Proof.
  intros Hd Hf Hwf Hi Hdl. open_trigger.
  destruct (Z.ltb_spec (r_next_trigger_check r) now); [|lia].
  subst r1 fired s.
  destruct (check (r_predicate r) (sys m)) as [f s'].
  cbn [fst snd] in Hf, Hwf, Hdl.
  cbn [snd]. subst f.
  change (aget 0 (rct_tDelays (eng s')) i) with (r_delay (reaction (eng s') i)).
  destruct (Z.eqb_spec (r_delay (reaction (eng s') i)) 0); [|contradiction].
  eexists. split; [|split; [|split; [|split; [|reflexivity]]]].
  - unfold wf in Hwf. decompose [and] Hwf. rows.
    rewrite ?ulong_add_r. reflexivity.
  - intros j Hj Hne. rows. reflexivity.
  - intros j. reflexivity.
  - repeat split.
Qed.

Lemma tiny_run_trigger_delayed :
  r_next_trigger_check r < now ->
  fired = true -> wf T_MAX R_MAX (eng s) -> 0 <= i < R_MAX ->
  r_delay r1 <> 0 ->
  exists e1,
    reaction e1 i =
      {| r_predicate := r_predicate r1; r_action := r_action r1;
         r_timeout := r_timeout r1; r_delay := r_delay r1;
         r_next_trigger_check := ulong (now + r_timeout r1);
         r_next_execution := ulong (now + r_delay r1);
         r_pending := true |} /\
    other_reactions_kept i (eng s) e1 /\ schedules_kept (eng s) e1 /\
    marks_kept (eng s) e1 /\
    run_trigger action check now i m =
      emit (ReactionTriggered i now)
        (with_sys (with_eng e1 s) (emit (TriggerChecked i now true) m)).
Proof.
  intros Hd Hf Hwf Hi Hdl. open_trigger.
  destruct (Z.ltb_spec (r_next_trigger_check r) now); [|lia].
  subst r1 fired s.
  destruct (check (r_predicate r) (sys m)) as [f s'].
  cbn [fst snd] in Hf, Hwf, Hdl.
  cbn [snd]. subst f.
  change (aget 0 (rct_tDelays (eng s')) i) with (r_delay (reaction (eng s') i)).
  destruct (Z.eqb_spec (r_delay (reaction (eng s') i)) 0); [contradiction|].
  eexists. split; [|split; [|split; [|split; [|reflexivity]]]].
  - unfold wf in Hwf. decompose [and] Hwf. rows.
    rewrite ?ulong_add_r. reflexivity.
  - intros j Hj Hne. rows. reflexivity.
  - intros j. reflexivity.
  - repeat split.
Qed.

Ltac open_pending :=
  unfold run_pending; cbv zeta;
  change (flag_is_set (rct_areTrigged (eng (sys m))) i) with (r_pending r);
  change (aget 0 (rct_nextCalls (eng (sys m))) i) with (r_next_execution r).

Lemma tiny_run_pending_idle :
  r_pending r = false \/ now <= r_next_execution r ->
  run_pending action now i m = m.
Proof.
  intros H. open_pending.
  destruct H as [->|H]; [reflexivity|].
  destruct (Z.ltb_spec (r_next_execution r) now); [lia|].
  rewrite andb_false_r. reflexivity.
Qed.

(** The queued action is entered with the pending flag already cleared. *)
Lemma tiny_run_pending_due :
  wf T_MAX R_MAX (eng (sys m)) -> 0 <= i < R_MAX ->
  r_pending r = true -> r_next_execution r < now ->
  exists e1,
    reaction e1 i =
      {| r_predicate := r_predicate r; r_action := r_action r;
         r_timeout := r_timeout r; r_delay := r_delay r;
         r_next_trigger_check := r_next_trigger_check r;
         r_next_execution := r_next_execution r;
         r_pending := false |} /\
    other_reactions_kept i (eng (sys m)) e1 /\
    schedules_kept (eng (sys m)) e1 /\ marks_kept (eng (sys m)) e1 /\
    run_pending action now i m =
      emit (ReactionExecuted i now)
        (with_sys (action (r_action r) (with_eng e1 (sys m))) m).
Proof.
  intros Hwf Hi Hp Hd. open_pending. rewrite Hp.
  destruct (Z.ltb_spec (r_next_execution r) now); [|lia].
  cbn [andb].
  eexists. split; [|split; [|split; [|split; [|reflexivity]]]].
  - unfold wf in Hwf. decompose [and] Hwf. subst r. rows. reflexivity.
  - intros j Hj Hne. rows. reflexivity.
  - intros j. reflexivity.
  - repeat split.
Qed.

End ReactionBodies.


(** Pausing a schedule of TinyEvents is setting its due time to the largest
    [unsigned long]: no clock value is above it, so the entry is skipped. *)
Lemma tiny_sentinel_never_due {U : Type}
    (action : fnptr -> Sys Engine U -> Sys Engine U) now i
    (m : Machine Engine U) :
  now <= ULONG_MAX ->
  s_next_fire (schedule (eng (sys m)) i) = ULONG_MAX ->
  run_schedule action now i m = m.
Proof.
  intros Hnow Hs. apply tiny_run_schedule_idle. simpl in *. lia.
Qed.

(** *** Assumptions on a sketch, bundled *)

Definition sketch_respects {U : Type} (T_MAX R_MAX : Z)
    (action : fnptr -> Sys Engine U -> Sys Engine U)
    (check : fnptr -> Sys Engine U -> bool * Sys Engine U) : Prop :=
  (forall p, respects T_MAX R_MAX (action p)) /\
  (forall p, respects T_MAX R_MAX (fun s => snd (check p s))).

Definition sketch_keeps_schedule {U : Type} (i : Z)
    (action : fnptr -> Sys Engine U -> Sys Engine U)
    (check : fnptr -> Sys Engine U -> bool * Sys Engine U) : Prop :=
  (forall p, keeps_schedule i (action p)) /\
  (forall p, keeps_schedule i (fun s => snd (check p s))).

Definition sketch_never_queues {U : Type} (i : Z)
    (action : fnptr -> Sys Engine U -> Sys Engine U)
    (check : fnptr -> Sys Engine U -> bool * Sys Engine U) : Prop :=
  (forall p, never_queues i (action p)) /\
  (forall p, never_queues i (fun s => snd (check p s))).

(** *** The loops of [run()] leave by their own test *)

Section Fuel.
Variables T_MAX R_MAX : Z.
Context {U : Type}.
Variable action : fnptr -> Sys Engine U -> Sys Engine U.
Variable check : fnptr -> Sys Engine U -> bool * Sys Engine U.
Hypothesis sketch_ok : sketch_respects T_MAX R_MAX action check.

Definition machine_wf (m : Machine Engine U) : Prop :=
  wf T_MAX R_MAX (eng (sys m)).

Lemma tiny_run_schedule_wf now j m :
  machine_wf m -> machine_wf (run_schedule action now j m).
Proof.
  unfold machine_wf. intros Hwf. unfold run_schedule. cbv zeta.
  destruct (aget 0 (schd_nextCalls (eng (sys m))) j <? now); [|exact Hwf].
  cbn [sys emit with_sys]. apply (proj1 sketch_ok). wf_lengths.
Qed.

Lemma tiny_run_pending_wf now j m :
  machine_wf m -> machine_wf (run_pending action now j m).
Proof.
  unfold machine_wf. intros Hwf. unfold run_pending. cbv zeta.
  destruct (flag_is_set (rct_areTrigged (eng (sys m))) j &&
            (aget 0 (rct_nextCalls (eng (sys m))) j <? now)); [|exact Hwf].
  cbn [sys emit with_sys]. apply (proj1 sketch_ok). wf_lengths.
Qed.

Lemma tiny_run_trigger_wf now j m :
  machine_wf m -> machine_wf (run_trigger action check now j m).
Proof.
  unfold machine_wf. intros Hwf. unfold run_trigger. cbv zeta.
  destruct (aget 0 (rct_nextTrigs (eng (sys m))) j <? now); [|exact Hwf].
  pose proof (proj1 (proj2 sketch_ok (aget nullptr (rct_trigs (eng (sys m))) j)
                       (sys m) Hwf)) as Wc.
  cbv beta in Wc.
  destruct (check (aget nullptr (rct_trigs (eng (sys m))) j) (sys m))
    as [fired s]. cbn [snd] in Wc.
  destruct fired; [|exact Wc].
  destruct (aget 0 (rct_tDelays (eng s)) j =? 0); cbn [sys emit with_sys].
  - apply (proj1 sketch_ok). wf_lengths.
  - wf_lengths.
Qed.

Lemma tiny_run_wf m : machine_wf m -> machine_wf (run T_MAX R_MAX action check m).
Proof.
  intros Hwf. unfold run, schedule_phase, pending_phase, trigger_phase.
  apply (for_upto_inv machine_wf); [intros; apply tiny_run_trigger_wf; assumption|].
  apply (for_upto_inv machine_wf); [intros; apply tiny_run_pending_wf; assumption|].
  apply (for_upto_inv machine_wf); [intros; apply tiny_run_schedule_wf; assumption|].
  exact Hwf.
Qed.

(** With any larger bound each loop computes what it computes with the
    capacity of its table. *)
Lemma tiny_phases_fuel now extra m :
  machine_wf m ->
  for_upto (Z.to_nat T_MAX + extra) m_last_schd (run_schedule action now) 0 m =
    schedule_phase T_MAX action now m /\
  for_upto (Z.to_nat R_MAX + extra) m_last_rct (run_pending action now) 0 m =
    pending_phase R_MAX action now m /\
  for_upto (Z.to_nat R_MAX + extra) m_last_rct (run_trigger action check now) 0 m =
    trigger_phase R_MAX action check now m.
Proof.
  intros Hwf. unfold schedule_phase, pending_phase, trigger_phase.
  split; [|split].
  - apply (for_upto_enough machine_wf _ _ T_MAX); try assumption.
    + intros; apply tiny_run_schedule_wf; assumption.
    + intros s ((_ & H) & _). exact H.
    + destruct Hwf as ((? & ?) & _). lia.
  - apply (for_upto_enough machine_wf _ _ R_MAX); try assumption.
    + intros; apply tiny_run_pending_wf; assumption.
    + intros s (_ & (_ & H) & _). exact H.
    + destruct Hwf as (_ & (? & ?) & _). lia.
  - apply (for_upto_enough machine_wf _ _ R_MAX); try assumption.
    + intros; apply tiny_run_trigger_wf; assumption.
    + intros s (_ & (_ & H) & _). exact H.
    + destruct Hwf as (_ & (? & ?) & _). lia.
Qed.

End Fuel.

End TinyFacts.

(** * Further properties of SimpleEvents *)

Module SimpleMore.
Import Simple SimpleFacts.

(** *** [begin()] *)

(** [e'] is [e] but for the array of due times of the schedules. *)
Definition only_schd_nextCalls_differ (e e' : Engine) : Prop :=
  e' = set_schd_nextCalls (schd_nextCalls e') e.

Definition only_rct_nextTrigs_differ (e e' : Engine) : Prop :=
  e' = set_rct_nextTrigs (rct_nextTrigs e') e.

Lemma begin_schedules_loop T_MAX R_MAX now e :
  wf T_MAX R_MAX e ->
  let e' := for_upto (Z.to_nat T_MAX) last_schd (begin_schedule now) 0 e in
  only_schd_nextCalls_differ e e' /\
  length (schd_nextCalls e') = length (schd_nextCalls e) /\
  (forall i, 0 <= i <= last_schd e ->
     aget 0 (schd_nextCalls e') i = ulong (aget 0 (schd_nextCalls e) i + now)) /\
  (forall i, last_schd e < i ->
     aget 0 (schd_nextCalls e') i = aget 0 (schd_nextCalls e) i).
Proof.
  intros Hwf.
  pose (P := fun (j : Z) (e' : Engine) =>
    0 <= j <= last_schd e + 1 /\
    only_schd_nextCalls_differ e e' /\
    length (schd_nextCalls e') = length (schd_nextCalls e) /\
    (forall i, 0 <= i < j ->
       aget 0 (schd_nextCalls e') i = ulong (aget 0 (schd_nextCalls e) i + now)) /\
    (forall i, j <= i ->
       aget 0 (schd_nextCalls e') i = aget 0 (schd_nextCalls e) i)).
  assert (Hlen : Z.of_nat (length (schd_nextCalls e)) = T_MAX /\
                 -1 <= last_schd e < T_MAX).
  { unfold wf in Hwf. tauto. }
  assert (Hstep : forall j s, P j s -> j <= last_schd s -> P (j + 1) (begin_schedule now j s)).
  { intros j s (Hj & Hd & Hl & Hlo & Hhi) Hle.
    assert (Hlast : last_schd s = last_schd e) by (rewrite Hd; reflexivity).
    unfold begin_schedule. split; [lia|]. split; [|split; [|split]].
    - clear - Hd. unfold only_schd_nextCalls_differ, set_schd_nextCalls in *.
      destruct s, e. cbn in *. injection Hd; intros; subst; reflexivity.
    - cbn. rewrite length_aset. exact Hl.
    - intros i Hi. cbn. destruct (Z.eq_dec i j) as [->|Hne].
      + rewrite aget_aset_eq by lia. rewrite Hhi by lia. reflexivity.
      + rewrite aget_aset_ne by lia. apply Hlo. lia.
    - intros i Hi. cbn. rewrite aget_aset_ne by lia. apply Hhi. lia. }
  assert (H0 : P 0 e).
  { split; [lia|]. split; [destruct e; reflexivity|]. split; [reflexivity|].
    split; [intros; lia|intros; reflexivity]. }
  pose proof (for_upto_ind P last_schd (begin_schedule now) Hstep
                (Z.to_nat T_MAX) 0 e H0) as Hloop.
  cbv zeta.
  set (ef := for_upto (Z.to_nat T_MAX) last_schd (begin_schedule now) 0 e) in *.
  destruct Hloop as (k & Hk & (Hj & Hd & Hl & Hlo & Hhi) & Hend).
  assert (Hlast : last_schd ef = last_schd e) by (rewrite Hd; reflexivity).
  assert (k = last_schd e + 1) by lia. subst k.
  split; [exact Hd|]. split; [exact Hl|]. split.
  - intros i Hi. apply Hlo. lia.
  - intros i Hi. apply Hhi. lia.
Qed.

Lemma begin_reactions_loop T_MAX R_MAX now e :
  wf T_MAX R_MAX e ->
  let e' := for_upto (Z.to_nat R_MAX) last_rct (begin_reaction now) 0 e in
  only_rct_nextTrigs_differ e e' /\
  length (rct_nextTrigs e') = length (rct_nextTrigs e) /\
  (forall i, 0 <= i <= last_rct e ->
     aget 0 (rct_nextTrigs e') i = ulong (aget 0 (rct_nextTrigs e) i + now)) /\
  (forall i, last_rct e < i ->
     aget 0 (rct_nextTrigs e') i = aget 0 (rct_nextTrigs e) i).
Proof.
  intros Hwf.
  pose (P := fun (j : Z) (e' : Engine) =>
    0 <= j <= last_rct e + 1 /\
    only_rct_nextTrigs_differ e e' /\
    length (rct_nextTrigs e') = length (rct_nextTrigs e) /\
    (forall i, 0 <= i < j ->
       aget 0 (rct_nextTrigs e') i = ulong (aget 0 (rct_nextTrigs e) i + now)) /\
    (forall i, j <= i ->
       aget 0 (rct_nextTrigs e') i = aget 0 (rct_nextTrigs e) i)).
  assert (Hlen : Z.of_nat (length (rct_nextTrigs e)) = R_MAX /\
                 -1 <= last_rct e < R_MAX).
  { unfold wf in Hwf. tauto. }
  assert (Hstep : forall j s, P j s -> j <= last_rct s -> P (j + 1) (begin_reaction now j s)).
  { intros j s (Hj & Hd & Hl & Hlo & Hhi) Hle.
    assert (Hlast : last_rct s = last_rct e) by (rewrite Hd; reflexivity).
    unfold begin_reaction. split; [lia|]. split; [|split; [|split]].
    - clear - Hd. unfold only_rct_nextTrigs_differ, set_rct_nextTrigs in *.
      destruct s, e. cbn in *. injection Hd; intros; subst; reflexivity.
    - cbn. rewrite length_aset. exact Hl.
    - intros i Hi. cbn. destruct (Z.eq_dec i j) as [->|Hne].
      + rewrite aget_aset_eq by lia. rewrite Hhi by lia. reflexivity.
      + rewrite aget_aset_ne by lia. apply Hlo. lia.
    - intros i Hi. cbn. rewrite aget_aset_ne by lia. apply Hhi. lia. }
  assert (H0 : P 0 e).
  { split; [lia|]. split; [destruct e; reflexivity|]. split; [reflexivity|].
    split; [intros; lia|intros; reflexivity]. }
  pose proof (for_upto_ind P last_rct (begin_reaction now) Hstep
                (Z.to_nat R_MAX) 0 e H0) as Hloop.
  cbv zeta.
  set (ef := for_upto (Z.to_nat R_MAX) last_rct (begin_reaction now) 0 e) in *.
  destruct Hloop as (k & Hk & (Hj & Hd & Hl & Hlo & Hhi) & Hend).
  assert (Hlast : last_rct ef = last_rct e) by (rewrite Hd; reflexivity).
  assert (k = last_rct e + 1) by lia. subst k.
  split; [exact Hd|]. split; [exact Hl|]. split.
  - intros i Hi. apply Hlo. lia.
  - intros i Hi. apply Hhi. lia.
Qed.

Lemma begin_rows T_MAX R_MAX now e :
  wf T_MAX R_MAX e ->
  let e' := begin T_MAX R_MAX now e in
  wf T_MAX R_MAX e' /\ marks_kept e e' /\
  (forall i, 0 <= i <= last_schd e ->
     schedule e' i =
       {| s_action := s_action (schedule e i);
          s_interval := s_interval (schedule e i);
          s_next_fire := ulong (s_next_fire (schedule e i) + now);
          s_active := s_active (schedule e i) |}) /\
  (forall i, last_schd e < i -> schedule e' i = schedule e i) /\
  (forall i, 0 <= i <= last_rct e ->
     reaction e' i =
       {| r_predicate := r_predicate (reaction e i);
          r_action := r_action (reaction e i);
          r_timeout := r_timeout (reaction e i);
          r_delay := r_delay (reaction e i);
          r_next_trigger_check :=
            ulong (r_next_trigger_check (reaction e i) + now);
          r_next_execution := r_next_execution (reaction e i);
          r_pending := r_pending (reaction e i);
          r_trigger_active := r_trigger_active (reaction e i) |}) /\
  (forall i, last_rct e < i -> reaction e' i = reaction e i).
Proof.
  intros Hwf. unfold begin. cbv zeta.
  destruct (begin_schedules_loop T_MAX R_MAX now e Hwf) as (D1 & L1 & Lo1 & Hi1).
  set (e1 := for_upto (Z.to_nat T_MAX) last_schd (begin_schedule now) 0 e) in *.
  clearbody e1. unfold only_schd_nextCalls_differ in D1.
  assert (W1 : wf T_MAX R_MAX e1).
  { rewrite D1. unfold wf in *. cbn. rewrite L1. exact Hwf. }
  destruct (begin_reactions_loop T_MAX R_MAX now e1 W1) as (D2 & L2 & Lo2 & Hi2).
  set (e2 := for_upto (Z.to_nat R_MAX) last_rct (begin_reaction now) 0 e1) in *.
  clearbody e2. unfold only_rct_nextTrigs_differ in D2.
  assert (W2 : wf T_MAX R_MAX e2).
  { rewrite D2. unfold wf in *. cbn. rewrite L2. exact W1. }
  assert (Hr : last_rct e1 = last_rct e) by (rewrite D1; reflexivity).
  assert (Hn : rct_nextTrigs e1 = rct_nextTrigs e) by (rewrite D1; reflexivity).
  assert (E2 : e2 = set_rct_nextTrigs (rct_nextTrigs e2)
                      (set_schd_nextCalls (schd_nextCalls e1) e)).
  { rewrite D2. rewrite D1. reflexivity. }
  split; [exact W2|]. split; [rewrite E2; repeat split|].
  split; [|split; [|split]].
  - intros i Hi. rewrite E2. unfold schedule. cbn. rewrite Lo1 by exact Hi.
    reflexivity.
  - intros i Hi. rewrite E2. unfold schedule. cbn. rewrite Hi1 by exact Hi.
    reflexivity.
  - intros i Hi. rewrite E2. unfold reaction. cbn. rewrite Lo2, Hn by lia.
    reflexivity.
  - intros i Hi. rewrite E2. unfold reaction. cbn. rewrite Hi2, Hn by lia.
    reflexivity.
Qed.

(** *** Pausing and resuming *)

Lemma pauseTrigger_valid T_MAX R_MAX id e :
  wf T_MAX R_MAX e -> 0 <= id <= last_rct e ->
  let e' := pauseTrigger id e in
  reaction e' id =
    {| r_predicate := r_predicate (reaction e id);
       r_action := r_action (reaction e id);
       r_timeout := r_timeout (reaction e id);
       r_delay := r_delay (reaction e id);
       r_next_trigger_check := r_next_trigger_check (reaction e id);
       r_next_execution := r_next_execution (reaction e id);
       r_pending := r_pending (reaction e id);
       r_trigger_active := false |} /\
  other_reactions_kept id e e' /\ schedules_kept e e' /\ marks_kept e e'.
Proof.
  intros Hwf Hid. unfold pauseTrigger. guard_cases; try lia.
  unfold wf in Hwf. decompose [and] Hwf. clear Hwf.
  repeat split; rows; try reflexivity.
  intros j Hj Hne. rows. reflexivity.
Qed.

Lemma resumeTrigger_valid T_MAX R_MAX id ts abs now e :
  wf T_MAX R_MAX e -> 0 <= id <= last_rct e ->
  let e' := resumeTrigger id ts abs now e in
  reaction e' id =
    {| r_predicate := r_predicate (reaction e id);
       r_action := r_action (reaction e id);
       r_timeout := r_timeout (reaction e id);
       r_delay := r_delay (reaction e id);
       r_next_trigger_check := if abs then ts else ulong (now + ts);
       r_next_execution := r_next_execution (reaction e id);
       r_pending := r_pending (reaction e id);
       r_trigger_active := true |} /\
  other_reactions_kept id e e' /\ schedules_kept e e' /\ marks_kept e e'.
Proof.
  intros Hwf Hid. unfold resumeTrigger. guard_cases; try lia.
  unfold wf in Hwf. decompose [and] Hwf. clear Hwf.
  repeat split; rows; try reflexivity.
  - destruct abs; simpl; [reflexivity|]. rewrite (Z.add_comm ts now). reflexivity.
  - intros j Hj Hne. rows. reflexivity.
Qed.

Lemma pauseTrigger_twice id e :
  pauseTrigger id (pauseTrigger id e) = pauseTrigger id e.
Proof.
  unfold pauseTrigger.
  destruct ((id <? 0) || (id >? last_rct e)) eqn:G; rewrite ?G; [reflexivity|].
  cbn [last_rct set_rct_areActive]. rewrite G.
  unfold set_rct_areActive. cbn. rewrite aset_aset. reflexivity.
Qed.

(** Resuming at the due time the entry had restores the engine the pause
    found. *)
Lemma pause_resume_schedule id now e :
  s_active (schedule e id) = true ->
  resumeSchedule id (s_next_fire (schedule e id)) true now (pauseSchedule id e) = e.
Proof.
  intros Hact. unfold pauseSchedule, resumeSchedule.
  destruct ((id <? 0) || (id >? last_schd e)) eqn:G; rewrite ?G; [reflexivity|].
  cbn [last_schd set_schd_areActive]. rewrite G.
  unfold set_schd_areActive, set_schd_nextCalls. cbn.
  rewrite aset_aset. unfold schedule in *. cbn in Hact |- *.
  rewrite aset_true by exact Hact. rewrite aset_aget.
  destruct e; reflexivity.
Qed.

Lemma pause_resume_trigger id now e :
  r_trigger_active (reaction e id) = true ->
  resumeTrigger id (r_next_trigger_check (reaction e id)) true now
    (pauseTrigger id e) = e.
Proof.
  intros Hact. unfold pauseTrigger, resumeTrigger.
  destruct ((id <? 0) || (id >? last_rct e)) eqn:G; rewrite ?G; [reflexivity|].
  cbn [last_rct set_rct_areActive]. rewrite G.
  unfold set_rct_areActive, set_rct_nextTrigs. cbn.
  rewrite aset_aset. unfold reaction in *. cbn in Hact |- *.
  rewrite aset_true by exact Hact. rewrite aset_aget.
  destruct e; reflexivity.
Qed.

(** *** A paused schedule *)

Section PausedSchedule.
Variables T_MAX R_MAX : Z.
Context {U : Type}.
Variable action : fnptr -> Sys Engine U -> Sys Engine U.
Variable check : fnptr -> Sys Engine U -> bool * Sys Engine U.
Hypothesis sketch_ok : sketch_respects T_MAX R_MAX action check.
Variable i : Z.
Hypothesis sketch_keeps : sketch_keeps_schedule i action check.

Lemma ticks_paused ts : forall m,
  wf T_MAX R_MAX (eng (sys m)) -> 0 <= i <= last_schd (eng (sys m)) ->
  s_active (schedule (eng (sys m)) i) = false ->
  let m' := ticks T_MAX R_MAX action check ts m in
  exists l, trace m' = trace m ++ l /\
    schedule_firings i l = [] /\
    schedule (eng (sys m')) i = schedule (eng (sys m)) i.
Proof.
  destruct sketch_ok as [Ha Hc]. destruct sketch_keeps as [Ka Kc].
  induction ts as [|t ts IH]; intros m Hwf Hi Hp.
  - exists []. simpl. rewrite app_nil_r. auto.
  - destruct (tick_one_schedule T_MAX R_MAX action check Ha Hc i Ka Kc t m Hwf Hi)
      as (W1 & G1 & l1 & T1 & O1).
    unfold schedule_outcome in O1. rewrite Hp in O1. cbn [andb] in O1.
    destruct O1 as [F1 R1].
    change (ticks T_MAX R_MAX action check (t :: ts) m)
      with (ticks T_MAX R_MAX action check ts (tick T_MAX R_MAX action check t m)).
    set (m1 := tick T_MAX R_MAX action check t m) in *.
    destruct (IH m1 W1) as (l & T & F & R).
    { unfold grows in G1. lia. }
    { rewrite R1. exact Hp. }
    exists (l1 ++ l). cbv zeta in *.
    split; [rewrite T, T1, app_assoc; reflexivity|].
    rewrite schedule_firings_app, F1, F, R, R1. auto.
Qed.

End PausedSchedule.

(** *** A due time that wraps around *)

Section WrappedDue.
Variables T_MAX R_MAX : Z.
Context {U : Type}.
Variable action : fnptr -> Sys Engine U -> Sys Engine U.
Variable check : fnptr -> Sys Engine U -> bool * Sys Engine U.
Hypothesis sketch_ok : sketch_respects T_MAX R_MAX action check.
Variable i : Z.
Hypothesis sketch_keeps : sketch_keeps_schedule i action check.

(** When adding the interval takes the due time past the largest
    [unsigned long], the new due time is the sum less [2^32]: it is below
    the old one, so the schedule is executed again at the very next
    tick. *)
Lemma wrapped_due_fires_again t1 t2 m :
  wf T_MAX R_MAX (eng (sys m)) -> 0 <= i <= last_schd (eng (sys m)) ->
  let r := schedule (eng (sys m)) i in
  s_active r = true ->
  0 <= s_next_fire r < t1 -> t1 <= t2 <= ULONG_MAX ->
  s_interval r < ULONG_MOD <= s_next_fire r + s_interval r ->
  exists l,
    trace (ticks T_MAX R_MAX action check [t1; t2] m) = trace m ++ l /\
    schedule_firings i l =
      [(s_next_fire r, t1);
       (s_next_fire r + s_interval r - ULONG_MOD, t2)].
Proof.
  destruct sketch_ok as [Ha Hc]. destruct sketch_keeps as [Ka Kc].
  intros Hwf Hi r Hact Hnf Ht Hiv.
  destruct (tick_one_schedule T_MAX R_MAX action check Ha Hc i Ka Kc t1 m Hwf Hi)
    as (W1 & G1 & l1 & T1 & O1).
  fold r in O1. unfold schedule_outcome in O1. rewrite Hact in O1.
  destruct (Z.ltb_spec (s_next_fire r) t1); [|lia]. cbn [andb] in O1.
  destruct O1 as [F1 R1].
  change (ticks T_MAX R_MAX action check [t1; t2] m)
    with (tick T_MAX R_MAX action check t2 (tick T_MAX R_MAX action check t1 m)).
  set (m1 := tick T_MAX R_MAX action check t1 m) in *.
  assert (Hw : ulong (s_next_fire r + s_interval r) =
               s_next_fire r + s_interval r - ULONG_MOD).
  { assert (Hpos : 0 < ULONG_MOD) by reflexivity.
    unfold ULONG_MAX in Ht. unfold ulong. rewrite <- (Z.mod_add _ (-1) ULONG_MOD) by lia.
    apply Z.mod_small. lia. }
  destruct (tick_one_schedule T_MAX R_MAX action check Ha Hc i Ka Kc t2 m1 W1)
    as (W2 & G2 & l2 & T2 & O2).
  { unfold grows in G1. lia. }
  rewrite R1 in O2. unfold schedule_outcome in O2. cbn [s_active s_next_fire] in O2.
  rewrite Hw in O2.
  destruct (Z.ltb_spec (s_next_fire r + s_interval r - ULONG_MOD) t2); [|lia].
  cbn [andb] in O2. destruct O2 as [F2 _].
  exists (l1 ++ l2). split; [rewrite T2, T1, app_assoc; reflexivity|].
  rewrite schedule_firings_app, F1, F2. reflexivity.
Qed.

End WrappedDue.

(** *** A trigger whose gate is closed *)

Section Gate.
Variables T_MAX R_MAX : Z.
Context {U : Type}.
Variable action : fnptr -> Sys Engine U -> Sys Engine U.
Variable check : fnptr -> Sys Engine U -> bool * Sys Engine U.
Hypothesis sketch_ok : sketch_respects T_MAX R_MAX action check.
Variable i : Z.
Hypothesis i_range : 0 <= i < R_MAX.

(** What decides whether the predicate of reaction [i] is called. *)
Definition gate (e : Engine) : bool * Z :=
  (r_trigger_active (reaction e i), r_next_trigger_check (reaction e i)).

(** The gate is closed for a tick at [now]: the trigger is paused, or its
    next check time has not passed. *)
Definition gate_closed (g : bool * Z) (now : Z) : Prop :=
  fst g = false \/ now <= snd g.

(** No function of the sketch pauses, resumes or cancels reaction [i]. *)
Definition keeps_gate (f : Sys Engine U -> Sys Engine U) : Prop :=
  forall s, gate (eng (f s)) = gate (eng s).

Hypothesis action_keeps : forall p, keeps_gate (action p).
Hypothesis check_keeps : forall p, keeps_gate (fun s => snd (check p s)).

Definition silent (m0 m : Machine Engine U) : Prop :=
  wf T_MAX R_MAX (eng (sys m)) /\
  gate (eng (sys m)) = gate (eng (sys m0)) /\
  exists l, trace m = trace m0 ++ l /\ count_events (scan_of i) l = 0%nat.

Lemma silent_refl m : wf T_MAX R_MAX (eng (sys m)) -> silent m m.
Proof.
  intros Hwf. split; [exact Hwf|]. split; [reflexivity|].
  exists []. rewrite app_nil_r. auto.
Qed.

Lemma silent_emit m0 m ev :
  silent m0 m -> scan_of i ev = false -> silent m0 (emit ev m).
Proof.
  intros (Hwf & G & l & T & C) Hev. split; [exact Hwf|]. split; [exact G|].
  exists (l ++ [ev]). split; [simpl; rewrite T, app_assoc; reflexivity|].
  rewrite count_events_app, count_events_one, Hev, C. reflexivity.
Qed.

Lemma silent_update m0 m e1 :
  silent m0 m -> wf T_MAX R_MAX e1 -> gate e1 = gate (eng (sys m)) ->
  silent m0 (with_sys (with_eng e1 (sys m)) m).
Proof.
  intros (Hwf & G & l & T & C) W1 G1. split; [exact W1|].
  split; [cbn [sys with_sys eng with_eng]; congruence|].
  exists l. auto.
Qed.

Lemma silent_call m0 m (f : Sys Engine U -> Sys Engine U) :
  silent m0 m -> respects T_MAX R_MAX f -> keeps_gate f ->
  silent m0 (with_sys (f (sys m)) m).
Proof.
  intros (Hwf & G & l & T & C) Hf Hk. destruct (Hf (sys m) Hwf) as [W _].
  split; [exact W|]. split; [cbn [sys with_sys]; rewrite Hk; exact G|].
  exists l. auto.
Qed.

Lemma silent_wf m0 m : silent m0 m -> wf T_MAX R_MAX (eng (sys m)).
Proof. intros (Hwf & _). exact Hwf. Qed.

Lemma run_schedule_silent now j m0 m :
  silent m0 m -> silent m0 (run_schedule action now j m).
Proof.
  intros S. pose proof (silent_wf _ _ S) as Hwf.
  unfold run_schedule. cbv zeta.
  destruct (aget false (schd_areActive (eng (sys m))) j &&
            (aget 0 (schd_nextCalls (eng (sys m))) j <? now)); [|exact S].
  apply silent_emit; [|reflexivity].
  match goal with |- context [action ?p (with_eng ?e1 _)] =>
    apply (silent_call m0 (with_sys (with_eng e1 (sys m)) m) (action p));
      [apply silent_update; [exact S|wf_lengths|reflexivity]
      |apply (proj1 sketch_ok)|apply action_keeps]
  end.
Qed.

Lemma run_pending_silent now j m0 m :
  silent m0 m -> silent m0 (run_pending action now j m).
Proof.
  intros S. pose proof (silent_wf _ _ S) as Hwf.
  unfold run_pending. cbv zeta.
  destruct (aget false (rct_areTrigged (eng (sys m))) j &&
            (aget 0 (rct_nextCalls (eng (sys m))) j <? now)); [|exact S].
  apply silent_emit; [|reflexivity].
  match goal with |- context [action ?p (with_eng ?e1 _)] =>
    apply (silent_call m0 (with_sys (with_eng e1 (sys m)) m) (action p));
      [apply silent_update; [exact S|wf_lengths|reflexivity]
      |apply (proj1 sketch_ok)|apply action_keeps]
  end.
Qed.

Lemma scan_of_other j ev :
  j <> i -> event_id ev = j -> scan_of i ev = false.
Proof.
  intros Hne Hid. unfold scan_of. rewrite Hid.
  destruct (Z.eqb_spec j i); [contradiction|]. apply andb_false_r.
Qed.

Lemma run_trigger_silent now j m0 m :
  0 <= j -> gate_closed (gate (eng (sys m0))) now ->
  silent m0 m -> silent m0 (run_trigger action check now j m).
Proof.
  intros Hj Hclosed S. pose proof (silent_wf _ _ S) as Hwf.
  destruct (Z.eq_dec j i) as [->|Hne].
  { rewrite run_trigger_skipped; [exact S|].
    destruct S as (_ & G & _). unfold gate_closed in Hclosed.
    rewrite <- G in Hclosed. exact Hclosed. }
  unfold run_trigger. cbv zeta.
  destruct (aget false (rct_areActive (eng (sys m))) j &&
            (aget 0 (rct_nextTrigs (eng (sys m))) j <? now)); [|exact S].
  pose proof (silent_call m0 m _ S
                (proj2 sketch_ok (aget nullptr (rct_trigs (eng (sys m))) j))
                (check_keeps (aget nullptr (rct_trigs (eng (sys m))) j)))
    as Sc.
  cbv beta in Sc.
  destruct (check (aget nullptr (rct_trigs (eng (sys m))) j) (sys m))
    as [fired s]. cbn [snd] in Sc.
  pose proof (silent_wf _ _ Sc) as Wc. cbn [sys with_sys] in Wc.
  pose proof (silent_emit _ _ (TriggerChecked j now fired) Sc
                (scan_of_other j (TriggerChecked j now fired) Hne eq_refl)) as Se.
  destruct fired; [|exact Se].
  destruct (aget 0 (rct_tDelays (eng s)) j =? 0).
  - apply silent_emit; [|apply (scan_of_other j); [exact Hne|reflexivity]].
    match goal with |- context [action ?p (with_eng ?e1 _)] =>
      apply (silent_call m0
               (with_sys (with_eng e1 s)
                  (emit (TriggerChecked j now true) (with_sys s m)))
               (action p));
        [apply (silent_update m0 _ e1 Se); [wf_lengths|]
        |apply (proj1 sketch_ok)|apply action_keeps]
    end.
    unfold gate. cbn [sys emit with_sys]. rows. reflexivity.
  - apply silent_emit; [|apply (scan_of_other j); [exact Hne|reflexivity]].
    match goal with |- context [with_eng ?e1 _] =>
      apply (silent_update m0 (emit (TriggerChecked j now true) (with_sys s m)) e1 Se);
        [wf_lengths|]
    end.
    unfold gate. cbn [sys emit with_sys]. rows. reflexivity.
Qed.

Lemma run_silent m0 m :
  gate_closed (gate (eng (sys m0))) (clk (sys m)) ->
  silent m0 m -> silent m0 (run T_MAX R_MAX action check m).
Proof.
  intros Hc S. unfold run, schedule_phase, pending_phase, trigger_phase.
  apply (for_upto_inv_from (silent m0)).
  { intros j s Hj. apply run_trigger_silent; assumption. }
  apply (for_upto_inv_from (silent m0)).
  { intros j s Hj. apply run_pending_silent. }
  apply (for_upto_inv_from (silent m0)); [|exact S].
  intros j s _. apply run_schedule_silent.
Qed.

Lemma ticks_silent ts : forall m0 m,
  Forall (gate_closed (gate (eng (sys m0)))) ts ->
  silent m0 m -> silent m0 (ticks T_MAX R_MAX action check ts m).
Proof.
  induction ts as [|t ts IH]; intros m0 m Hts S; [exact S|].
  apply Forall_cons in Hts. destruct Hts as [Ht Hts].
  simpl. apply IH; [exact Hts|]. unfold tick. apply run_silent; [exact Ht|].
  destruct S as (Hwf & G & l & T & C). split; [exact Hwf|].
  split; [exact G|]. exists l. auto.
Qed.

End Gate.

(** *** A queued execution whose trigger is paused *)

(** The row of a reaction once its queued action has run. *)
Definition settled (r : Reaction) : Reaction :=
  {| r_predicate := r_predicate r; r_action := r_action r;
     r_timeout := r_timeout r; r_delay := r_delay r;
     r_next_trigger_check := r_next_trigger_check r;
     r_next_execution := r_next_execution r;
     r_pending := false;
     r_trigger_active := r_trigger_active r |}.

(** What the second loop of a tick at [now] does to a reaction whose row was
    [r]: [runs] are the executions of its queued action and [r'] its row
    afterwards. *)
Definition reaction_outcome (now : Z) (r : Reaction) (runs : list Z)
    (r' : Reaction) : Prop :=
  if r_pending r && (r_next_execution r <? now)
  then runs = [now] /\ r' = settled r
  else runs = [] /\ r' = r.

(** The executions of a queued action over the ticks [ts], when nothing
    queues it again: one, at the first tick past its time. *)
Definition first_run (r : Reaction) (ts : list Z) : list Z :=
  if r_pending r
  then match List.find (fun t => r_next_execution r <? t) ts with
       | Some t => [t]
       | None => []
       end
  else [].

(** The row of a reaction once its trigger has been accepted: with an
    immediate execution of the action, and with a queued one. *)
Definition rearmed (now : Z) (r : Reaction) : Reaction :=
  {| r_predicate := r_predicate r; r_action := r_action r;
     r_timeout := r_timeout r; r_delay := r_delay r;
     r_next_trigger_check := ulong (now + r_timeout r);
     r_next_execution := r_next_execution r;
     r_pending := r_pending r;
     r_trigger_active := r_trigger_active r |}.

Definition queued (now : Z) (r : Reaction) : Reaction :=
  {| r_predicate := r_predicate r; r_action := r_action r;
     r_timeout := r_timeout r; r_delay := r_delay r;
     r_next_trigger_check := ulong (now + r_timeout r);
     r_next_execution := ulong (now + r_delay r);
     r_pending := true;
     r_trigger_active := r_trigger_active r |}.

(** What the third loop of a tick at [now] does to reaction [i] whose row
    was [r] when the loop reached it, [fired] being what its predicate
    returns there: [evs] are the events of the scan about [i] and [r'] is
    the row afterwards. *)
Definition scan_outcome (now i : Z) (r : Reaction) (fired : bool)
    (evs : list Event) (r' : Reaction) : Prop :=
  if r_trigger_active r && (r_next_trigger_check r <? now) then
    if fired then
      if r_delay r =? 0
      then evs = [TriggerChecked i now true; ReactionTriggeredExecuted i now] /\
           r' = rearmed now r
      else evs = [TriggerChecked i now true; ReactionTriggered i now] /\
           r' = queued now r
    else evs = [TriggerChecked i now false] /\ r' = r
  else evs = [] /\ r' = r.

Lemma scan_outcome_events now i r fired evs r' :
  scan_outcome now i r fired evs r' ->
  scan_events i evs = evs /\ reaction_runs i evs = [] /\
  Forall (fun ev => is_scan_event ev = true) evs.
Proof.
  unfold scan_outcome, scan_events.
  destruct (r_trigger_active r && (r_next_trigger_check r <? now));
    [destruct fired; [destruct (r_delay r =? 0)|]|];
    intros [-> _]; rewrite ?filter_cons, ?filter_nil; unfold scan_of;
    cbn [is_scan_event event_id andb]; rewrite ?Z.eqb_refl;
    repeat (destruct (decide _); [|congruence]);
    repeat split; repeat constructor.
Qed.

Section PausedReaction.
Variables T_MAX R_MAX : Z.
Context {U : Type}.
Variable action : fnptr -> Sys Engine U -> Sys Engine U.
Variable check : fnptr -> Sys Engine U -> bool * Sys Engine U.
Hypothesis sketch_ok : sketch_respects T_MAX R_MAX action check.
Variable i : Z.

(** No function of the sketch pauses, resumes, cancels or stops
    reaction [i]. *)
Definition keeps_reaction (f : Sys Engine U -> Sys Engine U) : Prop :=
  forall s, reaction (eng (f s)) i = reaction (eng s) i.

Hypothesis action_keeps : forall p, keeps_reaction (action p).
Hypothesis check_keeps : forall p, keeps_reaction (fun s => snd (check p s)).

(** A step that leaves reaction [i] as it is, does not run its queued action
    and does not call its predicate. *)
Definition calm (m m' : Machine Engine U) : Prop :=
  wf T_MAX R_MAX (eng (sys m')) /\
  grows (eng (sys m)) (eng (sys m')) /\
  reaction (eng (sys m')) i = reaction (eng (sys m)) i /\
  exists l, trace m' = trace m ++ l /\
    reaction_runs i l = [] /\ count_events (scan_of i) l = 0%nat.

Lemma calm_refl m : wf T_MAX R_MAX (eng (sys m)) -> calm m m.
Proof.
  intros Hwf. split; [exact Hwf|]. split; [apply grows_refl|].
  split; [reflexivity|]. exists []. rewrite app_nil_r. auto.
Qed.

Lemma calm_trans m1 m2 m3 : calm m1 m2 -> calm m2 m3 -> calm m1 m3.
Proof.
  intros (_ & G1 & S1 & l1 & T1 & D1 & C1) (W2 & G2 & S2 & l2 & T2 & D2 & C2).
  split; [exact W2|]. split; [eapply grows_trans; eassumption|].
  split; [congruence|]. exists (l1 ++ l2).
  rewrite T2, T1, app_assoc, reaction_runs_app, count_events_app, D1, D2, C1, C2.
  auto.
Qed.

Ltac call_action p s :=
  let W := fresh "W" in let G := fresh "G" in let K := fresh "K" in
  pose proof (action_keeps p s) as K;
  destruct (proj1 sketch_ok p s) as [W G]; [wf_lengths|].

Lemma run_schedule_calm now j m :
  wf T_MAX R_MAX (eng (sys m)) -> calm m (run_schedule action now j m).
Proof.
  intros Hwf. unfold run_schedule.
  destruct (aget false (schd_areActive (eng (sys m))) j &&
            (aget 0 (schd_nextCalls (eng (sys m))) j <? now));
    [|apply calm_refl; exact Hwf].
  match goal with |- context [action ?p ?s] => call_action p s end.
  split; [exact W|]. split; [exact G|]. split.
  - cbn [sys emit with_sys]. rewrite K. reflexivity.
  - eexists [_]. split; [reflexivity|]. split; reflexivity.
Qed.

Lemma run_pending_calm now j m :
  wf T_MAX R_MAX (eng (sys m)) -> 0 <= i -> 0 <= j -> j <> i ->
  calm m (run_pending action now j m).
Proof.
  intros Hwf Hi Hj Hne. unfold run_pending.
  destruct (aget false (rct_areTrigged (eng (sys m))) j &&
            (aget 0 (rct_nextCalls (eng (sys m))) j <? now));
    [|apply calm_refl; exact Hwf].
  match goal with |- context [action ?p ?s] => call_action p s end.
  split; [exact W|]. split; [exact G|]. split.
  - cbn [sys emit with_sys]. rewrite K. rows. reflexivity.
  - eexists [_]. split; [reflexivity|]. simpl.
    destruct (Z.eqb_spec j i); [contradiction|]. split; reflexivity.
Qed.

Lemma run_pending_at now m :
  wf T_MAX R_MAX (eng (sys m)) -> 0 <= i <= last_rct (eng (sys m)) ->
  let m' := run_pending action now i m in
  wf T_MAX R_MAX (eng (sys m')) /\
  grows (eng (sys m)) (eng (sys m')) /\
  exists l, trace m' = trace m ++ l /\
    count_events (scan_of i) l = 0%nat /\
    reaction_outcome now (reaction (eng (sys m)) i)
      (reaction_runs i l) (reaction (eng (sys m')) i).
Proof.
  intros Hwf Hi. simpl. unfold run_pending, reaction_outcome.
  change (aget false (rct_areTrigged (eng (sys m))) i)
    with (r_pending (reaction (eng (sys m)) i)).
  change (aget 0 (rct_nextCalls (eng (sys m))) i)
    with (r_next_execution (reaction (eng (sys m)) i)).
  destruct (r_pending (reaction (eng (sys m)) i) &&
            (r_next_execution (reaction (eng (sys m)) i) <? now)).
  - match goal with |- context [action ?p ?s] => call_action p s end.
    split; [exact W|]. split; [exact G|].
    eexists [_]. split; [reflexivity|]. split; [reflexivity|].
    split; [simpl; rewrite Z.eqb_refl; reflexivity|].
    cbn [sys emit with_sys]. rewrite K. unfold wf in Hwf. decompose [and] Hwf.
    unfold settled. rows. reflexivity.
  - split; [exact Hwf|]. split; [apply grows_refl|].
    exists []. rewrite app_nil_r. auto.
Qed.

Lemma run_trigger_other now j m :
  wf T_MAX R_MAX (eng (sys m)) -> 0 <= i -> 0 <= j -> j <> i ->
  calm m (run_trigger action check now j m).
Proof.
  intros Hwf Hi Hj Hne.
  unfold run_trigger.
  destruct (aget false (rct_areActive (eng (sys m))) j &&
            (aget 0 (rct_nextTrigs (eng (sys m))) j <? now));
    [|apply calm_refl; exact Hwf].
  pose proof (check_keeps (aget nullptr (rct_trigs (eng (sys m))) j) (sys m)) as Kc.
  unfold keeps_reaction in Kc. cbv beta in Kc.
  destruct (proj2 sketch_ok (aget nullptr (rct_trigs (eng (sys m))) j) (sys m) Hwf)
    as [Wc Gc].
  destruct (check (aget nullptr (rct_trigs (eng (sys m))) j) (sys m))
    as [fired s]. simpl in Kc, Wc, Gc.
  assert (Hid : (j =? i) = false) by (destruct (Z.eqb_spec j i); [contradiction|reflexivity]).
  destruct fired.
  - destruct (aget 0 (rct_tDelays (eng s)) j =? 0).
    + match goal with |- context [action ?p ?s] => call_action p s end.
      split; [exact W|]. split; [eapply grows_trans; eassumption|]. split.
      * cbn [sys emit with_sys]. rewrite K, <- Kc. rows. reflexivity.
      * eexists [_; _]. simpl. rewrite <- app_assoc.
        split; [reflexivity|]. split; [reflexivity|].
        rewrite !count_events_cons, count_events_nil. unfold scan_of. simpl.
        rewrite Hid. reflexivity.
    + split; [simpl; wf_lengths|]. split; [exact Gc|]. split.
      * cbn [sys emit with_sys]. rewrite <- Kc. rows. reflexivity.
      * eexists [_; _]. simpl. rewrite <- app_assoc.
        split; [reflexivity|]. split; [reflexivity|].
        rewrite !count_events_cons, count_events_nil. unfold scan_of. simpl.
        rewrite Hid. reflexivity.
  - split; [exact Wc|]. split; [exact Gc|]. split; [exact Kc|].
    eexists [_]. split; [reflexivity|]. split; [reflexivity|].
    rewrite count_events_one. unfold scan_of. simpl. rewrite Hid. reflexivity.
Qed.

Lemma run_trigger_calm now j m :
  wf T_MAX R_MAX (eng (sys m)) -> 0 <= i -> 0 <= j ->
  r_trigger_active (reaction (eng (sys m)) i) = false ->
  calm m (run_trigger action check now j m).
Proof.
  intros Hwf Hi Hj Hoff.
  destruct (Z.eq_dec j i) as [->|Hne].
  { rewrite run_trigger_skipped; [apply calm_refl; exact Hwf|].
    left. exact Hoff. }
  apply run_trigger_other; assumption.
Qed.

Lemma pending_phase_at now m :
  wf T_MAX R_MAX (eng (sys m)) -> 0 <= i <= last_rct (eng (sys m)) ->
  let m' := pending_phase R_MAX action now m in
  wf T_MAX R_MAX (eng (sys m')) /\
  grows (eng (sys m)) (eng (sys m')) /\
  exists l, trace m' = trace m ++ l /\
    count_events (scan_of i) l = 0%nat /\
    reaction_outcome now (reaction (eng (sys m)) i)
      (reaction_runs i l) (reaction (eng (sys m')) i).
Proof.
  intros Hwf Hi. simpl. unfold pending_phase.
  remember (reaction (eng (sys m)) i) as r eqn:Hr.
  pose (P := fun (j : Z) (m' : Machine Engine U) =>
    0 <= j /\ wf T_MAX R_MAX (eng (sys m')) /\
    grows (eng (sys m)) (eng (sys m')) /\
    exists l, trace m' = trace m ++ l /\
      count_events (scan_of i) l = 0%nat /\
      ((j <= i /\ reaction_runs i l = [] /\ reaction (eng (sys m')) i = r) \/
       (i < j /\ reaction_outcome now r (reaction_runs i l)
                   (reaction (eng (sys m')) i)))).
  assert (Hstep : forall j s, P j s -> j <= m_last_rct s ->
                    P (j + 1) (run_pending action now j s)).
  { intros j s (Hj & W & G & l & T & C & Hcase) _.
    destruct (Z.eq_dec j i) as [->|Hne].
    - destruct Hcase as [(_ & D & R)|(Hlt & _)]; [|lia].
      destruct (run_pending_at now s W) as (W' & G' & l' & T' & C' & O').
      { unfold grows in G. lia. }
      split; [lia|]. split; [exact W'|].
      split; [eapply grows_trans; eassumption|].
      exists (l ++ l'). split; [rewrite T', T, app_assoc; reflexivity|].
      split; [rewrite count_events_app, C, C'; reflexivity|].
      right. split; [lia|]. unfold reaction_outcome in *.
      rewrite reaction_runs_app, D. rewrite R in O'.
      destruct (r_pending r && (r_next_execution r <? now));
        destruct O' as [-> ->]; simpl; auto.
    - destruct (run_pending_calm now j s W) as (W' & G' & R' & l' & T' & D' & C');
        try lia.
      split; [lia|]. split; [exact W'|].
      split; [eapply grows_trans; eassumption|].
      exists (l ++ l'). split; [rewrite T', T, app_assoc; reflexivity|].
      split; [rewrite count_events_app, C, C'; reflexivity|].
      rewrite reaction_runs_app, D', app_nil_r, R'.
      destruct Hcase as [(Hle & D & R)|(Hlt & O)].
      + left. repeat split; try assumption; lia.
      + right. split; [lia|exact O]. }
  assert (H0 : P 0 m).
  { split; [lia|]. split; [exact Hwf|]. split; [apply grows_refl|].
    exists []. rewrite app_nil_r. split; [reflexivity|].
    split; [reflexivity|]. left. repeat split; auto; lia. }
  pose proof (for_upto_ind P m_last_rct (run_pending action now) Hstep
                (Z.to_nat R_MAX) 0 m H0) as Hloop.
  set (mf := for_upto (Z.to_nat R_MAX) m_last_rct (run_pending action now) 0 m) in *.
  destruct Hloop as (k & Hk & (_ & W & G & l & T & C & Hcase) & Hend).
  split; [exact W|]. split; [exact G|].
  exists l. split; [exact T|]. split; [exact C|].
  destruct Hcase as [(Hle & _)|(_ & O)]; [|exact O].
  exfalso. unfold m_last_rct in Hend. unfold grows in G.
  unfold wf in W. destruct W as (_ & (? & ?) & _).
  unfold wf in Hwf. destruct Hwf as (_ & (? & ?) & _). lia.
Qed.

Lemma tick_paused_reaction t m :
  wf T_MAX R_MAX (eng (sys m)) -> 0 <= i <= last_rct (eng (sys m)) ->
  r_trigger_active (reaction (eng (sys m)) i) = false ->
  let m' := tick T_MAX R_MAX action check t m in
  wf T_MAX R_MAX (eng (sys m')) /\
  grows (eng (sys m)) (eng (sys m')) /\
  exists l, trace m' = trace m ++ l /\
    count_events (scan_of i) l = 0%nat /\
    reaction_outcome t (reaction (eng (sys m)) i)
      (reaction_runs i l) (reaction (eng (sys m')) i).
Proof.
  intros Hwf Hi Hoff. simpl. unfold tick, run.
  set (m0 := with_sys {| eng := eng (sys m); clk := t; usr := usr (sys m) |} m).
  change (clk (sys m0)) with t.
  assert (H1 : calm m0 (schedule_phase T_MAX action t m0)).
  { unfold schedule_phase.
    apply (for_upto_inv (calm m0)); [|apply calm_refl; exact Hwf].
    intros j s Q _. eapply calm_trans; [exact Q|].
    apply run_schedule_calm. destruct Q as (W & _). exact W. }
  destruct H1 as (W1 & G1 & R1 & l1 & T1 & D1 & C1).
  set (m1 := schedule_phase T_MAX action t m0) in *.
  destruct (pending_phase_at t m1 W1) as (W2 & G2 & l2 & T2 & C2 & O2).
  { unfold grows in G1. cbn [m0 sys with_sys eng] in G1. lia. }
  set (m2 := pending_phase R_MAX action t m1) in *.
  assert (Hoff2 : r_trigger_active (reaction (eng (sys m2)) i) = false).
  { rewrite R1 in O2. cbn [m0 sys with_sys eng] in O2.
    unfold reaction_outcome in O2.
    destruct (r_pending (reaction (eng (sys m)) i) &&
              (r_next_execution (reaction (eng (sys m)) i) <? t));
      destruct O2 as [_ ->]; [unfold settled; simpl|]; exact Hoff. }
  assert (H3 : forall s, calm m2 s ->
             calm m2 s /\ r_trigger_active (reaction (eng (sys s)) i) = false).
  { intros s Q. split; [exact Q|]. destruct Q as (_ & _ & R & _).
    rewrite R. exact Hoff2. }
  assert (H4 : calm m2 (trigger_phase R_MAX action check t m2)).
  { unfold trigger_phase.
    apply (for_upto_inv_from (calm m2) _ _ 0); [|apply calm_refl; exact W2].
    intros j s Hj Q. eapply calm_trans; [exact Q|].
    apply run_trigger_calm; [destruct Q as (W & _); exact W|lia|exact Hj|].
    apply H3. exact Q. }
  destruct H4 as (W3 & G3 & R3 & l3 & T3 & D3 & C3).
  split; [exact W3|].
  split; [eapply grows_trans; [|exact G3]; eapply grows_trans; [exact G1|exact G2]|].
  exists (l1 ++ l2 ++ l3).
  split; [rewrite T3, T2, T1, <- !app_assoc; reflexivity|].
  split; [rewrite !count_events_app, C1, C2, C3; reflexivity|].
  rewrite !reaction_runs_app, D1, D3, app_nil_r, R3. simpl.
  rewrite R1 in O2. exact O2.
Qed.

(** Over any ticks a reaction whose trigger is paused has its predicate
    never called, and its queued action, if one is queued, executed once:
    at the first tick past the time it was queued for. *)
Lemma ticks_paused_reaction ts : forall m,
  wf T_MAX R_MAX (eng (sys m)) -> 0 <= i <= last_rct (eng (sys m)) ->
  r_trigger_active (reaction (eng (sys m)) i) = false ->
  let r := reaction (eng (sys m)) i in
  let m' := ticks T_MAX R_MAX action check ts m in
  exists l, trace m' = trace m ++ l /\
    count_events (scan_of i) l = 0%nat /\
    reaction_runs i l = first_run r ts /\
    reaction (eng (sys m')) i =
      match first_run r ts with [] => r | _ => settled r end.
Proof.
  induction ts as [|t ts IH]; intros m Hwf Hi Hoff; cbv zeta.
  - exists []. unfold ticks. cbn [fold_left]. rewrite app_nil_r.
    unfold first_run. cbn [List.find].
    destruct (r_pending (reaction (eng (sys m)) i)); auto.
  - destruct (tick_paused_reaction t m Hwf Hi Hoff)
      as (W1 & G1 & l1 & T1 & C1 & O1).
    change (ticks T_MAX R_MAX action check (t :: ts) m)
      with (ticks T_MAX R_MAX action check ts (tick T_MAX R_MAX action check t m)).
    set (m1 := tick T_MAX R_MAX action check t m) in *.
    assert (Hi1 : 0 <= i <= last_rct (eng (sys m1))).
    { unfold grows in G1. lia. }
    assert (Hoff1 : r_trigger_active (reaction (eng (sys m1)) i) = false).
    { unfold reaction_outcome in O1.
      destruct (r_pending (reaction (eng (sys m)) i) &&
                (r_next_execution (reaction (eng (sys m)) i) <? t));
        destruct O1 as [_ ->]; exact Hoff. }
    destruct (IH m1 W1 Hi1 Hoff1) as (l & T & C & D & R).
    exists (l1 ++ l). split; [rewrite T, T1, app_assoc; reflexivity|].
    split; [rewrite count_events_app, C1, C; reflexivity|].
    rewrite reaction_runs_app, D, R. clear T C D R IH.
    remember (reaction (eng (sys m)) i) as r eqn:Hr.
    remember (reaction (eng (sys m1)) i) as r1 eqn:Hr1.
    unfold reaction_outcome in O1. unfold first_run. cbn [List.find].
    destruct (r_pending r) eqn:Hp; cbn [andb] in O1.
    + destruct (r_next_execution r <? t) eqn:Hd; destruct O1 as [-> ->].
      * unfold settled. cbn [r_pending]. split; reflexivity.
      * rewrite Hp. split; reflexivity.
    + destruct O1 as [-> ->]. rewrite Hp. split; reflexivity.
Qed.

(** *** The debounce of a trigger *)

Definition bounce_free (timeout : Z) (m0 m : Machine Engine U) : Prop :=
  wf T_MAX R_MAX (eng (sys m)) /\
  grows (eng (sys m0)) (eng (sys m)) /\
  r_timeout (reaction (eng (sys m)) i) = timeout /\
  exists l, trace m = trace m0 ++ l /\
    debounced timeout (trigger_checks i l) /\
    armed timeout (last (trigger_checks i l))
      (r_next_trigger_check (reaction (eng (sys m)) i)).

Lemma bounce_free_calm timeout m0 m m' :
  bounce_free timeout m0 m -> calm m m' -> bounce_free timeout m0 m'.
Proof.
  intros (W & G & Hto & l & T & D & A) (W' & G' & R' & l' & T' & _ & C').
  split; [exact W'|]. split; [eapply grows_trans; eassumption|].
  split; [rewrite R'; exact Hto|].
  exists (l ++ l'). split; [rewrite T', T, app_assoc; reflexivity|].
  rewrite trigger_checks_app, (trigger_checks_none i l' C'), app_nil_r, R'.
  split; assumption.
Qed.

Lemma bounce_free_pending_at timeout now m0 m :
  0 <= i <= last_rct (eng (sys m0)) ->
  bounce_free timeout m0 m ->
  bounce_free timeout m0 (run_pending action now i m).
Proof.
  intros Hi (W & G & Hto & l & T & D & A).
  destruct (run_pending_at now m W) as (W' & G' & l' & T' & C' & O').
  { unfold grows in G. lia. }
  assert (Hrow : r_timeout (reaction (eng (sys (run_pending action now i m))) i) =
                   r_timeout (reaction (eng (sys m)) i) /\
                 r_next_trigger_check
                   (reaction (eng (sys (run_pending action now i m))) i) =
                   r_next_trigger_check (reaction (eng (sys m)) i)).
  { unfold reaction_outcome in O'.
    destruct (r_pending (reaction (eng (sys m)) i) &&
              (r_next_execution (reaction (eng (sys m)) i) <? now));
      destruct O' as [_ ->]; split; reflexivity. }
  destruct Hrow as [H1 H2].
  split; [exact W'|]. split; [eapply grows_trans; eassumption|].
  split; [rewrite H1; exact Hto|].
  exists (l ++ l'). split; [rewrite T', T, app_assoc; reflexivity|].
  rewrite trigger_checks_app, (trigger_checks_none i l' C'), app_nil_r, H2.
  split; assumption.
Qed.

Lemma bounce_free_trigger_at timeout now m0 m :
  0 <= i <= last_rct (eng (sys m0)) ->
  bounce_free timeout m0 m ->
  bounce_free timeout m0 (run_trigger action check now i m).
Proof.
  intros Hi (W & G & Hto & l & T & D & A).
  assert (Hi' : 0 <= i <= last_rct (eng (sys m))) by (unfold grows in G; lia).
  unfold run_trigger. cbv zeta.
  change (aget false (rct_areActive (eng (sys m))) i)
    with (r_trigger_active (reaction (eng (sys m)) i)).
  change (aget 0 (rct_nextTrigs (eng (sys m))) i)
    with (r_next_trigger_check (reaction (eng (sys m)) i)).
  destruct (r_trigger_active (reaction (eng (sys m)) i)); cbn [andb];
    [|exact (conj W (conj G (conj Hto (ex_intro _ l (conj T (conj D A))))))].
  destruct (Z.ltb_spec (r_next_trigger_check (reaction (eng (sys m)) i)) now)
    as [Hopen|_];
    [|exact (conj W (conj G (conj Hto (ex_intro _ l (conj T (conj D A))))))].
  assert (Hsnoc : forall f, debounced timeout (trigger_checks i l ++ [(now, f)])).
  { intros f. apply debounced_snoc; [exact D|]. intros t1 Ht1.
    rewrite Ht1 in A. cbn [armed] in A. rewrite <- A. exact Hopen. }
  pose proof (check_keeps (aget nullptr (rct_trigs (eng (sys m))) i) (sys m)) as Kc.
  unfold keeps_reaction in Kc. cbv beta in Kc.
  destruct (proj2 sketch_ok (aget nullptr (rct_trigs (eng (sys m))) i) (sys m) W)
    as [Wc Gc].
  destruct (check (aget nullptr (rct_trigs (eng (sys m))) i) (sys m))
    as [fired s]. simpl in Kc, Wc, Gc.
  assert (Hto' : aget 0 (rct_tTimeouts (eng s)) i = timeout).
  { rewrite <- Hto, <- Kc. reflexivity. }
  assert (Hlen : Z.of_nat (length (rct_nextTrigs (eng s))) = R_MAX /\
                 last_rct (eng s) < R_MAX /\ last_rct (eng (sys m)) <= last_rct (eng s)).
  { unfold wf in Wc. unfold grows in Gc. decompose [and] Wc. lia. }
  destruct fired.
  - destruct (aget 0 (rct_tDelays (eng s)) i =? 0).
    + match goal with |- context [action ?p ?s] => call_action p s end.
      split; [exact W0|].
      split; [eapply grows_trans; [exact G|]; eapply grows_trans; eassumption|].
      split; [cbn [sys emit with_sys]; rewrite K; rows; exact Hto'|].
      exists (l ++ [TriggerChecked i now true; ReactionTriggeredExecuted i now]).
      split; [cbn [trace emit with_sys]; rewrite T, <- !app_assoc; reflexivity|].
      rewrite trigger_checks_app. cbn [trigger_checks]. rewrite Z.eqb_refl.
      split; [apply Hsnoc|]. rewrite last_snoc. cbn [armed].
      cbn [sys emit with_sys]. rewrite K. rows. rewrite Hto'. reflexivity.
    + split; [simpl; wf_lengths|].
      split; [eapply grows_trans; [exact G|exact Gc]|].
      split; [cbn [sys emit with_sys eng with_eng]; rows; exact Hto'|].
      exists (l ++ [TriggerChecked i now true; ReactionTriggered i now]).
      split; [cbn [trace emit with_sys]; rewrite T, <- !app_assoc; reflexivity|].
      rewrite trigger_checks_app. cbn [trigger_checks]. rewrite Z.eqb_refl.
      split; [apply Hsnoc|]. rewrite last_snoc. cbn [armed].
      rows. rewrite Hto'. reflexivity.
  - split; [exact Wc|]. split; [eapply grows_trans; eassumption|].
    split; [cbn [sys emit with_sys]; rewrite Kc; exact Hto|].
    exists (l ++ [TriggerChecked i now false]).
    split; [cbn [trace emit with_sys]; rewrite T, <- !app_assoc; reflexivity|].
    rewrite trigger_checks_app. cbn [trigger_checks]. rewrite Z.eqb_refl.
    split; [apply Hsnoc|]. rewrite last_snoc. exact I.
Qed.

Lemma run_bounce_free timeout m0 m :
  0 <= i <= last_rct (eng (sys m0)) ->
  bounce_free timeout m0 m ->
  bounce_free timeout m0 (run T_MAX R_MAX action check m).
Proof.
  intros Hi B. unfold run, schedule_phase, pending_phase, trigger_phase.
  apply (for_upto_inv_from (bounce_free timeout m0) _ _ 0).
  { intros j s Hj Q. destruct (Z.eq_dec j i) as [->|Hne].
    - apply bounce_free_trigger_at; assumption.
    - eapply bounce_free_calm; [exact Q|].
      apply run_trigger_other; [destruct Q as (W & _); exact W|lia|exact Hj|exact Hne]. }
  apply (for_upto_inv_from (bounce_free timeout m0) _ _ 0).
  { intros j s Hj Q. destruct (Z.eq_dec j i) as [->|Hne].
    - apply bounce_free_pending_at; assumption.
    - eapply bounce_free_calm; [exact Q|].
      apply run_pending_calm; [destruct Q as (W & _); exact W|lia|exact Hj|exact Hne]. }
  apply (for_upto_inv_from (bounce_free timeout m0) _ _ 0); [|exact B].
  intros j s Hj Q. eapply bounce_free_calm; [exact Q|].
  apply run_schedule_calm. destruct Q as (W & _). exact W.
Qed.

(** Over any ticks, after a call of the predicate of reaction [i] that
    returned [true] at [t1], the predicate is next called at a tick whose
    clock value is above [t1 + timeout]. *)
Lemma ticks_debounced ts : forall m0 m,
  0 <= i <= last_rct (eng (sys m0)) ->
  bounce_free (r_timeout (reaction (eng (sys m0)) i)) m0 m ->
  bounce_free (r_timeout (reaction (eng (sys m0)) i)) m0
    (ticks T_MAX R_MAX action check ts m).
Proof.
  induction ts as [|t ts IH]; intros m0 m Hi B; [exact B|].
  change (ticks T_MAX R_MAX action check (t :: ts) m)
    with (ticks T_MAX R_MAX action check ts (tick T_MAX R_MAX action check t m)).
  apply IH; [exact Hi|]. unfold tick. apply run_bounce_free; [exact Hi|].
  destruct B as (W & G & Hto & l & T & D & A).
  split; [exact W|]. split; [exact G|]. split; [exact Hto|].
  exists l. auto.
Qed.

(** *** Reaction [i] followed through the trigger scan and the tick *)

Lemma run_trigger_at now m :
  wf T_MAX R_MAX (eng (sys m)) -> 0 <= i <= last_rct (eng (sys m)) ->
  let r := reaction (eng (sys m)) i in
  let m' := run_trigger action check now i m in
  wf T_MAX R_MAX (eng (sys m')) /\
  grows (eng (sys m)) (eng (sys m')) /\
  exists l, trace m' = trace m ++ l /\
    scan_outcome now i r (fst (check (r_predicate r) (sys m))) l
      (reaction (eng (sys m')) i).
Proof.
  intros Hwf Hi. cbv zeta. unfold run_trigger, scan_outcome. cbv zeta.
  change (aget false (rct_areActive (eng (sys m))) i)
    with (r_trigger_active (reaction (eng (sys m)) i)).
  change (aget 0 (rct_nextTrigs (eng (sys m))) i)
    with (r_next_trigger_check (reaction (eng (sys m)) i)).
  change (aget nullptr (rct_trigs (eng (sys m))) i)
    with (r_predicate (reaction (eng (sys m)) i)).
  destruct (r_trigger_active (reaction (eng (sys m)) i) &&
            (r_next_trigger_check (reaction (eng (sys m)) i) <? now)).
  2: { split; [exact Hwf|]. split; [apply grows_refl|].
       exists []. rewrite app_nil_r. auto. }
  pose proof (check_keeps (r_predicate (reaction (eng (sys m)) i)) (sys m)) as Kc.
  unfold keeps_reaction in Kc. cbv beta in Kc.
  destruct (proj2 sketch_ok (r_predicate (reaction (eng (sys m)) i)) (sys m) Hwf)
    as [Wc Gc].
  destruct (check (r_predicate (reaction (eng (sys m)) i)) (sys m))
    as [fired s]. cbn [fst snd] in *.
  assert (Hlen : Z.of_nat (length (rct_nextTrigs (eng s))) = R_MAX /\
                 Z.of_nat (length (rct_nextCalls (eng s))) = R_MAX /\
                 Z.of_nat (length (rct_areTrigged (eng s))) = R_MAX /\
                 last_rct (eng s) < R_MAX /\
                 last_rct (eng (sys m)) <= last_rct (eng s)).
  { unfold wf in Wc. unfold grows in Gc. decompose [and] Wc. lia. }
  change (aget 0 (rct_tDelays (eng s)) i) with (r_delay (reaction (eng s) i)).
  rewrite Kc.
  destruct fired.
  - destruct (r_delay (reaction (eng (sys m)) i) =? 0).
    + match goal with |- context [action ?p ?s] => call_action p s end.
      split; [exact W|]. split; [eapply grows_trans; eassumption|].
      eexists [_; _]. split; [cbn [trace emit with_sys]; rewrite <- app_assoc; reflexivity|].
      split; [reflexivity|].
      cbn [sys emit with_sys]. rewrite K. rewrite <- Kc. unfold rearmed.
      rows. reflexivity.
    + split; [cbn [sys emit with_sys eng with_eng]; wf_lengths|].
      split; [exact Gc|].
      eexists [_; _]. split; [cbn [trace emit with_sys]; rewrite <- app_assoc; reflexivity|].
      split; [reflexivity|].
      cbn [sys emit with_sys eng with_eng]. rewrite <- Kc. unfold queued.
      rows. reflexivity.
  - split; [exact Wc|]. split; [exact Gc|].
    eexists [_]. split; [reflexivity|]. split; [reflexivity|].
    cbn [sys emit with_sys]. exact Kc.
Qed.

(** The scan reaches reaction [i] with its row as the loop found it, calls
    the body there and goes on with the later reactions, which leave the
    row as the body made it. *)
Lemma trigger_phase_at now m :
  wf T_MAX R_MAX (eng (sys m)) -> 0 <= i <= last_rct (eng (sys m)) ->
  let r := reaction (eng (sys m)) i in
  let m_i := for_upto (Z.to_nat i) m_last_rct (run_trigger action check now) 0 m in
  let m' := trigger_phase R_MAX action check now m in
  calm m m_i /\
  m' = for_upto (Z.to_nat (R_MAX - i - 1)) m_last_rct
         (run_trigger action check now) (i + 1)
         (run_trigger action check now i m_i) /\
  wf T_MAX R_MAX (eng (sys m')) /\
  grows (eng (sys m)) (eng (sys m')) /\
  exists l, trace m' = trace m ++ l /\
    reaction_runs i l = [] /\
    scan_outcome now i r (fst (check (r_predicate r) (sys m_i)))
      (scan_events i l) (reaction (eng (sys m')) i).
Proof.
  intros Hwf Hi. cbv zeta.
  set (m_i := for_upto (Z.to_nat i) m_last_rct (run_trigger action check now) 0 m).
  assert (C1 : calm m m_i).
  { apply (for_upto_inv_below (calm m)); [|apply calm_refl; exact Hwf].
    intros j s Hj Q. eapply calm_trans; [exact Q|].
    apply run_trigger_other; [destruct Q as (W & _); exact W|lia|lia|lia]. }
  split; [exact C1|].
  destruct C1 as (W1 & G1 & R1 & l1 & T1 & D1 & S1).
  assert (Hle : 0 <= i <= last_rct (eng (sys m_i))) by (unfold grows in G1; lia).
  assert (HR : i < R_MAX).
  { unfold wf in W1. destruct W1 as (_ & (_ & ?) & _). lia. }
  assert (E : trigger_phase R_MAX action check now m =
              for_upto (Z.to_nat (R_MAX - i - 1)) m_last_rct
                (run_trigger action check now) (i + 1)
                (run_trigger action check now i m_i)).
  { unfold trigger_phase. apply for_upto_reach; [lia|].
    fold m_i. unfold m_last_rct. lia. }
  split; [exact E|]. rewrite E.
  destruct (run_trigger_at now m_i W1 Hle) as (W2 & G2 & l2 & T2 & O2).
  set (m_a := run_trigger action check now i m_i) in *.
  assert (C3 : calm m_a
                 (for_upto (Z.to_nat (R_MAX - i - 1)) m_last_rct
                    (run_trigger action check now) (i + 1) m_a)).
  { apply (for_upto_inv_from (calm m_a) _ _ (i + 1)); [|apply calm_refl; exact W2].
    intros j s Hj Q. eapply calm_trans; [exact Q|].
    apply run_trigger_other; [destruct Q as (W & _); exact W|lia|lia|lia]. }
  destruct C3 as (W3 & G3 & R3 & l3 & T3 & D3 & S3).
  split; [exact W3|].
  split; [eapply grows_trans; [exact G1|]; eapply grows_trans; eassumption|].
  exists (l1 ++ l2 ++ l3).
  split; [rewrite T3, T2, T1, <- !app_assoc; reflexivity|].
  rewrite R1 in O2.
  destruct (scan_outcome_events _ _ _ _ _ _ O2) as (F2 & N2 & _).
  split; [rewrite !reaction_runs_app, D1, N2, D3; reflexivity|].
  rewrite !scan_events_app, (scan_events_none i l1 S1), (scan_events_none i l3 S3),
    F2, app_nil_r, R3. exact O2.
Qed.

(** The same for the second loop: it reaches reaction [i] with its row as
    the loop found it. *)
Lemma pending_phase_reach now m :
  wf T_MAX R_MAX (eng (sys m)) -> 0 <= i <= last_rct (eng (sys m)) ->
  let m_i := for_upto (Z.to_nat i) m_last_rct (run_pending action now) 0 m in
  calm m m_i /\
  pending_phase R_MAX action now m =
    for_upto (Z.to_nat (R_MAX - i - 1)) m_last_rct (run_pending action now)
      (i + 1) (run_pending action now i m_i).
Proof.
  intros Hwf Hi. cbv zeta.
  set (m_i := for_upto (Z.to_nat i) m_last_rct (run_pending action now) 0 m).
  assert (C1 : calm m m_i).
  { apply (for_upto_inv_below (calm m)); [|apply calm_refl; exact Hwf].
    intros j s Hj Q. eapply calm_trans; [exact Q|].
    apply run_pending_calm; [destruct Q as (W & _); exact W|lia|lia|lia]. }
  split; [exact C1|].
  destruct C1 as (W1 & G1 & _).
  unfold pending_phase. apply for_upto_reach.
  - unfold wf in W1. destruct W1 as (_ & (_ & ?) & _).
    unfold grows in G1. lia.
  - fold m_i. unfold m_last_rct. unfold grows in G1. lia.
Qed.

(** One call of [run()]: the first loop leaves reaction [i] alone; the
    second reaches it with its row as it was when the tick began and
    executes its queued action if it is due; the third reaches it with the
    row the second left and scans its trigger. *)
Lemma run_reaction m :
  wf T_MAX R_MAX (eng (sys m)) -> 0 <= i <= last_rct (eng (sys m)) ->
  let now := clk (sys m) in
  let r := reaction (eng (sys m)) i in
  let m1 := schedule_phase T_MAX action now m in
  let m2 := pending_phase R_MAX action now m1 in
  let p_i := for_upto (Z.to_nat i) m_last_rct (run_pending action now) 0 m1 in
  let t_i := for_upto (Z.to_nat i) m_last_rct (run_trigger action check now) 0 m2 in
  let m' := run T_MAX R_MAX action check m in
  wf T_MAX R_MAX (eng (sys m')) /\
  grows (eng (sys m)) (eng (sys m')) /\
  (wf T_MAX R_MAX (eng (sys p_i)) /\ i <= last_rct (eng (sys p_i)) /\
   reaction (eng (sys p_i)) i = r) /\
  m2 = for_upto (Z.to_nat (R_MAX - i - 1)) m_last_rct (run_pending action now)
         (i + 1) (run_pending action now i p_i) /\
  m' = for_upto (Z.to_nat (R_MAX - i - 1)) m_last_rct
         (run_trigger action check now) (i + 1)
         (run_trigger action check now i t_i) /\
  exists l1 l2 l3,
    trace m1 = trace m ++ l1 /\ trace m2 = trace m1 ++ l2 /\
    trace m' = trace m2 ++ l3 /\
    (reaction_runs i l1 = [] /\ scan_events i l1 = []) /\
    scan_events i l2 = [] /\ reaction_runs i l3 = [] /\
    reaction_outcome now r (reaction_runs i l2) (reaction (eng (sys t_i)) i) /\
    scan_outcome now i (reaction (eng (sys t_i)) i)
      (fst (check (r_predicate r) (sys t_i))) (scan_events i l3)
      (reaction (eng (sys m')) i).
Proof.
  intros Hwf Hi. cbv zeta. unfold run. cbv zeta.
  set (now := clk (sys m)).
  assert (H1 : calm m (schedule_phase T_MAX action now m)).
  { unfold schedule_phase.
    apply (for_upto_inv (calm m)); [|apply calm_refl; exact Hwf].
    intros j s Q _. eapply calm_trans; [exact Q|].
    apply run_schedule_calm. destruct Q as (W & _). exact W. }
  destruct H1 as (W1 & G1 & R1 & l1 & T1 & D1 & C1).
  set (m1 := schedule_phase T_MAX action now m) in *.
  assert (Hi1 : 0 <= i <= last_rct (eng (sys m1))) by (unfold grows in G1; lia).
  destruct (pending_phase_at now m1 W1 Hi1) as (W2 & G2 & l2 & T2 & C2 & O2).
  destruct (pending_phase_reach now m1 W1 Hi1) as ((Wp & Gp & Rp & _) & Ep).
  set (m2 := pending_phase R_MAX action now m1) in *.
  destruct (trigger_phase_at now m2 W2)
    as ((_ & _ & Ri & _) & E & W3 & G3 & l3 & T3 & D3 & O3).
  { unfold grows in G1, G2. lia. }
  split; [exact W3|].
  split; [eapply grows_trans; [exact G1|]; eapply grows_trans; [exact G2|exact G3]|].
  split; [split; [exact Wp|]; split; [unfold grows in Gp; lia|congruence]|].
  split; [exact Ep|]. split; [exact E|].
  exists l1, l2, l3.
  split; [exact T1|]. split; [exact T2|]. split; [exact T3|].
  split; [split; [exact D1|apply scan_events_none; exact C1]|].
  split; [apply scan_events_none; exact C2|]. split; [exact D3|].
  rewrite R1 in O2.
  assert (Hp : r_predicate (reaction (eng (sys m2)) i) =
               r_predicate (reaction (eng (sys m)) i)).
  { unfold reaction_outcome in O2.
    destruct (r_pending (reaction (eng (sys m)) i) &&
              (r_next_execution (reaction (eng (sys m)) i) <? now));
      destruct O2 as [_ ->]; reflexivity. }
  rewrite Ri. rewrite Hp in O3.
  split; [exact O2|exact O3].
Qed.

End PausedReaction.

(** *** A tick in which nothing is due *)

(** At the clock value [now] no schedule is due, no queued execution is
    due and no trigger is to be checked. *)
Definition nothing_due (now : Z) (e : Engine) : Prop :=
  (forall i, 0 <= i <= last_schd e ->
     s_active (schedule e i) && (s_next_fire (schedule e i) <? now) = false) /\
  (forall i, 0 <= i <= last_rct e ->
     r_pending (reaction e i) && (r_next_execution (reaction e i) <? now)
       = false /\
     r_trigger_active (reaction e i) &&
       (r_next_trigger_check (reaction e i) <? now) = false).

Section Idle.
Variables T_MAX R_MAX : Z.
Context {U : Type}.
Variable action : fnptr -> Sys Engine U -> Sys Engine U.
Variable check : fnptr -> Sys Engine U -> bool * Sys Engine U.

Lemma for_upto_idle (cap : nat) (last : Machine Engine U -> Z)
    (body : Z -> Machine Engine U -> Machine Engine U) m :
  (forall j, 0 <= j <= last m -> body j m = m) ->
  for_upto cap last body 0 m = m.
Proof.
  intros Hbody.
  destruct (for_upto_ind (fun j s => 0 <= j /\ s = m) last body) with
    (cap := cap) (i := 0) (s := m) as (k & _ & (_ & H) & _).
  - intros j s (Hj & ->) Hle. split; [lia|]. apply Hbody. lia.
  - split; [lia|reflexivity].
  - exact H.
Qed.

Lemma run_idle m :
  nothing_due (clk (sys m)) (eng (sys m)) ->
  run T_MAX R_MAX action check m = m.
Proof.
  intros (Hs & Hr). unfold run, schedule_phase, pending_phase, trigger_phase.
  cbv zeta.
  rewrite (for_upto_idle _ m_last_schd (run_schedule action (clk (sys m)))).
  2:{ intros j Hj. unfold run_schedule. cbv zeta.
      change (aget false (schd_areActive (eng (sys m))) j)
        with (s_active (schedule (eng (sys m)) j)).
      change (aget 0 (schd_nextCalls (eng (sys m))) j)
        with (s_next_fire (schedule (eng (sys m)) j)).
      rewrite (Hs j Hj). reflexivity. }
  rewrite (for_upto_idle _ m_last_rct (run_pending action (clk (sys m)))).
  2:{ intros j Hj. unfold run_pending. cbv zeta.
      change (aget false (rct_areTrigged (eng (sys m))) j)
        with (r_pending (reaction (eng (sys m)) j)).
      change (aget 0 (rct_nextCalls (eng (sys m))) j)
        with (r_next_execution (reaction (eng (sys m)) j)).
      rewrite (proj1 (Hr j Hj)). reflexivity. }
  apply for_upto_idle.
  intros j Hj. unfold run_trigger. cbv zeta.
  change (aget false (rct_areActive (eng (sys m))) j)
    with (r_trigger_active (reaction (eng (sys m)) j)).
  change (aget 0 (rct_nextTrigs (eng (sys m))) j)
    with (r_next_trigger_check (reaction (eng (sys m)) j)).
  rewrite (proj2 (Hr j Hj)). reflexivity.
Qed.

Lemma ticks_idle ts : forall m,
  Forall (fun t => nothing_due t (eng (sys m))) ts ->
  let m' := ticks T_MAX R_MAX action check ts m in
  eng (sys m') = eng (sys m) /\ usr (sys m') = usr (sys m) /\
  trace m' = trace m.
Proof.
  induction ts as [|t ts IH]; intros m Hts; [cbn; auto|].
  apply Forall_cons in Hts. destruct Hts as [Ht Hts].
  change (ticks T_MAX R_MAX action check (t :: ts) m)
    with (ticks T_MAX R_MAX action check ts (tick T_MAX R_MAX action check t m)).
  assert (E : tick T_MAX R_MAX action check t m =
              with_sys {| eng := eng (sys m); clk := t; usr := usr (sys m) |} m).
  { unfold tick. apply run_idle. exact Ht. }
  rewrite E. cbv zeta.
  destruct (IH (with_sys {| eng := eng (sys m); clk := t; usr := usr (sys m) |} m))
    as (H1 & H2 & H3); [exact Hts|].
  cbv zeta in H1, H2, H3. rewrite H1, H2, H3. auto.
Qed.

End Idle.

(** *** Assumptions on a sketch, bundled *)

(** No function of the sketch pauses or resumes the trigger of reaction
    [i], or sets the time of its next check. *)
Definition sketch_keeps_gate {U : Type} (i : Z)
    (action : fnptr -> Sys Engine U -> Sys Engine U)
    (check : fnptr -> Sys Engine U -> bool * Sys Engine U) : Prop :=
  (forall p, keeps_gate i (action p)) /\
  (forall p, keeps_gate i (fun s => snd (check p s))).

(** No function of the sketch pauses, resumes, cancels or stops
    reaction [i]. *)
Definition sketch_keeps_reaction {U : Type} (i : Z)
    (action : fnptr -> Sys Engine U -> Sys Engine U)
    (check : fnptr -> Sys Engine U -> bool * Sys Engine U) : Prop :=
  (forall p, keeps_reaction i (action p)) /\
  (forall p, keeps_reaction i (fun s => snd (check p s))).

(** *** The three blocks of a tick *)

(** What each of the three loops of [run()] adds to the trace. *)
Lemma run_phases_trace {U : Type} (T_MAX R_MAX : Z)
    (action : fnptr -> Sys Engine U -> Sys Engine U)
    (check : fnptr -> Sys Engine U -> bool * Sys Engine U)
    (m : Machine Engine U) :
  let now := clk (sys m) in
  let m1 := schedule_phase T_MAX action now m in
  let m2 := pending_phase R_MAX action now m1 in
  let m' := run T_MAX R_MAX action check m in
  exists l1 l2 l3,
    (trace m1 = trace m ++ l1 /\ trace m2 = trace m1 ++ l2 /\
     trace m' = trace m2 ++ l3) /\
    trace m' = trace m ++ l1 ++ l2 ++ l3 /\
    phase_trace is_schedule_event id_lt now 0 l1 /\
    phase_trace is_settle_event id_lt now 0 l2 /\
    phase_trace is_scan_event id_le now 0 l3.
Proof.
  cbv zeta. set (now := clk (sys m)).
  destruct (for_upto_phase_trace is_schedule_event id_lt now m_last_schd
              (run_schedule action now) (fun a b H => H)
              (run_schedule_trace action now) (Z.to_nat T_MAX) 0 m)
    as (l1 & H1 & P1).
  change (for_upto (Z.to_nat T_MAX) m_last_schd (run_schedule action now) 0 m)
    with (schedule_phase T_MAX action now m) in H1.
  set (m1 := schedule_phase T_MAX action now m) in *.
  destruct (for_upto_phase_trace is_settle_event id_lt now m_last_rct
              (run_pending action now) (fun a b H => H)
              (run_pending_trace action now) (Z.to_nat R_MAX) 0 m1)
    as (l2 & H2 & P2).
  change (for_upto (Z.to_nat R_MAX) m_last_rct (run_pending action now) 0 m1)
    with (pending_phase R_MAX action now m1) in H2.
  set (m2 := pending_phase R_MAX action now m1) in *.
  destruct (for_upto_phase_trace is_scan_event id_le now m_last_rct
              (run_trigger action check now) id_lt_le
              (run_trigger_trace action check now) (Z.to_nat R_MAX) 0 m2)
    as (l3 & H3 & P3).
  change (for_upto (Z.to_nat R_MAX) m_last_rct (run_trigger action check now) 0 m2)
    with (run T_MAX R_MAX action check m) in H3.
  exists l1, l2, l3. split; [auto|].
  split; [rewrite H3, H2, H1, <- !app_assoc; reflexivity|]. auto.
Qed.

(** Schedule [k] in the tick, for a sketch that leaves it alone: what the
    first loop did to it is what the tick did to it. *)
Lemma run_block_schedule {U : Type} (T_MAX R_MAX : Z)
    (action : fnptr -> Sys Engine U -> Sys Engine U)
    (check : fnptr -> Sys Engine U -> bool * Sys Engine U)
    (k : Z) (m : Machine Engine U) (l1 : list Event) :
  sketch_respects T_MAX R_MAX action check ->
  sketch_keeps_schedule k action check ->
  wf T_MAX R_MAX (eng (sys m)) -> 0 <= k <= last_schd (eng (sys m)) ->
  let now := clk (sys m) in
  trace (schedule_phase T_MAX action now m) = trace m ++ l1 ->
  schedule_outcome now (schedule (eng (sys m)) k) (schedule_firings k l1)
    (schedule (eng (sys (run T_MAX R_MAX action check m))) k).
Proof.
  intros [Ha Hc] [Ksa Ksc] Hwf Hk now H1.
  destruct (schedule_phase_at T_MAX R_MAX action Ha k Ksa now m Hwf Hk)
    as (W1 & G1 & l1' & T1' & O1).
  assert (l1' = l1) by (rewrite H1 in T1'; apply app_inv_head in T1'; congruence).
  subst l1'.
  destruct (quiet_phases T_MAX R_MAX action check Ha Hc k Ksa Ksc now _ W1)
    as (_ & _ & Q & _).
  unfold run. cbv zeta. fold now. rewrite Q. exact O1.
Qed.

(** *** One call of [run()] *)

(** The tick as a whole.  [run()] is its three loops one after the other
    with the clock value read on entry; each adds its block of events to
    the trace; every entry up to the high-water mark is visited by its
    loop, on the state the earlier turns have left; and for a sketch that
    uses the engine through its methods, a schedule or a reaction that no
    function of the sketch writes is handled in the tick as its row at
    the beginning of the tick tells. *)
Lemma run_structure {U : Type} (T_MAX R_MAX : Z)
    (action : fnptr -> Sys Engine U -> Sys Engine U)
    (check : fnptr -> Sys Engine U -> bool * Sys Engine U)
    (m : Machine Engine U) :
  let now := clk (sys m) in
  let m1 := schedule_phase T_MAX action now m in
  let m2 := pending_phase R_MAX action now m1 in
  let m' := run T_MAX R_MAX action check m in
  m' = trigger_phase R_MAX action check now m2 /\
  exists l1 l2 l3,
    trace m' = trace m ++ l1 ++ l2 ++ l3 /\
    phase_trace is_schedule_event id_lt now 0 l1 /\
    phase_trace is_settle_event id_lt now 0 l2 /\
    phase_trace is_scan_event id_le now 0 l3 /\
    (forall la ev lb i,
       l1 ++ l2 ++ l3 = la ++ ev :: lb -> is_scan_event ev = true ->
       count_events (reaction_settled i) lb = 0%nat) /\
    (trace m1 = trace m ++ l1 /\ trace m2 = trace m1 ++ l2 /\
     trace m' = trace m2 ++ l3) /\
    (forall k, 0 <= k < T_MAX ->
       let s_k := for_upto (Z.to_nat k) m_last_schd (run_schedule action now) 0 m in
       k <= last_schd (eng (sys s_k)) ->
       m1 = for_upto (Z.to_nat (T_MAX - k - 1)) m_last_schd
              (run_schedule action now) (k + 1) (run_schedule action now k s_k)) /\
    (forall i, 0 <= i < R_MAX ->
       let p_i := for_upto (Z.to_nat i) m_last_rct (run_pending action now) 0 m1 in
       let t_i := for_upto (Z.to_nat i) m_last_rct
                    (run_trigger action check now) 0 m2 in
       (i <= last_rct (eng (sys p_i)) ->
        m2 = for_upto (Z.to_nat (R_MAX - i - 1)) m_last_rct
               (run_pending action now) (i + 1) (run_pending action now i p_i)) /\
       (i <= last_rct (eng (sys t_i)) ->
        m' = for_upto (Z.to_nat (R_MAX - i - 1)) m_last_rct
               (run_trigger action check now) (i + 1)
               (run_trigger action check now i t_i))) /\
    (sketch_respects T_MAX R_MAX action check ->
     wf T_MAX R_MAX (eng (sys m)) ->
     (forall k, sketch_keeps_schedule k action check ->
        0 <= k <= last_schd (eng (sys m)) ->
        schedule_outcome now (schedule (eng (sys m)) k) (schedule_firings k l1)
          (schedule (eng (sys m')) k)) /\
     (forall i, sketch_keeps_reaction i action check ->
        0 <= i <= last_rct (eng (sys m)) ->
        let r := reaction (eng (sys m)) i in
        let p_i := for_upto (Z.to_nat i) m_last_rct (run_pending action now) 0 m1 in
        let t_i := for_upto (Z.to_nat i) m_last_rct
                     (run_trigger action check now) 0 m2 in
        reaction (eng (sys p_i)) i = r /\
        (r_pending r = true -> r_next_execution r < now ->
         exists e1,
           reaction e1 i = settled r /\
           other_reactions_kept i (eng (sys p_i)) e1 /\
           schedules_kept (eng (sys p_i)) e1 /\
           marks_kept (eng (sys p_i)) e1 /\
           m2 = for_upto (Z.to_nat (R_MAX - i - 1)) m_last_rct
                  (run_pending action now) (i + 1)
                  (emit (ReactionExecuted i now)
                     (with_sys (action (r_action r) (with_eng e1 (sys p_i)))
                        p_i))) /\
        reaction_outcome now r (reaction_runs i l2) (reaction (eng (sys t_i)) i) /\
        scan_outcome now i (reaction (eng (sys t_i)) i)
          (fst (check (r_predicate r) (sys t_i))) (scan_events i l3)
          (reaction (eng (sys m')) i) /\
        reaction_runs i (l1 ++ l3) = [] /\ scan_events i (l1 ++ l2) = [])).
Proof.
  cbv zeta. split; [reflexivity|].
  destruct (run_phases_trace T_MAX R_MAX action check m)
    as (l1 & l2 & l3 & (T1 & T2 & T3) & T & P1 & P2 & P3).
  exists l1, l2, l3.
  split; [exact T|]. split; [exact P1|]. split; [exact P2|]. split; [exact P3|].
  split.
  { intros la ev lb i Heq Hev. apply no_settle_among_scan.
    eapply scan_events_come_last; eassumption. }
  split; [auto|].
  split.
  { intros k Hk Hle. unfold schedule_phase. apply for_upto_reach; assumption. }
  split.
  { intros i Hi. split; intros Hle.
    - unfold pending_phase. apply for_upto_reach; assumption.
    - unfold run, trigger_phase. cbv zeta. apply for_upto_reach; assumption. }
  intros Hok Hwf. split.
  - intros k Kk Hk.
    exact (run_block_schedule T_MAX R_MAX action check k m l1 Hok Kk Hwf Hk T1).
  - intros i [Ka Kc] Hi.
    destruct (run_reaction T_MAX R_MAX action check Hok i Ka Kc m Hwf Hi)
      as (W' & G' & (Wp & Hlp & Rp) & Ep & Et & l1' & l2' & l3'
          & T1' & T2' & T3' & (D1 & S1) & S2 & D3 & O2 & O3).
    assert (l1' = l1) by (rewrite T1 in T1'; apply app_inv_head in T1'; congruence).
    assert (l2' = l2) by (rewrite T2 in T2'; apply app_inv_head in T2'; congruence).
    assert (l3' = l3) by (rewrite T3 in T3'; apply app_inv_head in T3'; congruence).
    subst l1' l2' l3'.
    split; [exact Rp|]. split.
    { intros Hp Hd.
      assert (Hr : 0 <= i < R_MAX).
      { unfold wf in Hwf. destruct Hwf as (_ & (_ & ?) & _). lia. }
      destruct (run_pending_due T_MAX R_MAX action (clk (sys m)) i _ Wp Hr)
        as (e1 & R1 & O & S & M & E).
      { rewrite Rp. exact Hp. }
      { rewrite Rp. exact Hd. }
      exists e1. split; [rewrite R1, Rp; reflexivity|].
      split; [exact O|]. split; [exact S|]. split; [exact M|].
      rewrite Rp in E. rewrite <- E. exact Ep. }
    split; [exact O2|]. split; [exact O3|].
    rewrite reaction_runs_app, scan_events_app, D1, D3, S1, S2. auto.
Qed.

(** *** Sequences of method calls *)

(** One call of a method of the engine other than [run()], as [setup()] or
    a callback of a sketch makes it. *)
Inductive Call : Type :=
| AddSchedule (callback : fnptr) (interval delay_start : Z)
| AddReaction (trigger callback : fnptr) (timeout delay delay_start : Z)
| PauseSchedule (schd_id : Z)
| PauseTrigger (rct_id : Z)
| ResumeSchedule (schd_id timestamp : Z) (abs : bool)
| ResumeTrigger (rct_id timestamp : Z) (abs : bool)
| CancelReaction (rct_id timestamp : Z) (abs : bool)
| StopReaction (rct_id : Z)
| Begin.

(** The call [c] made when [millis()] reads [millis]. *)
Definition call (T_MAX R_MAX : Z) (c : Call) (millis : Z) (e : Engine)
    : Engine :=
  match c with
  | AddSchedule cb iv d => snd (addSchedule T_MAX cb iv d e)
  | AddReaction tr cb to dl d => snd (addReaction R_MAX tr cb to dl d e)
  | PauseSchedule id => pauseSchedule id e
  | PauseTrigger id => pauseTrigger id e
  | ResumeSchedule id ts abs => resumeSchedule id ts abs millis e
  | ResumeTrigger id ts abs => resumeTrigger id ts abs millis e
  | CancelReaction id ts abs => cancelReaction id ts abs millis e
  | StopReaction id => stopReaction id e
  | Begin => begin T_MAX R_MAX millis e
  end.

(** A sequence of calls, each with the clock value it is made at. *)
Definition calls (T_MAX R_MAX : Z) (cs : list (Z * Call)) (e : Engine)
    : Engine :=
  fold_left (fun e tc => call T_MAX R_MAX (snd tc) (fst tc) e) cs e.

(** The entries that exist in [e] have in [e'] the callbacks, interval,
    timeout and delay they were added with. *)
Definition entries_kept (e e' : Engine) : Prop :=
  (forall i, 0 <= i <= last_schd e ->
     s_action (schedule e' i) = s_action (schedule e i) /\
     s_interval (schedule e' i) = s_interval (schedule e i)) /\
  (forall i, 0 <= i <= last_rct e ->
     r_predicate (reaction e' i) = r_predicate (reaction e i) /\
     r_action (reaction e' i) = r_action (reaction e i) /\
     r_timeout (reaction e' i) = r_timeout (reaction e i) /\
     r_delay (reaction e' i) = r_delay (reaction e i)).

Definition extends (T_MAX R_MAX : Z) (e e' : Engine) : Prop :=
  wf T_MAX R_MAX e' /\ grows e e' /\ entries_kept e e'.

Lemma extends_refl T_MAX R_MAX e : wf T_MAX R_MAX e -> extends T_MAX R_MAX e e.
Proof.
  intros Hwf. split; [exact Hwf|]. split; [apply grows_refl|].
  split; intros i Hi; auto.
Qed.

Lemma extends_trans T_MAX R_MAX e1 e2 e3 :
  extends T_MAX R_MAX e1 e2 -> extends T_MAX R_MAX e2 e3 ->
  extends T_MAX R_MAX e1 e3.
Proof.
  intros (W2 & G2 & S2 & R2) (W3 & G3 & S3 & R3).
  split; [exact W3|]. split; [eapply grows_trans; eassumption|].
  unfold grows in G2. split; intros i Hi.
  - destruct (S2 i Hi) as (A & B). destruct (S3 i) as (A' & B'); [lia|].
    split; congruence.
  - destruct (R2 i Hi) as (A & B & C & D).
    destruct (R3 i) as (A' & B' & C' & D'); [lia|].
    repeat split; congruence.
Qed.

Lemma rows_extends T_MAX R_MAX e e' :
  wf T_MAX R_MAX e' -> marks_kept e e' ->
  (forall i, 0 <= i <= last_schd e ->
     s_action (schedule e' i) = s_action (schedule e i) /\
     s_interval (schedule e' i) = s_interval (schedule e i)) ->
  (forall i, 0 <= i <= last_rct e ->
     r_predicate (reaction e' i) = r_predicate (reaction e i) /\
     r_action (reaction e' i) = r_action (reaction e i) /\
     r_timeout (reaction e' i) = r_timeout (reaction e i) /\
     r_delay (reaction e' i) = r_delay (reaction e i)) ->
  extends T_MAX R_MAX e e'.
Proof.
  intros W (M1 & M2 & _) S R. split; [exact W|].
  split; [unfold grows; lia|]. split; assumption.
Qed.

Lemma call_extends T_MAX R_MAX c now e :
  wf T_MAX R_MAX e -> extends T_MAX R_MAX e (call T_MAX R_MAX c now e).
Proof.
  intros Hwf. destruct c; cbn [call].
  - split; [apply wf_addSchedule; exact Hwf|].
    unfold wf in Hwf. decompose [and] Hwf. clear Hwf.
    unfold addSchedule, grows, entries_kept. guard_cases.
    + split; [lia|]. split; intros i Hi; auto.
    + split; [lia|]. split; intros i Hi; rows; auto.
  - split; [apply wf_addReaction; exact Hwf|].
    unfold wf in Hwf. decompose [and] Hwf. clear Hwf.
    unfold addReaction, grows, entries_kept. guard_cases.
    + split; [lia|]. split; intros i Hi; auto.
    + split; [lia|]. split; intros i Hi; rows; auto.
  - split; [apply wf_pauseSchedule; exact Hwf|].
    unfold pauseSchedule, grows, entries_kept. guard_cases;
      (split; [lia|]; split; intros i Hi; rows; auto).
  - split; [apply wf_pauseTrigger; exact Hwf|].
    unfold pauseTrigger, grows, entries_kept. guard_cases;
      (split; [lia|]; split; intros i Hi; rows; auto).
  - split; [apply wf_resumeSchedule; exact Hwf|].
    unfold resumeSchedule, grows, entries_kept. guard_cases;
      (split; [lia|]; split; intros i Hi; rows; auto).
  - split; [apply wf_resumeTrigger; exact Hwf|].
    unfold resumeTrigger, grows, entries_kept. guard_cases;
      (split; [lia|]; split; intros i Hi; rows; auto).
  - split; [apply wf_cancelReaction; exact Hwf|].
    unfold cancelReaction, grows, entries_kept. guard_cases;
      (split; [lia|]; split; intros i Hi; rows; auto).
  - split; [apply wf_stopReaction; exact Hwf|].
    unfold stopReaction, grows, entries_kept. guard_cases;
      (split; [lia|]; split; intros i Hi; rows; auto).
  - destruct (begin_rows T_MAX R_MAX now e Hwf) as (W & M & S1 & _ & R1 & _).
    apply rows_extends; [exact W|exact M| |].
    + intros i Hi. rewrite (S1 i Hi). auto.
    + intros i Hi. rewrite (R1 i Hi). auto.
Qed.

Lemma calls_extends T_MAX R_MAX cs : forall e,
  wf T_MAX R_MAX e -> extends T_MAX R_MAX e (calls T_MAX R_MAX cs e).
Proof.
  induction cs as [|[t c] cs IH]; intros e Hwf.
  - apply extends_refl. exact Hwf.
  - pose proof (call_extends T_MAX R_MAX c t e Hwf) as H1.
    eapply extends_trans; [exact H1|].
    apply IH. destruct H1 as (W & _). exact W.
Qed.

End SimpleMore.
(** * Further properties of TinyEvents *)

Module TinyMore.
Import Tiny TinyFacts.

(** *** [begin()] *)

(** [e'] is [e] but for the array of due times of the schedules. *)
Definition only_schd_nextCalls_differ (e e' : Engine) : Prop :=
  e' = set_schd_nextCalls (schd_nextCalls e') e.

Definition only_rct_nextTrigs_differ (e e' : Engine) : Prop :=
  e' = set_rct_nextTrigs (rct_nextTrigs e') e.

Lemma tiny_begin_schedules_loop T_MAX R_MAX now e :
  wf T_MAX R_MAX e ->
  let e' := for_upto (Z.to_nat T_MAX) last_schd (begin_schedule now) 0 e in
  only_schd_nextCalls_differ e e' /\
  length (schd_nextCalls e') = length (schd_nextCalls e) /\
  (forall i, 0 <= i <= last_schd e ->
     aget 0 (schd_nextCalls e') i = ulong (aget 0 (schd_nextCalls e) i + now)) /\
  (forall i, last_schd e < i ->
     aget 0 (schd_nextCalls e') i = aget 0 (schd_nextCalls e) i).
Proof.
  intros Hwf.
  pose (P := fun (j : Z) (e' : Engine) =>
    0 <= j <= last_schd e + 1 /\
    only_schd_nextCalls_differ e e' /\
    length (schd_nextCalls e') = length (schd_nextCalls e) /\
    (forall i, 0 <= i < j ->
       aget 0 (schd_nextCalls e') i = ulong (aget 0 (schd_nextCalls e) i + now)) /\
    (forall i, j <= i ->
       aget 0 (schd_nextCalls e') i = aget 0 (schd_nextCalls e) i)).
  assert (Hlen : Z.of_nat (length (schd_nextCalls e)) = T_MAX /\
                 -1 <= last_schd e < T_MAX).
  { unfold wf in Hwf. tauto. }
  assert (Hstep : forall j s, P j s -> j <= last_schd s -> P (j + 1) (begin_schedule now j s)).
  { intros j s (Hj & Hd & Hl & Hlo & Hhi) Hle.
    assert (Hlast : last_schd s = last_schd e) by (rewrite Hd; reflexivity).
    unfold begin_schedule. split; [lia|]. split; [|split; [|split]].
    - clear - Hd. unfold only_schd_nextCalls_differ, set_schd_nextCalls in *.
      destruct s, e. cbn in *. injection Hd; intros; subst; reflexivity.
    - cbn. rewrite length_aset. exact Hl.
    - intros i Hi. cbn. destruct (Z.eq_dec i j) as [->|Hne].
      + rewrite aget_aset_eq by lia. rewrite Hhi by lia. reflexivity.
      + rewrite aget_aset_ne by lia. apply Hlo. lia.
    - intros i Hi. cbn. rewrite aget_aset_ne by lia. apply Hhi. lia. }
  assert (H0 : P 0 e).
  { split; [lia|]. split; [destruct e; reflexivity|]. split; [reflexivity|].
    split; [intros; lia|intros; reflexivity]. }
  pose proof (for_upto_ind P last_schd (begin_schedule now) Hstep
                (Z.to_nat T_MAX) 0 e H0) as Hloop.
  cbv zeta.
  set (ef := for_upto (Z.to_nat T_MAX) last_schd (begin_schedule now) 0 e) in *.
  destruct Hloop as (k & Hk & (Hj & Hd & Hl & Hlo & Hhi) & Hend).
  assert (Hlast : last_schd ef = last_schd e) by (rewrite Hd; reflexivity).
  assert (k = last_schd e + 1) by lia. subst k.
  split; [exact Hd|]. split; [exact Hl|]. split.
  - intros i Hi. apply Hlo. lia.
  - intros i Hi. apply Hhi. lia.
Qed.

Lemma tiny_begin_reactions_loop T_MAX R_MAX now e :
  wf T_MAX R_MAX e ->
  let e' := for_upto (Z.to_nat R_MAX) last_rct (begin_reaction now) 0 e in
  only_rct_nextTrigs_differ e e' /\
  length (rct_nextTrigs e') = length (rct_nextTrigs e) /\
  (forall i, 0 <= i <= last_rct e ->
     aget 0 (rct_nextTrigs e') i = ulong (aget 0 (rct_nextTrigs e) i + now)) /\
  (forall i, last_rct e < i ->
     aget 0 (rct_nextTrigs e') i = aget 0 (rct_nextTrigs e) i).
Proof.
  intros Hwf.
  pose (P := fun (j : Z) (e' : Engine) =>
    0 <= j <= last_rct e + 1 /\
    only_rct_nextTrigs_differ e e' /\
    length (rct_nextTrigs e') = length (rct_nextTrigs e) /\
    (forall i, 0 <= i < j ->
       aget 0 (rct_nextTrigs e') i = ulong (aget 0 (rct_nextTrigs e) i + now)) /\
    (forall i, j <= i ->
       aget 0 (rct_nextTrigs e') i = aget 0 (rct_nextTrigs e) i)).
  assert (Hlen : Z.of_nat (length (rct_nextTrigs e)) = R_MAX /\
                 -1 <= last_rct e < R_MAX).
  { unfold wf in Hwf. tauto. }
  assert (Hstep : forall j s, P j s -> j <= last_rct s -> P (j + 1) (begin_reaction now j s)).
  { intros j s (Hj & Hd & Hl & Hlo & Hhi) Hle.
    assert (Hlast : last_rct s = last_rct e) by (rewrite Hd; reflexivity).
    unfold begin_reaction. split; [lia|]. split; [|split; [|split]].
    - clear - Hd. unfold only_rct_nextTrigs_differ, set_rct_nextTrigs in *.
      destruct s, e. cbn in *. injection Hd; intros; subst; reflexivity.
    - cbn. rewrite length_aset. exact Hl.
    - intros i Hi. cbn. destruct (Z.eq_dec i j) as [->|Hne].
      + rewrite aget_aset_eq by lia. rewrite Hhi by lia. reflexivity.
      + rewrite aget_aset_ne by lia. apply Hlo. lia.
    - intros i Hi. cbn. rewrite aget_aset_ne by lia. apply Hhi. lia. }
  assert (H0 : P 0 e).
  { split; [lia|]. split; [destruct e; reflexivity|]. split; [reflexivity|].
    split; [intros; lia|intros; reflexivity]. }
  pose proof (for_upto_ind P last_rct (begin_reaction now) Hstep
                (Z.to_nat R_MAX) 0 e H0) as Hloop.
  cbv zeta.
  set (ef := for_upto (Z.to_nat R_MAX) last_rct (begin_reaction now) 0 e) in *.
  destruct Hloop as (k & Hk & (Hj & Hd & Hl & Hlo & Hhi) & Hend).
  assert (Hlast : last_rct ef = last_rct e) by (rewrite Hd; reflexivity).
  assert (k = last_rct e + 1) by lia. subst k.
  split; [exact Hd|]. split; [exact Hl|]. split.
  - intros i Hi. apply Hlo. lia.
  - intros i Hi. apply Hhi. lia.
Qed.

Lemma tiny_begin_rows T_MAX R_MAX now e :
  wf T_MAX R_MAX e ->
  let e' := begin T_MAX R_MAX now e in
  wf T_MAX R_MAX e' /\ marks_kept e e' /\
  (forall i, 0 <= i <= last_schd e ->
     schedule e' i =
       {| s_action := s_action (schedule e i);
          s_interval := s_interval (schedule e i);
          s_next_fire := ulong (s_next_fire (schedule e i) + now) |}) /\
  (forall i, last_schd e < i -> schedule e' i = schedule e i) /\
  (forall i, 0 <= i <= last_rct e ->
     reaction e' i =
       {| r_predicate := r_predicate (reaction e i);
          r_action := r_action (reaction e i);
          r_timeout := r_timeout (reaction e i);
          r_delay := r_delay (reaction e i);
          r_next_trigger_check :=
            ulong (r_next_trigger_check (reaction e i) + now);
          r_next_execution := r_next_execution (reaction e i);
          r_pending := r_pending (reaction e i) |}) /\
  (forall i, last_rct e < i -> reaction e' i = reaction e i).
Proof.
  intros Hwf. unfold begin. cbv zeta.
  destruct (tiny_begin_schedules_loop T_MAX R_MAX now e Hwf) as (D1 & L1 & Lo1 & Hi1).
  set (e1 := for_upto (Z.to_nat T_MAX) last_schd (begin_schedule now) 0 e) in *.
  clearbody e1. unfold only_schd_nextCalls_differ in D1.
  assert (W1 : wf T_MAX R_MAX e1).
  { rewrite D1. unfold wf in *. cbn. rewrite L1. exact Hwf. }
  destruct (tiny_begin_reactions_loop T_MAX R_MAX now e1 W1) as (D2 & L2 & Lo2 & Hi2).
  set (e2 := for_upto (Z.to_nat R_MAX) last_rct (begin_reaction now) 0 e1) in *.
  clearbody e2. unfold only_rct_nextTrigs_differ in D2.
  assert (W2 : wf T_MAX R_MAX e2).
  { rewrite D2. unfold wf in *. cbn. rewrite L2. exact W1. }
  assert (Hr : last_rct e1 = last_rct e) by (rewrite D1; reflexivity).
  assert (Hn : rct_nextTrigs e1 = rct_nextTrigs e) by (rewrite D1; reflexivity).
  assert (E2 : e2 = set_rct_nextTrigs (rct_nextTrigs e2)
                      (set_schd_nextCalls (schd_nextCalls e1) e)).
  { rewrite D2. rewrite D1. reflexivity. }
  split; [exact W2|]. split; [rewrite E2; repeat split|].
  split; [|split; [|split]].
  - intros i Hi. rewrite E2. unfold schedule. cbn. rewrite Lo1 by exact Hi.
    reflexivity.
  - intros i Hi. rewrite E2. unfold schedule. cbn. rewrite Hi1 by exact Hi.
    reflexivity.
  - intros i Hi. rewrite E2. unfold reaction. cbn. rewrite Lo2, Hn by lia.
    reflexivity.
  - intros i Hi. rewrite E2. unfold reaction. cbn. rewrite Hi2, Hn by lia.
    reflexivity.
Qed.

(** *** The control methods on a valid id *)

Lemma tiny_cancelReaction_valid T_MAX R_MAX id rd ts abs now e :
  wf T_MAX R_MAX e -> 0 <= id <= last_rct e ->
  let e' := cancelReaction id rd ts abs now e in
  reaction e' id =
    {| r_predicate := r_predicate (reaction e id);
       r_action := r_action (reaction e id);
       r_timeout := r_timeout (reaction e id);
       r_delay := r_delay (reaction e id);
       r_next_trigger_check :=
         if rd >? 0 then (if abs <? 1 then ulong (ts + now) else ts)
         else r_next_trigger_check (reaction e id);
       r_next_execution := r_next_execution (reaction e id);
       r_pending := false |} /\
  other_reactions_kept id e e' /\ schedules_kept e e' /\ marks_kept e e'.
Proof.
  intros Hwf Hid. cbv zeta. unfold cancelReaction.
  unfold wf in Hwf. decompose [and] Hwf. clear Hwf.
  guard_cases; try lia;
    (split; [rows; reflexivity|]; split; [|split; rows; auto]);
    intros j Hj Hne; rows; reflexivity.
Qed.

Lemma setNextSchedule_valid T_MAX R_MAX id ts abs now e :
  wf T_MAX R_MAX e -> 0 <= id <= last_schd e ->
  let e' := setNextSchedule id ts abs now e in
  schedule e' id =
    {| s_action := s_action (schedule e id);
       s_interval := s_interval (schedule e id);
       s_next_fire := if abs <? 1 then ulong (ts + now) else ts |} /\
  other_schedules_kept id e e' /\ reactions_kept e e' /\ marks_kept e e'.
Proof.
  intros Hwf Hid. cbv zeta. unfold setNextSchedule.
  unfold wf in Hwf. decompose [and] Hwf. clear Hwf.
  guard_cases; try lia;
    (split; [rows; reflexivity|]; split; [|split; rows; auto]);
    intros j Hj Hne; rows; reflexivity.
Qed.

Lemma setNextTrigger_valid T_MAX R_MAX id ts abs now e :
  wf T_MAX R_MAX e -> 0 <= id <= last_rct e ->
  let e' := setNextTrigger id ts abs now e in
  reaction e' id =
    {| r_predicate := r_predicate (reaction e id);
       r_action := r_action (reaction e id);
       r_timeout := r_timeout (reaction e id);
       r_delay := r_delay (reaction e id);
       r_next_trigger_check := if abs <? 1 then ulong (ts + now) else ts;
       r_next_execution := r_next_execution (reaction e id);
       r_pending := r_pending (reaction e id) |} /\
  other_reactions_kept id e e' /\ schedules_kept e e' /\ marks_kept e e'.
Proof.
  intros Hwf Hid. cbv zeta. unfold setNextTrigger.
  unfold wf in Hwf. decompose [and] Hwf. clear Hwf.
  guard_cases; try lia;
    (split; [rows; reflexivity|]; split; [|split; rows; auto]);
    intros j Hj Hne; rows; reflexivity.
Qed.

(** *** A reaction whose trigger check is set to a time not yet reached *)

(** The row of a reaction once its queued action has run. *)
Definition settled (r : Reaction) : Reaction :=
  {| r_predicate := r_predicate r; r_action := r_action r;
     r_timeout := r_timeout r; r_delay := r_delay r;
     r_next_trigger_check := r_next_trigger_check r;
     r_next_execution := r_next_execution r;
     r_pending := false |}.

(** What the second loop of a tick at [now] does to a reaction whose row was
    [r]: [runs] are the executions of its queued action and [r'] its row
    afterwards. *)
Definition reaction_outcome (now : Z) (r : Reaction) (runs : list Z)
    (r' : Reaction) : Prop :=
  if r_pending r && (r_next_execution r <? now)
  then runs = [now] /\ r' = settled r
  else runs = [] /\ r' = r.

(** The executions of a queued action over the ticks [ts], when nothing
    queues it again: one, at the first tick past its time. *)
Definition first_run (r : Reaction) (ts : list Z) : list Z :=
  if r_pending r
  then match List.find (fun t => r_next_execution r <? t) ts with
       | Some t => [t]
       | None => []
       end
  else [].

(** The row of a reaction once its trigger has been accepted: with an
    immediate execution of the action, and with a queued one. *)
Definition rearmed (now : Z) (r : Reaction) : Reaction :=
  {| r_predicate := r_predicate r; r_action := r_action r;
     r_timeout := r_timeout r; r_delay := r_delay r;
     r_next_trigger_check := ulong (now + ulong (r_timeout r));
     r_next_execution := r_next_execution r;
     r_pending := r_pending r |}.

Definition queued (now : Z) (r : Reaction) : Reaction :=
  {| r_predicate := r_predicate r; r_action := r_action r;
     r_timeout := r_timeout r; r_delay := r_delay r;
     r_next_trigger_check := ulong (now + ulong (r_timeout r));
     r_next_execution := ulong (now + ulong (r_delay r));
     r_pending := true |}.

(** What the third loop of a tick at [now] does to reaction [i] whose row
    was [r] when the loop reached it, [fired] being what its predicate
    returns there: [evs] are the events of the scan about [i] and [r'] is
    the row afterwards. *)
Definition scan_outcome (now i : Z) (r : Reaction) (fired : bool)
    (evs : list Event) (r' : Reaction) : Prop :=
  if r_next_trigger_check r <? now then
    if fired then
      if r_delay r =? 0
      then evs = [TriggerChecked i now true; ReactionTriggeredExecuted i now] /\
           r' = rearmed now r
      else evs = [TriggerChecked i now true; ReactionTriggered i now] /\
           r' = queued now r
    else evs = [TriggerChecked i now false] /\ r' = r
  else evs = [] /\ r' = r.

Lemma tiny_scan_outcome_events now i r fired evs r' :
  scan_outcome now i r fired evs r' ->
  scan_events i evs = evs /\ reaction_runs i evs = [] /\
  Forall (fun ev => is_scan_event ev = true) evs.
Proof.
  unfold scan_outcome, scan_events.
  destruct (r_next_trigger_check r <? now);
    [destruct fired; [destruct (r_delay r =? 0)|]|];
    intros [-> _]; rewrite ?filter_cons, ?filter_nil; unfold scan_of;
    cbn [is_scan_event event_id andb]; rewrite ?Z.eqb_refl;
    repeat (destruct (decide _); [|congruence]);
    repeat split; repeat constructor.
Qed.

Section DeferredTrigger.
Variables T_MAX R_MAX : Z.
Context {U : Type}.
Variable action : fnptr -> Sys Engine U -> Sys Engine U.
Variable check : fnptr -> Sys Engine U -> bool * Sys Engine U.
Hypothesis sketch_ok : sketch_respects T_MAX R_MAX action check.
Variable i : Z.

(** No function of the sketch cancels reaction [i] or sets the time of its
    next trigger check. *)
Definition keeps_reaction (f : Sys Engine U -> Sys Engine U) : Prop :=
  forall s, reaction (eng (f s)) i = reaction (eng s) i.

Hypothesis action_keeps : forall p, keeps_reaction (action p).
Hypothesis check_keeps : forall p, keeps_reaction (fun s => snd (check p s)).

(** A step that leaves reaction [i] as it is, does not run its queued action
    and does not call its predicate. *)
Definition calm (m m' : Machine Engine U) : Prop :=
  wf T_MAX R_MAX (eng (sys m')) /\
  grows (eng (sys m)) (eng (sys m')) /\
  reaction (eng (sys m')) i = reaction (eng (sys m)) i /\
  exists l, trace m' = trace m ++ l /\
    reaction_runs i l = [] /\ count_events (scan_of i) l = 0%nat.

Lemma tiny_calm_refl m : wf T_MAX R_MAX (eng (sys m)) -> calm m m.
Proof.
  intros Hwf. split; [exact Hwf|]. split; [apply tiny_grows_refl|].
  split; [reflexivity|]. exists []. rewrite app_nil_r. auto.
Qed.

Lemma tiny_calm_trans m1 m2 m3 : calm m1 m2 -> calm m2 m3 -> calm m1 m3.
Proof.
  intros (_ & G1 & S1 & l1 & T1 & D1 & C1) (W2 & G2 & S2 & l2 & T2 & D2 & C2).
  split; [exact W2|]. split; [eapply tiny_grows_trans; eassumption|].
  split; [congruence|]. exists (l1 ++ l2).
  rewrite T2, T1, app_assoc, reaction_runs_app, count_events_app, D1, D2, C1, C2.
  auto.
Qed.

Ltac call_action p s :=
  let W := fresh "W" in let G := fresh "G" in let K := fresh "K" in
  pose proof (action_keeps p s) as K;
  destruct (proj1 sketch_ok p s) as [W G]; [wf_lengths|].

Lemma tiny_run_schedule_calm now j m :
  wf T_MAX R_MAX (eng (sys m)) -> calm m (run_schedule action now j m).
Proof.
  intros Hwf. unfold run_schedule.
  destruct (aget 0 (schd_nextCalls (eng (sys m))) j <? now);
    [|apply tiny_calm_refl; exact Hwf].
  match goal with |- context [action ?p ?s] => call_action p s end.
  split; [exact W|]. split; [exact G|]. split.
  - cbn [sys emit with_sys]. rewrite K. reflexivity.
  - eexists [_]. split; [reflexivity|]. split; reflexivity.
Qed.

Lemma tiny_run_pending_calm now j m :
  wf T_MAX R_MAX (eng (sys m)) -> 0 <= i -> 0 <= j -> j <> i ->
  calm m (run_pending action now j m).
Proof.
  intros Hwf Hi Hj Hne. unfold run_pending.
  destruct (flag_is_set (rct_areTrigged (eng (sys m))) j &&
            (aget 0 (rct_nextCalls (eng (sys m))) j <? now));
    [|apply tiny_calm_refl; exact Hwf].
  match goal with |- context [action ?p ?s] => call_action p s end.
  split; [exact W|]. split; [exact G|]. split.
  - cbn [sys emit with_sys]. rewrite K. rows. reflexivity.
  - eexists [_]. split; [reflexivity|]. simpl.
    destruct (Z.eqb_spec j i); [contradiction|]. split; reflexivity.
Qed.

Lemma tiny_run_pending_at now m :
  wf T_MAX R_MAX (eng (sys m)) -> 0 <= i <= last_rct (eng (sys m)) ->
  let m' := run_pending action now i m in
  wf T_MAX R_MAX (eng (sys m')) /\
  grows (eng (sys m)) (eng (sys m')) /\
  exists l, trace m' = trace m ++ l /\
    count_events (scan_of i) l = 0%nat /\
    reaction_outcome now (reaction (eng (sys m)) i)
      (reaction_runs i l) (reaction (eng (sys m')) i).
Proof.
  intros Hwf Hi. simpl. unfold run_pending, reaction_outcome.
  change (flag_is_set (rct_areTrigged (eng (sys m))) i)
    with (r_pending (reaction (eng (sys m)) i)).
  change (aget 0 (rct_nextCalls (eng (sys m))) i)
    with (r_next_execution (reaction (eng (sys m)) i)).
  destruct (r_pending (reaction (eng (sys m)) i) &&
            (r_next_execution (reaction (eng (sys m)) i) <? now)).
  - match goal with |- context [action ?p ?s] => call_action p s end.
    split; [exact W|]. split; [exact G|].
    eexists [_]. split; [reflexivity|]. split; [reflexivity|].
    split; [simpl; rewrite Z.eqb_refl; reflexivity|].
    cbn [sys emit with_sys]. rewrite K. unfold wf in Hwf. decompose [and] Hwf.
    unfold settled. rows. reflexivity.
  - split; [exact Hwf|]. split; [apply tiny_grows_refl|].
    exists []. rewrite app_nil_r. auto.
Qed.

Lemma tiny_run_trigger_other now j m :
  wf T_MAX R_MAX (eng (sys m)) -> 0 <= i -> 0 <= j -> j <> i ->
  calm m (run_trigger action check now j m).
Proof.
  intros Hwf Hi Hj Hne.
  unfold run_trigger.
  destruct (aget 0 (rct_nextTrigs (eng (sys m))) j <? now);
    [|apply tiny_calm_refl; exact Hwf].
  pose proof (check_keeps (aget nullptr (rct_trigs (eng (sys m))) j) (sys m)) as Kc.
  unfold keeps_reaction in Kc. cbv beta in Kc.
  destruct (proj2 sketch_ok (aget nullptr (rct_trigs (eng (sys m))) j) (sys m) Hwf)
    as [Wc Gc].
  destruct (check (aget nullptr (rct_trigs (eng (sys m))) j) (sys m))
    as [fired s]. simpl in Kc, Wc, Gc.
  assert (Hid : (j =? i) = false) by (destruct (Z.eqb_spec j i); [contradiction|reflexivity]).
  destruct fired.
  - destruct (aget 0 (rct_tDelays (eng s)) j =? 0).
    + match goal with |- context [action ?p ?s] => call_action p s end.
      split; [exact W|]. split; [eapply tiny_grows_trans; eassumption|]. split.
      * cbn [sys emit with_sys]. rewrite K, <- Kc. rows. reflexivity.
      * eexists [_; _]. simpl. rewrite <- app_assoc.
        split; [reflexivity|]. split; [reflexivity|].
        rewrite !count_events_cons, count_events_nil. unfold scan_of. simpl.
        rewrite Hid. reflexivity.
    + split; [simpl; wf_lengths|]. split; [exact Gc|]. split.
      * cbn [sys emit with_sys]. rewrite <- Kc. rows. reflexivity.
      * eexists [_; _]. simpl. rewrite <- app_assoc.
        split; [reflexivity|]. split; [reflexivity|].
        rewrite !count_events_cons, count_events_nil. unfold scan_of. simpl.
        rewrite Hid. reflexivity.
  - split; [exact Wc|]. split; [exact Gc|]. split; [exact Kc|].
    eexists [_]. split; [reflexivity|]. split; [reflexivity|].
    rewrite count_events_one. unfold scan_of. simpl. rewrite Hid. reflexivity.
Qed.

Lemma tiny_run_trigger_calm now j m :
  wf T_MAX R_MAX (eng (sys m)) -> 0 <= i -> 0 <= j ->
  now <= r_next_trigger_check (reaction (eng (sys m)) i) ->
  calm m (run_trigger action check now j m).
Proof.
  intros Hwf Hi Hj Hoff.
  destruct (Z.eq_dec j i) as [->|Hne].
  { rewrite tiny_run_trigger_skipped; [apply tiny_calm_refl; exact Hwf|].
    exact Hoff. }
  apply tiny_run_trigger_other; assumption.
Qed.

Lemma tiny_pending_phase_at now m :
  wf T_MAX R_MAX (eng (sys m)) -> 0 <= i <= last_rct (eng (sys m)) ->
  let m' := pending_phase R_MAX action now m in
  wf T_MAX R_MAX (eng (sys m')) /\
  grows (eng (sys m)) (eng (sys m')) /\
  exists l, trace m' = trace m ++ l /\
    count_events (scan_of i) l = 0%nat /\
    reaction_outcome now (reaction (eng (sys m)) i)
      (reaction_runs i l) (reaction (eng (sys m')) i).
Proof.
  intros Hwf Hi. simpl. unfold pending_phase.
  remember (reaction (eng (sys m)) i) as r eqn:Hr.
  pose (P := fun (j : Z) (m' : Machine Engine U) =>
    0 <= j /\ wf T_MAX R_MAX (eng (sys m')) /\
    grows (eng (sys m)) (eng (sys m')) /\
    exists l, trace m' = trace m ++ l /\
      count_events (scan_of i) l = 0%nat /\
      ((j <= i /\ reaction_runs i l = [] /\ reaction (eng (sys m')) i = r) \/
       (i < j /\ reaction_outcome now r (reaction_runs i l)
                   (reaction (eng (sys m')) i)))).
  assert (Hstep : forall j s, P j s -> j <= m_last_rct s ->
                    P (j + 1) (run_pending action now j s)).
  { intros j s (Hj & W & G & l & T & C & Hcase) _.
    destruct (Z.eq_dec j i) as [->|Hne].
    - destruct Hcase as [(_ & D & R)|(Hlt & _)]; [|lia].
      destruct (tiny_run_pending_at now s W) as (W' & G' & l' & T' & C' & O').
      { unfold grows in G. lia. }
      split; [lia|]. split; [exact W'|].
      split; [eapply tiny_grows_trans; eassumption|].
      exists (l ++ l'). split; [rewrite T', T, app_assoc; reflexivity|].
      split; [rewrite count_events_app, C, C'; reflexivity|].
      right. split; [lia|]. unfold reaction_outcome in *.
      rewrite reaction_runs_app, D. rewrite R in O'.
      destruct (r_pending r && (r_next_execution r <? now));
        destruct O' as [-> ->]; simpl; auto.
    - destruct (tiny_run_pending_calm now j s W) as (W' & G' & R' & l' & T' & D' & C');
        try lia.
      split; [lia|]. split; [exact W'|].
      split; [eapply tiny_grows_trans; eassumption|].
      exists (l ++ l'). split; [rewrite T', T, app_assoc; reflexivity|].
      split; [rewrite count_events_app, C, C'; reflexivity|].
      rewrite reaction_runs_app, D', app_nil_r, R'.
      destruct Hcase as [(Hle & D & R)|(Hlt & O)].
      + left. repeat split; try assumption; lia.
      + right. split; [lia|exact O]. }
  assert (H0 : P 0 m).
  { split; [lia|]. split; [exact Hwf|]. split; [apply tiny_grows_refl|].
    exists []. rewrite app_nil_r. split; [reflexivity|].
    split; [reflexivity|]. left. repeat split; auto; lia. }
  pose proof (for_upto_ind P m_last_rct (run_pending action now) Hstep
                (Z.to_nat R_MAX) 0 m H0) as Hloop.
  set (mf := for_upto (Z.to_nat R_MAX) m_last_rct (run_pending action now) 0 m) in *.
  destruct Hloop as (k & Hk & (_ & W & G & l & T & C & Hcase) & Hend).
  split; [exact W|]. split; [exact G|].
  exists l. split; [exact T|]. split; [exact C|].
  destruct Hcase as [(Hle & _)|(_ & O)]; [|exact O].
  exfalso. unfold m_last_rct in Hend. unfold grows in G.
  unfold wf in W. destruct W as (_ & (? & ?) & _).
  unfold wf in Hwf. destruct Hwf as (_ & (? & ?) & _). lia.
Qed.

Lemma tiny_tick_deferred t m :
  wf T_MAX R_MAX (eng (sys m)) -> 0 <= i <= last_rct (eng (sys m)) ->
  t <= r_next_trigger_check (reaction (eng (sys m)) i) ->
  let m' := tick T_MAX R_MAX action check t m in
  wf T_MAX R_MAX (eng (sys m')) /\
  grows (eng (sys m)) (eng (sys m')) /\
  exists l, trace m' = trace m ++ l /\
    count_events (scan_of i) l = 0%nat /\
    reaction_outcome t (reaction (eng (sys m)) i)
      (reaction_runs i l) (reaction (eng (sys m')) i).
Proof.
  intros Hwf Hi Hoff. simpl. unfold tick, run.
  set (m0 := with_sys {| eng := eng (sys m); clk := t; usr := usr (sys m) |} m).
  change (clk (sys m0)) with t.
  assert (H1 : calm m0 (schedule_phase T_MAX action t m0)).
  { unfold schedule_phase.
    apply (for_upto_inv (calm m0)); [|apply tiny_calm_refl; exact Hwf].
    intros j s Q _. eapply tiny_calm_trans; [exact Q|].
    apply tiny_run_schedule_calm. destruct Q as (W & _). exact W. }
  destruct H1 as (W1 & G1 & R1 & l1 & T1 & D1 & C1).
  set (m1 := schedule_phase T_MAX action t m0) in *.
  destruct (tiny_pending_phase_at t m1 W1) as (W2 & G2 & l2 & T2 & C2 & O2).
  { unfold grows in G1. cbn [m0 sys with_sys eng] in G1. lia. }
  set (m2 := pending_phase R_MAX action t m1) in *.
  assert (Hoff2 : t <= r_next_trigger_check (reaction (eng (sys m2)) i)).
  { rewrite R1 in O2. cbn [m0 sys with_sys eng] in O2.
    unfold reaction_outcome in O2.
    destruct (r_pending (reaction (eng (sys m)) i) &&
              (r_next_execution (reaction (eng (sys m)) i) <? t));
      destruct O2 as [_ ->]; [unfold settled; simpl|]; exact Hoff. }
  assert (H3 : forall s, calm m2 s ->
             calm m2 s /\ t <= r_next_trigger_check (reaction (eng (sys s)) i)).
  { intros s Q. split; [exact Q|]. destruct Q as (_ & _ & R & _).
    rewrite R. exact Hoff2. }
  assert (H4 : calm m2 (trigger_phase R_MAX action check t m2)).
  { unfold trigger_phase.
    apply (for_upto_inv_from (calm m2) _ _ 0); [|apply tiny_calm_refl; exact W2].
    intros j s Hj Q. eapply tiny_calm_trans; [exact Q|].
    apply tiny_run_trigger_calm; [destruct Q as (W & _); exact W|lia|exact Hj|].
    apply H3. exact Q. }
  destruct H4 as (W3 & G3 & R3 & l3 & T3 & D3 & C3).
  split; [exact W3|].
  split; [eapply tiny_grows_trans; [|exact G3]; eapply tiny_grows_trans; [exact G1|exact G2]|].
  exists (l1 ++ l2 ++ l3).
  split; [rewrite T3, T2, T1, <- !app_assoc; reflexivity|].
  split; [rewrite !count_events_app, C1, C2, C3; reflexivity|].
  rewrite !reaction_runs_app, D1, D3, app_nil_r, R3. simpl.
  rewrite R1 in O2. exact O2.
Qed.

(** Over ticks none of which is past the time of the next trigger check, a
    reaction has its predicate never called, and its queued action, if one
    is queued, executed once: at the first tick past the time it was queued
    for. *)
Lemma tiny_ticks_deferred ts : forall m,
  wf T_MAX R_MAX (eng (sys m)) -> 0 <= i <= last_rct (eng (sys m)) ->
  Forall (fun t => t <= r_next_trigger_check (reaction (eng (sys m)) i)) ts ->
  let r := reaction (eng (sys m)) i in
  let m' := ticks T_MAX R_MAX action check ts m in
  exists l, trace m' = trace m ++ l /\
    count_events (scan_of i) l = 0%nat /\
    reaction_runs i l = first_run r ts /\
    reaction (eng (sys m')) i =
      match first_run r ts with [] => r | _ => settled r end.
Proof.
  induction ts as [|t ts IH]; intros m Hwf Hi Hoff; cbv zeta.
  - exists []. unfold ticks. cbn [fold_left]. rewrite app_nil_r.
    unfold first_run. cbn [List.find].
    destruct (r_pending (reaction (eng (sys m)) i)); auto.
  - apply Forall_cons in Hoff. destruct Hoff as [Ht Hoff].
    destruct (tiny_tick_deferred t m Hwf Hi Ht)
      as (W1 & G1 & l1 & T1 & C1 & O1).
    change (ticks T_MAX R_MAX action check (t :: ts) m)
      with (ticks T_MAX R_MAX action check ts (tick T_MAX R_MAX action check t m)).
    set (m1 := tick T_MAX R_MAX action check t m) in *.
    assert (Hi1 : 0 <= i <= last_rct (eng (sys m1))).
    { unfold grows in G1. lia. }
    assert (Hn1 : r_next_trigger_check (reaction (eng (sys m1)) i) =
                  r_next_trigger_check (reaction (eng (sys m)) i)).
    { unfold reaction_outcome in O1.
      destruct (r_pending (reaction (eng (sys m)) i) &&
                (r_next_execution (reaction (eng (sys m)) i) <? t));
        destruct O1 as [_ ->]; reflexivity. }
    destruct (IH m1 W1 Hi1) as (l & T & C & D & R).
    { rewrite Hn1. exact Hoff. }
    exists (l1 ++ l). split; [rewrite T, T1, app_assoc; reflexivity|].
    split; [rewrite count_events_app, C1, C; reflexivity|].
    rewrite reaction_runs_app, D, R. clear T C D R IH Hn1.
    remember (reaction (eng (sys m)) i) as r eqn:Hr.
    remember (reaction (eng (sys m1)) i) as r1 eqn:Hr1.
    unfold reaction_outcome in O1. unfold first_run. cbn [List.find].
    destruct (r_pending r) eqn:Hp; cbn [andb] in O1.
    + destruct (r_next_execution r <? t) eqn:Hd; destruct O1 as [-> ->].
      * unfold settled. cbn [r_pending]. split; reflexivity.
      * rewrite Hp. split; reflexivity.
    + destruct O1 as [-> ->]. rewrite Hp. split; reflexivity.
Qed.

(** *** The debounce of a trigger *)

Definition bounce_free (timeout : Z) (m0 m : Machine Engine U) : Prop :=
  wf T_MAX R_MAX (eng (sys m)) /\
  grows (eng (sys m0)) (eng (sys m)) /\
  r_timeout (reaction (eng (sys m)) i) = timeout /\
  exists l, trace m = trace m0 ++ l /\
    debounced timeout (trigger_checks i l) /\
    armed timeout (last (trigger_checks i l))
      (r_next_trigger_check (reaction (eng (sys m)) i)).

Lemma tiny_bounce_free_calm timeout m0 m m' :
  bounce_free timeout m0 m -> calm m m' -> bounce_free timeout m0 m'.
Proof.
  intros (W & G & Hto & l & T & D & A) (W' & G' & R' & l' & T' & _ & C').
  split; [exact W'|]. split; [eapply tiny_grows_trans; eassumption|].
  split; [rewrite R'; exact Hto|].
  exists (l ++ l'). split; [rewrite T', T, app_assoc; reflexivity|].
  rewrite trigger_checks_app, (trigger_checks_none i l' C'), app_nil_r, R'.
  split; assumption.
Qed.

Lemma tiny_bounce_free_pending_at timeout now m0 m :
  0 <= i <= last_rct (eng (sys m0)) ->
  bounce_free timeout m0 m ->
  bounce_free timeout m0 (run_pending action now i m).
Proof.
  intros Hi (W & G & Hto & l & T & D & A).
  destruct (tiny_run_pending_at now m W) as (W' & G' & l' & T' & C' & O').
  { unfold grows in G. lia. }
  assert (Hrow : r_timeout (reaction (eng (sys (run_pending action now i m))) i) =
                   r_timeout (reaction (eng (sys m)) i) /\
                 r_next_trigger_check
                   (reaction (eng (sys (run_pending action now i m))) i) =
                   r_next_trigger_check (reaction (eng (sys m)) i)).
  { unfold reaction_outcome in O'.
    destruct (r_pending (reaction (eng (sys m)) i) &&
              (r_next_execution (reaction (eng (sys m)) i) <? now));
      destruct O' as [_ ->]; split; reflexivity. }
  destruct Hrow as [H1 H2].
  split; [exact W'|]. split; [eapply tiny_grows_trans; eassumption|].
  split; [rewrite H1; exact Hto|].
  exists (l ++ l'). split; [rewrite T', T, app_assoc; reflexivity|].
  rewrite trigger_checks_app, (trigger_checks_none i l' C'), app_nil_r, H2.
  split; assumption.
Qed.

Lemma tiny_bounce_free_trigger_at timeout now m0 m :
  0 <= i <= last_rct (eng (sys m0)) ->
  bounce_free timeout m0 m ->
  bounce_free timeout m0 (run_trigger action check now i m).
Proof.
  intros Hi (W & G & Hto & l & T & D & A).
  assert (Hi' : 0 <= i <= last_rct (eng (sys m))) by (unfold grows in G; lia).
  unfold run_trigger. cbv zeta.
  change (aget 0 (rct_nextTrigs (eng (sys m))) i)
    with (r_next_trigger_check (reaction (eng (sys m)) i)).
  destruct (Z.ltb_spec (r_next_trigger_check (reaction (eng (sys m)) i)) now)
    as [Hopen|_];
    [|exact (conj W (conj G (conj Hto (ex_intro _ l (conj T (conj D A))))))].
  assert (Hsnoc : forall f, debounced timeout (trigger_checks i l ++ [(now, f)])).
  { intros f. apply debounced_snoc; [exact D|]. intros t1 Ht1.
    rewrite Ht1 in A. cbn [armed] in A. rewrite <- A. exact Hopen. }
  pose proof (check_keeps (aget nullptr (rct_trigs (eng (sys m))) i) (sys m)) as Kc.
  unfold keeps_reaction in Kc. cbv beta in Kc.
  destruct (proj2 sketch_ok (aget nullptr (rct_trigs (eng (sys m))) i) (sys m) W)
    as [Wc Gc].
  destruct (check (aget nullptr (rct_trigs (eng (sys m))) i) (sys m))
    as [fired s]. simpl in Kc, Wc, Gc.
  assert (Hto' : aget 0 (rct_tTimeouts (eng s)) i = timeout).
  { rewrite <- Hto, <- Kc. reflexivity. }
  assert (Hlen : Z.of_nat (length (rct_nextTrigs (eng s))) = R_MAX /\
                 last_rct (eng s) < R_MAX /\ last_rct (eng (sys m)) <= last_rct (eng s)).
  { unfold wf in Wc. unfold grows in Gc. decompose [and] Wc. lia. }
  destruct fired.
  - destruct (aget 0 (rct_tDelays (eng s)) i =? 0).
    + match goal with |- context [action ?p ?s] => call_action p s end.
      split; [exact W0|].
      split; [eapply tiny_grows_trans; [exact G|]; eapply tiny_grows_trans; eassumption|].
      split; [cbn [sys emit with_sys]; rewrite K; rows; exact Hto'|].
      exists (l ++ [TriggerChecked i now true; ReactionTriggeredExecuted i now]).
      split; [cbn [trace emit with_sys]; rewrite T, <- !app_assoc; reflexivity|].
      rewrite trigger_checks_app. cbn [trigger_checks]. rewrite Z.eqb_refl.
      split; [apply Hsnoc|]. rewrite last_snoc. cbn [armed].
      cbn [sys emit with_sys]. rewrite K. rows. rewrite Hto'. apply ulong_add_r.
    + split; [simpl; wf_lengths|].
      split; [eapply tiny_grows_trans; [exact G|exact Gc]|].
      split; [cbn [sys emit with_sys eng with_eng]; rows; exact Hto'|].
      exists (l ++ [TriggerChecked i now true; ReactionTriggered i now]).
      split; [cbn [trace emit with_sys]; rewrite T, <- !app_assoc; reflexivity|].
      rewrite trigger_checks_app. cbn [trigger_checks]. rewrite Z.eqb_refl.
      split; [apply Hsnoc|]. rewrite last_snoc. cbn [armed].
      rows. rewrite Hto'. apply ulong_add_r.
  - split; [exact Wc|]. split; [eapply tiny_grows_trans; eassumption|].
    split; [cbn [sys emit with_sys]; rewrite Kc; exact Hto|].
    exists (l ++ [TriggerChecked i now false]).
    split; [cbn [trace emit with_sys]; rewrite T, <- !app_assoc; reflexivity|].
    rewrite trigger_checks_app. cbn [trigger_checks]. rewrite Z.eqb_refl.
    split; [apply Hsnoc|]. rewrite last_snoc. exact I.
Qed.

Lemma tiny_run_bounce_free timeout m0 m :
  0 <= i <= last_rct (eng (sys m0)) ->
  bounce_free timeout m0 m ->
  bounce_free timeout m0 (run T_MAX R_MAX action check m).
Proof.
  intros Hi B. unfold run, schedule_phase, pending_phase, trigger_phase.
  apply (for_upto_inv_from (bounce_free timeout m0) _ _ 0).
  { intros j s Hj Q. destruct (Z.eq_dec j i) as [->|Hne].
    - apply tiny_bounce_free_trigger_at; assumption.
    - eapply tiny_bounce_free_calm; [exact Q|].
      apply tiny_run_trigger_other; [destruct Q as (W & _); exact W|lia|exact Hj|exact Hne]. }
  apply (for_upto_inv_from (bounce_free timeout m0) _ _ 0).
  { intros j s Hj Q. destruct (Z.eq_dec j i) as [->|Hne].
    - apply tiny_bounce_free_pending_at; assumption.
    - eapply tiny_bounce_free_calm; [exact Q|].
      apply tiny_run_pending_calm; [destruct Q as (W & _); exact W|lia|exact Hj|exact Hne]. }
  apply (for_upto_inv_from (bounce_free timeout m0) _ _ 0); [|exact B].
  intros j s Hj Q. eapply tiny_bounce_free_calm; [exact Q|].
  apply tiny_run_schedule_calm. destruct Q as (W & _). exact W.
Qed.

(** Over any ticks, after a call of the predicate of reaction [i] that
    returned [true] at [t1], the predicate is next called at a tick whose
    clock value is above [t1 + timeout]. *)
Lemma tiny_ticks_debounced ts : forall m0 m,
  0 <= i <= last_rct (eng (sys m0)) ->
  bounce_free (r_timeout (reaction (eng (sys m0)) i)) m0 m ->
  bounce_free (r_timeout (reaction (eng (sys m0)) i)) m0
    (ticks T_MAX R_MAX action check ts m).
Proof.
  induction ts as [|t ts IH]; intros m0 m Hi B; [exact B|].
  change (ticks T_MAX R_MAX action check (t :: ts) m)
    with (ticks T_MAX R_MAX action check ts (tick T_MAX R_MAX action check t m)).
  apply IH; [exact Hi|]. unfold tick. apply tiny_run_bounce_free; [exact Hi|].
  destruct B as (W & G & Hto & l & T & D & A).
  split; [exact W|]. split; [exact G|]. split; [exact Hto|].
  exists l. auto.
Qed.

(** *** Reaction [i] followed through the trigger scan and the tick *)

Lemma tiny_run_trigger_at now m :
  wf T_MAX R_MAX (eng (sys m)) -> 0 <= i <= last_rct (eng (sys m)) ->
  let r := reaction (eng (sys m)) i in
  let m' := run_trigger action check now i m in
  wf T_MAX R_MAX (eng (sys m')) /\
  grows (eng (sys m)) (eng (sys m')) /\
  exists l, trace m' = trace m ++ l /\
    scan_outcome now i r (fst (check (r_predicate r) (sys m))) l
      (reaction (eng (sys m')) i).
Proof.
  intros Hwf Hi. cbv zeta. unfold run_trigger, scan_outcome. cbv zeta.
  change (aget 0 (rct_nextTrigs (eng (sys m))) i)
    with (r_next_trigger_check (reaction (eng (sys m)) i)).
  change (aget nullptr (rct_trigs (eng (sys m))) i)
    with (r_predicate (reaction (eng (sys m)) i)).
  destruct (r_next_trigger_check (reaction (eng (sys m)) i) <? now).
  2: { split; [exact Hwf|]. split; [apply tiny_grows_refl|].
       exists []. rewrite app_nil_r. auto. }
  pose proof (check_keeps (r_predicate (reaction (eng (sys m)) i)) (sys m)) as Kc.
  unfold keeps_reaction in Kc. cbv beta in Kc.
  destruct (proj2 sketch_ok (r_predicate (reaction (eng (sys m)) i)) (sys m) Hwf)
    as [Wc Gc].
  destruct (check (r_predicate (reaction (eng (sys m)) i)) (sys m))
    as [fired s]. cbn [fst snd] in *.
  assert (Hlen : Z.of_nat (length (rct_nextTrigs (eng s))) = R_MAX /\
                 Z.of_nat (length (rct_nextCalls (eng s))) = R_MAX /\
                 last_rct (eng s) < R_MAX /\
                 last_rct (eng (sys m)) <= last_rct (eng s)).
  { unfold wf in Wc. unfold grows in Gc. decompose [and] Wc. lia. }
  change (aget 0 (rct_tDelays (eng s)) i) with (r_delay (reaction (eng s) i)).
  rewrite Kc.
  destruct fired.
  - destruct (r_delay (reaction (eng (sys m)) i) =? 0).
    + match goal with |- context [action ?p ?s] => call_action p s end.
      split; [exact W|]. split; [eapply tiny_grows_trans; eassumption|].
      eexists [_; _]. split; [cbn [trace emit with_sys]; rewrite <- app_assoc; reflexivity|].
      split; [reflexivity|].
      cbn [sys emit with_sys]. rewrite K. rewrite <- Kc. unfold rearmed.
      rows. reflexivity.
    + split; [cbn [sys emit with_sys eng with_eng]; wf_lengths|].
      split; [exact Gc|].
      eexists [_; _]. split; [cbn [trace emit with_sys]; rewrite <- app_assoc; reflexivity|].
      split; [reflexivity|].
      cbn [sys emit with_sys eng with_eng]. rewrite <- Kc. unfold queued.
      unfold wf in Wc. decompose [and] Wc.
      assert (Hr : last_rct (eng (sys m)) < R_MAX) by lia.
      rows. reflexivity.
  - split; [exact Wc|]. split; [exact Gc|].
    eexists [_]. split; [reflexivity|]. split; [reflexivity|].
    cbn [sys emit with_sys]. exact Kc.
Qed.

(** The scan reaches reaction [i] with its row as the loop found it, calls
    the body there and goes on with the later reactions, which leave the
    row as the body made it. *)
Lemma tiny_trigger_phase_at now m :
  wf T_MAX R_MAX (eng (sys m)) -> 0 <= i <= last_rct (eng (sys m)) ->
  let r := reaction (eng (sys m)) i in
  let m_i := for_upto (Z.to_nat i) m_last_rct (run_trigger action check now) 0 m in
  let m' := trigger_phase R_MAX action check now m in
  calm m m_i /\
  m' = for_upto (Z.to_nat (R_MAX - i - 1)) m_last_rct
         (run_trigger action check now) (i + 1)
         (run_trigger action check now i m_i) /\
  wf T_MAX R_MAX (eng (sys m')) /\
  grows (eng (sys m)) (eng (sys m')) /\
  exists l, trace m' = trace m ++ l /\
    reaction_runs i l = [] /\
    scan_outcome now i r (fst (check (r_predicate r) (sys m_i)))
      (scan_events i l) (reaction (eng (sys m')) i).
Proof.
  intros Hwf Hi. cbv zeta.
  set (m_i := for_upto (Z.to_nat i) m_last_rct (run_trigger action check now) 0 m).
  assert (C1 : calm m m_i).
  { apply (for_upto_inv_below (calm m)); [|apply tiny_calm_refl; exact Hwf].
    intros j s Hj Q. eapply tiny_calm_trans; [exact Q|].
    apply tiny_run_trigger_other; [destruct Q as (W & _); exact W|lia|lia|lia]. }
  split; [exact C1|].
  destruct C1 as (W1 & G1 & R1 & l1 & T1 & D1 & S1).
  assert (Hle : 0 <= i <= last_rct (eng (sys m_i))) by (unfold grows in G1; lia).
  assert (HR : i < R_MAX).
  { unfold wf in W1. destruct W1 as (_ & (_ & ?) & _). lia. }
  assert (E : trigger_phase R_MAX action check now m =
              for_upto (Z.to_nat (R_MAX - i - 1)) m_last_rct
                (run_trigger action check now) (i + 1)
                (run_trigger action check now i m_i)).
  { unfold trigger_phase. apply for_upto_reach; [lia|].
    fold m_i. unfold m_last_rct. lia. }
  split; [exact E|]. rewrite E.
  destruct (tiny_run_trigger_at now m_i W1 Hle) as (W2 & G2 & l2 & T2 & O2).
  set (m_a := run_trigger action check now i m_i) in *.
  assert (C3 : calm m_a
                 (for_upto (Z.to_nat (R_MAX - i - 1)) m_last_rct
                    (run_trigger action check now) (i + 1) m_a)).
  { apply (for_upto_inv_from (calm m_a) _ _ (i + 1));
      [|apply tiny_calm_refl; exact W2].
    intros j s Hj Q. eapply tiny_calm_trans; [exact Q|].
    apply tiny_run_trigger_other; [destruct Q as (W & _); exact W|lia|lia|lia]. }
  destruct C3 as (W3 & G3 & R3 & l3 & T3 & D3 & S3).
  split; [exact W3|].
  split; [eapply tiny_grows_trans; [exact G1|]; eapply tiny_grows_trans; eassumption|].
  exists (l1 ++ l2 ++ l3).
  split; [rewrite T3, T2, T1, <- !app_assoc; reflexivity|].
  rewrite R1 in O2.
  destruct (tiny_scan_outcome_events _ _ _ _ _ _ O2) as (F2 & N2 & _).
  split; [rewrite !reaction_runs_app, D1, N2, D3; reflexivity|].
  rewrite !scan_events_app, (scan_events_none i l1 S1), (scan_events_none i l3 S3),
    F2, app_nil_r, R3. exact O2.
Qed.

(** The same for the second loop: it reaches reaction [i] with its row as
    the loop found it. *)
Lemma tiny_pending_phase_reach now m :
  wf T_MAX R_MAX (eng (sys m)) -> 0 <= i <= last_rct (eng (sys m)) ->
  let m_i := for_upto (Z.to_nat i) m_last_rct (run_pending action now) 0 m in
  calm m m_i /\
  pending_phase R_MAX action now m =
    for_upto (Z.to_nat (R_MAX - i - 1)) m_last_rct (run_pending action now)
      (i + 1) (run_pending action now i m_i).
Proof.
  intros Hwf Hi. cbv zeta.
  set (m_i := for_upto (Z.to_nat i) m_last_rct (run_pending action now) 0 m).
  assert (C1 : calm m m_i).
  { apply (for_upto_inv_below (calm m)); [|apply tiny_calm_refl; exact Hwf].
    intros j s Hj Q. eapply tiny_calm_trans; [exact Q|].
    apply tiny_run_pending_calm; [destruct Q as (W & _); exact W|lia|lia|lia]. }
  split; [exact C1|].
  destruct C1 as (W1 & G1 & _).
  unfold pending_phase. apply for_upto_reach.
  - unfold wf in W1. destruct W1 as (_ & (_ & ?) & _).
    unfold grows in G1. lia.
  - fold m_i. unfold m_last_rct. unfold grows in G1. lia.
Qed.

(** One call of [run()]: the first loop leaves reaction [i] alone; the
    second reaches it with its row as it was when the tick began and
    executes its queued action if it is due; the third reaches it with the
    row the second left and scans its trigger. *)
Lemma tiny_run_reaction m :
  wf T_MAX R_MAX (eng (sys m)) -> 0 <= i <= last_rct (eng (sys m)) ->
  let now := clk (sys m) in
  let r := reaction (eng (sys m)) i in
  let m1 := schedule_phase T_MAX action now m in
  let m2 := pending_phase R_MAX action now m1 in
  let p_i := for_upto (Z.to_nat i) m_last_rct (run_pending action now) 0 m1 in
  let t_i := for_upto (Z.to_nat i) m_last_rct (run_trigger action check now) 0 m2 in
  let m' := run T_MAX R_MAX action check m in
  wf T_MAX R_MAX (eng (sys m')) /\
  grows (eng (sys m)) (eng (sys m')) /\
  (wf T_MAX R_MAX (eng (sys p_i)) /\ i <= last_rct (eng (sys p_i)) /\
   reaction (eng (sys p_i)) i = r) /\
  m2 = for_upto (Z.to_nat (R_MAX - i - 1)) m_last_rct (run_pending action now)
         (i + 1) (run_pending action now i p_i) /\
  m' = for_upto (Z.to_nat (R_MAX - i - 1)) m_last_rct
         (run_trigger action check now) (i + 1)
         (run_trigger action check now i t_i) /\
  exists l1 l2 l3,
    trace m1 = trace m ++ l1 /\ trace m2 = trace m1 ++ l2 /\
    trace m' = trace m2 ++ l3 /\
    (reaction_runs i l1 = [] /\ scan_events i l1 = []) /\
    scan_events i l2 = [] /\ reaction_runs i l3 = [] /\
    reaction_outcome now r (reaction_runs i l2) (reaction (eng (sys t_i)) i) /\
    scan_outcome now i (reaction (eng (sys t_i)) i)
      (fst (check (r_predicate r) (sys t_i))) (scan_events i l3)
      (reaction (eng (sys m')) i).
Proof.
  intros Hwf Hi. cbv zeta. unfold run. cbv zeta.
  set (now := clk (sys m)).
  assert (H1 : calm m (schedule_phase T_MAX action now m)).
  { unfold schedule_phase.
    apply (for_upto_inv (calm m)); [|apply tiny_calm_refl; exact Hwf].
    intros j s Q _. eapply tiny_calm_trans; [exact Q|].
    apply tiny_run_schedule_calm. destruct Q as (W & _). exact W. }
  destruct H1 as (W1 & G1 & R1 & l1 & T1 & D1 & C1).
  set (m1 := schedule_phase T_MAX action now m) in *.
  assert (Hi1 : 0 <= i <= last_rct (eng (sys m1))) by (unfold grows in G1; lia).
  destruct (tiny_pending_phase_at now m1 W1 Hi1) as (W2 & G2 & l2 & T2 & C2 & O2).
  destruct (tiny_pending_phase_reach now m1 W1 Hi1) as ((Wp & Gp & Rp & _) & Ep).
  set (m2 := pending_phase R_MAX action now m1) in *.
  destruct (tiny_trigger_phase_at now m2 W2)
    as ((_ & _ & Ri & _) & E & W3 & G3 & l3 & T3 & D3 & O3).
  { unfold grows in G1, G2. lia. }
  split; [exact W3|].
  split; [eapply tiny_grows_trans; [exact G1|]; eapply tiny_grows_trans; [exact G2|exact G3]|].
  split; [split; [exact Wp|]; split; [unfold grows in Gp; lia|congruence]|].
  split; [exact Ep|]. split; [exact E|].
  exists l1, l2, l3.
  split; [exact T1|]. split; [exact T2|]. split; [exact T3|].
  split; [split; [exact D1|apply scan_events_none; exact C1]|].
  split; [apply scan_events_none; exact C2|]. split; [exact D3|].
  rewrite R1 in O2.
  assert (Hp : r_predicate (reaction (eng (sys m2)) i) =
               r_predicate (reaction (eng (sys m)) i)).
  { unfold reaction_outcome in O2.
    destruct (r_pending (reaction (eng (sys m)) i) &&
              (r_next_execution (reaction (eng (sys m)) i) <? now));
      destruct O2 as [_ ->]; reflexivity. }
  rewrite Ri. rewrite Hp in O3.
  split; [exact O2|exact O3].
Qed.

End DeferredTrigger.

(** *** A schedule whose due time is not reached *)

Section DeferredSchedule.
Variables T_MAX R_MAX : Z.
Context {U : Type}.
Variable action : fnptr -> Sys Engine U -> Sys Engine U.
Variable check : fnptr -> Sys Engine U -> bool * Sys Engine U.
Hypothesis sketch_ok : sketch_respects T_MAX R_MAX action check.
Variable i : Z.
Hypothesis sketch_keeps : sketch_keeps_schedule i action check.

Lemma tiny_ticks_not_due ts : forall m,
  wf T_MAX R_MAX (eng (sys m)) -> 0 <= i <= last_schd (eng (sys m)) ->
  Forall (fun t => t <= s_next_fire (schedule (eng (sys m)) i)) ts ->
  let m' := ticks T_MAX R_MAX action check ts m in
  exists l, trace m' = trace m ++ l /\
    schedule_firings i l = [] /\
    schedule (eng (sys m')) i = schedule (eng (sys m)) i.
Proof.
  destruct sketch_ok as [Ha Hc]. destruct sketch_keeps as [Ka Kc].
  induction ts as [|t ts IH]; intros m Hwf Hi Hts.
  - exists []. simpl. rewrite app_nil_r. auto.
  - apply Forall_cons in Hts. destruct Hts as [Ht Hts].
    destruct (tiny_tick_one_schedule T_MAX R_MAX action check Ha Hc i Ka Kc t m Hwf Hi)
      as (W1 & G1 & l1 & T1 & O1).
    unfold schedule_outcome in O1.
    destruct (Z.ltb_spec (s_next_fire (schedule (eng (sys m)) i)) t); [lia|].
    destruct O1 as [F1 R1].
    change (ticks T_MAX R_MAX action check (t :: ts) m)
      with (ticks T_MAX R_MAX action check ts (tick T_MAX R_MAX action check t m)).
    set (m1 := tick T_MAX R_MAX action check t m) in *.
    destruct (IH m1 W1) as (l & T & F & R).
    { unfold grows in G1. lia. }
    { rewrite R1. exact Hts. }
    exists (l1 ++ l). cbv zeta in *.
    split; [rewrite T, T1, app_assoc; reflexivity|].
    rewrite schedule_firings_app, F1, F, R, R1. auto.
Qed.

End DeferredSchedule.

(** *** A tick in which nothing is due *)

(** At the clock value [now] no schedule is due, no queued execution is
    due and no trigger is to be checked. *)
Definition nothing_due (now : Z) (e : Engine) : Prop :=
  (forall i, 0 <= i <= last_schd e ->
     (s_next_fire (schedule e i) <? now) = false) /\
  (forall i, 0 <= i <= last_rct e ->
     r_pending (reaction e i) && (r_next_execution (reaction e i) <? now)
       = false /\
     (r_next_trigger_check (reaction e i) <? now) = false).

Section Idle.
Variables T_MAX R_MAX : Z.
Context {U : Type}.
Variable action : fnptr -> Sys Engine U -> Sys Engine U.
Variable check : fnptr -> Sys Engine U -> bool * Sys Engine U.

Lemma tiny_for_upto_idle (cap : nat) (last : Machine Engine U -> Z)
    (body : Z -> Machine Engine U -> Machine Engine U) m :
  (forall j, 0 <= j <= last m -> body j m = m) ->
  for_upto cap last body 0 m = m.
Proof.
  intros Hbody.
  destruct (for_upto_ind (fun j s => 0 <= j /\ s = m) last body) with
    (cap := cap) (i := 0) (s := m) as (k & _ & (_ & H) & _).
  - intros j s (Hj & ->) Hle. split; [lia|]. apply Hbody. lia.
  - split; [lia|reflexivity].
  - exact H.
Qed.

Lemma tiny_run_idle m :
  nothing_due (clk (sys m)) (eng (sys m)) ->
  run T_MAX R_MAX action check m = m.
Proof.
  intros (Hs & Hr). unfold run, schedule_phase, pending_phase, trigger_phase.
  cbv zeta.
  rewrite (tiny_for_upto_idle _ m_last_schd (run_schedule action (clk (sys m)))).
  2:{ intros j Hj. unfold run_schedule. cbv zeta.
      change (aget 0 (schd_nextCalls (eng (sys m))) j)
        with (s_next_fire (schedule (eng (sys m)) j)).
      rewrite (Hs j Hj). reflexivity. }
  rewrite (tiny_for_upto_idle _ m_last_rct (run_pending action (clk (sys m)))).
  2:{ intros j Hj. unfold run_pending. cbv zeta.
      change (flag_is_set (rct_areTrigged (eng (sys m))) j)
        with (r_pending (reaction (eng (sys m)) j)).
      change (aget 0 (rct_nextCalls (eng (sys m))) j)
        with (r_next_execution (reaction (eng (sys m)) j)).
      rewrite (proj1 (Hr j Hj)). reflexivity. }
  apply tiny_for_upto_idle.
  intros j Hj. unfold run_trigger. cbv zeta.
  change (aget 0 (rct_nextTrigs (eng (sys m))) j)
    with (r_next_trigger_check (reaction (eng (sys m)) j)).
  rewrite (proj2 (Hr j Hj)). reflexivity.
Qed.

Lemma tiny_ticks_idle ts : forall m,
  Forall (fun t => nothing_due t (eng (sys m))) ts ->
  let m' := ticks T_MAX R_MAX action check ts m in
  eng (sys m') = eng (sys m) /\ usr (sys m') = usr (sys m) /\
  trace m' = trace m.
Proof.
  induction ts as [|t ts IH]; intros m Hts; [cbn; auto|].
  apply Forall_cons in Hts. destruct Hts as [Ht Hts].
  change (ticks T_MAX R_MAX action check (t :: ts) m)
    with (ticks T_MAX R_MAX action check ts (tick T_MAX R_MAX action check t m)).
  assert (E : tick T_MAX R_MAX action check t m =
              with_sys {| eng := eng (sys m); clk := t; usr := usr (sys m) |} m).
  { unfold tick. apply tiny_run_idle. exact Ht. }
  rewrite E. cbv zeta.
  destruct (IH (with_sys {| eng := eng (sys m); clk := t; usr := usr (sys m) |} m))
    as (H1 & H2 & H3); [exact Hts|].
  cbv zeta in H1, H2, H3. rewrite H1, H2, H3. auto.
Qed.

End Idle.

(** *** Assumptions on a sketch, bundled *)

(** No function of the sketch cancels reaction [i] or sets the time of its
    next trigger check. *)
Definition sketch_keeps_reaction {U : Type} (i : Z)
    (action : fnptr -> Sys Engine U -> Sys Engine U)
    (check : fnptr -> Sys Engine U -> bool * Sys Engine U) : Prop :=
  (forall p, keeps_reaction i (action p)) /\
  (forall p, keeps_reaction i (fun s => snd (check p s))).

(** *** The three blocks of a tick *)

(** What each of the three loops of [run()] adds to the trace. *)
Lemma tiny_run_phases_trace {U : Type} (T_MAX R_MAX : Z)
    (action : fnptr -> Sys Engine U -> Sys Engine U)
    (check : fnptr -> Sys Engine U -> bool * Sys Engine U)
    (m : Machine Engine U) :
  let now := clk (sys m) in
  let m1 := schedule_phase T_MAX action now m in
  let m2 := pending_phase R_MAX action now m1 in
  let m' := run T_MAX R_MAX action check m in
  exists l1 l2 l3,
    (trace m1 = trace m ++ l1 /\ trace m2 = trace m1 ++ l2 /\
     trace m' = trace m2 ++ l3) /\
    trace m' = trace m ++ l1 ++ l2 ++ l3 /\
    phase_trace is_schedule_event id_lt now 0 l1 /\
    phase_trace is_settle_event id_lt now 0 l2 /\
    phase_trace is_scan_event id_le now 0 l3.
Proof.
  cbv zeta. set (now := clk (sys m)).
  destruct (for_upto_phase_trace is_schedule_event id_lt now m_last_schd
              (run_schedule action now) (fun a b H => H)
              (tiny_run_schedule_trace action now) (Z.to_nat T_MAX) 0 m)
    as (l1 & H1 & P1).
  change (for_upto (Z.to_nat T_MAX) m_last_schd (run_schedule action now) 0 m)
    with (schedule_phase T_MAX action now m) in H1.
  set (m1 := schedule_phase T_MAX action now m) in *.
  destruct (for_upto_phase_trace is_settle_event id_lt now m_last_rct
              (run_pending action now) (fun a b H => H)
              (tiny_run_pending_trace action now) (Z.to_nat R_MAX) 0 m1)
    as (l2 & H2 & P2).
  change (for_upto (Z.to_nat R_MAX) m_last_rct (run_pending action now) 0 m1)
    with (pending_phase R_MAX action now m1) in H2.
  set (m2 := pending_phase R_MAX action now m1) in *.
  destruct (for_upto_phase_trace is_scan_event id_le now m_last_rct
              (run_trigger action check now) id_lt_le
              (tiny_run_trigger_trace action check now) (Z.to_nat R_MAX) 0 m2)
    as (l3 & H3 & P3).
  change (for_upto (Z.to_nat R_MAX) m_last_rct (run_trigger action check now) 0 m2)
    with (run T_MAX R_MAX action check m) in H3.
  exists l1, l2, l3. split; [auto|].
  split; [rewrite H3, H2, H1, <- !app_assoc; reflexivity|]. auto.
Qed.

(** Schedule [k] in the tick, for a sketch that leaves it alone: what the
    first loop did to it is what the tick did to it. *)
Lemma tiny_run_block_schedule {U : Type} (T_MAX R_MAX : Z)
    (action : fnptr -> Sys Engine U -> Sys Engine U)
    (check : fnptr -> Sys Engine U -> bool * Sys Engine U)
    (k : Z) (m : Machine Engine U) (l1 : list Event) :
  sketch_respects T_MAX R_MAX action check ->
  sketch_keeps_schedule k action check ->
  wf T_MAX R_MAX (eng (sys m)) -> 0 <= k <= last_schd (eng (sys m)) ->
  let now := clk (sys m) in
  trace (schedule_phase T_MAX action now m) = trace m ++ l1 ->
  schedule_outcome now (schedule (eng (sys m)) k) (schedule_firings k l1)
    (schedule (eng (sys (run T_MAX R_MAX action check m))) k).
Proof.
  intros [Ha Hc] [Ksa Ksc] Hwf Hk now H1.
  destruct (tiny_schedule_phase_at T_MAX R_MAX action Ha k Ksa now m Hwf Hk)
    as (W1 & G1 & l1' & T1' & O1).
  assert (l1' = l1) by (rewrite H1 in T1'; apply app_inv_head in T1'; congruence).
  subst l1'.
  destruct (tiny_quiet_phases T_MAX R_MAX action check Ha Hc k Ksa Ksc now _ W1)
    as (_ & _ & Q & _).
  unfold run. cbv zeta. fold now. rewrite Q. exact O1.
Qed.

(** *** One call of [run()] *)

(** The tick as a whole.  [run()] is its three loops one after the other
    with the clock value read on entry; each adds its block of events to
    the trace; every entry up to the high-water mark is visited by its
    loop, on the state the earlier turns have left; and for a sketch that
    uses the engine through its methods, a schedule or a reaction that no
    function of the sketch writes is handled in the tick as its row at
    the beginning of the tick tells. *)
Lemma tiny_run_structure {U : Type} (T_MAX R_MAX : Z)
    (action : fnptr -> Sys Engine U -> Sys Engine U)
    (check : fnptr -> Sys Engine U -> bool * Sys Engine U)
    (m : Machine Engine U) :
  let now := clk (sys m) in
  let m1 := schedule_phase T_MAX action now m in
  let m2 := pending_phase R_MAX action now m1 in
  let m' := run T_MAX R_MAX action check m in
  m' = trigger_phase R_MAX action check now m2 /\
  exists l1 l2 l3,
    trace m' = trace m ++ l1 ++ l2 ++ l3 /\
    phase_trace is_schedule_event id_lt now 0 l1 /\
    phase_trace is_settle_event id_lt now 0 l2 /\
    phase_trace is_scan_event id_le now 0 l3 /\
    (forall la ev lb i,
       l1 ++ l2 ++ l3 = la ++ ev :: lb -> is_scan_event ev = true ->
       count_events (reaction_settled i) lb = 0%nat) /\
    (trace m1 = trace m ++ l1 /\ trace m2 = trace m1 ++ l2 /\
     trace m' = trace m2 ++ l3) /\
    (forall k, 0 <= k < T_MAX ->
       let s_k := for_upto (Z.to_nat k) m_last_schd (run_schedule action now) 0 m in
       k <= last_schd (eng (sys s_k)) ->
       m1 = for_upto (Z.to_nat (T_MAX - k - 1)) m_last_schd
              (run_schedule action now) (k + 1) (run_schedule action now k s_k)) /\
    (forall i, 0 <= i < R_MAX ->
       let p_i := for_upto (Z.to_nat i) m_last_rct (run_pending action now) 0 m1 in
       let t_i := for_upto (Z.to_nat i) m_last_rct
                    (run_trigger action check now) 0 m2 in
       (i <= last_rct (eng (sys p_i)) ->
        m2 = for_upto (Z.to_nat (R_MAX - i - 1)) m_last_rct
               (run_pending action now) (i + 1) (run_pending action now i p_i)) /\
       (i <= last_rct (eng (sys t_i)) ->
        m' = for_upto (Z.to_nat (R_MAX - i - 1)) m_last_rct
               (run_trigger action check now) (i + 1)
               (run_trigger action check now i t_i))) /\
    (sketch_respects T_MAX R_MAX action check ->
     wf T_MAX R_MAX (eng (sys m)) ->
     (forall k, sketch_keeps_schedule k action check ->
        0 <= k <= last_schd (eng (sys m)) ->
        schedule_outcome now (schedule (eng (sys m)) k) (schedule_firings k l1)
          (schedule (eng (sys m')) k)) /\
     (forall i, sketch_keeps_reaction i action check ->
        0 <= i <= last_rct (eng (sys m)) ->
        let r := reaction (eng (sys m)) i in
        let p_i := for_upto (Z.to_nat i) m_last_rct (run_pending action now) 0 m1 in
        let t_i := for_upto (Z.to_nat i) m_last_rct
                     (run_trigger action check now) 0 m2 in
        reaction (eng (sys p_i)) i = r /\
        (r_pending r = true -> r_next_execution r < now ->
         exists e1,
           reaction e1 i = settled r /\
           other_reactions_kept i (eng (sys p_i)) e1 /\
           schedules_kept (eng (sys p_i)) e1 /\
           marks_kept (eng (sys p_i)) e1 /\
           m2 = for_upto (Z.to_nat (R_MAX - i - 1)) m_last_rct
                  (run_pending action now) (i + 1)
                  (emit (ReactionExecuted i now)
                     (with_sys (action (r_action r) (with_eng e1 (sys p_i)))
                        p_i))) /\
        reaction_outcome now r (reaction_runs i l2) (reaction (eng (sys t_i)) i) /\
        scan_outcome now i (reaction (eng (sys t_i)) i)
          (fst (check (r_predicate r) (sys t_i))) (scan_events i l3)
          (reaction (eng (sys m')) i) /\
        reaction_runs i (l1 ++ l3) = [] /\ scan_events i (l1 ++ l2) = [])).
Proof.
  cbv zeta. split; [reflexivity|].
  destruct (tiny_run_phases_trace T_MAX R_MAX action check m)
    as (l1 & l2 & l3 & (T1 & T2 & T3) & T & P1 & P2 & P3).
  exists l1, l2, l3.
  split; [exact T|]. split; [exact P1|]. split; [exact P2|]. split; [exact P3|].
  split.
  { intros la ev lb i Heq Hev. apply no_settle_among_scan.
    eapply scan_events_come_last; eassumption. }
  split; [auto|].
  split.
  { intros k Hk Hle. unfold schedule_phase. apply for_upto_reach; assumption. }
  split.
  { intros i Hi. split; intros Hle.
    - unfold pending_phase. apply for_upto_reach; assumption.
    - unfold run, trigger_phase. cbv zeta. apply for_upto_reach; assumption. }
  intros Hok Hwf. split.
  - intros k Kk Hk.
    exact (tiny_run_block_schedule T_MAX R_MAX action check k m l1 Hok Kk Hwf Hk T1).
  - intros i [Ka Kc] Hi.
    destruct (tiny_run_reaction T_MAX R_MAX action check Hok i Ka Kc m Hwf Hi)
      as (W' & G' & (Wp & Hlp & Rp) & Ep & Et & l1' & l2' & l3'
          & T1' & T2' & T3' & (D1 & S1) & S2 & D3 & O2 & O3).
    assert (l1' = l1) by (rewrite T1 in T1'; apply app_inv_head in T1'; congruence).
    assert (l2' = l2) by (rewrite T2 in T2'; apply app_inv_head in T2'; congruence).
    assert (l3' = l3) by (rewrite T3 in T3'; apply app_inv_head in T3'; congruence).
    subst l1' l2' l3'.
    split; [exact Rp|]. split.
    { intros Hp Hd.
      assert (Hr : 0 <= i < R_MAX).
      { unfold wf in Hwf. destruct Hwf as (_ & (_ & ?) & _). lia. }
      destruct (tiny_run_pending_due T_MAX R_MAX action (clk (sys m)) i _ Wp Hr)
        as (e1 & R1 & O & S & M & E).
      { rewrite Rp. exact Hp. }
      { rewrite Rp. exact Hd. }
      exists e1. split; [rewrite R1, Rp; reflexivity|].
      split; [exact O|]. split; [exact S|]. split; [exact M|].
      rewrite Rp in E. rewrite <- E. exact Ep. }
    split; [exact O2|]. split; [exact O3|].
    rewrite reaction_runs_app, scan_events_app, D1, D3, S1, S2. auto.
Qed.

(** *** Sequences of method calls *)

(** One call of a method of the engine other than [run()]. *)
Inductive Call : Type :=
| AddSchedule (callback : fnptr) (interval delay_start : Z)
| AddReaction (trigger callback : fnptr) (timeout delay delay_start : Z)
| CancelReaction (rct_id reset_debounce timestamp abs : Z)
| SetNextSchedule (schd_id timestamp abs : Z)
| SetNextTrigger (rct_id timestamp abs : Z)
| Begin.

Definition call (T_MAX R_MAX : Z) (c : Call) (millis : Z) (e : Engine)
    : Engine :=
  match c with
  | AddSchedule cb iv d => snd (addSchedule T_MAX cb iv d e)
  | AddReaction tr cb to dl d => snd (addReaction R_MAX tr cb to dl d e)
  | CancelReaction id rd ts abs => cancelReaction id rd ts abs millis e
  | SetNextSchedule id ts abs => setNextSchedule id ts abs millis e
  | SetNextTrigger id ts abs => setNextTrigger id ts abs millis e
  | Begin => begin T_MAX R_MAX millis e
  end.

Definition calls (T_MAX R_MAX : Z) (cs : list (Z * Call)) (e : Engine)
    : Engine :=
  fold_left (fun e tc => call T_MAX R_MAX (snd tc) (fst tc) e) cs e.

Definition entries_kept (e e' : Engine) : Prop :=
  (forall i, 0 <= i <= last_schd e ->
     s_action (schedule e' i) = s_action (schedule e i) /\
     s_interval (schedule e' i) = s_interval (schedule e i)) /\
  (forall i, 0 <= i <= last_rct e ->
     r_predicate (reaction e' i) = r_predicate (reaction e i) /\
     r_action (reaction e' i) = r_action (reaction e i) /\
     r_timeout (reaction e' i) = r_timeout (reaction e i) /\
     r_delay (reaction e' i) = r_delay (reaction e i)).

Definition extends (T_MAX R_MAX : Z) (e e' : Engine) : Prop :=
  wf T_MAX R_MAX e' /\ grows e e' /\ entries_kept e e'.

Lemma tiny_extends_refl T_MAX R_MAX e :
  wf T_MAX R_MAX e -> extends T_MAX R_MAX e e.
Proof.
  intros Hwf. split; [exact Hwf|]. split; [apply tiny_grows_refl|].
  split; intros i Hi; auto.
Qed.

Lemma tiny_extends_trans T_MAX R_MAX e1 e2 e3 :
  extends T_MAX R_MAX e1 e2 -> extends T_MAX R_MAX e2 e3 ->
  extends T_MAX R_MAX e1 e3.
Proof.
  intros (W2 & G2 & S2 & R2) (W3 & G3 & S3 & R3).
  split; [exact W3|]. split; [eapply tiny_grows_trans; eassumption|].
  unfold grows in G2. split; intros i Hi.
  - destruct (S2 i Hi) as (A & B). destruct (S3 i) as (A' & B'); [lia|].
    split; congruence.
  - destruct (R2 i Hi) as (A & B & C & D).
    destruct (R3 i) as (A' & B' & C' & D'); [lia|].
    repeat split; congruence.
Qed.

Lemma tiny_call_extends T_MAX R_MAX c now e :
  wf T_MAX R_MAX e -> extends T_MAX R_MAX e (call T_MAX R_MAX c now e).
Proof.
  intros Hwf. destruct c; cbn [call].
  - split; [apply tiny_wf_addSchedule; exact Hwf|].
    unfold wf in Hwf. decompose [and] Hwf. clear Hwf.
    unfold addSchedule, grows, entries_kept. guard_cases.
    + split; [lia|]. split; intros i Hi; auto.
    + split; [lia|]. split; intros i Hi; rows; auto.
  - split; [apply tiny_wf_addReaction; exact Hwf|].
    unfold wf in Hwf. decompose [and] Hwf. clear Hwf.
    unfold addReaction, grows, entries_kept. guard_cases.
    + split; [lia|]. split; intros i Hi; auto.
    + split; [lia|]. split; intros i Hi; rows; auto.
  - split; [apply tiny_wf_cancelReaction; exact Hwf|].
    unfold cancelReaction, grows, entries_kept. guard_cases;
      (split; [lia|]; split; intros i Hi; rows; auto).
  - split; [apply wf_setNextSchedule; exact Hwf|].
    unfold setNextSchedule, grows, entries_kept. guard_cases;
      (split; [lia|]; split; intros i Hi; rows; auto).
  - split; [apply wf_setNextTrigger; exact Hwf|].
    unfold setNextTrigger, grows, entries_kept. guard_cases;
      (split; [lia|]; split; intros i Hi; rows; auto).
  - destruct (tiny_begin_rows T_MAX R_MAX now e Hwf)
      as (W & (M1 & M2 & _) & S1 & _ & R1 & _).
    split; [exact W|]. split; [unfold grows; lia|]. split.
    + intros i Hi. rewrite (S1 i Hi). auto.
    + intros i Hi. rewrite (R1 i Hi). auto.
Qed.

Lemma tiny_calls_extends T_MAX R_MAX cs : forall e,
  wf T_MAX R_MAX e -> extends T_MAX R_MAX e (calls T_MAX R_MAX cs e).
Proof.
  induction cs as [|[t c] cs IH]; intros e Hwf.
  - apply tiny_extends_refl. exact Hwf.
  - pose proof (tiny_call_extends T_MAX R_MAX c t e Hwf) as H1.
    eapply tiny_extends_trans; [exact H1|].
    apply IH. destruct H1 as (W & _). exact W.
Qed.

End TinyMore.

(** * Properties of the sketch [pause_resume_schedule.ino] *)

Module PauseResumeFacts.
Import Simple SimpleFacts PauseResume.

(** The engine holds the entries [setup()] added: three schedules, the
    two of the green LED with one interval, and one reaction. *)
Definition wired (e : Engine) : Prop :=
  wf 8 8 e /\ last_schd e = 2 /\ last_rct e = 0 /\
  s_action (schedule e 0) = fn_turn_on_green /\
  s_action (schedule e 1) = fn_turn_off_green /\
  s_action (schedule e 2) = fn_toggle_red /\
  s_interval (schedule e 0) = s_interval (schedule e 1) /\
  r_predicate (reaction e 0) = fn_check_button /\
  r_action (reaction e 0) = fn_toggle_schedule.

(** The two schedules of the green LED are both active or both paused, and
    due at the same time. *)
Definition in_step (e : Engine) : Prop :=
  s_active (schedule e 0) = s_active (schedule e 1) /\
  s_next_fire (schedule e 0) = s_next_fire (schedule e 1).

(** The clock stands still between the two calls of [resumeSchedule] in
    [toggle_schedule]: both read the same value. *)
Definition steady (u : Vars) : Prop :=
  forall t, fst (millis_reads u t) = snd (millis_reads u t).

Definition green_stuck (s : Sys Engine Vars) : Prop :=
  wired (eng s) /\ in_step (eng s) /\ grn_pin (usr s) = false /\
  steady (usr s).

Ltac open_wired :=
  repeat match goal with
  | H : green_stuck _ |- _ => destruct H as (? & ? & ? & ?)
  | H : wired _ |- _ =>
      let W := fresh "W" in
      destruct H as (W & ? & ? & ? & ? & ? & ? & ? & ?);
      unfold wf in W; decompose [and] W; clear W
  | H : in_step _ |- _ => destruct H as (? & ?)
  end;
  unfold schedule, reaction in *; cbn [s_action s_interval s_next_fire
    s_active r_predicate r_action r_timeout r_delay r_next_trigger_check
    r_next_execution r_pending r_trigger_active] in *.

Ltac close_wired :=
  unfold green_stuck, wired, in_step, steady, wf, schedule, reaction;
  cbn; rewrite ?length_aset;
  repeat first
    [ rewrite aget_aset_eq by (rewrite ?length_aset; lia)
    | rewrite aget_aset_ne by lia ];
  repeat split; try assumption; try lia; try congruence.

Lemma toggle_schedule_wired s :
  wired (eng s) -> wired (eng (toggle_schedule s)).
Proof.
  intros H. open_wired. unfold toggle_schedule, pauseSchedule, resumeSchedule.
  destruct (button_parity (usr s) =? 0); cbn;
    repeat match goal with H : last_schd _ = _ |- _ => rewrite H end; cbn;
    repeat match goal with H : last_schd _ = _ |- _ => rewrite H end; cbn;
    close_wired.
Qed.

Lemma toggle_schedule_in_step_kept s :
  wired (eng s) -> steady (usr s) -> in_step (eng s) ->
  in_step (eng (toggle_schedule s)).
Proof.
  intros H St I. open_wired. specialize (St (clk s)).
  unfold toggle_schedule, pauseSchedule, resumeSchedule.
  destruct (button_parity (usr s) =? 0); cbn;
    repeat match goal with H : last_schd _ = _ |- _ => rewrite H end; cbn;
    repeat match goal with H : last_schd _ = _ |- _ => rewrite H end; cbn;
    close_wired.
Qed.

(** The second press of the button: [toggle_schedule] resumes the two
    schedules, each with the clock value its call reads as due time. *)
Lemma toggle_schedule_resumes s :
  wired (eng s) -> button_parity (usr s) <> 0 ->
  s_active (schedule (eng (toggle_schedule s)) 0) = true /\
  s_active (schedule (eng (toggle_schedule s)) 1) = true /\
  s_next_fire (schedule (eng (toggle_schedule s)) 0) =
    ulong (0 + fst (millis_reads (usr s) (clk s))) /\
  s_next_fire (schedule (eng (toggle_schedule s)) 1) =
    ulong (0 + snd (millis_reads (usr s) (clk s))).
Proof.
  intros H P. open_wired. unfold toggle_schedule, resumeSchedule.
  destruct (Z.eqb_spec (button_parity (usr s)) 0); [contradiction|]. cbn.
  repeat match goal with H : last_schd _ = _ |- _ => rewrite H end; cbn.
  repeat match goal with H : last_schd _ = _ |- _ => rewrite H end; cbn.
  close_wired.
Qed.

Lemma toggle_schedule_steady s :
  steady (usr s) -> steady (usr (toggle_schedule s)).
Proof.
  unfold toggle_schedule. destruct (button_parity (usr s) =? 0); intros H; exact H.
Qed.

Lemma toggle_schedule_grn s :
  grn_pin (usr (toggle_schedule s)) = grn_pin (usr s).
Proof.
  unfold toggle_schedule. destruct (button_parity (usr s) =? 0); reflexivity.
Qed.

Lemma run_schedule_stuck_0 now m :
  green_stuck (sys m) ->
  let m' := run_schedule action now 0 m in
  wired (eng (sys m')) /\ steady (usr (sys m')) /\
  ((in_step (eng (sys m')) /\ grn_pin (usr (sys m')) = false /\
    s_active (schedule (eng (sys m')) 1) &&
      (s_next_fire (schedule (eng (sys m')) 1) <? now) = false) \/
   (s_active (schedule (eng (sys m')) 0) = true /\
    s_active (schedule (eng (sys m')) 1) = true /\
    s_next_fire (schedule (eng (sys m')) 1) < now /\
    s_next_fire (schedule (eng (sys m')) 0) =
      ulong (s_next_fire (schedule (eng (sys m')) 1) +
             s_interval (schedule (eng (sys m')) 1)))).
Proof.
  intros H. cbv zeta. open_wired. unfold run_schedule. cbv zeta.
  destruct (aget false (schd_areActive (eng (sys m))) 0) eqn:Ea; cbn [andb].
  - destruct (Z.ltb_spec (aget 0 (schd_nextCalls (eng (sys m))) 0) now) as [Hd|Hd].
    + cbn [set_schd_nextCalls schd_calls].
      match goal with H : aget nullptr (schd_calls _) 0 = _ |- _ => rewrite H end.
      cbn [action fn_turn_on_green turn_on_green sys emit with_sys with_usr
           with_eng eng usr].
      split; [close_wired|]. split; [assumption|]. right. close_wired.
    + split; [close_wired|]. split; [assumption|]. left. close_wired.
  - split; [close_wired|]. split; [assumption|]. left. close_wired.
    match goal with H : false = aget false _ 1 |- _ => rewrite <- H end.
    reflexivity.
Qed.

(** Between the first and the second turn of the loop over the schedules:
    either schedule 0 was not due, or it was and has switched the LED on,
    schedule 1 being due with it. *)
Definition half_way (now : Z) (s : Sys Engine Vars) : Prop :=
  (in_step (eng s) /\ grn_pin (usr s) = false /\
   s_active (schedule (eng s) 1) && (s_next_fire (schedule (eng s) 1) <? now)
     = false) \/
  (s_active (schedule (eng s) 0) = true /\
   s_active (schedule (eng s) 1) = true /\
   s_next_fire (schedule (eng s) 1) < now /\
   s_next_fire (schedule (eng s) 0) =
     ulong (s_next_fire (schedule (eng s) 1) + s_interval (schedule (eng s) 1))).

Lemma run_schedule_stuck_1 now m :
  wired (eng (sys m)) -> steady (usr (sys m)) -> half_way now (sys m) ->
  green_stuck (sys (run_schedule action now 1 m)).
Proof.
  intros H St [(I & G & C)|(A0 & A1 & D & N)]; open_wired; unfold run_schedule;
    cbv zeta.
  - rewrite C. close_wired.
  - rewrite A1. destruct (Z.ltb_spec (aget 0 (schd_nextCalls (eng (sys m))) 1) now);
      [|lia]. cbn [andb set_schd_nextCalls schd_calls].
    match goal with H : aget nullptr (schd_calls _) 1 = _ |- _ => rewrite H end.
    cbn [action fn_turn_off_green turn_off_green sys emit with_sys with_usr
         with_eng eng usr].
    close_wired.
Qed.

Lemma run_schedule_stuck_2 now m :
  green_stuck (sys m) -> green_stuck (sys (run_schedule action now 2 m)).
Proof.
  intros H. open_wired. unfold run_schedule. cbv zeta.
  destruct (aget false (schd_areActive (eng (sys m))) 2 &&
            (aget 0 (schd_nextCalls (eng (sys m))) 2 <? now)); [|close_wired].
  cbn [set_schd_nextCalls schd_calls].
  match goal with H : aget nullptr (schd_calls _) 2 = _ |- _ => rewrite H end.
  cbn [action fn_toggle_red sys emit with_sys]. unfold toggle_red.
  destruct (red_state _ =? 0); close_wired.
Qed.

Lemma schedule_phase_stuck now m :
  green_stuck (sys m) -> green_stuck (sys (schedule_phase 8 action now m)).
Proof.
  intros H. unfold schedule_phase.
  pose (P := fun (j : Z) (m' : Machine Engine Vars) =>
    0 <= j /\ (wired (eng (sys m')) /\ steady (usr (sys m'))) /\
    ((j = 0 /\ green_stuck (sys m')) \/
     (j = 1 /\ half_way now (sys m')) \/
     (2 <= j /\ green_stuck (sys m')))).
  assert (Hstep : forall j s, P j s -> j <= m_last_schd s ->
                    P (j + 1) (run_schedule action now j s)).
  { intros j s (Hj & (W & St) & Hcase) Hle.
    assert (Hlast : m_last_schd s = 2) by (destruct W as (_ & ? & _); assumption).
    split; [lia|].
    destruct Hcase as [(-> & G)|[(-> & Hh)|(H2 & G)]].
    - destruct (run_schedule_stuck_0 now s G) as (W' & St' & Hh).
      split; [exact (conj W' St')|]. right. left. split; [reflexivity|exact Hh].
    - pose proof (run_schedule_stuck_1 now s W St Hh) as G.
      split; [destruct G as (? & _ & _ & ?); split; assumption|]. right. right.
      split; [lia|exact G].
    - assert (j = 2) by lia. subst j.
      pose proof (run_schedule_stuck_2 now s G) as G'.
      split; [destruct G' as (? & _ & _ & ?); split; assumption|]. right. right.
      split; [lia|exact G']. }
  assert (H0 : P 0 m).
  { split; [lia|]. split; [destruct H as (? & _ & _ & ?); split; assumption|].
    left. split; [reflexivity|exact H]. }
  pose proof (for_upto_ind P m_last_schd (run_schedule action now) Hstep
                (Z.to_nat 8) 0 m H0) as Hloop.
  set (mf := for_upto (Z.to_nat 8) m_last_schd (run_schedule action now) 0 m) in *.
  destruct Hloop as (k & Hk & (_ & (W & _) & Hcase) & Hend).
  assert (Hlast : m_last_schd mf = 2) by (destruct W as (_ & ? & _); assumption).
  destruct Hcase as [(-> & _)|[(-> & _)|(_ & G)]]; [lia|lia|exact G].
Qed.

Lemma run_pending_stuck now m :
  green_stuck (sys m) -> green_stuck (sys (run_pending action now 0 m)).
Proof.
  intros H. unfold run_pending. cbv zeta.
  destruct (aget false (rct_areTrigged (eng (sys m))) 0 &&
            (aget 0 (rct_nextCalls (eng (sys m))) 0 <? now)); [|exact H].
  cbn [set_rct_areTrigged rct_calls].
  assert (Ha : aget nullptr (rct_calls (eng (sys m))) 0 = fn_toggle_schedule).
  { destruct H as ((_ & _ & _ & _ & _ & _ & _ & _ & ?) & _). assumption. }
  rewrite Ha. cbn [action fn_toggle_schedule sys emit with_sys].
  match goal with |- green_stuck (toggle_schedule ?s) =>
    assert (G : green_stuck s) by (open_wired; close_wired)
  end.
  destruct G as (W & I & G & St).
  split; [apply toggle_schedule_wired; exact W|].
  split; [apply toggle_schedule_in_step_kept; assumption|].
  split; [rewrite toggle_schedule_grn; exact G|].
  apply toggle_schedule_steady. exact St.
Qed.

Lemma run_trigger_stuck now m :
  green_stuck (sys m) -> green_stuck (sys (run_trigger action check now 0 m)).
Proof.
  intros H. unfold run_trigger. cbv zeta.
  destruct (aget false (rct_areActive (eng (sys m))) 0 &&
            (aget 0 (rct_nextTrigs (eng (sys m))) 0 <? now)); [|exact H].
  assert (Hp : aget nullptr (rct_trigs (eng (sys m))) 0 = fn_check_button).
  { destruct H as ((_ & _ & _ & _ & _ & _ & _ & ? & _) & _). assumption. }
  rewrite Hp. cbn [check fn_check_button]. unfold check_button.
  destruct (button_pin (usr (sys m)) (clk (sys m))); [|exact H].
  assert (Ha : aget nullptr (rct_calls (eng (sys m))) 0 = fn_toggle_schedule).
  { destruct H as ((_ & _ & _ & _ & _ & _ & _ & _ & ?) & _). assumption. }
  destruct (aget 0 (rct_tDelays (eng (sys m))) 0 =? 0).
  - cbn [set_rct_nextTrigs rct_calls]. rewrite Ha.
    cbn [action fn_toggle_schedule sys emit with_sys].
    match goal with |- green_stuck (toggle_schedule ?s) =>
      assert (G : green_stuck s) by (open_wired; close_wired)
    end.
    destruct G as (W & I & G & St).
    split; [apply toggle_schedule_wired; exact W|].
    split; [apply toggle_schedule_in_step_kept; assumption|].
    split; [rewrite toggle_schedule_grn; exact G|].
    apply toggle_schedule_steady. exact St.
  - cbn [sys emit with_sys]. open_wired. close_wired.
Qed.

Lemma reaction_phases_stuck (body : Z -> Machine Engine Vars -> Machine Engine Vars) m :
  (forall s, green_stuck (sys s) -> green_stuck (sys (body 0 s))) ->
  green_stuck (sys m) ->
  green_stuck (sys (for_upto (Z.to_nat 8) m_last_rct body 0 m)).
Proof.
  intros Hbody H.
  pose (P := fun (j : Z) (m' : Machine Engine Vars) =>
    0 <= j /\ green_stuck (sys m')).
  assert (Hstep : forall j s, P j s -> j <= m_last_rct s -> P (j + 1) (body j s)).
  { intros j s (Hj & G) Hle.
    assert (Hlast : m_last_rct s = 0).
    { destruct G as ((_ & _ & ? & _) & _). assumption. }
    assert (j = 0) by lia. subst j. split; [lia|]. apply Hbody. exact G. }
  destruct (for_upto_ind P m_last_rct body Hstep (Z.to_nat 8) 0 m
              (conj (Z.le_refl 0) H)) as (k & _ & (_ & G) & _).
  exact G.
Qed.

(** Once the two schedules of the green LED are due at the same time and
    the LED is off, they stay so and the LED is off after every [loop()],
    whatever the button does. *)
Lemma loop_stuck t m :
  green_stuck (sys m) -> green_stuck (sys (loop t m)).
Proof.
  intros H. unfold loop, tick, run.
  set (m0 := with_sys {| eng := eng (sys m); clk := t; usr := usr (sys m) |} m).
  assert (H0 : green_stuck (sys m0)) by exact H.
  cbv zeta. unfold trigger_phase, pending_phase.
  apply reaction_phases_stuck; [apply run_trigger_stuck|].
  apply reaction_phases_stuck; [apply run_pending_stuck|].
  apply schedule_phase_stuck. exact H0.
Qed.

Lemma loops_stuck ts : forall m,
  green_stuck (sys m) -> green_stuck (sys (loops ts m)).
Proof.
  induction ts as [|t ts IH]; intros m H; [exact H|].
  change (loops (t :: ts) m) with (loops ts (loop t m)).
  apply IH. apply loop_stuck. exact H.
Qed.

(** *** The sketch meets the assumptions on a sketch *)

Lemma toggle_schedule_respects : respects 8 8 toggle_schedule.
Proof.
  intros s Hwf. unfold toggle_schedule.
  destruct (button_parity (usr s) =? 0); cbn [eng with_usr with_eng].
  - split.
    + apply wf_pauseSchedule, wf_pauseSchedule. exact Hwf.
    + unfold grows, pauseSchedule. guard_cases; cbn; guard_cases; cbn; lia.
  - split.
    + apply wf_resumeSchedule, wf_resumeSchedule. exact Hwf.
    + unfold grows, resumeSchedule. guard_cases; cbn; guard_cases; cbn; lia.
Qed.

Lemma sketch_ok : sketch_respects 8 8 action check.
Proof.
  split; intros p.
  - destruct p as [|[|[|[|[|[|p]]]]]];
      try (intros s W; cbn [action]; split; [exact W|apply grows_refl]).
    + apply toggle_schedule_respects.
    + intros s W. cbn [action]. unfold toggle_red.
      destruct (red_state (usr s) =? 0); (split; [exact W|apply grows_refl]).
  - destruct p as [|[|p]];
      try (intros s W; cbn [check]; split; [exact W|apply grows_refl]).
    intros s W. cbn [check]. unfold check_button.
    destruct (button_pin (usr s) (clk s)); (split; [exact W|apply grows_refl]).
Qed.

(** No function of the sketch touches the schedule of the red LED. *)
Lemma sketch_keeps_red : sketch_keeps_schedule 2 action check.
Proof.
  split; intros p s.
  - destruct p as [|[|[|[|[|[|p]]]]]]; cbn [action]; try reflexivity.
    + unfold toggle_schedule, pauseSchedule, resumeSchedule.
      destruct (button_parity (usr s) =? 0); cbn [eng with_usr with_eng];
        guard_cases; cbn; guard_cases; rows; reflexivity.
    + unfold toggle_red. destruct (red_state (usr s) =? 0); reflexivity.
  - destruct p as [|[|p]]; cbn [check snd]; try reflexivity.
    unfold check_button. destruct (button_pin (usr s) (clk s)); reflexivity.
Qed.

(** The engine [setup()] builds. *)
Definition before_begin : Engine :=
  Eval vm_compute in
    snd (addSchedule 8 fn_toggle_red 500 0
      (snd (addSchedule 8 fn_turn_off_green 1000 500
        (snd (addSchedule 8 fn_turn_on_green 1000 0
          (snd (addReaction 8 fn_check_button fn_toggle_schedule 250 0 0
                 (init 8 8)))))))).

Lemma before_begin_wf : wf 8 8 before_begin.
Proof. unfold wf. vm_compute. repeat split; discriminate. Qed.

Lemma setup_engine reads button t0 :
  eng (sys (setup reads button t0)) = begin 8 8 t0 before_begin.
Proof. reflexivity. Qed.

Lemma setup_wired reads button t0 :
  wired (eng (sys (setup reads button t0))) /\
  schedule (eng (sys (setup reads button t0))) 2 =
    {| s_action := fn_toggle_red; s_interval := 500;
       s_next_fire := ulong (0 + t0); s_active := true |}.
Proof.
  rewrite setup_engine.
  destruct (SimpleMore.begin_rows 8 8 t0 before_begin before_begin_wf)
    as (W & (M1 & M2 & _) & S1 & _ & R1 & _).
  change (last_schd before_begin) with 2 in M1, S1.
  change (last_rct before_begin) with 0 in M2, R1.
  split; [|rewrite (S1 2) by lia; reflexivity].
  unfold wired. rewrite M1, M2, (S1 0), (S1 1), (S1 2), (R1 0) by lia.
  split; [exact W|]. repeat split.
Qed.

End PauseResumeFacts.

(** * Properties of the sketch [cancel_reaction_tiny.ino] *)

Module CancelTinyFacts.
Import Tiny TinyFacts CancelTiny.

(** 250 does not fit an [int8_t]. *)
Lemma int8_250 : int8 250 = -6.
Proof. reflexivity. Qed.

Lemma cancel_reset_LEDs_effect s :
  wf 4 4 (eng s) -> last_rct (eng s) = 3 ->
  let s' := cancel_reset_LEDs s in
  reaction (eng s') 0 =
    {| r_predicate := r_predicate (reaction (eng s) 0);
       r_action := r_action (reaction (eng s) 0);
       r_timeout := r_timeout (reaction (eng s) 0);
       r_delay := r_delay (reaction (eng s) 0);
       r_next_trigger_check := far_future;
       r_next_execution := r_next_execution (reaction (eng s) 0);
       r_pending := r_pending (reaction (eng s) 0) |} /\
  (forall id, 1 <= id <= 3 ->
     reaction (eng s') id =
       {| r_predicate := r_predicate (reaction (eng s) id);
          r_action := r_action (reaction (eng s) id);
          r_timeout := r_timeout (reaction (eng s) id);
          r_delay := r_delay (reaction (eng s) id);
          r_next_trigger_check := r_next_trigger_check (reaction (eng s) id);
          r_next_execution := r_next_execution (reaction (eng s) id);
          r_pending := false |}) /\
  schedules_kept (eng s) (eng s') /\ marks_kept (eng s) (eng s') /\
  red_pin (usr s') = false /\ grn_pin (usr s') = false.
Proof.
  intros Hwf Hlast. cbv zeta.
  unfold cancel_reset_LEDs, method. rewrite int8_250.
  set (e1 := setNextTrigger 0 far_future 1 (clk s) (eng s)).
  destruct (TinyMore.setNextTrigger_valid 4 4 0 far_future 1 (clk s) (eng s) Hwf)
    as (A1 & A2 & A3 & A4); [lia|]. fold e1 in A1, A2, A3, A4.
  assert (W1 : wf 4 4 e1) by (apply wf_setNextTrigger; exact Hwf).
  cbn [eng with_eng with_usr clk usr].
  set (e2 := cancelReaction 1 (-6) 0 0 (clk s) e1).
  destruct (TinyMore.tiny_cancelReaction_valid 4 4 1 (-6) 0 0 (clk s) e1 W1)
    as (B1 & B2 & B3 & B4); [destruct A4 as (_ & -> & _); lia|].
  fold e2 in B1, B2, B3, B4.
  assert (W2 : wf 4 4 e2) by (apply tiny_wf_cancelReaction; exact W1).
  set (e3 := cancelReaction 2 (-6) 0 0 (clk s) e2).
  destruct (TinyMore.tiny_cancelReaction_valid 4 4 2 (-6) 0 0 (clk s) e2 W2)
    as (C1 & C2 & C3 & C4).
  { destruct B4 as (_ & -> & _). destruct A4 as (_ & -> & _). lia. }
  fold e3 in C1, C2, C3, C4.
  assert (W3 : wf 4 4 e3) by (apply tiny_wf_cancelReaction; exact W2).
  set (e4 := cancelReaction 3 (-6) 0 0 (clk s) e3).
  destruct (TinyMore.tiny_cancelReaction_valid 4 4 3 (-6) 0 0 (clk s) e3 W3)
    as (D1 & D2 & D3 & D4).
  { destruct C4 as (_ & -> & _). destruct B4 as (_ & -> & _).
    destruct A4 as (_ & -> & _). lia. }
  fold e4 in D1, D2, D3, D4.
  change (-6 >? 0) with false in B1, C1, D1. cbv iota in B1, C1, D1.
  change (1 <? 1) with false in A1. cbv iota in A1.
  split; [|split; [|split; [|split; [|split]]]].
  - rewrite (D2 0), (C2 0), (B2 0) by lia. exact A1.
  - intros id Hid.
    assert (Hcases : id = 1 \/ id = 2 \/ id = 3) by lia.
    destruct Hcases as [->|[->| ->]].
    + rewrite (D2 1), (C2 1) by lia. rewrite B1, (A2 1) by lia. reflexivity.
    + rewrite (D2 2) by lia. rewrite C1, (B2 2), (A2 2) by lia. reflexivity.
    + rewrite D1, (C2 3), (B2 3), (A2 3) by lia. reflexivity.
  - intros j. rewrite (D3 j), (C3 j), (B3 j). apply A3.
  - destruct A4 as (a1 & a2 & a3). destruct B4 as (b1 & b2 & b3).
    destruct C4 as (c1 & c2 & c3). destruct D4 as (d1 & d2 & d3).
    repeat split; congruence.
  - reflexivity.
  - reflexivity.
Qed.

End CancelTinyFacts.

(** * The engines on concrete sketches *)

(** [begin()] at 5000 ms turns the start delays (0 and 100 ms) into
    absolute times. *)
Example begin_anchors_delays :
  let e := snd (Simple.addSchedule 8 2%nat 600 100
                  (snd (Simple.addSchedule 8 1%nat 1000 0 (Simple.init 8 8)))) in
  map (fun i => Simple.s_next_fire (Simple.schedule (Simple.begin 8 8 5000 e) i))
    [0; 1] = [5000; 5100].
Proof. vm_compute. reflexivity. Qed.

(** One schedule of 1000 ms polled at 500, 1001 and 2001 ms. *)
Example simple_blink_trace :
  trace (Simple.ticks 8 8 idle_action button_held [500; 1001; 2001] simple_blink) =
    [ScheduleExecuted 0 0 500; ScheduleExecuted 0 1000 1001;
     ScheduleExecuted 0 2000 2001].
Proof. vm_compute. reflexivity. Qed.

Example tiny_blink_trace :
  trace (Tiny.ticks 4 4 idle_action button_held [500; 1001; 2001] tiny_blink) =
    [ScheduleExecuted 0 0 500; ScheduleExecuted 0 1000 1001;
     ScheduleExecuted 0 2000 2001].
Proof. vm_compute. reflexivity. Qed.

(** A late poll does not make the schedule catch up in one tick, and the
    due times keep their phase. *)
Example simple_blink_late :
  trace (Simple.ticks 8 8 idle_action button_held [500; 3500; 3501; 3502] simple_blink) =
    [ScheduleExecuted 0 0 500; ScheduleExecuted 0 1000 3500;
     ScheduleExecuted 0 2000 3501; ScheduleExecuted 0 3000 3502].
Proof. vm_compute. reflexivity. Qed.

(** The debounced reaction with the button held: accepted at 100 ms,
    ignored at 1000 ms, executed at the first poll after 2100 ms, accepted
    again once the debounce window has passed. *)
Example simple_debounced_trace :
  trace (Simple.ticks 8 8 idle_action button_held [100; 1000; 2101; 4101]
           simple_debounced) =
    [TriggerChecked 0 100 true; ReactionTriggered 0 100;
     ReactionExecuted 0 2101;
     TriggerChecked 0 4101 true; ReactionTriggered 0 4101].
Proof. vm_compute. reflexivity. Qed.

Example tiny_debounced_trace :
  trace (Tiny.ticks 4 4 idle_action button_held [100; 1000; 2101; 4101]
           tiny_debounced) =
    [TriggerChecked 0 100 true; ReactionTriggered 0 100;
     ReactionExecuted 0 2101;
     TriggerChecked 0 4101 true; ReactionTriggered 0 4101].
Proof. vm_compute. reflexivity. Qed.

(** With a timeout shorter than the delay each accepted trigger moves the
    queued execution: after the polls at 1, 102 and 600 ms the action is
    queued for 1100 ms and has not run. *)
Example simple_short_timeout_requeues :
  let m := Simple.ticks 8 8 idle_action button_held [1; 102; 600] simple_short_timeout in
  trace m =
    [TriggerChecked 0 1 true; ReactionTriggered 0 1;
     TriggerChecked 0 102 true; ReactionTriggered 0 102;
     TriggerChecked 0 600 true; ReactionTriggered 0 600] /\
  Simple.r_next_execution (Simple.reaction (eng (sys m)) 0) = 1100 /\
  Simple.r_pending (Simple.reaction (eng (sys m)) 0) = true.
Proof. vm_compute. repeat split; reflexivity. Qed.

(** The packed pending flags of TinyEvents: reaction 9 lives in bit 1 of
    byte 1. *)
Example tiny_flags :
  Tiny.flag_set [0; 0] 9 = [0; 2] /\
  Tiny.flag_is_set [0; 2] 9 = true /\
  Tiny.flag_is_set [0; 2] 1 = false /\
  Tiny.flag_clear [255; 255] 9 = [255; 253].
Proof. vm_compute. repeat split; reflexivity. Qed.

(** * The claims of the specification *)

Lemma idle_respects_simple T_MAX R_MAX (p : fnptr) :
  SimpleFacts.respects T_MAX R_MAX (@idle_action Simple.Engine p).
Proof. intros s W. split; [exact W|apply SimpleFacts.grows_refl]. Qed.

Lemma held_respects_simple T_MAX R_MAX (p : fnptr) :
  SimpleFacts.respects T_MAX R_MAX
    (fun s => snd (@button_held Simple.Engine p s)).
Proof. intros s W. split; [exact W|apply SimpleFacts.grows_refl]. Qed.

Lemma idle_respects_tiny T_MAX R_MAX (p : fnptr) :
  TinyFacts.respects T_MAX R_MAX (@idle_action Tiny.Engine p).
Proof. intros s W. split; [exact W|apply TinyFacts.tiny_grows_refl]. Qed.

Lemma held_respects_tiny T_MAX R_MAX (p : fnptr) :
  TinyFacts.respects T_MAX R_MAX
    (fun s => snd (@button_held Tiny.Engine p s)).
Proof. intros s W. split; [exact W|apply TinyFacts.tiny_grows_refl]. Qed.

Lemma idle_held_simple T_MAX R_MAX :
  SimpleFacts.sketch_respects T_MAX R_MAX
    (@idle_action Simple.Engine) (@button_held Simple.Engine).
Proof.
  split; intros p s W; (split; [exact W|apply SimpleFacts.grows_refl]).
Qed.

Lemma idle_held_tiny T_MAX R_MAX :
  TinyFacts.sketch_respects T_MAX R_MAX
    (@idle_action Tiny.Engine) (@button_held Tiny.Engine).
Proof.
  split; intros p s W; (split; [exact W|apply TinyFacts.tiny_grows_refl]).
Qed.

Lemma idle_held_simple_keeps i :
  SimpleFacts.sketch_keeps_schedule i
    (@idle_action Simple.Engine) (@button_held Simple.Engine).
Proof. split; intros p s; reflexivity. Qed.

Lemma idle_held_tiny_keeps i :
  TinyFacts.sketch_keeps_schedule i
    (@idle_action Tiny.Engine) (@button_held Tiny.Engine).
Proof. split; intros p s; reflexivity. Qed.

Lemma idle_held_simple_keeps_reaction i :
  SimpleMore.sketch_keeps_reaction i
    (@idle_action Simple.Engine) (@button_held Simple.Engine).
Proof. split; intros p s; reflexivity. Qed.

Lemma idle_held_tiny_keeps_reaction i :
  TinyMore.sketch_keeps_reaction i
    (@idle_action Tiny.Engine) (@button_held Tiny.Engine).
Proof. split; intros p s; reflexivity. Qed.

Lemma idle_held_simple_never_queues i :
  SimpleFacts.sketch_never_queues i
    (@idle_action Simple.Engine) (@button_held Simple.Engine).
Proof. split; intros p s H; exact H. Qed.

Lemma idle_held_tiny_never_queues i :
  TinyFacts.sketch_never_queues i
    (@idle_action Tiny.Engine) (@button_held Tiny.Engine).
Proof. split; intros p s H; exact H. Qed.

Ltac concrete :=
  vm_compute; repeat match goal with |- _ /\ _ => split end;
  first [reflexivity | discriminate | exact I].

Lemma simple_blink_wf : Simple.wf 8 8 (eng (sys simple_blink)).
Proof. unfold Simple.wf. concrete. Qed.

Lemma tiny_blink_wf : Tiny.wf 4 4 (eng (sys tiny_blink)).
Proof. unfold Tiny.wf. concrete. Qed.

Lemma simple_debounced_wf : Simple.wf 8 8 (eng (sys simple_debounced)).
Proof. unfold Simple.wf. concrete. Qed.

Lemma tiny_debounced_wf : Tiny.wf 4 4 (eng (sys tiny_debounced)).
Proof. unfold Tiny.wf. concrete. Qed.

(** C9. [pauseSchedule] on a valid id clears the activity flag of that
    schedule and changes nothing else: its action, interval and next due
    time stay as they were (the due time is frozen, not reset), as do all
    other schedules, all reactions and the high-water marks; pausing again
    gives the very same engine state. *)
Theorem C9_pauseSchedule_idempotent (T_MAX R_MAX id : Z) (e : Simple.Engine) :
  Simple.wf T_MAX R_MAX e -> 0 <= id <= Simple.last_schd e ->
  let e' := Simple.pauseSchedule id e in
  Simple.schedule e' id =
    {| Simple.s_action := Simple.s_action (Simple.schedule e id);
       Simple.s_interval := Simple.s_interval (Simple.schedule e id);
       Simple.s_next_fire := Simple.s_next_fire (Simple.schedule e id);
       Simple.s_active := false |} /\
  SimpleFacts.other_schedules_kept id e e' /\
  SimpleFacts.reactions_kept e e' /\
  SimpleFacts.marks_kept e e' /\
  Simple.wf T_MAX R_MAX e' /\
  Simple.pauseSchedule id e' = e'.
Proof.
  intros Hwf Hid e'.
  destruct (SimpleFacts.pauseSchedule_valid T_MAX R_MAX id e Hwf Hid)
    as (H1 & H2 & H3 & H4).
  split; [exact H1|]. split; [exact H2|]. split; [exact H3|].
  split; [exact H4|]. split.
  - apply SimpleFacts.wf_pauseSchedule. exact Hwf.
  - subst e'. unfold Simple.pauseSchedule.
    destruct ((id <? 0) || (id >? Simple.last_schd e)) eqn:G; rewrite ?G;
      [reflexivity|].
    cbn [Simple.last_schd Simple.set_schd_areActive]. rewrite G.
    unfold Simple.set_schd_areActive. cbn. rewrite aset_aset. reflexivity.
Qed.

Lemma C9_witness :
  Simple.s_active
    (Simple.schedule (Simple.pauseSchedule 0 (eng (sys simple_blink))) 0) = false /\
  Simple.pauseSchedule 0 (Simple.pauseSchedule 0 (eng (sys simple_blink))) =
    Simple.pauseSchedule 0 (eng (sys simple_blink)).
Proof.
  destruct (C9_pauseSchedule_idempotent 8 8 0 (eng (sys simple_blink))
              simple_blink_wf ltac:(concrete))
    as (H1 & _ & _ & _ & _ & H6).
  split; [rewrite H1; reflexivity|exact H6].
Defined.

(** C8. [resumeSchedule] on a valid id sets the activity flag and sets the
    next due time to the given timestamp when [abs] is true, and to the
    clock value read at the call plus the timestamp (in [unsigned long]
    arithmetic, so exactly [now + R] when that sum is representable) when
    it is false; the action and interval of the schedule, every other
    schedule, every reaction and the high-water marks are not modified. *)
Theorem C8_resumeSchedule (T_MAX R_MAX id timestamp now : Z) (abs : bool)
    (e : Simple.Engine) :
  Simple.wf T_MAX R_MAX e -> 0 <= id <= Simple.last_schd e ->
  let e' := Simple.resumeSchedule id timestamp abs now e in
  Simple.schedule e' id =
    {| Simple.s_action := Simple.s_action (Simple.schedule e id);
       Simple.s_interval := Simple.s_interval (Simple.schedule e id);
       Simple.s_next_fire := if abs then timestamp else ulong (now + timestamp);
       Simple.s_active := true |} /\
  (abs = false -> 0 <= now + timestamp < ULONG_MOD ->
   Simple.s_next_fire (Simple.schedule e' id) = now + timestamp) /\
  SimpleFacts.other_schedules_kept id e e' /\
  SimpleFacts.reactions_kept e e' /\
  SimpleFacts.marks_kept e e' /\
  Simple.wf T_MAX R_MAX e'.
Proof.
  intros Hwf Hid e'.
  destruct (SimpleFacts.resumeSchedule_valid T_MAX R_MAX id timestamp abs now e Hwf Hid)
    as (H1 & H2 & H3 & H4).
  split; [exact H1|]. split; [|split; [exact H2|]; split; [exact H3|];
    split; [exact H4|]; apply SimpleFacts.wf_resumeSchedule; exact Hwf].
  intros -> Hsmall. subst e'. rewrite H1. cbn.
  apply ulong_small. exact Hsmall.
Qed.

Lemma C8_witness :
  Simple.s_next_fire
    (Simple.schedule
       (Simple.resumeSchedule 0 250 false 7000 (eng (sys simple_blink))) 0) = 7250 /\
  Simple.s_next_fire
    (Simple.schedule
       (Simple.resumeSchedule 0 250 true 7000 (eng (sys simple_blink))) 0) = 250.
Proof.
  split.
  - destruct (C8_resumeSchedule 8 8 0 250 7000 false (eng (sys simple_blink))
                simple_blink_wf ltac:(concrete)) as (_ & H2 & _).
    exact (H2 eq_refl ltac:(concrete)).
  - destruct (C8_resumeSchedule 8 8 0 250 7000 true (eng (sys simple_blink))
                simple_blink_wf ltac:(concrete)) as (H1 & _).
    rewrite H1. reflexivity.
Defined.

(** An [int8_t] holds the values from -128 to 127 as they are. *)
Lemma int8_small z : -128 <= z <= 127 -> int8 z = z.
Proof. intros H. unfold int8. rewrite Z.mod_small by lia. lia. Qed.

(** C7. A control operation whose id parameter holds a value below 0 or
    above the high-water mark of its table returns normally and leaves the
    engine as it was, field for field; so does the system around it (the
    clock is not even read).  This covers the six operations of
    SimpleEvents, whose id is an [int], and the three of TinyEvents, whose
    id is an [int8_t]: the argument of a call of TinyEvents is converted to
    [int8_t] before the test, so the call is a no-op when the converted id
    is outside the range, which is the case of every argument from -128 to
    127 that is itself outside the range. *)
Theorem C7_invalid_id_no_op (id timestamp now reset_debounce tabs : Z)
    (abs : bool) (e : Simple.Engine) (t : Tiny.Engine) :
  ((id < 0 \/ Simple.last_schd e < id) ->
     Simple.pauseSchedule id e = e /\
     Simple.resumeSchedule id timestamp abs now e = e) /\
  ((id < 0 \/ Simple.last_rct e < id) ->
     Simple.pauseTrigger id e = e /\
     Simple.resumeTrigger id timestamp abs now e = e /\
     Simple.cancelReaction id timestamp abs now e = e /\
     Simple.stopReaction id e = e) /\
  (forall (U : Type) (s : Sys Simple.Engine U),
     (id < 0 \/ Simple.last_rct (eng s) < id) ->
     method (Simple.cancelReaction id timestamp abs) s = s) /\
  (* the calls of TinyEvents: the id the guard sees is [int8 id] *)
  ((int8 id < 0 \/ Tiny.last_schd t < int8 id) ->
     Tiny.call_setNextSchedule id timestamp tabs now t = t) /\
  ((int8 id < 0 \/ Tiny.last_rct t < int8 id) ->
     Tiny.call_setNextTrigger id timestamp tabs now t = t /\
     Tiny.call_cancelReaction id reset_debounce timestamp tabs now t = t) /\
  (forall (U : Type) (s : Sys Tiny.Engine U),
     (int8 id < 0 \/ Tiny.last_rct (eng s) < int8 id) ->
     method (Tiny.call_cancelReaction id reset_debounce timestamp tabs) s = s) /\
  (* an argument that fits an [int8_t] is tested as it is *)
  (-128 <= id <= 127 ->
     ((id < 0 \/ Tiny.last_schd t < id) ->
        Tiny.call_setNextSchedule id timestamp tabs now t = t) /\
     ((id < 0 \/ Tiny.last_rct t < id) ->
        Tiny.call_setNextTrigger id timestamp tabs now t = t /\
        Tiny.call_cancelReaction id reset_debounce timestamp tabs now t = t)).
Proof.
  assert (HS : forall a, (a < 0 \/ Tiny.last_schd t < a) ->
            forall ts ab, Tiny.setNextSchedule a ts ab now t = t).
  { intros a H ts ab. apply TinyFacts.setNextSchedule_invalid. exact H. }
  assert (HT : forall a, (a < 0 \/ Tiny.last_rct t < a) ->
            forall ts ab, Tiny.setNextTrigger a ts ab now t = t).
  { intros a H ts ab. apply TinyFacts.setNextTrigger_invalid. exact H. }
  assert (HC : forall a, (a < 0 \/ Tiny.last_rct t < a) ->
            forall rd ts ab, Tiny.cancelReaction a rd ts ab now t = t).
  { intros a H rd ts ab. apply TinyFacts.tiny_cancelReaction_invalid. exact H. }
  split; [|split; [|split; [|split; [|split; [|split]]]]].
  - intros H. split.
    + apply SimpleFacts.pauseSchedule_invalid. exact H.
    + apply SimpleFacts.resumeSchedule_invalid. exact H.
  - intros H. split; [|split; [|split]].
    + apply SimpleFacts.pauseTrigger_invalid. exact H.
    + apply SimpleFacts.resumeTrigger_invalid. exact H.
    + apply SimpleFacts.cancelReaction_invalid. exact H.
    + apply SimpleFacts.stopReaction_invalid. exact H.
  - intros U s H. unfold method.
    rewrite SimpleFacts.cancelReaction_invalid by exact H.
    destruct s. reflexivity.
  - intros H. unfold Tiny.call_setNextSchedule. apply HS. exact H.
  - intros H. unfold Tiny.call_setNextTrigger, Tiny.call_cancelReaction.
    split; [apply HT|apply HC]; exact H.
  - intros U s H. unfold method, Tiny.call_cancelReaction.
    rewrite TinyFacts.tiny_cancelReaction_invalid by exact H.
    destruct s. reflexivity.
  - intros Hr. pose proof (int8_small id Hr) as E.
    unfold Tiny.call_setNextSchedule, Tiny.call_setNextTrigger,
      Tiny.call_cancelReaction. rewrite E.
    split; intros H; [apply HS; exact H|].
    split; [apply HT|apply HC]; exact H.
Qed.

Lemma C7_witness :
  Simple.pauseSchedule 1 (eng (sys simple_blink)) = eng (sys simple_blink) /\
  Simple.stopReaction 0 (eng (sys simple_blink)) = eng (sys simple_blink) /\
  Tiny.call_setNextSchedule (-1) 5000 1 0 (eng (sys tiny_blink)) =
    eng (sys tiny_blink) /\
  Tiny.call_cancelReaction 3 1 0 0 0 (eng (sys tiny_blink)) =
    eng (sys tiny_blink) /\
  Tiny.call_setNextSchedule 127 5000 1 0 (eng (sys tiny_blink)) =
    eng (sys tiny_blink).
Proof.
  split; [|split; [|split; [|split]]].
  - destruct (C7_invalid_id_no_op 1 0 0 0 0 false
                (eng (sys simple_blink)) (eng (sys tiny_blink)))
      as (H & _).
    exact (proj1 (H ltac:(right; concrete))).
  - destruct (C7_invalid_id_no_op 0 0 0 0 0 false
                (eng (sys simple_blink)) (eng (sys tiny_blink)))
      as (_ & H & _).
    exact (proj2 (proj2 (proj2 (H ltac:(right; concrete))))).
  - destruct (C7_invalid_id_no_op (-1) 5000 0 0 1 false
                (eng (sys simple_blink)) (eng (sys tiny_blink)))
      as (_ & _ & _ & H & _).
    exact (H ltac:(left; concrete)).
  - destruct (C7_invalid_id_no_op 3 0 0 1 0 false
                (eng (sys simple_blink)) (eng (sys tiny_blink)))
      as (_ & _ & _ & _ & H & _).
    exact (proj2 (H ltac:(right; concrete))).
  - destruct (C7_invalid_id_no_op 127 5000 0 0 1 false
                (eng (sys simple_blink)) (eng (sys tiny_blink)))
      as (_ & _ & _ & _ & _ & _ & H).
    exact (proj1 (H ltac:(concrete)) ltac:(right; concrete)).
Defined.

(** The claim as the specification words it, for any id outside the range,
    fails at a call of TinyEvents whose argument does not fit an [int8_t]:
    on an engine with the single schedule 0, the id 256 is above the
    high-water mark, yet [setNextSchedule(256, 5000, 1)] arrives with the
    id 0 and sets the due time of schedule 0. *)
Lemma C7_counterexample :
  Tiny.last_schd (eng (sys tiny_blink)) < 256 /\
  Tiny.s_next_fire (Tiny.schedule (eng (sys tiny_blink)) 0) = 0 /\
  Tiny.s_next_fire
    (Tiny.schedule
       (Tiny.call_setNextSchedule 256 5000 1 0 (eng (sys tiny_blink))) 0) =
    5000 /\
  Tiny.call_setNextSchedule 256 5000 1 0 (eng (sys tiny_blink)) <>
    eng (sys tiny_blink).
Proof.
  split; [vm_compute; reflexivity|]. split; [vm_compute; reflexivity|].
  split; [vm_compute; reflexivity|].
  intros H.
  assert (E : Tiny.s_next_fire
                (Tiny.schedule
                   (Tiny.call_setNextSchedule 256 5000 1 0
                      (eng (sys tiny_blink))) 0) = 0).
  { rewrite H. vm_compute. reflexivity. }
  vm_compute in E. discriminate.
Qed.

(** C6. In both engines [addSchedule] and [addReaction] on a full table
    return [-1] and leave the engine exactly as it was; on a table with
    room they return the next index, raise the high-water mark to it and
    touch no existing row.  Starting from a new engine, the ids returned
    by successive calls are therefore 0, 1, 2, ... up to the capacity and
    [-1] afterwards.  An engine with room for one schedule accepts the
    first [addSchedule] with id 0 and rejects the second, after which
    schedule 0 still runs. *)
Theorem C6_capacity (T_MAX R_MAX : Z) :
  (* SimpleEvents *)
  (forall cb iv d e,
     T_MAX - 1 <= Simple.last_schd e ->
     Simple.addSchedule T_MAX cb iv d e = (-1, e)) /\
  (forall tr cb to dl d e,
     R_MAX - 1 <= Simple.last_rct e ->
     Simple.addReaction R_MAX tr cb to dl d e = (-1, e)) /\
  (forall cb iv d e,
     Simple.wf T_MAX R_MAX e -> Simple.last_schd e < T_MAX - 1 ->
     let id := Simple.last_schd e + 1 in
     let e' := snd (Simple.addSchedule T_MAX cb iv d e) in
     fst (Simple.addSchedule T_MAX cb iv d e) = id /\
     Simple.last_schd e' = id /\ Simple.last_rct e' = Simple.last_rct e /\
     SimpleFacts.other_schedules_kept id e e' /\
     SimpleFacts.reactions_kept e e') /\
  (forall tr cb to dl d e,
     Simple.wf T_MAX R_MAX e -> Simple.last_rct e < R_MAX - 1 ->
     let id := Simple.last_rct e + 1 in
     let e' := snd (Simple.addReaction R_MAX tr cb to dl d e) in
     fst (Simple.addReaction R_MAX tr cb to dl d e) = id /\
     Simple.last_rct e' = id /\ Simple.last_schd e' = Simple.last_schd e /\
     SimpleFacts.other_reactions_kept id e e' /\
     SimpleFacts.schedules_kept e e') /\
  (forall sargs rargs,
     0 <= T_MAX -> 0 <= R_MAX ->
     fst (Simple.addSchedules T_MAX sargs (Simple.init T_MAX R_MAX)) =
       dense_ids T_MAX 0 (length sargs) /\
     fst (Simple.addReactions R_MAX rargs (Simple.init T_MAX R_MAX)) =
       dense_ids R_MAX 0 (length rargs)) /\
  (* TinyEvents *)
  (forall cb iv d e,
     T_MAX - 1 <= Tiny.last_schd e ->
     Tiny.addSchedule T_MAX cb iv d e = (-1, e)) /\
  (forall tr cb to dl d e,
     R_MAX - 1 <= Tiny.last_rct e ->
     Tiny.addReaction R_MAX tr cb to dl d e = (-1, e)) /\
  (forall cb iv d e,
     Tiny.wf T_MAX R_MAX e -> Tiny.last_schd e < T_MAX - 1 ->
     let id := Tiny.last_schd e + 1 in
     let e' := snd (Tiny.addSchedule T_MAX cb iv d e) in
     fst (Tiny.addSchedule T_MAX cb iv d e) = id /\
     Tiny.last_schd e' = id /\ Tiny.last_rct e' = Tiny.last_rct e /\
     TinyFacts.other_schedules_kept id e e' /\
     TinyFacts.reactions_kept e e') /\
  (forall tr cb to dl d e,
     Tiny.wf T_MAX R_MAX e -> Tiny.last_rct e < R_MAX - 1 ->
     let id := Tiny.last_rct e + 1 in
     let e' := snd (Tiny.addReaction R_MAX tr cb to dl d e) in
     fst (Tiny.addReaction R_MAX tr cb to dl d e) = id /\
     Tiny.last_rct e' = id /\ Tiny.last_schd e' = Tiny.last_schd e /\
     TinyFacts.other_reactions_kept id e e' /\
     TinyFacts.schedules_kept e e') /\
  (forall sargs rargs,
     0 <= T_MAX -> 0 <= R_MAX ->
     fst (Tiny.addSchedules T_MAX sargs (Tiny.init T_MAX R_MAX)) =
       dense_ids T_MAX 0 (length sargs) /\
     fst (Tiny.addReactions R_MAX rargs (Tiny.init T_MAX R_MAX)) =
       dense_ids R_MAX 0 (length rargs)) /\
  (* capacity 1 *)
  (fst simple_cap1_first = 0 /\
   simple_cap1_second = (-1, snd simple_cap1_first) /\
   trace (Simple.tick 1 8 idle_action button_released 1
            (boot (Simple.begin 1 8 0 (snd simple_cap1_second)) 0)) =
     [ScheduleExecuted 0 0 1]) /\
  (fst tiny_cap1_first = 0 /\
   tiny_cap1_second = (-1, snd tiny_cap1_first) /\
   trace (Tiny.tick 1 4 idle_action button_released 1
            (boot (Tiny.begin 1 4 0 (snd tiny_cap1_second)) 0)) =
     [ScheduleExecuted 0 0 1]).
Proof.
  repeat match goal with |- _ /\ _ => split end.
  - intros. apply SimpleFacts.addSchedule_full. assumption.
  - intros. apply SimpleFacts.addReaction_full. assumption.
  - intros cb iv d e Hwf Hroom.
    destruct (SimpleFacts.addSchedule_room T_MAX R_MAX cb iv d e Hwf Hroom)
      as (H1 & H2 & H3 & _ & H5 & H6).
    auto.
  - intros tr cb to dl d e Hwf Hroom.
    destruct (SimpleFacts.addReaction_room T_MAX R_MAX tr cb to dl d e Hwf Hroom)
      as (H1 & H2 & H3 & _ & H5 & H6).
    auto.
  - intros sargs rargs HT HR. split.
    + apply (SimpleFacts.addSchedules_ids T_MAX R_MAX).
      apply SimpleFacts.wf_init; assumption.
    + apply (SimpleFacts.addReactions_ids T_MAX R_MAX).
      apply SimpleFacts.wf_init; assumption.
  - intros. apply TinyFacts.tiny_addSchedule_full. assumption.
  - intros. apply TinyFacts.tiny_addReaction_full. assumption.
  - intros cb iv d e Hwf Hroom.
    destruct (TinyFacts.tiny_addSchedule_room T_MAX R_MAX cb iv d e Hwf Hroom)
      as (H1 & H2 & H3 & _ & H5 & H6).
    auto.
  - intros tr cb to dl d e Hwf Hroom.
    destruct (TinyFacts.tiny_addReaction_room T_MAX R_MAX tr cb to dl d e Hwf Hroom)
      as (H1 & H2 & H3 & _ & H5 & H6).
    auto.
  - intros sargs rargs HT HR. split.
    + apply (TinyFacts.tiny_addSchedules_ids T_MAX R_MAX).
      apply TinyFacts.tiny_wf_init; assumption.
    + apply (TinyFacts.tiny_addReactions_ids T_MAX R_MAX).
      apply TinyFacts.tiny_wf_init; assumption.
  - vm_compute. reflexivity.
  - vm_compute. reflexivity.
  - vm_compute. reflexivity.
  - vm_compute. reflexivity.
  - vm_compute. reflexivity.
  - vm_compute. reflexivity.
Qed.

Lemma C6_witness :
  fst (Simple.addSchedules 2
         [(1%nat, 1000, 0); (2%nat, 600, 100); (3%nat, 50, 0)]
         (Simple.init 2 8)) = [0; 1; -1] /\
  Tiny.addReaction 4 1%nat 2%nat 250 0 0 (eng (sys tiny_blink)) =
    (0, snd (Tiny.addReaction 4 1%nat 2%nat 250 0 0 (eng (sys tiny_blink)))).
Proof.
  destruct (C6_capacity 2 8) as (_ & _ & _ & _ & Hs & _).
  destruct (C6_capacity 4 4) as (_ & _ & _ & _ & _ & _ & _ & _ & Ht & _).
  split.
  - rewrite (proj1 (Hs [(1%nat, 1000, 0); (2%nat, 600, 100); (3%nat, 50, 0)] []
                       ltac:(lia) ltac:(lia))).
    reflexivity.
  - destruct (Ht 1%nat 2%nat 250 0 0 (eng (sys tiny_blink)) tiny_blink_wf
                ltac:(concrete)) as (H1 & _).
    rewrite <- H1 at 1. vm_compute. reflexivity.
Defined.

(** C4. The code departs from this claim.  With a timeout of 100 ms and a
    delay of 500 ms, [addReaction] stores the timeout as given (100, not
    the larger of the two), and with the predicate held true the trigger
    is accepted at the polls at 1 ms and at 102 ms: two accepted
    activations 101 ms apart, less than the delay.  Both engines behave
    so. *)
Theorem C4_timeout_not_clamped :
  Simple.r_timeout (Simple.reaction (eng (sys simple_short_timeout)) 0) = 100 /\
  Simple.r_delay (Simple.reaction (eng (sys simple_short_timeout)) 0) = 500 /\
  trace (Simple.ticks 8 8 idle_action button_held [1; 102] simple_short_timeout) =
    [TriggerChecked 0 1 true; ReactionTriggered 0 1;
     TriggerChecked 0 102 true; ReactionTriggered 0 102] /\
  Tiny.r_timeout (Tiny.reaction (eng (sys tiny_short_timeout)) 0) = 100 /\
  Tiny.r_delay (Tiny.reaction (eng (sys tiny_short_timeout)) 0) = 500 /\
  trace (Tiny.ticks 4 4 idle_action button_held [1; 102] tiny_short_timeout) =
    [TriggerChecked 0 1 true; ReactionTriggered 0 1;
     TriggerChecked 0 102 true; ReactionTriggered 0 102].
Proof. repeat split; vm_compute; reflexivity. Qed.

(** C2. The trigger scan of [run()] of SimpleEvents, for a reaction [i].

    Its body, in a tick whose clock value is [now]: the predicate is called
    exactly when the trigger is active and its next check time is below
    [now]; otherwise nothing at all happens.  When the predicate returns
    false only its own effects remain.  When it returns true the next check
    time becomes [now + timeout] whatever the delay; then, if the delay is
    0, the action is called at once on that state, the pending flag and the
    execution time being left as they were, and if the delay is not 0 the
    execution time becomes [now + delay] and the pending flag is set, no
    action being called.  In every case the other reactions, the schedules
    and the high-water marks are not touched by the engine.

    One call of [run()], [now] being the clock value read on entry: when
    reaction [i] is in the table as the third loop gets to it, [run()] is
    that body at [i], on the state the first two loops and the turns for
    the reactions below [i] have left, followed by the turns for the
    reactions above [i].  For a sketch that uses the engine through its
    methods and none of whose functions writes the row of reaction [i],
    the tick does this to the reaction: the row the scan finds is the row
    of the beginning of the tick, less the pending flag if the queued
    action was due; the predicate is called once if the trigger is active
    and its next check time is below [now], and not at all otherwise; the
    events of the scan about [i] and the row at the end of the tick are
    those of the body: nothing; or the call of the predicate alone; or the
    call and the execution of the action, with the next check time
    [now + timeout]; or the call and the queueing of the action, with the
    next check time [now + timeout], the execution time [now + delay] and
    the pending flag set. *)
Theorem C2_trigger_scan {U : Type} (T_MAX R_MAX : Z)
    (action : fnptr -> Sys Simple.Engine U -> Sys Simple.Engine U)
    (check : fnptr -> Sys Simple.Engine U -> bool * Sys Simple.Engine U)
    (now i : Z) (m : Machine Simple.Engine U) :
  0 <= i < R_MAX ->
  let r := Simple.reaction (eng (sys m)) i in
  let m' := Simple.run_trigger action check now i m in
  let fired := fst (check (Simple.r_predicate r) (sys m)) in
  let s := snd (check (Simple.r_predicate r) (sys m)) in
  let r1 := Simple.reaction (eng s) i in
  (* the predicate is not called *)
  (Simple.r_trigger_active r = false \/ now <= Simple.r_next_trigger_check r ->
   m' = m) /\
  (* the predicate is called, once, on the state the loop has reached *)
  (Simple.r_trigger_active r = true -> Simple.r_next_trigger_check r < now ->
   count_events (trigger_checked i) (drop (length (trace m)) (trace m')) = 1%nat /\
   (fired = false ->
    m' = emit (TriggerChecked i now false) (with_sys s m)) /\
   (fired = true -> Simple.wf T_MAX R_MAX (eng s) ->
    exists e1,
      Simple.r_next_trigger_check (Simple.reaction e1 i) =
        ulong (now + Simple.r_timeout r1) /\
      SimpleFacts.other_reactions_kept i (eng s) e1 /\
      SimpleFacts.schedules_kept (eng s) e1 /\
      SimpleFacts.marks_kept (eng s) e1 /\
      (Simple.r_delay r1 = 0 ->
       Simple.reaction e1 i =
         {| Simple.r_predicate := Simple.r_predicate r1;
            Simple.r_action := Simple.r_action r1;
            Simple.r_timeout := Simple.r_timeout r1;
            Simple.r_delay := Simple.r_delay r1;
            Simple.r_next_trigger_check := ulong (now + Simple.r_timeout r1);
            Simple.r_next_execution := Simple.r_next_execution r1;
            Simple.r_pending := Simple.r_pending r1;
            Simple.r_trigger_active := Simple.r_trigger_active r1 |} /\
       m' = emit (ReactionTriggeredExecuted i now)
              (with_sys (action (Simple.r_action r1) (with_eng e1 s))
                 (emit (TriggerChecked i now true) m))) /\
      (Simple.r_delay r1 <> 0 ->
       Simple.reaction e1 i =
         {| Simple.r_predicate := Simple.r_predicate r1;
            Simple.r_action := Simple.r_action r1;
            Simple.r_timeout := Simple.r_timeout r1;
            Simple.r_delay := Simple.r_delay r1;
            Simple.r_next_trigger_check := ulong (now + Simple.r_timeout r1);
            Simple.r_next_execution := ulong (now + Simple.r_delay r1);
            Simple.r_pending := true;
            Simple.r_trigger_active := Simple.r_trigger_active r1 |} /\
       m' = emit (ReactionTriggered i now)
              (with_sys (with_eng e1 s)
                 (emit (TriggerChecked i now true) m))))) /\
  (* one call of [run()] *)
  (forall m0 : Machine Simple.Engine U,
     let now0 := clk (sys m0) in
     let m2 := Simple.pending_phase R_MAX action now0
                 (Simple.schedule_phase T_MAX action now0 m0) in
     let m_i := for_upto (Z.to_nat i) Simple.m_last_rct
                  (Simple.run_trigger action check now0) 0 m2 in
     let m0' := Simple.run T_MAX R_MAX action check m0 in
     (* the scan gets to reaction [i] and runs its body there *)
     (i <= Simple.last_rct (eng (sys m_i)) ->
      m0' = for_upto (Z.to_nat (R_MAX - i - 1)) Simple.m_last_rct
              (Simple.run_trigger action check now0) (i + 1)
              (Simple.run_trigger action check now0 i m_i)) /\
     (* what the tick does to the reaction *)
     (SimpleFacts.sketch_respects T_MAX R_MAX action check ->
      SimpleMore.sketch_keeps_reaction i action check ->
      Simple.wf T_MAX R_MAX (eng (sys m0)) ->
      i <= Simple.last_rct (eng (sys m0)) ->
      let r0 := Simple.reaction (eng (sys m0)) i in
      let ri := Simple.reaction (eng (sys m_i)) i in
      let fired0 := fst (check (Simple.r_predicate r0) (sys m_i)) in
      exists l,
        trace m0' = trace m0 ++ l /\
        SimpleMore.reaction_outcome now0 r0 (reaction_runs i l) ri /\
        trigger_checks i l =
          (if Simple.r_trigger_active r0 &&
              (Simple.r_next_trigger_check r0 <? now0)
           then [(now0, fired0)] else []) /\
        SimpleMore.scan_outcome now0 i ri fired0 (scan_events i l)
          (Simple.reaction (eng (sys m0')) i))).
Proof.
  intros Hi r m' fired s r1. split; [apply SimpleFacts.run_trigger_skipped|].
  split.
  { intros Ha Hd. split; [|split].
  - subst m'. unfold Simple.run_trigger. cbv zeta.
    change (aget false (Simple.rct_areActive (eng (sys m))) i)
      with (Simple.r_trigger_active r).
    change (aget 0 (Simple.rct_nextTrigs (eng (sys m))) i)
      with (Simple.r_next_trigger_check r).
    rewrite Ha. destruct (Z.ltb_spec (Simple.r_next_trigger_check r) now); [|lia].
    cbn [andb].
    destruct (check (aget nullptr (Simple.rct_trigs (eng (sys m))) i) (sys m))
      as [f s'].
    destruct f; [destruct (aget 0 (Simple.rct_tDelays (eng s')) i =? 0)|];
      cbn [trace emit with_sys]; rewrite <- ?app_assoc, drop_app_length;
      cbn [app];
      rewrite !count_events_cons, count_events_nil; cbn [trigger_checked];
      rewrite Z.eqb_refl; reflexivity.
  - intros Hf. apply SimpleFacts.run_trigger_rejected; assumption.
  - intros Hf Hwf.
    destruct (Z.eq_dec (Simple.r_delay r1) 0) as [Hz|Hnz].
    + destruct (SimpleFacts.run_trigger_immediate T_MAX R_MAX action check
                  now i m Ha Hd Hf Hwf Hi Hz) as (e1 & R1 & O & S & M & E).
      exists e1. split; [rewrite R1; reflexivity|].
      split; [exact O|]. split; [exact S|]. split; [exact M|].
      split; [intros _; split; [exact R1|exact E]|].
      intros Hc. contradiction.
    + destruct (SimpleFacts.run_trigger_delayed T_MAX R_MAX action check
                  now i m Ha Hd Hf Hwf Hi Hnz) as (e1 & R1 & O & S & M & E).
      exists e1. split; [rewrite R1; reflexivity|].
      split; [exact O|]. split; [exact S|]. split; [exact M|].
      split; [intros Hc; contradiction|].
      intros _. split; [exact R1|exact E]. }
  intros m0 now0 m2 m_i m0'. split.
  - intros Hle. subst m0'. unfold Simple.run. cbv zeta.
    fold now0. fold m2. unfold Simple.trigger_phase.
    apply for_upto_reach; [exact Hi|]. exact Hle.
  - intros Hok [Ka Kc] Hwf Hle r0 ri fired0.
    destruct (SimpleMore.run_reaction T_MAX R_MAX action check Hok i Ka Kc m0 Hwf
                (conj (proj1 Hi) Hle))
      as (_ & _ & _ & _ & _ & l1 & l2 & l3 & T1 & T2 & T3 & (D1 & S1) & S2 & D3
          & O2 & O3).
    fold now0 m2 m_i m0' r0 ri fired0 in T1, T2, T3, O2, O3.
    exists (l1 ++ l2 ++ l3).
    split; [rewrite T3, T2, T1, <- !app_assoc; reflexivity|].
    rewrite !reaction_runs_app, D1, D3, app_nil_r. cbn [app].
    rewrite <- trigger_checks_scan.
    rewrite !scan_events_app, S1, S2. cbn [app].
    split; [exact O2|]. split; [|exact O3].
    assert (Hrow : Simple.r_trigger_active ri = Simple.r_trigger_active r0 /\
                   Simple.r_next_trigger_check ri = Simple.r_next_trigger_check r0).
    { unfold SimpleMore.reaction_outcome in O2.
      destruct (Simple.r_pending r0 && (Simple.r_next_execution r0 <? now0));
        destruct O2 as [_ ->]; split; reflexivity. }
    destruct Hrow as [Hra Hrn].
    unfold SimpleMore.scan_outcome in O3. rewrite Hra, Hrn in O3.
    destruct (Simple.r_trigger_active r0 && (Simple.r_next_trigger_check r0 <? now0));
      [destruct fired0; [destruct (Simple.r_delay ri =? 0)|]|];
      destruct O3 as [-> _]; cbn [trigger_checks]; rewrite ?Z.eqb_refl; reflexivity.
Qed.

Lemma simple_debounced_polled_wf :
  Simple.wf 8 8 (eng (sys simple_debounced_polled)).
Proof. exact simple_debounced_wf. Qed.

Lemma C2_witness :
  Simple.reaction
    (eng (sys (Simple.run_trigger idle_action button_held 100 0 simple_debounced))) 0 =
    {| Simple.r_predicate := 1%nat; Simple.r_action := 2%nat;
       Simple.r_timeout := 4000; Simple.r_delay := 2000;
       Simple.r_next_trigger_check := 4100;
       Simple.r_next_execution := 2100;
       Simple.r_pending := true; Simple.r_trigger_active := true |} /\
  let now0 := clk (sys simple_debounced_polled) in
  let m2 := Simple.pending_phase 8 idle_action now0
              (Simple.schedule_phase 8 idle_action now0 simple_debounced_polled) in
  let m_i := for_upto (Z.to_nat 0) Simple.m_last_rct
               (Simple.run_trigger idle_action button_held now0) 0 m2 in
  let m0' := Simple.run 8 8 idle_action button_held simple_debounced_polled in
  m0' = for_upto (Z.to_nat (8 - 0 - 1)) Simple.m_last_rct
          (Simple.run_trigger idle_action button_held now0) (0 + 1)
          (Simple.run_trigger idle_action button_held now0 0 m_i) /\
  let r0 := Simple.reaction (eng (sys simple_debounced_polled)) 0 in
  let ri := Simple.reaction (eng (sys m_i)) 0 in
  let fired0 := fst (button_held (Simple.r_predicate r0) (sys m_i)) in
  exists l,
    trace m0' = trace simple_debounced_polled ++ l /\
    SimpleMore.reaction_outcome now0 r0 (reaction_runs 0 l) ri /\
    trigger_checks 0 l =
      (if Simple.r_trigger_active r0 &&
          (Simple.r_next_trigger_check r0 <? now0)
       then [(now0, fired0)] else []) /\
    SimpleMore.scan_outcome now0 0 ri fired0 (scan_events 0 l)
      (Simple.reaction (eng (sys m0')) 0).
Proof.
  split.
  - destruct (C2_trigger_scan 8 8 idle_action button_held 100 0 simple_debounced
                ltac:(lia)) as (_ & H & _).
    destruct (H ltac:(concrete) ltac:(concrete)) as (_ & _ & H3).
    destruct (H3 eq_refl simple_debounced_wf) as (e1 & _ & _ & _ & _ & _ & Hd).
    destruct (Hd ltac:(concrete)) as (R1 & E).
    rewrite E. cbn [sys emit with_sys eng with_eng]. rewrite R1.
    vm_compute. reflexivity.
  - intros now0 m2 m_i m0'.
    pose proof (proj2 (proj2 (C2_trigger_scan 8 8 idle_action button_held 100 0
                                simple_debounced ltac:(lia)))
                  simple_debounced_polled) as Hrun.
    split.
    + exact (proj1 Hrun ltac:(concrete)).
    + exact (proj2 Hrun (idle_held_simple 8 8) (idle_held_simple_keeps_reaction 0)
               simple_debounced_polled_wf ltac:(concrete)).
Defined.

(** The same tick in figures: the predicate is called once, at 100 ms, the
    action is queued and the row is armed. *)
Lemma simple_debounced_polled_scan :
  exists l,
    trace (Simple.run 8 8 idle_action button_held simple_debounced_polled) =
      trace simple_debounced_polled ++ l /\
    trigger_checks 0 l = [(100, true)] /\
    scan_events 0 l = [TriggerChecked 0 100 true; ReactionTriggered 0 100] /\
    Simple.reaction
      (eng (sys (Simple.run 8 8 idle_action button_held simple_debounced_polled)))
      0 =
      {| Simple.r_predicate := 1%nat; Simple.r_action := 2%nat;
         Simple.r_timeout := 4000; Simple.r_delay := 2000;
         Simple.r_next_trigger_check := 4100;
         Simple.r_next_execution := 2100;
         Simple.r_pending := true; Simple.r_trigger_active := true |}.
Proof.
  eexists. split; [vm_compute; reflexivity|].
  split; [|split]; vm_compute; reflexivity.
Qed.

(** C5. On a valid reaction id of SimpleEvents, [cancelReaction] clears the
    pending flag and sets the next trigger-check time to the given
    timestamp (taken as it is when [abs] is true, added to the clock value
    read at the call otherwise), while [stopReaction] clears the pending
    flag only; neither touches any other field of the reaction, any other
    reaction, any schedule or the high-water marks.  After either call the
    settle step of [run()] finds nothing to execute for this reaction, and
    over any later sequence of ticks the executions of its queued action
    number at most the delayed triggers accepted after the call: the
    execution that was queued does not happen. *)
Theorem C5_cancel_vs_stop {U : Type} (T_MAX R_MAX : Z)
    (action : fnptr -> Sys Simple.Engine U -> Sys Simple.Engine U)
    (check : fnptr -> Sys Simple.Engine U -> bool * Sys Simple.Engine U)
    (id timestamp : Z) (abs : bool) (m : Machine Simple.Engine U) :
  SimpleFacts.sketch_respects T_MAX R_MAX action check ->
  SimpleFacts.sketch_never_queues id action check ->
  Simple.wf T_MAX R_MAX (eng (sys m)) ->
  0 <= id <= Simple.last_rct (eng (sys m)) ->
  let e := eng (sys m) in
  let r := Simple.reaction e id in
  let cancelled := method (Simple.cancelReaction id timestamp abs) (sys m) in
  let stopped := method (fun _ => Simple.stopReaction id) (sys m) in
  (* cancelReaction *)
  (Simple.reaction (eng cancelled) id =
     {| Simple.r_predicate := Simple.r_predicate r;
        Simple.r_action := Simple.r_action r;
        Simple.r_timeout := Simple.r_timeout r;
        Simple.r_delay := Simple.r_delay r;
        Simple.r_next_trigger_check :=
          if abs then timestamp else ulong (clk (sys m) + timestamp);
        Simple.r_next_execution := Simple.r_next_execution r;
        Simple.r_pending := false;
        Simple.r_trigger_active := Simple.r_trigger_active r |} /\
   SimpleFacts.other_reactions_kept id e (eng cancelled) /\
   SimpleFacts.schedules_kept e (eng cancelled) /\
   SimpleFacts.marks_kept e (eng cancelled)) /\
  (* stopReaction *)
  (Simple.reaction (eng stopped) id =
     {| Simple.r_predicate := Simple.r_predicate r;
        Simple.r_action := Simple.r_action r;
        Simple.r_timeout := Simple.r_timeout r;
        Simple.r_delay := Simple.r_delay r;
        Simple.r_next_trigger_check := Simple.r_next_trigger_check r;
        Simple.r_next_execution := Simple.r_next_execution r;
        Simple.r_pending := false;
        Simple.r_trigger_active := Simple.r_trigger_active r |} /\
   SimpleFacts.other_reactions_kept id e (eng stopped) /\
   SimpleFacts.schedules_kept e (eng stopped) /\
   SimpleFacts.marks_kept e (eng stopped)) /\
  (* either one prevents the queued execution *)
  (forall s', s' = cancelled \/ s' = stopped ->
     (forall now, Simple.run_pending action now id (with_sys s' m) = with_sys s' m) /\
     (forall ts, exists l,
        trace (Simple.ticks T_MAX R_MAX action check ts (with_sys s' m)) =
          trace m ++ l /\
        (count_events (reaction_settled id) l <=
         count_events (reaction_queued id) l)%nat)).
Proof.
  intros [Ha Hc] [Hna Hnc] Hwf Hid e r cancelled stopped.
  destruct (SimpleFacts.cancelReaction_valid T_MAX R_MAX id timestamp abs
              (clk (sys m)) e Hwf Hid) as (C1 & C2 & C3 & C4).
  destruct (SimpleFacts.stopReaction_valid T_MAX R_MAX id e Hwf Hid)
    as (S1 & S2 & S3 & S4).
  split; [exact (conj C1 (conj C2 (conj C3 C4)))|].
  split; [exact (conj S1 (conj S2 (conj S3 S4)))|].
  assert (Hrange : 0 <= id < R_MAX).
  { destruct Hwf as (_ & ? & _). lia. }
  intros s' Hs'.
  assert (Hp : Simple.r_pending (Simple.reaction (eng s') id) = false).
  { destruct Hs' as [Hs'|Hs']; subst s'.
    - exact (f_equal Simple.r_pending C1).
    - exact (f_equal Simple.r_pending S1). }
  assert (Hwf' : Simple.wf T_MAX R_MAX (eng s')).
  { destruct Hs' as [Hs'|Hs']; subst s'.
    - apply SimpleFacts.wf_cancelReaction. exact Hwf.
    - apply SimpleFacts.wf_stopReaction. exact Hwf. }
  split.
  - intros now. apply SimpleFacts.run_pending_idle. left. exact Hp.
  - intros ts.
    destruct (SimpleFacts.ticks_ledger T_MAX R_MAX action check Ha Hc id Hrange
                Hna Hnc ts (with_sys s' m) (with_sys s' m)
                (SimpleFacts.ledger_refl T_MAX R_MAX id (with_sys s' m) Hwf'))
      as (_ & l & T & L).
    exists l. split; [exact T|].
    unfold SimpleFacts.pending_now in L. cbn [sys with_sys] in L.
    rewrite Hp in L. cbn [Z.b2z] in L.
    match type of L with
    | context [Z.b2z ?b] => destruct b; cbn [Z.b2z] in L
    end; lia.
Qed.

Lemma simple_queued_wf : Simple.wf 8 8 (eng (sys simple_queued)).
Proof. unfold Simple.wf. concrete. Qed.

Lemma tiny_queued_wf : Tiny.wf 4 4 (eng (sys tiny_queued)).
Proof. unfold Tiny.wf. concrete. Qed.

Lemma C5_witness :
  Simple.r_pending (Simple.reaction (eng (sys simple_queued)) 0) = true /\
  Simple.reaction
    (eng (method (Simple.cancelReaction 0 250 false) (sys simple_queued))) 0 =
    {| Simple.r_predicate := 1%nat; Simple.r_action := 2%nat;
       Simple.r_timeout := 4000; Simple.r_delay := 2000;
       Simple.r_next_trigger_check := 350;
       Simple.r_next_execution := 2100;
       Simple.r_pending := false; Simple.r_trigger_active := true |} /\
  Simple.reaction
    (eng (method (fun _ => Simple.stopReaction 0) (sys simple_queued))) 0 =
    {| Simple.r_predicate := 1%nat; Simple.r_action := 2%nat;
       Simple.r_timeout := 4000; Simple.r_delay := 2000;
       Simple.r_next_trigger_check := 4100;
       Simple.r_next_execution := 2100;
       Simple.r_pending := false; Simple.r_trigger_active := true |} /\
  exists l,
    trace (Simple.ticks 8 8 idle_action button_held [2101; 4101]
             (with_sys (method (fun _ => Simple.stopReaction 0) (sys simple_queued))
                simple_queued)) = trace simple_queued ++ l /\
    (count_events (reaction_settled 0) l <= count_events (reaction_queued 0) l)%nat.
Proof.
  destruct (C5_cancel_vs_stop 8 8 idle_action button_held 0 250 false
              simple_queued (idle_held_simple 8 8)
              (idle_held_simple_never_queues 0) simple_queued_wf
              ltac:(concrete))
    as ((C1 & _) & (S1 & _) & H).
  split; [vm_compute; reflexivity|].
  split; [rewrite C1; vm_compute; reflexivity|].
  split; [rewrite S1; vm_compute; reflexivity|].
  exact (proj2 (H _ (or_intror eq_refl)) [2101; 4101]).
Defined.

(** C3. One call of [run()], in either engine.  The clock value read on
    entry is the [now] of all three loops, whatever the callbacks do to the
    clock meanwhile, and every event of the tick carries it.  [run()] is
    the loop over the schedules, then the loop over the queued actions,
    then the trigger scan, and the events of the tick are the three blocks
    these loops add to the trace, in this order; inside each block entry
    ids ascend (strictly in the first two: an entry is executed at most
    once).  Hence nothing that follows an event of the trigger scan is the
    execution of a queued action: a trigger accepted in a tick is not
    settled in that tick.

    Each loop visits every entry up to the high-water mark: when entry [k]
    is in the table as the loop gets to it, the loop is its turns for the
    entries below [k], then its body at [k], then its turns for the entries
    above [k].

    For a sketch that uses the engine through its methods: a schedule that
    no function of the sketch writes is executed in the first block exactly
    if it was active and due when the tick began; a reaction [i] that no
    function of the sketch writes is reached by the second loop with its
    row as it was when the tick began; if its queued action is due the
    loop goes on from the state in which the action has been called on an
    engine whose pending flag for [i] is already cleared, the rest being as
    the loop had it; that execution is the only event about [i] in the
    second block (and there is none if the action was not due); the third
    loop then reaches [i] with the row the second left and scans its
    trigger, the events of the scan about [i] being in the third block
    only.

    A queued action that is due is entered by the body of the second loop
    with its pending flag already cleared, the rest of the engine being as
    the loop found it. *)
Theorem C3_tick_structure {U : Type} (T_MAX R_MAX : Z)
    (sa : fnptr -> Sys Simple.Engine U -> Sys Simple.Engine U)
    (sc : fnptr -> Sys Simple.Engine U -> bool * Sys Simple.Engine U)
    (ta : fnptr -> Sys Tiny.Engine U -> Sys Tiny.Engine U)
    (tc : fnptr -> Sys Tiny.Engine U -> bool * Sys Tiny.Engine U) :
  (* SimpleEvents *)
  (forall m : Machine Simple.Engine U,
     let now := clk (sys m) in
     let m1 := Simple.schedule_phase T_MAX sa now m in
     let m2 := Simple.pending_phase R_MAX sa now m1 in
     let m' := Simple.run T_MAX R_MAX sa sc m in
     m' = Simple.trigger_phase R_MAX sa sc now m2 /\
     exists l1 l2 l3,
       trace m' = trace m ++ l1 ++ l2 ++ l3 /\
       phase_trace is_schedule_event id_lt now 0 l1 /\
       phase_trace is_settle_event id_lt now 0 l2 /\
       phase_trace is_scan_event id_le now 0 l3 /\
       (forall la ev lb i,
          l1 ++ l2 ++ l3 = la ++ ev :: lb -> is_scan_event ev = true ->
          count_events (reaction_settled i) lb = 0%nat) /\
       (* each block is what its loop adds to the trace *)
       (trace m1 = trace m ++ l1 /\ trace m2 = trace m1 ++ l2 /\
        trace m' = trace m2 ++ l3) /\
       (* every entry up to the high-water mark is visited by each loop *)
       (forall k, 0 <= k < T_MAX ->
          let s_k := for_upto (Z.to_nat k) Simple.m_last_schd
                       (Simple.run_schedule sa now) 0 m in
          k <= Simple.last_schd (eng (sys s_k)) ->
          m1 = for_upto (Z.to_nat (T_MAX - k - 1)) Simple.m_last_schd
                 (Simple.run_schedule sa now) (k + 1)
                 (Simple.run_schedule sa now k s_k)) /\
       (forall i, 0 <= i < R_MAX ->
          let p_i := for_upto (Z.to_nat i) Simple.m_last_rct
                       (Simple.run_pending sa now) 0 m1 in
          let t_i := for_upto (Z.to_nat i) Simple.m_last_rct
                       (Simple.run_trigger sa sc now) 0 m2 in
          (i <= Simple.last_rct (eng (sys p_i)) ->
           m2 = for_upto (Z.to_nat (R_MAX - i - 1)) Simple.m_last_rct
                  (Simple.run_pending sa now) (i + 1)
                  (Simple.run_pending sa now i p_i)) /\
          (i <= Simple.last_rct (eng (sys t_i)) ->
           m' = for_upto (Z.to_nat (R_MAX - i - 1)) Simple.m_last_rct
                  (Simple.run_trigger sa sc now) (i + 1)
                  (Simple.run_trigger sa sc now i t_i))) /\
       (* what is due is executed, in the block of its loop *)
       (SimpleFacts.sketch_respects T_MAX R_MAX sa sc ->
        Simple.wf T_MAX R_MAX (eng (sys m)) ->
        (forall k, SimpleFacts.sketch_keeps_schedule k sa sc ->
           0 <= k <= Simple.last_schd (eng (sys m)) ->
           SimpleFacts.schedule_outcome now (Simple.schedule (eng (sys m)) k)
             (schedule_firings k l1) (Simple.schedule (eng (sys m')) k)) /\
        (forall i, SimpleMore.sketch_keeps_reaction i sa sc ->
           0 <= i <= Simple.last_rct (eng (sys m)) ->
           let r := Simple.reaction (eng (sys m)) i in
           let p_i := for_upto (Z.to_nat i) Simple.m_last_rct
                        (Simple.run_pending sa now) 0 m1 in
           let t_i := for_upto (Z.to_nat i) Simple.m_last_rct
                        (Simple.run_trigger sa sc now) 0 m2 in
           Simple.reaction (eng (sys p_i)) i = r /\
           (Simple.r_pending r = true -> Simple.r_next_execution r < now ->
            exists e1,
              Simple.reaction e1 i = SimpleMore.settled r /\
              SimpleFacts.other_reactions_kept i (eng (sys p_i)) e1 /\
              SimpleFacts.schedules_kept (eng (sys p_i)) e1 /\
              SimpleFacts.marks_kept (eng (sys p_i)) e1 /\
              m2 = for_upto (Z.to_nat (R_MAX - i - 1)) Simple.m_last_rct
                     (Simple.run_pending sa now) (i + 1)
                     (emit (ReactionExecuted i now)
                        (with_sys (sa (Simple.r_action r) (with_eng e1 (sys p_i)))
                           p_i))) /\
           SimpleMore.reaction_outcome now r (reaction_runs i l2)
             (Simple.reaction (eng (sys t_i)) i) /\
           SimpleMore.scan_outcome now i (Simple.reaction (eng (sys t_i)) i)
             (fst (sc (Simple.r_predicate r) (sys t_i))) (scan_events i l3)
             (Simple.reaction (eng (sys m')) i) /\
           reaction_runs i (l1 ++ l3) = [] /\ scan_events i (l1 ++ l2) = []))) /\
  (forall (m : Machine Simple.Engine U) now i,
     Simple.wf T_MAX R_MAX (eng (sys m)) -> 0 <= i < R_MAX ->
     let r := Simple.reaction (eng (sys m)) i in
     (Simple.r_pending r = false \/ now <= Simple.r_next_execution r ->
      Simple.run_pending sa now i m = m) /\
     (Simple.r_pending r = true -> Simple.r_next_execution r < now ->
      exists e1,
        Simple.r_pending (Simple.reaction e1 i) = false /\
        SimpleFacts.other_reactions_kept i (eng (sys m)) e1 /\
        SimpleFacts.schedules_kept (eng (sys m)) e1 /\
        SimpleFacts.marks_kept (eng (sys m)) e1 /\
        Simple.run_pending sa now i m =
          emit (ReactionExecuted i now)
            (with_sys (sa (Simple.r_action r) (with_eng e1 (sys m))) m))) /\
  (* TinyEvents *)
  (forall m : Machine Tiny.Engine U,
     let now := clk (sys m) in
     let m1 := Tiny.schedule_phase T_MAX ta now m in
     let m2 := Tiny.pending_phase R_MAX ta now m1 in
     let m' := Tiny.run T_MAX R_MAX ta tc m in
     m' = Tiny.trigger_phase R_MAX ta tc now m2 /\
     exists l1 l2 l3,
       trace m' = trace m ++ l1 ++ l2 ++ l3 /\
       phase_trace is_schedule_event id_lt now 0 l1 /\
       phase_trace is_settle_event id_lt now 0 l2 /\
       phase_trace is_scan_event id_le now 0 l3 /\
       (forall la ev lb i,
          l1 ++ l2 ++ l3 = la ++ ev :: lb -> is_scan_event ev = true ->
          count_events (reaction_settled i) lb = 0%nat) /\
       (* each block is what its loop adds to the trace *)
       (trace m1 = trace m ++ l1 /\ trace m2 = trace m1 ++ l2 /\
        trace m' = trace m2 ++ l3) /\
       (* every entry up to the high-water mark is visited by each loop *)
       (forall k, 0 <= k < T_MAX ->
          let s_k := for_upto (Z.to_nat k) Tiny.m_last_schd
                       (Tiny.run_schedule ta now) 0 m in
          k <= Tiny.last_schd (eng (sys s_k)) ->
          m1 = for_upto (Z.to_nat (T_MAX - k - 1)) Tiny.m_last_schd
                 (Tiny.run_schedule ta now) (k + 1)
                 (Tiny.run_schedule ta now k s_k)) /\
       (forall i, 0 <= i < R_MAX ->
          let p_i := for_upto (Z.to_nat i) Tiny.m_last_rct
                       (Tiny.run_pending ta now) 0 m1 in
          let t_i := for_upto (Z.to_nat i) Tiny.m_last_rct
                       (Tiny.run_trigger ta tc now) 0 m2 in
          (i <= Tiny.last_rct (eng (sys p_i)) ->
           m2 = for_upto (Z.to_nat (R_MAX - i - 1)) Tiny.m_last_rct
                  (Tiny.run_pending ta now) (i + 1)
                  (Tiny.run_pending ta now i p_i)) /\
          (i <= Tiny.last_rct (eng (sys t_i)) ->
           m' = for_upto (Z.to_nat (R_MAX - i - 1)) Tiny.m_last_rct
                  (Tiny.run_trigger ta tc now) (i + 1)
                  (Tiny.run_trigger ta tc now i t_i))) /\
       (* what is due is executed, in the block of its loop *)
       (TinyFacts.sketch_respects T_MAX R_MAX ta tc ->
        Tiny.wf T_MAX R_MAX (eng (sys m)) ->
        (forall k, TinyFacts.sketch_keeps_schedule k ta tc ->
           0 <= k <= Tiny.last_schd (eng (sys m)) ->
           TinyFacts.schedule_outcome now (Tiny.schedule (eng (sys m)) k)
             (schedule_firings k l1) (Tiny.schedule (eng (sys m')) k)) /\
        (forall i, TinyMore.sketch_keeps_reaction i ta tc ->
           0 <= i <= Tiny.last_rct (eng (sys m)) ->
           let r := Tiny.reaction (eng (sys m)) i in
           let p_i := for_upto (Z.to_nat i) Tiny.m_last_rct
                        (Tiny.run_pending ta now) 0 m1 in
           let t_i := for_upto (Z.to_nat i) Tiny.m_last_rct
                        (Tiny.run_trigger ta tc now) 0 m2 in
           Tiny.reaction (eng (sys p_i)) i = r /\
           (Tiny.r_pending r = true -> Tiny.r_next_execution r < now ->
            exists e1,
              Tiny.reaction e1 i = TinyMore.settled r /\
              TinyFacts.other_reactions_kept i (eng (sys p_i)) e1 /\
              TinyFacts.schedules_kept (eng (sys p_i)) e1 /\
              TinyFacts.marks_kept (eng (sys p_i)) e1 /\
              m2 = for_upto (Z.to_nat (R_MAX - i - 1)) Tiny.m_last_rct
                     (Tiny.run_pending ta now) (i + 1)
                     (emit (ReactionExecuted i now)
                        (with_sys (ta (Tiny.r_action r) (with_eng e1 (sys p_i)))
                           p_i))) /\
           TinyMore.reaction_outcome now r (reaction_runs i l2)
             (Tiny.reaction (eng (sys t_i)) i) /\
           TinyMore.scan_outcome now i (Tiny.reaction (eng (sys t_i)) i)
             (fst (tc (Tiny.r_predicate r) (sys t_i))) (scan_events i l3)
             (Tiny.reaction (eng (sys m')) i) /\
           reaction_runs i (l1 ++ l3) = [] /\ scan_events i (l1 ++ l2) = []))) /\
  (forall (m : Machine Tiny.Engine U) now i,
     Tiny.wf T_MAX R_MAX (eng (sys m)) -> 0 <= i < R_MAX ->
     let r := Tiny.reaction (eng (sys m)) i in
     (Tiny.r_pending r = false \/ now <= Tiny.r_next_execution r ->
      Tiny.run_pending ta now i m = m) /\
     (Tiny.r_pending r = true -> Tiny.r_next_execution r < now ->
      exists e1,
        Tiny.r_pending (Tiny.reaction e1 i) = false /\
        TinyFacts.other_reactions_kept i (eng (sys m)) e1 /\
        TinyFacts.schedules_kept (eng (sys m)) e1 /\
        TinyFacts.marks_kept (eng (sys m)) e1 /\
        Tiny.run_pending ta now i m =
          emit (ReactionExecuted i now)
            (with_sys (ta (Tiny.r_action r) (with_eng e1 (sys m))) m))).
Proof.
  split; [|split; [|split]].
  - intros m. exact (SimpleMore.run_structure T_MAX R_MAX sa sc m).
  - intros m now i Hwf Hi r. split.
    + apply SimpleFacts.run_pending_idle.
    + intros Hp Hd.
      destruct (SimpleFacts.run_pending_due T_MAX R_MAX sa now i m Hwf Hi Hp Hd)
        as (e1 & R1 & O & S & M & E).
      exists e1. split; [rewrite R1; reflexivity|]. auto.
  - intros m. exact (TinyMore.tiny_run_structure T_MAX R_MAX ta tc m).
  - intros m now i Hwf Hi r. split.
    + apply TinyFacts.tiny_run_pending_idle.
    + intros Hp Hd.
      destruct (TinyFacts.tiny_run_pending_due T_MAX R_MAX ta now i m Hwf Hi Hp Hd)
        as (e1 & R1 & O & S & M & E).
      exists e1. split; [rewrite R1; reflexivity|]. auto.
Qed.

Lemma simple_queued_polled_wf :
  Simple.wf 8 8 (eng (sys simple_queued_polled)).
Proof. unfold Simple.wf. concrete. Qed.

Lemma tiny_queued_polled_wf : Tiny.wf 4 4 (eng (sys tiny_queued_polled)).
Proof. unfold Tiny.wf. concrete. Qed.

Lemma C3_witness :
  exists l1 l2 l3,
    let now := clk (sys simple_queued_polled) in
    let m1 := Simple.schedule_phase 8 idle_action now simple_queued_polled in
    let m2 := Simple.pending_phase 8 idle_action now m1 in
    let m' := Simple.run 8 8 idle_action button_held simple_queued_polled in
    trace m' = trace simple_queued_polled ++ l1 ++ l2 ++ l3 /\
    let r := Simple.reaction (eng (sys simple_queued_polled)) 0 in
    let p_i := for_upto (Z.to_nat 0) Simple.m_last_rct
                 (Simple.run_pending idle_action now) 0 m1 in
    let t_i := for_upto (Z.to_nat 0) Simple.m_last_rct
                 (Simple.run_trigger idle_action button_held now) 0 m2 in
    Simple.reaction (eng (sys p_i)) 0 = r /\
    (exists e1,
       Simple.reaction e1 0 = SimpleMore.settled r /\
       SimpleFacts.other_reactions_kept 0 (eng (sys p_i)) e1 /\
       SimpleFacts.schedules_kept (eng (sys p_i)) e1 /\
       SimpleFacts.marks_kept (eng (sys p_i)) e1 /\
       m2 = for_upto (Z.to_nat (8 - 0 - 1)) Simple.m_last_rct
              (Simple.run_pending idle_action now) (0 + 1)
              (emit (ReactionExecuted 0 now)
                 (with_sys
                    (idle_action (Simple.r_action r) (with_eng e1 (sys p_i)))
                    p_i))) /\
    SimpleMore.reaction_outcome now r (reaction_runs 0 l2)
      (Simple.reaction (eng (sys t_i)) 0) /\
    SimpleMore.scan_outcome now 0 (Simple.reaction (eng (sys t_i)) 0)
      (fst (button_held (Simple.r_predicate r) (sys t_i))) (scan_events 0 l3)
      (Simple.reaction (eng (sys m')) 0) /\
    reaction_runs 0 (l1 ++ l3) = [] /\ scan_events 0 (l1 ++ l2) = [].
Proof.
  destruct (proj1 (C3_tick_structure 8 8 idle_action button_held
                     (@idle_action Tiny.Engine) (@button_held Tiny.Engine))
              simple_queued_polled)
    as (_ & l1 & l2 & l3 & T & _ & _ & _ & _ & _ & _ & _ & Hdue).
  exists l1, l2, l3. intros now m1 m2 m'. split; [exact T|].
  destruct (proj2 (Hdue (idle_held_simple 8 8) simple_queued_polled_wf) 0
              (idle_held_simple_keeps_reaction 0) ltac:(concrete))
    as (Rp & Hclear & O2 & O3 & DS).
  intros r p_i t_i.
  split; [exact Rp|].
  split; [exact (Hclear ltac:(concrete) ltac:(concrete))|].
  split; [exact O2|]. split; [exact O3|exact DS].
Defined.

(** The same tick in figures, in both engines: the queued action is
    executed, once, in the second block, and the trigger, whose next check
    is at 4100 ms, is not scanned. *)
Lemma queued_polled_tick :
  (trace (Simple.run 8 8 idle_action button_held simple_queued_polled) =
     trace simple_queued_polled ++ [ReactionExecuted 0 2101] /\
   Simple.r_pending
     (Simple.reaction
        (eng (sys (Simple.run 8 8 idle_action button_held simple_queued_polled)))
        0) = false) /\
  (trace (Tiny.run 4 4 idle_action button_held tiny_queued_polled) =
     trace tiny_queued_polled ++ [ReactionExecuted 0 2101] /\
   Tiny.r_pending
     (Tiny.reaction
        (eng (sys (Tiny.run 4 4 idle_action button_held tiny_queued_polled)))
        0) = false).
Proof. split; split; vm_compute; reflexivity. Qed.



(** C10. A reaction [i] has a single pending flag and a single execution
    time, in either engine.  Accepting a trigger with a non-zero delay,
    whether or not an execution is already queued, sets the flag,
    overwrites the execution time with [now + delay] and re-arms the next
    check at [now + timeout]; no action is called.  One [run()] executes
    the queued action of the reaction at most once, and doing so clears
    the flag before the single call of the action.  Therefore, from any
    well-formed state and over any sequence of ticks, the executions of
    the queued action, plus the one still queued if any, never exceed the
    delayed triggers accepted, plus the one that was queued at the start:
    an accepted trigger never adds a second queued execution. *)
Theorem C10_single_queued_execution {U : Type} (T_MAX R_MAX : Z)
    (sa : fnptr -> Sys Simple.Engine U -> Sys Simple.Engine U)
    (sc : fnptr -> Sys Simple.Engine U -> bool * Sys Simple.Engine U)
    (ta : fnptr -> Sys Tiny.Engine U -> Sys Tiny.Engine U)
    (tc : fnptr -> Sys Tiny.Engine U -> bool * Sys Tiny.Engine U)
    (i : Z) :
  SimpleFacts.sketch_respects T_MAX R_MAX sa sc ->
  SimpleFacts.sketch_never_queues i sa sc ->
  TinyFacts.sketch_respects T_MAX R_MAX ta tc ->
  TinyFacts.sketch_never_queues i ta tc ->
  0 <= i < R_MAX ->
  (* SimpleEvents *)
  (forall (m : Machine Simple.Engine U) now,
     let r := Simple.reaction (eng (sys m)) i in
     let fired := fst (sc (Simple.r_predicate r) (sys m)) in
     let s := snd (sc (Simple.r_predicate r) (sys m)) in
     let r1 := Simple.reaction (eng s) i in
     Simple.r_trigger_active r = true ->
     Simple.r_next_trigger_check r < now -> fired = true ->
     Simple.wf T_MAX R_MAX (eng s) -> Simple.r_delay r1 <> 0 ->
     exists e1,
       Simple.reaction e1 i =
         {| Simple.r_predicate := Simple.r_predicate r1;
            Simple.r_action := Simple.r_action r1;
            Simple.r_timeout := Simple.r_timeout r1;
            Simple.r_delay := Simple.r_delay r1;
            Simple.r_next_trigger_check := ulong (now + Simple.r_timeout r1);
            Simple.r_next_execution := ulong (now + Simple.r_delay r1);
            Simple.r_pending := true;
            Simple.r_trigger_active := Simple.r_trigger_active r1 |} /\
       SimpleFacts.other_reactions_kept i (eng s) e1 /\
       Simple.run_trigger sa sc now i m =
         emit (ReactionTriggered i now)
           (with_sys (with_eng e1 s) (emit (TriggerChecked i now true) m))) /\
  (forall m : Machine Simple.Engine U,
     exists l,
       trace (Simple.run T_MAX R_MAX sa sc m) = trace m ++ l /\
       (count_events (reaction_settled i) l <= 1)%nat) /\
  (forall (m : Machine Simple.Engine U) now,
     Simple.wf T_MAX R_MAX (eng (sys m)) ->
     let r := Simple.reaction (eng (sys m)) i in
     Simple.r_pending r = true -> Simple.r_next_execution r < now ->
     exists e1,
       Simple.r_pending (Simple.reaction e1 i) = false /\
       Simple.run_pending sa now i m =
         emit (ReactionExecuted i now)
           (with_sys (sa (Simple.r_action r) (with_eng e1 (sys m))) m)) /\
  (forall ts (m : Machine Simple.Engine U),
     Simple.wf T_MAX R_MAX (eng (sys m)) ->
     let m' := Simple.ticks T_MAX R_MAX sa sc ts m in
     exists l, trace m' = trace m ++ l /\
       Z.of_nat (count_events (reaction_settled i) l) +
       Z.b2z (Simple.r_pending (Simple.reaction (eng (sys m')) i)) <=
       Z.of_nat (count_events (reaction_queued i) l) +
       Z.b2z (Simple.r_pending (Simple.reaction (eng (sys m)) i))) /\
  (* TinyEvents *)
  (forall (m : Machine Tiny.Engine U) now,
     let r := Tiny.reaction (eng (sys m)) i in
     let fired := fst (tc (Tiny.r_predicate r) (sys m)) in
     let s := snd (tc (Tiny.r_predicate r) (sys m)) in
     let r1 := Tiny.reaction (eng s) i in
     Tiny.r_next_trigger_check r < now -> fired = true ->
     Tiny.wf T_MAX R_MAX (eng s) -> Tiny.r_delay r1 <> 0 ->
     exists e1,
       Tiny.reaction e1 i =
         {| Tiny.r_predicate := Tiny.r_predicate r1;
            Tiny.r_action := Tiny.r_action r1;
            Tiny.r_timeout := Tiny.r_timeout r1;
            Tiny.r_delay := Tiny.r_delay r1;
            Tiny.r_next_trigger_check := ulong (now + Tiny.r_timeout r1);
            Tiny.r_next_execution := ulong (now + Tiny.r_delay r1);
            Tiny.r_pending := true |} /\
       TinyFacts.other_reactions_kept i (eng s) e1 /\
       Tiny.run_trigger ta tc now i m =
         emit (ReactionTriggered i now)
           (with_sys (with_eng e1 s) (emit (TriggerChecked i now true) m))) /\
  (forall m : Machine Tiny.Engine U,
     exists l,
       trace (Tiny.run T_MAX R_MAX ta tc m) = trace m ++ l /\
       (count_events (reaction_settled i) l <= 1)%nat) /\
  (forall (m : Machine Tiny.Engine U) now,
     Tiny.wf T_MAX R_MAX (eng (sys m)) ->
     let r := Tiny.reaction (eng (sys m)) i in
     Tiny.r_pending r = true -> Tiny.r_next_execution r < now ->
     exists e1,
       Tiny.r_pending (Tiny.reaction e1 i) = false /\
       Tiny.run_pending ta now i m =
         emit (ReactionExecuted i now)
           (with_sys (ta (Tiny.r_action r) (with_eng e1 (sys m))) m)) /\
  (forall ts (m : Machine Tiny.Engine U),
     Tiny.wf T_MAX R_MAX (eng (sys m)) ->
     let m' := Tiny.ticks T_MAX R_MAX ta tc ts m in
     exists l, trace m' = trace m ++ l /\
       Z.of_nat (count_events (reaction_settled i) l) +
       Z.b2z (Tiny.r_pending (Tiny.reaction (eng (sys m')) i)) <=
       Z.of_nat (count_events (reaction_queued i) l) +
       Z.b2z (Tiny.r_pending (Tiny.reaction (eng (sys m)) i))).
Proof.
  intros [Sa Sc] [Sna Snc] [Ta Tc] [Tna Tnc] Hi.
  repeat match goal with |- _ /\ _ => split end.
  - intros m now r fired s r1 Hact Hd Hf Hwf Hdl.
    destruct (SimpleFacts.run_trigger_delayed T_MAX R_MAX sa sc now i m
                Hact Hd Hf Hwf Hi Hdl) as (e1 & R1 & O & _ & _ & E).
    exists e1. auto.
  - intros m.
    destruct (SimpleFacts.run_once T_MAX R_MAX sa sc i m) as (l & T & _ & C).
    exists l. auto.
  - intros m now Hwf r Hp Hd.
    destruct (SimpleFacts.run_pending_due T_MAX R_MAX sa now i m Hwf Hi Hp Hd)
      as (e1 & R1 & _ & _ & _ & E).
    exists e1. split; [rewrite R1; reflexivity|exact E].
  - intros ts m Hwf m'.
    destruct (SimpleFacts.ticks_ledger T_MAX R_MAX sa sc Sa Sc i Hi Sna Snc
                ts m m (SimpleFacts.ledger_refl T_MAX R_MAX i m Hwf))
      as (_ & l & T & L).
    exists l. split; [exact T|exact L].
  - intros m now r fired s r1 Hd Hf Hwf Hdl.
    destruct (TinyFacts.tiny_run_trigger_delayed T_MAX R_MAX ta tc now i m
                Hd Hf Hwf Hi Hdl) as (e1 & R1 & O & _ & _ & E).
    exists e1. auto.
  - intros m.
    destruct (TinyFacts.tiny_run_once T_MAX R_MAX ta tc i m) as (l & T & _ & C).
    exists l. auto.
  - intros m now Hwf r Hp Hd.
    destruct (TinyFacts.tiny_run_pending_due T_MAX R_MAX ta now i m Hwf Hi Hp Hd)
      as (e1 & R1 & _ & _ & _ & E).
    exists e1. split; [rewrite R1; reflexivity|exact E].
  - intros ts m Hwf m'.
    destruct (TinyFacts.tiny_ticks_ledger T_MAX R_MAX ta tc Ta Tc i Hi Tna Tnc
                ts m m (TinyFacts.tiny_ledger_refl T_MAX R_MAX i m Hwf))
      as (_ & l & T & L).
    exists l. split; [exact T|exact L].
Qed.

Lemma C10_witness :
  exists l,
    trace (Tiny.ticks 4 4 idle_action button_held [1; 102; 600; 1101]
             tiny_short_timeout) = trace tiny_short_timeout ++ l /\
    Z.of_nat (count_events (reaction_settled 0) l) +
    Z.b2z (Tiny.r_pending
             (Tiny.reaction
                (eng (sys (Tiny.ticks 4 4 idle_action button_held
                             [1; 102; 600; 1101] tiny_short_timeout))) 0)) <=
    Z.of_nat (count_events (reaction_queued 0) l) + 0.
Proof.
  destruct (C10_single_queued_execution 4 4
              (@idle_action Simple.Engine) (@button_held Simple.Engine)
              idle_action button_held 0
              (idle_held_simple 4 4) (idle_held_simple_never_queues 0)
              (idle_held_tiny 4 4) (idle_held_tiny_never_queues 0)
              ltac:(lia))
    as (_ & _ & _ & _ & _ & _ & _ & H).
  exact (H [1; 102; 600; 1101] tiny_short_timeout ltac:(unfold Tiny.wf; concrete)).
Defined.

(** * Further properties of the two engines *)

(** *** The idle sketch meets the assumptions on a sketch *)

Lemma idle_held_simple_keeps_gate i :
  SimpleMore.sketch_keeps_gate i
    (@idle_action Simple.Engine) (@button_held Simple.Engine).
Proof. split; intros p s; reflexivity. Qed.

(** *** SimpleEvents *)

(** X1. [SimpleEvents::begin()] adds the clock value it reads, modulo
    [2^32], to the due time of every schedule and to the next trigger check
    of every reaction that has been added, and changes nothing else: the
    rows above the high-water marks, every other field of every row and
    the marks themselves are as before.  The start delays given to
    [addSchedule] and [addReaction] thereby become absolute times.  A
    second [begin()] adds its clock value once more. *)
Theorem X1_begin_simple (T_MAX R_MAX now : Z) (e : Simple.Engine) :
  Simple.wf T_MAX R_MAX e ->
  let e' := Simple.begin T_MAX R_MAX now e in
  Simple.wf T_MAX R_MAX e' /\ SimpleFacts.marks_kept e e' /\
  (forall i, 0 <= i <= Simple.last_schd e ->
     Simple.schedule e' i =
       {| Simple.s_action := Simple.s_action (Simple.schedule e i);
          Simple.s_interval := Simple.s_interval (Simple.schedule e i);
          Simple.s_next_fire :=
            ulong (Simple.s_next_fire (Simple.schedule e i) + now);
          Simple.s_active := Simple.s_active (Simple.schedule e i) |}) /\
  (forall i, Simple.last_schd e < i ->
     Simple.schedule e' i = Simple.schedule e i) /\
  (forall i, 0 <= i <= Simple.last_rct e ->
     Simple.reaction e' i =
       {| Simple.r_predicate := Simple.r_predicate (Simple.reaction e i);
          Simple.r_action := Simple.r_action (Simple.reaction e i);
          Simple.r_timeout := Simple.r_timeout (Simple.reaction e i);
          Simple.r_delay := Simple.r_delay (Simple.reaction e i);
          Simple.r_next_trigger_check :=
            ulong (Simple.r_next_trigger_check (Simple.reaction e i) + now);
          Simple.r_next_execution :=
            Simple.r_next_execution (Simple.reaction e i);
          Simple.r_pending := Simple.r_pending (Simple.reaction e i);
          Simple.r_trigger_active :=
            Simple.r_trigger_active (Simple.reaction e i) |}) /\
  (forall i, Simple.last_rct e < i ->
     Simple.reaction e' i = Simple.reaction e i) /\
  (forall now2 i, 0 <= i <= Simple.last_schd e ->
     Simple.s_next_fire
       (Simple.schedule (Simple.begin T_MAX R_MAX now2 e') i) =
     ulong (Simple.s_next_fire (Simple.schedule e i) + now + now2)).
Proof.
  intros Hwf e'.
  destruct (SimpleMore.begin_rows T_MAX R_MAX now e Hwf)
    as (W & M & S1 & S2 & R1 & R2).
  fold e' in W, M, S1, S2, R1, R2.
  split; [exact W|]. split; [exact M|]. split; [exact S1|].
  split; [exact S2|]. split; [exact R1|]. split; [exact R2|].
  intros now2 i Hi.
  destruct (SimpleMore.begin_rows T_MAX R_MAX now2 e' W)
    as (_ & _ & S1' & _).
  destruct M as (M1 & _).
  rewrite S1' by lia. cbn [Simple.s_next_fire]. rewrite S1 by exact Hi.
  cbn [Simple.s_next_fire]. apply ulong_add_l.
Qed.

Lemma X1_witness :
  Simple.wf 8 8 (Simple.begin 8 8 5000 (eng (sys simple_blink))).
Proof.
  exact (proj1 (X1_begin_simple 8 8 5000 (eng (sys simple_blink))
                  simple_blink_wf)).
Defined.

(** X2. [pauseTrigger] on a valid id clears the activity flag of that
    trigger and nothing else: a queued execution stays queued, with its
    time, and the time of the next check is kept; no other reaction, no
    schedule and no high-water mark changes.  Pausing again, with any id,
    gives the same engine. *)
Theorem X2_pauseTrigger (T_MAX R_MAX id : Z) (e : Simple.Engine) :
  (Simple.wf T_MAX R_MAX e -> 0 <= id <= Simple.last_rct e ->
   let e' := Simple.pauseTrigger id e in
   Simple.reaction e' id =
     {| Simple.r_predicate := Simple.r_predicate (Simple.reaction e id);
        Simple.r_action := Simple.r_action (Simple.reaction e id);
        Simple.r_timeout := Simple.r_timeout (Simple.reaction e id);
        Simple.r_delay := Simple.r_delay (Simple.reaction e id);
        Simple.r_next_trigger_check :=
          Simple.r_next_trigger_check (Simple.reaction e id);
        Simple.r_next_execution :=
          Simple.r_next_execution (Simple.reaction e id);
        Simple.r_pending := Simple.r_pending (Simple.reaction e id);
        Simple.r_trigger_active := false |} /\
   SimpleFacts.other_reactions_kept id e e' /\
   SimpleFacts.schedules_kept e e' /\ SimpleFacts.marks_kept e e') /\
  Simple.pauseTrigger id (Simple.pauseTrigger id e) = Simple.pauseTrigger id e.
Proof.
  split.
  - intros Hwf Hid. exact (SimpleMore.pauseTrigger_valid T_MAX R_MAX id e Hwf Hid).
  - apply SimpleMore.pauseTrigger_twice.
Qed.

Lemma X2_witness :
  Simple.r_trigger_active
    (Simple.reaction (Simple.pauseTrigger 0 (eng (sys simple_queued))) 0) =
  false.
Proof.
  exact (f_equal Simple.r_trigger_active
           (proj1 (proj1 (X2_pauseTrigger 8 8 0 (eng (sys simple_queued)))
                     simple_queued_wf ltac:(concrete)))).
Defined.

(** X3. [resumeTrigger] on a valid id sets the activity flag of the trigger
    and the time of its next check: the given timestamp when [abs] is
    true, the clock value read at the call plus the timestamp, modulo
    [2^32], otherwise.  A queued execution is not touched, nor is any other
    reaction, any schedule or any high-water mark. *)
Theorem X3_resumeTrigger (T_MAX R_MAX id timestamp now : Z) (abs : bool)
    (e : Simple.Engine) :
  Simple.wf T_MAX R_MAX e -> 0 <= id <= Simple.last_rct e ->
  let e' := Simple.resumeTrigger id timestamp abs now e in
  Simple.reaction e' id =
    {| Simple.r_predicate := Simple.r_predicate (Simple.reaction e id);
       Simple.r_action := Simple.r_action (Simple.reaction e id);
       Simple.r_timeout := Simple.r_timeout (Simple.reaction e id);
       Simple.r_delay := Simple.r_delay (Simple.reaction e id);
       Simple.r_next_trigger_check :=
         if abs then timestamp else ulong (now + timestamp);
       Simple.r_next_execution :=
         Simple.r_next_execution (Simple.reaction e id);
       Simple.r_pending := Simple.r_pending (Simple.reaction e id);
       Simple.r_trigger_active := true |} /\
  SimpleFacts.other_reactions_kept id e e' /\
  SimpleFacts.schedules_kept e e' /\ SimpleFacts.marks_kept e e'.
Proof.
  intros Hwf Hid.
  exact (SimpleMore.resumeTrigger_valid T_MAX R_MAX id timestamp abs now e Hwf Hid).
Qed.

Lemma X3_witness :
  Simple.r_next_trigger_check
    (Simple.reaction
       (Simple.resumeTrigger 0 250 false 7000 (eng (sys simple_debounced))) 0) =
  ulong (7000 + 250).
Proof.
  exact (f_equal Simple.r_next_trigger_check
           (proj1 (X3_resumeTrigger 8 8 0 250 7000 false
                     (eng (sys simple_debounced)) simple_debounced_wf
                     ltac:(concrete)))).
Defined.

(** X4. Pausing an active schedule and resuming it with its own due time
    as an absolute timestamp gives back the engine the pause found, field
    for field; the same holds for a trigger with [pauseTrigger] and
    [resumeTrigger].  Resuming with the default arguments (timestamp 0,
    relative) does not: the due time becomes the clock value read at the
    call. *)
Theorem X4_pause_resume_round_trip (T_MAX R_MAX id now : Z)
    (e : Simple.Engine) :
  (Simple.s_active (Simple.schedule e id) = true ->
   Simple.resumeSchedule id (Simple.s_next_fire (Simple.schedule e id)) true
     now (Simple.pauseSchedule id e) = e) /\
  (Simple.r_trigger_active (Simple.reaction e id) = true ->
   Simple.resumeTrigger id
     (Simple.r_next_trigger_check (Simple.reaction e id)) true
     now (Simple.pauseTrigger id e) = e) /\
  (Simple.wf T_MAX R_MAX e -> 0 <= id <= Simple.last_schd e ->
   Simple.schedule
     (Simple.resumeSchedule id 0 false now (Simple.pauseSchedule id e)) id =
     {| Simple.s_action := Simple.s_action (Simple.schedule e id);
        Simple.s_interval := Simple.s_interval (Simple.schedule e id);
        Simple.s_next_fire := ulong (now + 0);
        Simple.s_active := true |}).
Proof.
  split; [|split].
  - apply SimpleMore.pause_resume_schedule.
  - apply SimpleMore.pause_resume_trigger.
  - intros Hwf Hid.
    destruct (SimpleFacts.pauseSchedule_valid T_MAX R_MAX id e Hwf Hid)
      as (P1 & _ & _ & (M1 & _)).
    destruct (SimpleFacts.resumeSchedule_valid T_MAX R_MAX id 0 false now
                (Simple.pauseSchedule id e)) as (R1 & _).
    + apply SimpleFacts.wf_pauseSchedule. exact Hwf.
    + lia.
    + rewrite R1, P1. reflexivity.
Qed.

Lemma X4_witness :
  Simple.resumeSchedule 0
    (Simple.s_next_fire (Simple.schedule (eng (sys simple_blink)) 0)) true
    7000 (Simple.pauseSchedule 0 (eng (sys simple_blink))) =
  eng (sys simple_blink).
Proof.
  exact (proj1 (X4_pause_resume_round_trip 8 8 0 7000 (eng (sys simple_blink)))
           ltac:(concrete)).
Defined.

(** X5. A schedule paused with [pauseSchedule] is not executed by any later
    tick, however late, and its row, due time included, stays as the pause
    left it, as long as no function of the sketch resumes it. *)
Theorem X5_paused_schedule_never_fires {U : Type} (T_MAX R_MAX : Z)
    (action : fnptr -> Sys Simple.Engine U -> Sys Simple.Engine U)
    (check : fnptr -> Sys Simple.Engine U -> bool * Sys Simple.Engine U)
    (id : Z) (ts : list Z) (m : Machine Simple.Engine U) :
  SimpleFacts.sketch_respects T_MAX R_MAX action check ->
  SimpleFacts.sketch_keeps_schedule id action check ->
  Simple.wf T_MAX R_MAX (eng (sys m)) ->
  0 <= id <= Simple.last_schd (eng (sys m)) ->
  let paused :=
    with_sys (method (fun _ => Simple.pauseSchedule id) (sys m)) m in
  let m' := Simple.ticks T_MAX R_MAX action check ts paused in
  exists l, trace m' = trace m ++ l /\
    schedule_firings id l = [] /\
    Simple.schedule (eng (sys m')) id =
      {| Simple.s_action := Simple.s_action (Simple.schedule (eng (sys m)) id);
         Simple.s_interval :=
           Simple.s_interval (Simple.schedule (eng (sys m)) id);
         Simple.s_next_fire :=
           Simple.s_next_fire (Simple.schedule (eng (sys m)) id);
         Simple.s_active := false |}.
Proof.
  intros Hok Hkeep Hwf Hid paused m'.
  destruct (SimpleFacts.pauseSchedule_valid T_MAX R_MAX id (eng (sys m)) Hwf Hid)
    as (P1 & _ & _ & (M1 & _)).
  destruct (SimpleMore.ticks_paused T_MAX R_MAX action check Hok id Hkeep ts paused)
    as (l & T & F & R).
  - apply SimpleFacts.wf_pauseSchedule. exact Hwf.
  - cbn [paused sys with_sys method eng with_eng]. rewrite M1. exact Hid.
  - cbn [paused sys with_sys method eng with_eng]. rewrite P1. reflexivity.
  - exists l. split; [exact T|]. split; [exact F|].
    fold m' in R. rewrite R.
    cbn [paused sys with_sys method eng with_eng]. exact P1.
Qed.

Lemma X5_witness :
  exists l,
    trace (Simple.ticks 8 8 idle_action button_held [500; 1001; 2001; 9000]
             (with_sys (method (fun _ => Simple.pauseSchedule 0)
                          (sys simple_blink)) simple_blink)) =
      trace simple_blink ++ l /\
    schedule_firings 0 l = [] /\
    Simple.schedule
      (eng (sys (Simple.ticks 8 8 idle_action button_held
                   [500; 1001; 2001; 9000]
                   (with_sys (method (fun _ => Simple.pauseSchedule 0)
                                (sys simple_blink)) simple_blink)))) 0 =
      {| Simple.s_action :=
           Simple.s_action (Simple.schedule (eng (sys simple_blink)) 0);
         Simple.s_interval :=
           Simple.s_interval (Simple.schedule (eng (sys simple_blink)) 0);
         Simple.s_next_fire :=
           Simple.s_next_fire (Simple.schedule (eng (sys simple_blink)) 0);
         Simple.s_active := false |}.
Proof.
  exact (X5_paused_schedule_never_fires 8 8 idle_action button_held 0
           [500; 1001; 2001; 9000] simple_blink
           (idle_held_simple 8 8) (idle_held_simple_keeps 0)
           simple_blink_wf ltac:(concrete)).
Defined.

(** X6. The predicate of a reaction is not called in a tick when the
    trigger is paused or the clock value is not above the time of the next
    check.  So over ticks during all of which this is the case (the trigger
    is paused; or none of the ticks is past the time of the next check, as
    during the debounce timeout or after [cancelReaction] with a
    timestamp), and during which no function of the sketch changes the
    flag or that time, the predicate is never called, no trigger is
    accepted and no immediate reaction runs. *)
Theorem X6_closed_gate {U : Type} (T_MAX R_MAX : Z)
    (action : fnptr -> Sys Simple.Engine U -> Sys Simple.Engine U)
    (check : fnptr -> Sys Simple.Engine U -> bool * Sys Simple.Engine U)
    (i : Z) (ts : list Z) (m : Machine Simple.Engine U) :
  SimpleFacts.sketch_respects T_MAX R_MAX action check ->
  SimpleMore.sketch_keeps_gate i action check ->
  Simple.wf T_MAX R_MAX (eng (sys m)) -> 0 <= i < R_MAX ->
  let r := Simple.reaction (eng (sys m)) i in
  Simple.r_trigger_active r = false \/
    Forall (fun t => t <= Simple.r_next_trigger_check r) ts ->
  let m' := Simple.ticks T_MAX R_MAX action check ts m in
  exists l, trace m' = trace m ++ l /\
    count_events (scan_of i) l = 0%nat /\
    trigger_checks i l = [] /\
    Simple.r_trigger_active (Simple.reaction (eng (sys m')) i) =
      Simple.r_trigger_active r /\
    Simple.r_next_trigger_check (Simple.reaction (eng (sys m')) i) =
      Simple.r_next_trigger_check r.
Proof.
  intros Hok [Ka Kc] Hwf Hi r Hclosed m'.
  assert (Hall : Forall (SimpleMore.gate_closed (SimpleMore.gate i (eng (sys m)))) ts).
  { destruct Hclosed as [Hoff|Hts].
    - apply Forall_forall. intros t _. left. exact Hoff.
    - eapply Forall_impl; [exact Hts|]. intros t Ht. right. exact Ht. }
  destruct (SimpleMore.ticks_silent T_MAX R_MAX action check Hok i Hi Ka Kc
              ts m m Hall (SimpleMore.silent_refl T_MAX R_MAX i m Hwf))
    as (_ & G & l & T & C).
  exists l. split; [exact T|]. split; [exact C|].
  split; [apply trigger_checks_none; exact C|].
  fold m' in G. unfold SimpleMore.gate in G.
  split; [exact (f_equal fst G)|exact (f_equal snd G)].
Qed.

Lemma X6_witness :
  exists l,
    trace (Simple.ticks 8 8 idle_action button_held [101; 2000; 4100]
             simple_queued) = trace simple_queued ++ l /\
    count_events (scan_of 0) l = 0%nat /\
    trigger_checks 0 l = [] /\
    Simple.r_trigger_active
      (Simple.reaction
         (eng (sys (Simple.ticks 8 8 idle_action button_held
                      [101; 2000; 4100] simple_queued))) 0) =
      Simple.r_trigger_active
        (Simple.reaction (eng (sys simple_queued)) 0) /\
    Simple.r_next_trigger_check
      (Simple.reaction
         (eng (sys (Simple.ticks 8 8 idle_action button_held
                      [101; 2000; 4100] simple_queued))) 0) =
      Simple.r_next_trigger_check
        (Simple.reaction (eng (sys simple_queued)) 0).
Proof.
  refine (X6_closed_gate 8 8 idle_action button_held 0 [101; 2000; 4100]
            simple_queued (idle_held_simple 8 8)
            (idle_held_simple_keeps_gate 0) simple_queued_wf
            ltac:(lia) (or_intror _)).
  repeat (constructor; [concrete|]). constructor.
Defined.

(** X7. Pausing a trigger does not cancel an execution that is already
    queued: after [pauseTrigger] the predicate of the reaction is never
    called again, but the queued action is still executed, once, at the
    first tick whose clock value is above the time it was queued for (and
    not at all when nothing was queued), as long as no function of the
    sketch resumes, cancels or stops the reaction. *)
Theorem X7_paused_trigger_still_runs {U : Type} (T_MAX R_MAX : Z)
    (action : fnptr -> Sys Simple.Engine U -> Sys Simple.Engine U)
    (check : fnptr -> Sys Simple.Engine U -> bool * Sys Simple.Engine U)
    (id : Z) (ts : list Z) (m : Machine Simple.Engine U) :
  SimpleFacts.sketch_respects T_MAX R_MAX action check ->
  SimpleMore.sketch_keeps_reaction id action check ->
  Simple.wf T_MAX R_MAX (eng (sys m)) ->
  0 <= id <= Simple.last_rct (eng (sys m)) ->
  let r := Simple.reaction (eng (sys m)) id in
  let paused :=
    with_sys (method (fun _ => Simple.pauseTrigger id) (sys m)) m in
  let m' := Simple.ticks T_MAX R_MAX action check ts paused in
  exists l, trace m' = trace m ++ l /\
    trigger_checks id l = [] /\
    count_events (scan_of id) l = 0%nat /\
    reaction_runs id l =
      (if Simple.r_pending r
       then match List.find (fun t => Simple.r_next_execution r <? t) ts with
            | Some t => [t]
            | None => []
            end
       else []).
Proof.
  intros Hok [Ka Kc] Hwf Hid r paused m'.
  destruct (SimpleMore.pauseTrigger_valid T_MAX R_MAX id (eng (sys m)) Hwf Hid)
    as (P1 & _ & _ & (_ & M2 & _)).
  destruct (SimpleMore.ticks_paused_reaction T_MAX R_MAX action check Hok id
              Ka Kc ts paused) as (l & T & C & D & _).
  - apply SimpleFacts.wf_pauseTrigger. exact Hwf.
  - cbn [paused sys with_sys method eng with_eng]. rewrite M2. exact Hid.
  - cbn [paused sys with_sys method eng with_eng]. rewrite P1. reflexivity.
  - exists l. split; [exact T|].
    split; [apply trigger_checks_none; exact C|]. split; [exact C|].
    fold m' in D. rewrite D. unfold SimpleMore.first_run.
    cbn [paused sys with_sys method eng with_eng]. rewrite P1.
    reflexivity.
Qed.

Lemma X7_witness :
  exists l,
    trace (Simple.ticks 8 8 idle_action button_held [2000; 2101; 9000]
             (with_sys (method (fun _ => Simple.pauseTrigger 0)
                          (sys simple_queued)) simple_queued)) =
      trace simple_queued ++ l /\
    trigger_checks 0 l = [] /\
    count_events (scan_of 0) l = 0%nat /\
    reaction_runs 0 l =
      (if Simple.r_pending (Simple.reaction (eng (sys simple_queued)) 0)
       then match List.find
                    (fun t =>
                       Simple.r_next_execution
                         (Simple.reaction (eng (sys simple_queued)) 0) <? t)
                    [2000; 2101; 9000] with
            | Some t => [t]
            | None => []
            end
       else []).
Proof.
  exact (X7_paused_trigger_still_runs 8 8 idle_action button_held 0
           [2000; 2101; 9000] simple_queued
           (idle_held_simple 8 8) (idle_held_simple_keeps_reaction 0)
           simple_queued_wf ltac:(concrete)).
Defined.

(** X8. The debounce of a trigger: over any ticks, once the predicate of a
    reaction has returned [true] in a tick at [t1], it is next called in a
    tick whose clock value is above [t1 + timeout] (modulo [2^32]),
    whether the action was run at once or queued, as long as no function
    of the sketch pauses, resumes, cancels or stops the reaction. *)
Theorem X8_debounce {U : Type} (T_MAX R_MAX : Z)
    (action : fnptr -> Sys Simple.Engine U -> Sys Simple.Engine U)
    (check : fnptr -> Sys Simple.Engine U -> bool * Sys Simple.Engine U)
    (i : Z) (ts : list Z) (m : Machine Simple.Engine U) :
  SimpleFacts.sketch_respects T_MAX R_MAX action check ->
  SimpleMore.sketch_keeps_reaction i action check ->
  Simple.wf T_MAX R_MAX (eng (sys m)) ->
  0 <= i <= Simple.last_rct (eng (sys m)) ->
  exists l,
    trace (Simple.ticks T_MAX R_MAX action check ts m) = trace m ++ l /\
    debounced (Simple.r_timeout (Simple.reaction (eng (sys m)) i))
      (trigger_checks i l).
Proof.
  intros Hok [Ka Kc] Hwf Hi.
  destruct (SimpleMore.ticks_debounced T_MAX R_MAX action check Hok i Ka Kc
              ts m m Hi) as (_ & _ & _ & l & T & D & _).
  - split; [exact Hwf|]. split; [apply SimpleFacts.grows_refl|].
    split; [reflexivity|]. exists []. rewrite app_nil_r.
    repeat split; exact I.
  - exists l. split; [exact T|exact D].
Qed.

Lemma X8_witness :
  exists l,
    trace (Simple.ticks 8 8 idle_action button_held
             [100; 2000; 4100; 4101; 9000] simple_debounced) =
      trace simple_debounced ++ l /\
    debounced (Simple.r_timeout (Simple.reaction (eng (sys simple_debounced)) 0))
      (trigger_checks 0 l).
Proof.
  exact (X8_debounce 8 8 idle_action button_held 0
           [100; 2000; 4100; 4101; 9000] simple_debounced
           (idle_held_simple 8 8) (idle_held_simple_keeps_reaction 0)
           simple_debounced_wf ltac:(concrete)).
Defined.

(** X9. The due time of a schedule is advanced by unsigned 32-bit addition.
    When adding the interval takes it past [2^32 - 1], the new due time is
    the sum less [2^32], which is below the old one: the schedule is
    executed again at the very next tick, whatever its interval. *)
Theorem X9_wrapped_due_time {U : Type} (T_MAX R_MAX : Z)
    (action : fnptr -> Sys Simple.Engine U -> Sys Simple.Engine U)
    (check : fnptr -> Sys Simple.Engine U -> bool * Sys Simple.Engine U)
    (i t1 t2 : Z) (m : Machine Simple.Engine U) :
  SimpleFacts.sketch_respects T_MAX R_MAX action check ->
  SimpleFacts.sketch_keeps_schedule i action check ->
  Simple.wf T_MAX R_MAX (eng (sys m)) ->
  0 <= i <= Simple.last_schd (eng (sys m)) ->
  let r := Simple.schedule (eng (sys m)) i in
  Simple.s_active r = true ->
  0 <= Simple.s_next_fire r < t1 -> t1 <= t2 <= ULONG_MAX ->
  Simple.s_interval r < ULONG_MOD <=
    Simple.s_next_fire r + Simple.s_interval r ->
  exists l,
    trace (Simple.ticks T_MAX R_MAX action check [t1; t2] m) = trace m ++ l /\
    schedule_firings i l =
      [(Simple.s_next_fire r, t1);
       (Simple.s_next_fire r + Simple.s_interval r - ULONG_MOD, t2)].
Proof.
  intros Hok Hkeep Hwf Hi r Hact Hnf Ht Hiv.
  exact (SimpleMore.wrapped_due_fires_again T_MAX R_MAX action check Hok i
           Hkeep t1 t2 m Hwf Hi Hact Hnf Ht Hiv).
Qed.

Lemma simple_near_wrap_wf : Simple.wf 8 8 (eng (sys simple_near_wrap)).
Proof. unfold Simple.wf. concrete. Qed.

Lemma X9_witness :
  exists l,
    trace (Simple.ticks 8 8 idle_action button_held [4294966900; 4294966901]
             simple_near_wrap) = trace simple_near_wrap ++ l /\
    schedule_firings 0 l =
      [(Simple.s_next_fire (Simple.schedule (eng (sys simple_near_wrap)) 0),
        4294966900);
       (Simple.s_next_fire (Simple.schedule (eng (sys simple_near_wrap)) 0) +
        Simple.s_interval (Simple.schedule (eng (sys simple_near_wrap)) 0) -
        ULONG_MOD, 4294966901)].
Proof.
  exact (X9_wrapped_due_time 8 8 idle_action button_held 0
           4294966900 4294966901 simple_near_wrap
           (idle_held_simple 8 8) (idle_held_simple_keeps 0)
           simple_near_wrap_wf ltac:(concrete) ltac:(concrete)
           ltac:(concrete) ltac:(concrete) ltac:(concrete)).
Defined.

(** X10. Whatever sequence of calls of [addSchedule], [addReaction],
    [pauseSchedule], [pauseTrigger], [resumeSchedule], [resumeTrigger],
    [cancelReaction], [stopReaction] and [begin] a sketch makes, with
    whatever arguments and at whatever clock values, the engine stays
    well formed (the high-water marks stay between -1 and the capacity,
    the arrays keep their length), the marks never decrease, so an id once
    returned stays valid, and every entry that exists keeps the callbacks,
    the interval, the timeout and the delay it was added with: no method
    changes them.  A callback made of such calls therefore uses the engine
    as the properties of [run()] assume. *)
Theorem X10_calls_keep_engine (T_MAX R_MAX : Z)
    (cs : list (Z * SimpleMore.Call)) (e : Simple.Engine) :
  Simple.wf T_MAX R_MAX e ->
  let e' := SimpleMore.calls T_MAX R_MAX cs e in
  Simple.wf T_MAX R_MAX e' /\
  Simple.last_schd e <= Simple.last_schd e' /\
  Simple.last_rct e <= Simple.last_rct e' /\
  (forall i, 0 <= i <= Simple.last_schd e ->
     Simple.s_action (Simple.schedule e' i) =
       Simple.s_action (Simple.schedule e i) /\
     Simple.s_interval (Simple.schedule e' i) =
       Simple.s_interval (Simple.schedule e i)) /\
  (forall i, 0 <= i <= Simple.last_rct e ->
     Simple.r_predicate (Simple.reaction e' i) =
       Simple.r_predicate (Simple.reaction e i) /\
     Simple.r_action (Simple.reaction e' i) =
       Simple.r_action (Simple.reaction e i) /\
     Simple.r_timeout (Simple.reaction e' i) =
       Simple.r_timeout (Simple.reaction e i) /\
     Simple.r_delay (Simple.reaction e' i) =
       Simple.r_delay (Simple.reaction e i)).
Proof.
  intros Hwf e'.
  destruct (SimpleMore.calls_extends T_MAX R_MAX cs e Hwf)
    as (W & (G1 & G2) & S & R).
  split; [exact W|]. split; [exact G1|]. split; [exact G2|].
  split; [exact S|exact R].
Qed.

Lemma X10_witness :
  Simple.wf 8 8
    (SimpleMore.calls 8 8
       [(0, SimpleMore.AddReaction 1%nat 2%nat 250 0 0);
        (0, SimpleMore.AddSchedule 3%nat 1000 0);
        (0, SimpleMore.AddSchedule 4%nat 1000 500);
        (0, SimpleMore.AddSchedule 5%nat 500 0);
        (12, SimpleMore.Begin);
        (700, SimpleMore.PauseSchedule 0);
        (700, SimpleMore.PauseSchedule 1);
        (1900, SimpleMore.ResumeSchedule 0 0 false);
        (1900, SimpleMore.ResumeSchedule 1 0 false);
        (2000, SimpleMore.CancelReaction 7 0 false)]
       (Simple.init 8 8)).
Proof.
  exact (proj1 (X10_calls_keep_engine 8 8 _ (Simple.init 8 8)
                  (SimpleFacts.wf_init 8 8 ltac:(lia) ltac:(lia)))).
Defined.

(** *** TinyEvents *)

(** X11. [TinyEvents::begin()] adds the clock value it reads, modulo
    [2^32], to the due time of every schedule and to the next trigger check
    of every reaction that has been added, and changes nothing else. *)
Theorem X11_begin_tiny (T_MAX R_MAX now : Z) (e : Tiny.Engine) :
  Tiny.wf T_MAX R_MAX e ->
  let e' := Tiny.begin T_MAX R_MAX now e in
  Tiny.wf T_MAX R_MAX e' /\ TinyFacts.marks_kept e e' /\
  (forall i, 0 <= i <= Tiny.last_schd e ->
     Tiny.schedule e' i =
       {| Tiny.s_action := Tiny.s_action (Tiny.schedule e i);
          Tiny.s_interval := Tiny.s_interval (Tiny.schedule e i);
          Tiny.s_next_fire :=
            ulong (Tiny.s_next_fire (Tiny.schedule e i) + now) |}) /\
  (forall i, Tiny.last_schd e < i ->
     Tiny.schedule e' i = Tiny.schedule e i) /\
  (forall i, 0 <= i <= Tiny.last_rct e ->
     Tiny.reaction e' i =
       {| Tiny.r_predicate := Tiny.r_predicate (Tiny.reaction e i);
          Tiny.r_action := Tiny.r_action (Tiny.reaction e i);
          Tiny.r_timeout := Tiny.r_timeout (Tiny.reaction e i);
          Tiny.r_delay := Tiny.r_delay (Tiny.reaction e i);
          Tiny.r_next_trigger_check :=
            ulong (Tiny.r_next_trigger_check (Tiny.reaction e i) + now);
          Tiny.r_next_execution := Tiny.r_next_execution (Tiny.reaction e i);
          Tiny.r_pending := Tiny.r_pending (Tiny.reaction e i) |}) /\
  (forall i, Tiny.last_rct e < i ->
     Tiny.reaction e' i = Tiny.reaction e i).
Proof.
  intros Hwf. exact (TinyMore.tiny_begin_rows T_MAX R_MAX now e Hwf).
Qed.

Lemma X11_witness :
  Tiny.wf 4 4 (Tiny.begin 4 4 5000 (eng (sys tiny_debounced))).
Proof.
  exact (proj1 (X11_begin_tiny 4 4 5000 (eng (sys tiny_debounced))
                  tiny_debounced_wf)).
Defined.

(** X12. [TinyEvents::cancelReaction] on a valid id always clears the
    pending bit of the reaction, and of that reaction only.  When
    [reset_debounce] is positive it also sets the time of the next
    trigger check (the timestamp itself when [abs] is positive, the clock
    value plus the timestamp otherwise); when [reset_debounce] is zero or
    negative that time is left as it is, which is what [stopReaction] does
    in SimpleEvents.  Nothing else changes. *)
Theorem X12_cancelReaction_tiny (T_MAX R_MAX id reset_debounce timestamp abs
    now : Z) (e : Tiny.Engine) :
  Tiny.wf T_MAX R_MAX e -> 0 <= id <= Tiny.last_rct e ->
  let e' := Tiny.cancelReaction id reset_debounce timestamp abs now e in
  Tiny.reaction e' id =
    {| Tiny.r_predicate := Tiny.r_predicate (Tiny.reaction e id);
       Tiny.r_action := Tiny.r_action (Tiny.reaction e id);
       Tiny.r_timeout := Tiny.r_timeout (Tiny.reaction e id);
       Tiny.r_delay := Tiny.r_delay (Tiny.reaction e id);
       Tiny.r_next_trigger_check :=
         if reset_debounce >? 0
         then (if abs <? 1 then ulong (timestamp + now) else timestamp)
         else Tiny.r_next_trigger_check (Tiny.reaction e id);
       Tiny.r_next_execution := Tiny.r_next_execution (Tiny.reaction e id);
       Tiny.r_pending := false |} /\
  TinyFacts.other_reactions_kept id e e' /\
  TinyFacts.schedules_kept e e' /\ TinyFacts.marks_kept e e'.
Proof.
  intros Hwf Hid.
  exact (TinyMore.tiny_cancelReaction_valid T_MAX R_MAX id reset_debounce
           timestamp abs now e Hwf Hid).
Qed.

Lemma X12_witness :
  Tiny.r_pending
    (Tiny.reaction (Tiny.cancelReaction 0 0 250 0 1500 (eng (sys tiny_queued))) 0) =
  false.
Proof.
  exact (f_equal Tiny.r_pending
           (proj1 (X12_cancelReaction_tiny 4 4 0 0 250 0 1500
                     (eng (sys tiny_queued)) tiny_queued_wf ltac:(concrete)))).
Defined.

(** X13. [setNextSchedule] on a valid id sets the due time of that schedule
    and [setNextTrigger] the time of the next check of that trigger: to
    the timestamp itself when [abs] is positive, to the clock value read
    at the call plus the timestamp, modulo [2^32], otherwise.  Nothing
    else changes; in particular [setNextTrigger] keeps a queued
    execution. *)
Theorem X13_setNext_tiny (T_MAX R_MAX id timestamp abs now : Z)
    (e : Tiny.Engine) :
  Tiny.wf T_MAX R_MAX e ->
  (0 <= id <= Tiny.last_schd e ->
   let e' := Tiny.setNextSchedule id timestamp abs now e in
   Tiny.schedule e' id =
     {| Tiny.s_action := Tiny.s_action (Tiny.schedule e id);
        Tiny.s_interval := Tiny.s_interval (Tiny.schedule e id);
        Tiny.s_next_fire :=
          if abs <? 1 then ulong (timestamp + now) else timestamp |} /\
   TinyFacts.other_schedules_kept id e e' /\
   TinyFacts.reactions_kept e e' /\ TinyFacts.marks_kept e e') /\
  (0 <= id <= Tiny.last_rct e ->
   let e' := Tiny.setNextTrigger id timestamp abs now e in
   Tiny.reaction e' id =
     {| Tiny.r_predicate := Tiny.r_predicate (Tiny.reaction e id);
        Tiny.r_action := Tiny.r_action (Tiny.reaction e id);
        Tiny.r_timeout := Tiny.r_timeout (Tiny.reaction e id);
        Tiny.r_delay := Tiny.r_delay (Tiny.reaction e id);
        Tiny.r_next_trigger_check :=
          if abs <? 1 then ulong (timestamp + now) else timestamp;
        Tiny.r_next_execution := Tiny.r_next_execution (Tiny.reaction e id);
        Tiny.r_pending := Tiny.r_pending (Tiny.reaction e id) |} /\
   TinyFacts.other_reactions_kept id e e' /\
   TinyFacts.schedules_kept e e' /\ TinyFacts.marks_kept e e').
Proof.
  intros Hwf. split; intros Hid.
  - exact (TinyMore.setNextSchedule_valid T_MAX R_MAX id timestamp abs now e Hwf Hid).
  - exact (TinyMore.setNextTrigger_valid T_MAX R_MAX id timestamp abs now e Hwf Hid).
Qed.

Lemma X13_witness :
  Tiny.s_next_fire
    (Tiny.schedule (Tiny.setNextSchedule 0 250 0 7000 (eng (sys tiny_blink))) 0) =
  (if 0 <? 1 then ulong (250 + 7000) else 250).
Proof.
  exact (f_equal Tiny.s_next_fire
           (proj1 (proj1 (X13_setNext_tiny 4 4 0 250 0 7000
                            (eng (sys tiny_blink)) tiny_blink_wf)
                     ltac:(concrete)))).
Defined.

(** X14. The pending flags of TinyEvents, packed eight to a byte, behave as
    one boolean per reaction: setting or clearing the bit of reaction [i]
    makes the test of reaction [i] true or false and leaves the test of
    every other reaction as it was, in the same byte or in another; the
    table keeps its length and its bytes stay within 0..255. *)
Theorem X14_packed_flags (a : list Z) (i j : Z) :
  0 <= i -> 0 <= j -> Z.quot i 8 < Z.of_nat (length a) ->
  Tiny.flag_is_set (Tiny.flag_set a i) j =
    (if j =? i then true else Tiny.flag_is_set a j) /\
  Tiny.flag_is_set (Tiny.flag_clear a i) j =
    (if j =? i then false else Tiny.flag_is_set a j) /\
  length (Tiny.flag_set a i) = length a /\
  length (Tiny.flag_clear a i) = length a /\
  (Forall (fun b => 0 <= b < 256) a ->
   Forall (fun b => 0 <= b < 256) (Tiny.flag_set a i) /\
   Forall (fun b => 0 <= b < 256) (Tiny.flag_clear a i)).
Proof.
  intros Hi Hj Hlen.
  split; [|split; [|split; [|split]]].
  - destruct (Z.eqb_spec j i) as [->|Hne].
    + apply TinyFacts.flag_set_eq; assumption.
    + apply TinyFacts.flag_set_ne; [assumption|assumption|congruence].
  - destruct (Z.eqb_spec j i) as [->|Hne].
    + apply TinyFacts.flag_clear_eq; assumption.
    + apply TinyFacts.flag_clear_ne; [assumption|assumption|congruence].
  - apply TinyFacts.length_flag_set.
  - apply TinyFacts.length_flag_clear.
  - intros Hall.
    assert (Hbyte : forall z, 0 <= utrunc 8 z < 256).
    { intros z. unfold utrunc. apply Z.mod_pos_bound. reflexivity. }
    split; unfold Tiny.flag_set, Tiny.flag_clear, aset;
      apply Forall_insert; auto.
Qed.

Lemma X14_witness :
  Tiny.flag_is_set (Tiny.flag_set [5; 0] 9) 2 =
    (if 2 =? 9 then true else Tiny.flag_is_set [5; 0] 2).
Proof.
  exact (proj1 (X14_packed_flags [5; 0] 9 2 ltac:(lia) ltac:(lia)
                  ltac:(concrete))).
Defined.

(** X15. The way to pause a schedule of TinyEvents: after
    [setNextSchedule(id, 4294967295, 1)] the schedule is not executed by
    any tick, since no clock value is above the largest [unsigned long],
    and its row stays as it is, as long as no function of the sketch sets
    its due time again. *)
Theorem X15_sentinel_schedule_tiny {U : Type} (T_MAX R_MAX : Z)
    (action : fnptr -> Sys Tiny.Engine U -> Sys Tiny.Engine U)
    (check : fnptr -> Sys Tiny.Engine U -> bool * Sys Tiny.Engine U)
    (id : Z) (ts : list Z) (m : Machine Tiny.Engine U) :
  TinyFacts.sketch_respects T_MAX R_MAX action check ->
  TinyFacts.sketch_keeps_schedule id action check ->
  Tiny.wf T_MAX R_MAX (eng (sys m)) ->
  0 <= id <= Tiny.last_schd (eng (sys m)) ->
  Forall (fun t => t <= ULONG_MAX) ts ->
  let paused :=
    with_sys (method (Tiny.setNextSchedule id ULONG_MAX 1) (sys m)) m in
  let m' := Tiny.ticks T_MAX R_MAX action check ts paused in
  exists l, trace m' = trace m ++ l /\
    schedule_firings id l = [] /\
    Tiny.schedule (eng (sys m')) id =
      {| Tiny.s_action := Tiny.s_action (Tiny.schedule (eng (sys m)) id);
         Tiny.s_interval := Tiny.s_interval (Tiny.schedule (eng (sys m)) id);
         Tiny.s_next_fire := ULONG_MAX |}.
Proof.
  intros Hok Hkeep Hwf Hid Hts paused m'.
  destruct (TinyMore.setNextSchedule_valid T_MAX R_MAX id ULONG_MAX 1
              (clk (sys m)) (eng (sys m)) Hwf Hid)
    as (P1 & _ & _ & (M1 & _)).
  change (1 <? 1) with false in P1. cbv iota in P1.
  destruct (TinyMore.tiny_ticks_not_due T_MAX R_MAX action check Hok id Hkeep
              ts paused) as (l & T & F & R).
  - apply TinyFacts.wf_setNextSchedule. exact Hwf.
  - cbn [paused sys with_sys method eng with_eng]. rewrite M1. exact Hid.
  - cbn [paused sys with_sys method eng with_eng]. rewrite P1.
    cbn [Tiny.s_next_fire]. exact Hts.
  - exists l. split; [exact T|]. split; [exact F|].
    fold m' in R. rewrite R.
    cbn [paused sys with_sys method eng with_eng]. exact P1.
Qed.

Lemma X15_witness :
  exists l,
    trace (Tiny.ticks 4 4 idle_action button_held [500; 1001; 4294967295]
             (with_sys (method (Tiny.setNextSchedule 0 ULONG_MAX 1)
                          (sys tiny_blink)) tiny_blink)) =
      trace tiny_blink ++ l /\
    schedule_firings 0 l = [] /\
    Tiny.schedule
      (eng (sys (Tiny.ticks 4 4 idle_action button_held
                   [500; 1001; 4294967295]
                   (with_sys (method (Tiny.setNextSchedule 0 ULONG_MAX 1)
                                (sys tiny_blink)) tiny_blink)))) 0 =
      {| Tiny.s_action := Tiny.s_action (Tiny.schedule (eng (sys tiny_blink)) 0);
         Tiny.s_interval :=
           Tiny.s_interval (Tiny.schedule (eng (sys tiny_blink)) 0);
         Tiny.s_next_fire := ULONG_MAX |}.
Proof.
  refine (X15_sentinel_schedule_tiny 4 4 idle_action button_held 0
            [500; 1001; 4294967295] tiny_blink
            (idle_held_tiny 4 4) (idle_held_tiny_keeps 0)
            tiny_blink_wf ltac:(concrete) _).
  repeat (constructor; [concrete|]). constructor.
Defined.

(** X16. The way to switch a trigger of TinyEvents off: after
    [setNextTrigger(id, 4294967295, 1)] the predicate of the reaction is
    never called, but an execution that was already queued still happens,
    once, at the first tick past the time it was queued for, as long as
    no function of the sketch cancels the reaction or sets the time of its
    next check again. *)
Theorem X16_sentinel_trigger_tiny {U : Type} (T_MAX R_MAX : Z)
    (action : fnptr -> Sys Tiny.Engine U -> Sys Tiny.Engine U)
    (check : fnptr -> Sys Tiny.Engine U -> bool * Sys Tiny.Engine U)
    (id : Z) (ts : list Z) (m : Machine Tiny.Engine U) :
  TinyFacts.sketch_respects T_MAX R_MAX action check ->
  TinyMore.sketch_keeps_reaction id action check ->
  Tiny.wf T_MAX R_MAX (eng (sys m)) ->
  0 <= id <= Tiny.last_rct (eng (sys m)) ->
  Forall (fun t => t <= ULONG_MAX) ts ->
  let r := Tiny.reaction (eng (sys m)) id in
  let off :=
    with_sys (method (Tiny.setNextTrigger id ULONG_MAX 1) (sys m)) m in
  let m' := Tiny.ticks T_MAX R_MAX action check ts off in
  exists l, trace m' = trace m ++ l /\
    trigger_checks id l = [] /\
    count_events (scan_of id) l = 0%nat /\
    reaction_runs id l =
      (if Tiny.r_pending r
       then match List.find (fun t => Tiny.r_next_execution r <? t) ts with
            | Some t => [t]
            | None => []
            end
       else []).
Proof.
  intros Hok [Ka Kc] Hwf Hid Hts r off m'.
  destruct (TinyMore.setNextTrigger_valid T_MAX R_MAX id ULONG_MAX 1
              (clk (sys m)) (eng (sys m)) Hwf Hid)
    as (P1 & _ & _ & (_ & M2 & _)).
  change (1 <? 1) with false in P1. cbv iota in P1.
  destruct (TinyMore.tiny_ticks_deferred T_MAX R_MAX action check Hok id
              Ka Kc ts off) as (l & T & C & D & _).
  - apply TinyFacts.wf_setNextTrigger. exact Hwf.
  - cbn [off sys with_sys method eng with_eng]. rewrite M2. exact Hid.
  - cbn [off sys with_sys method eng with_eng]. rewrite P1.
    cbn [Tiny.r_next_trigger_check]. exact Hts.
  - exists l. split; [exact T|].
    split; [apply trigger_checks_none; exact C|]. split; [exact C|].
    fold m' in D. rewrite D. unfold TinyMore.first_run.
    cbn [off sys with_sys method eng with_eng]. rewrite P1.
    reflexivity.
Qed.

Lemma X16_witness :
  exists l,
    trace (Tiny.ticks 4 4 idle_action button_held [2000; 2101; 9000]
             (with_sys (method (Tiny.setNextTrigger 0 ULONG_MAX 1)
                          (sys tiny_queued)) tiny_queued)) =
      trace tiny_queued ++ l /\
    trigger_checks 0 l = [] /\
    count_events (scan_of 0) l = 0%nat /\
    reaction_runs 0 l =
      (if Tiny.r_pending (Tiny.reaction (eng (sys tiny_queued)) 0)
       then match List.find
                    (fun t =>
                       Tiny.r_next_execution
                         (Tiny.reaction (eng (sys tiny_queued)) 0) <? t)
                    [2000; 2101; 9000] with
            | Some t => [t]
            | None => []
            end
       else []).
Proof.
  refine (X16_sentinel_trigger_tiny 4 4 idle_action button_held 0
            [2000; 2101; 9000] tiny_queued
            (idle_held_tiny 4 4) (idle_held_tiny_keeps_reaction 0)
            tiny_queued_wf ltac:(concrete) _).
  repeat (constructor; [concrete|]). constructor.
Defined.

(** X17. The debounce of a trigger of TinyEvents: over any ticks, once the
    predicate of a reaction has returned [true] in a tick at [t1], it is
    next called in a tick whose clock value is above [t1 + timeout]
    (modulo [2^32]), as long as no function of the sketch cancels the
    reaction or sets the time of its next check. *)
Theorem X17_debounce_tiny {U : Type} (T_MAX R_MAX : Z)
    (action : fnptr -> Sys Tiny.Engine U -> Sys Tiny.Engine U)
    (check : fnptr -> Sys Tiny.Engine U -> bool * Sys Tiny.Engine U)
    (i : Z) (ts : list Z) (m : Machine Tiny.Engine U) :
  TinyFacts.sketch_respects T_MAX R_MAX action check ->
  TinyMore.sketch_keeps_reaction i action check ->
  Tiny.wf T_MAX R_MAX (eng (sys m)) ->
  0 <= i <= Tiny.last_rct (eng (sys m)) ->
  exists l,
    trace (Tiny.ticks T_MAX R_MAX action check ts m) = trace m ++ l /\
    debounced (Tiny.r_timeout (Tiny.reaction (eng (sys m)) i))
      (trigger_checks i l).
Proof.
  intros Hok [Ka Kc] Hwf Hi.
  destruct (TinyMore.tiny_ticks_debounced T_MAX R_MAX action check Hok i Ka Kc
              ts m m Hi) as (_ & _ & _ & l & T & D & _).
  - split; [exact Hwf|]. split; [apply TinyFacts.tiny_grows_refl|].
    split; [reflexivity|]. exists []. rewrite app_nil_r.
    repeat split; exact I.
  - exists l. split; [exact T|exact D].
Qed.

Lemma X17_witness :
  exists l,
    trace (Tiny.ticks 4 4 idle_action button_held
             [100; 2000; 4100; 4101; 9000] tiny_debounced) =
      trace tiny_debounced ++ l /\
    debounced (Tiny.r_timeout (Tiny.reaction (eng (sys tiny_debounced)) 0))
      (trigger_checks 0 l).
Proof.
  exact (X17_debounce_tiny 4 4 idle_action button_held 0
           [100; 2000; 4100; 4101; 9000] tiny_debounced
           (idle_held_tiny 4 4) (idle_held_tiny_keeps_reaction 0)
           tiny_debounced_wf ltac:(concrete)).
Defined.

(** X18. Whatever sequence of calls of [addSchedule], [addReaction],
    [cancelReaction], [setNextSchedule], [setNextTrigger] and [begin] a
    sketch makes on TinyEvents, the engine stays well formed, the
    high-water marks never decrease and every entry that exists keeps
    the callbacks, the interval, the timeout and the delay it was added
    with. *)
Theorem X18_calls_keep_engine_tiny (T_MAX R_MAX : Z)
    (cs : list (Z * TinyMore.Call)) (e : Tiny.Engine) :
  Tiny.wf T_MAX R_MAX e ->
  let e' := TinyMore.calls T_MAX R_MAX cs e in
  Tiny.wf T_MAX R_MAX e' /\
  Tiny.last_schd e <= Tiny.last_schd e' /\
  Tiny.last_rct e <= Tiny.last_rct e' /\
  (forall i, 0 <= i <= Tiny.last_schd e ->
     Tiny.s_action (Tiny.schedule e' i) = Tiny.s_action (Tiny.schedule e i) /\
     Tiny.s_interval (Tiny.schedule e' i) =
       Tiny.s_interval (Tiny.schedule e i)) /\
  (forall i, 0 <= i <= Tiny.last_rct e ->
     Tiny.r_predicate (Tiny.reaction e' i) =
       Tiny.r_predicate (Tiny.reaction e i) /\
     Tiny.r_action (Tiny.reaction e' i) = Tiny.r_action (Tiny.reaction e i) /\
     Tiny.r_timeout (Tiny.reaction e' i) =
       Tiny.r_timeout (Tiny.reaction e i) /\
     Tiny.r_delay (Tiny.reaction e' i) = Tiny.r_delay (Tiny.reaction e i)).
Proof.
  intros Hwf e'.
  destruct (TinyMore.tiny_calls_extends T_MAX R_MAX cs e Hwf)
    as (W & (G1 & G2) & S & R).
  split; [exact W|]. split; [exact G1|]. split; [exact G2|].
  split; [exact S|exact R].
Qed.

Lemma X18_witness :
  Tiny.wf 4 4
    (TinyMore.calls 4 4
       [(0, TinyMore.AddReaction 1%nat 2%nat 250 0 0);
        (0, TinyMore.AddReaction 1%nat 3%nat 4000 0 0);
        (0, TinyMore.AddReaction 1%nat 4%nat 4000 2000 0);
        (0, TinyMore.AddReaction 1%nat 5%nat 4000 4000 0);
        (12, TinyMore.Begin);
        (12, TinyMore.SetNextTrigger 0 4294967295 1);
        (800, TinyMore.SetNextTrigger 0 250 0);
        (1500, TinyMore.CancelReaction 1 250 0 0);
        (1500, TinyMore.CancelReaction 2 250 0 0);
        (1500, TinyMore.CancelReaction 3 250 0 0)]
       (Tiny.init 4 4)).
Proof.
  exact (proj1 (X18_calls_keep_engine_tiny 4 4 _ (Tiny.init 4 4)
                  (TinyFacts.tiny_wf_init 4 4 ltac:(lia) ltac:(lia)))).
Defined.

(** *** The sketch [pause_resume_schedule.ino] *)

(** X19. In the sketch [pause_resume_schedule.ino] every function keeps the
    engine well formed and none touches schedule 2, the one of the red
    LED, although [toggle_schedule] pauses and resumes schedules 0 and 1.
    So whatever the button does, whatever the clock reads in the calls of
    [resumeSchedule] and whenever [loop()] runs, the due times
    at which [toggle_red] is executed are [t0], [t0 + 500],
    [t0 + 1000], ... (modulo [2^32]), [t0] being the clock value at
    [setup()], with at most one execution per [loop()]. *)
Theorem X19_sketch_red_led (reads : Z -> Z * Z) (button : Z -> bool)
    (t0 : Z) (ts : list Z) :
  0 <= t0 < ULONG_MOD ->
  SimpleFacts.sketch_respects 8 8 PauseResume.action PauseResume.check /\
  SimpleFacts.sketch_keeps_schedule 2 PauseResume.action PauseResume.check /\
  exists l,
    trace (PauseResume.loops ts (PauseResume.setup reads button t0)) = l /\
    (length (schedule_firings 2 l) <= length ts)%nat /\
    schedule_dues 2 l = progression t0 500 (length (schedule_firings 2 l)).
Proof.
  intros Ht0.
  split; [exact PauseResumeFacts.sketch_ok|].
  split; [exact PauseResumeFacts.sketch_keeps_red|].
  destruct PauseResumeFacts.sketch_ok as [Ha Hc].
  destruct PauseResumeFacts.sketch_keeps_red as [Ka Kc].
  destruct (PauseResumeFacts.setup_wired reads button t0)
    as ((W & M1 & _) & R).
  destruct (SimpleFacts.ticks_progression 8 8 PauseResume.action
              PauseResume.check Ha Hc 2 Ka Kc ts
              (PauseResume.setup reads button t0) _ W ltac:(lia) R eq_refl)
    as (_ & _ & l & T & Hn & D & _).
  - cbn [Simple.s_next_fire]. apply ulong_range.
  - cbn [Simple.s_next_fire Simple.s_interval] in D.
    rewrite Z.add_0_l, ulong_small in D by exact Ht0.
    exists l. split; [exact T|]. split; [exact Hn|exact D].
Qed.

Lemma X19_witness :
  exists l,
    trace (PauseResume.loops [300; 700; 701; 1300]
             (PauseResume.setup (fun t => (t, t + 1)) (fun _ => true) 12)) = l /\
    (length (schedule_firings 2 l) <= length [300; 700; 701; 1300])%nat /\
    schedule_dues 2 l = progression 12 500 (length (schedule_firings 2 l)).
Proof.
  exact (proj2 (proj2 (X19_sketch_red_led (fun t => (t, t + 1)) (fun _ => true)
                         12 [300; 700; 701; 1300] ltac:(concrete)))).
Defined.

(** X20. In the same sketch [toggle_schedule] resumes schedules 0 and 1 with
    [resumeSchedule(0)] and [resumeSchedule(1)]; each call reads the clock
    itself and sets the due time of its schedule to the value it read.
    When the clock does not advance between the two calls (they read the
    same value), [turn_on_green] and [turn_off_green] are then due at the
    same time, and the following holds: once the two schedules are in step
    (both active or both paused, with one due time) and the green LED is
    off, this is so after every [loop()], whatever the button does:
    [turn_on_green] is always followed by [turn_off_green] in the same call
    of [run()], and further presses of the button pause and resume the pair
    together.  When the clock advances between the two calls the two due
    times differ, and a [loop()] between them switches the LED on and
    leaves it on: with the button held down, the clock 1 ms later at the
    second call, and [loop()] entered at 300, 700 and 701 ms, the LED is
    on after the last. *)
Theorem X20_sketch_green_led (ts : list Z)
    (m : Machine Simple.Engine PauseResume.Vars) :
  PauseResumeFacts.wired (eng (sys m)) ->
  PauseResumeFacts.in_step (eng (sys m)) ->
  PauseResume.grn_pin (usr (sys m)) = false ->
  (forall t, fst (PauseResume.millis_reads (usr (sys m)) t) =
             snd (PauseResume.millis_reads (usr (sys m)) t)) ->
  let m' := PauseResume.loops ts m in
  (PauseResumeFacts.wired (eng (sys m')) /\
   PauseResumeFacts.in_step (eng (sys m')) /\
   PauseResume.grn_pin (usr (sys m')) = false) /\
  (forall s : Sys Simple.Engine PauseResume.Vars,
     PauseResumeFacts.wired (eng s) ->
     PauseResume.button_parity (usr s) <> 0 ->
     let s' := PauseResume.toggle_schedule s in
     Simple.s_active (Simple.schedule (eng s') 0) = true /\
     Simple.s_active (Simple.schedule (eng s') 1) = true /\
     Simple.s_next_fire (Simple.schedule (eng s') 0) =
       ulong (0 + fst (PauseResume.millis_reads (usr s) (clk s))) /\
     Simple.s_next_fire (Simple.schedule (eng s') 1) =
       ulong (0 + snd (PauseResume.millis_reads (usr s) (clk s)))) /\
  (Simple.s_next_fire (Simple.schedule (eng (sys sketch_resumed_late)) 0) = 1700 /\
   Simple.s_next_fire (Simple.schedule (eng (sys sketch_resumed_late)) 1) = 701 /\
   PauseResume.grn_pin (usr (sys sketch_resumed_late)) = true /\
   PauseResume.grn_pin (usr (sys sketch_resumed)) = false).
Proof.
  intros W I G St m'. split; [|split].
  - destruct (PauseResumeFacts.loops_stuck ts m (conj W (conj I (conj G St))))
      as (W' & I' & G' & _).
    split; [exact W'|]. split; [exact I'|exact G'].
  - intros s Ws Hp.
    exact (PauseResumeFacts.toggle_schedule_resumes s Ws Hp).
  - vm_compute. repeat split.
Qed.

Lemma sketch_resumed_wired : PauseResumeFacts.wired (eng (sys sketch_resumed)).
Proof. unfold PauseResumeFacts.wired, Simple.wf. concrete. Qed.

Lemma sketch_resumed_in_step :
  PauseResumeFacts.in_step (eng (sys sketch_resumed)).
Proof. unfold PauseResumeFacts.in_step. concrete. Qed.

Lemma sketch_resumed_steady t :
  fst (PauseResume.millis_reads (usr (sys sketch_resumed)) t) =
  snd (PauseResume.millis_reads (usr (sys sketch_resumed)) t).
Proof. reflexivity. Qed.

Lemma X20_witness :
  PauseResume.grn_pin
    (usr (sys (PauseResume.loops [1701; 1900; 2701; 2702] sketch_resumed))) =
  false.
Proof.
  exact (proj2 (proj2 (proj1 (X20_sketch_green_led [1701; 1900; 2701; 2702]
                                sketch_resumed sketch_resumed_wired
                                sketch_resumed_in_step ltac:(concrete)
                                sketch_resumed_steady)))).
Defined.

(** *** Ticks in which nothing is due *)

(** X21. When [run()] of SimpleEvents finds no active schedule past its due
    time, no queued execution past its time and no active trigger past
    the time of its next check, it calls no function of the sketch and
    writes nothing: the engine, the variables of the sketch and the trace
    are as before.  The same holds for a sequence of such ticks. *)
Theorem X21_idle_ticks {U : Type} (T_MAX R_MAX : Z)
    (action : fnptr -> Sys Simple.Engine U -> Sys Simple.Engine U)
    (check : fnptr -> Sys Simple.Engine U -> bool * Sys Simple.Engine U)
    (ts : list Z) (m : Machine Simple.Engine U) :
  Forall (fun t => SimpleMore.nothing_due t (eng (sys m))) ts ->
  (SimpleMore.nothing_due (clk (sys m)) (eng (sys m)) ->
   Simple.run T_MAX R_MAX action check m = m) /\
  let m' := Simple.ticks T_MAX R_MAX action check ts m in
  eng (sys m') = eng (sys m) /\ usr (sys m') = usr (sys m) /\
  trace m' = trace m.
Proof.
  intros Hts. split.
  - apply SimpleMore.run_idle.
  - exact (SimpleMore.ticks_idle T_MAX R_MAX action check ts m Hts).
Qed.

Lemma simple_queued_idle :
  Forall (fun t => SimpleMore.nothing_due t (eng (sys simple_queued)))
    [101; 1500; 2100].
Proof.
  assert (Es : Simple.last_schd (eng (sys simple_queued)) = -1) by reflexivity.
  assert (Er : Simple.last_rct (eng (sys simple_queued)) = 0) by reflexivity.
  repeat (constructor;
    [split; intros i Hi;
       [rewrite Es in Hi; lia
       |rewrite Er in Hi; assert (i = 0) by lia; subst i; vm_compute;
        split; reflexivity]|]).
  constructor.
Qed.

Lemma X21_witness :
  trace (Simple.ticks 8 8 idle_action button_held [101; 1500; 2100]
           simple_queued) = trace simple_queued.
Proof.
  exact (proj2 (proj2 (proj2 (X21_idle_ticks 8 8 idle_action button_held
                                [101; 1500; 2100] simple_queued
                                simple_queued_idle)))).
Defined.

(** X22. The same for TinyEvents: when [run()] finds no schedule past its
    due time, no queued execution past its time and no trigger past the
    time of its next check, it calls no function of the sketch and writes
    nothing. *)
Theorem X22_idle_ticks_tiny {U : Type} (T_MAX R_MAX : Z)
    (action : fnptr -> Sys Tiny.Engine U -> Sys Tiny.Engine U)
    (check : fnptr -> Sys Tiny.Engine U -> bool * Sys Tiny.Engine U)
    (ts : list Z) (m : Machine Tiny.Engine U) :
  Forall (fun t => TinyMore.nothing_due t (eng (sys m))) ts ->
  (TinyMore.nothing_due (clk (sys m)) (eng (sys m)) ->
   Tiny.run T_MAX R_MAX action check m = m) /\
  let m' := Tiny.ticks T_MAX R_MAX action check ts m in
  eng (sys m') = eng (sys m) /\ usr (sys m') = usr (sys m) /\
  trace m' = trace m.
Proof.
  intros Hts. split.
  - apply TinyMore.tiny_run_idle.
  - exact (TinyMore.tiny_ticks_idle T_MAX R_MAX action check ts m Hts).
Qed.

Lemma tiny_queued_idle :
  Forall (fun t => TinyMore.nothing_due t (eng (sys tiny_queued)))
    [101; 1500; 2100].
Proof.
  assert (Es : Tiny.last_schd (eng (sys tiny_queued)) = -1) by reflexivity.
  assert (Er : Tiny.last_rct (eng (sys tiny_queued)) = 0) by reflexivity.
  repeat (constructor;
    [split; intros i Hi;
       [rewrite Es in Hi; lia
       |rewrite Er in Hi; assert (i = 0) by lia; subst i; vm_compute;
        split; reflexivity]|]).
  constructor.
Qed.

Lemma X22_witness :
  trace (Tiny.ticks 4 4 idle_action button_held [101; 1500; 2100]
           tiny_queued) = trace tiny_queued.
Proof.
  exact (proj2 (proj2 (proj2 (X22_idle_ticks_tiny 4 4 idle_action button_held
                                [101; 1500; 2100] tiny_queued
                                tiny_queued_idle)))).
Defined.

(** *** The sketch [cancel_reaction_tiny.ino] *)

(** X23. In the sketch [cancel_reaction_tiny.ino] the function
    [cancel_reset_LEDs] calls [cancelReaction(1, 250)],
    [cancelReaction(2, 250)] and [cancelReaction(3, 250)].  The second
    parameter of [TinyEvents::cancelReaction] is the [int8_t]
    [reset_debounce], so the 250 arrives as -6 (conversion modulo [2^8]),
    which is not positive: each call clears the pending bit of its
    reaction and leaves the time of its next trigger check as it was; no
    debounce of 250 ms is set.  Besides, the function sets the next check
    of reaction 0 to the largest [unsigned long] and switches both LEDs
    off; nothing else changes. *)
Theorem X23_cancel_reset_LEDs (s : Sys Tiny.Engine CancelTiny.Vars) :
  Tiny.wf 4 4 (eng s) -> Tiny.last_rct (eng s) = 3 ->
  let s' := CancelTiny.cancel_reset_LEDs s in
  int8 250 = -6 /\
  Tiny.reaction (eng s') 0 =
    {| Tiny.r_predicate := Tiny.r_predicate (Tiny.reaction (eng s) 0);
       Tiny.r_action := Tiny.r_action (Tiny.reaction (eng s) 0);
       Tiny.r_timeout := Tiny.r_timeout (Tiny.reaction (eng s) 0);
       Tiny.r_delay := Tiny.r_delay (Tiny.reaction (eng s) 0);
       Tiny.r_next_trigger_check := 4294967295;
       Tiny.r_next_execution := Tiny.r_next_execution (Tiny.reaction (eng s) 0);
       Tiny.r_pending := Tiny.r_pending (Tiny.reaction (eng s) 0) |} /\
  (forall id, 1 <= id <= 3 ->
     Tiny.reaction (eng s') id =
       {| Tiny.r_predicate := Tiny.r_predicate (Tiny.reaction (eng s) id);
          Tiny.r_action := Tiny.r_action (Tiny.reaction (eng s) id);
          Tiny.r_timeout := Tiny.r_timeout (Tiny.reaction (eng s) id);
          Tiny.r_delay := Tiny.r_delay (Tiny.reaction (eng s) id);
          Tiny.r_next_trigger_check :=
            Tiny.r_next_trigger_check (Tiny.reaction (eng s) id);
          Tiny.r_next_execution :=
            Tiny.r_next_execution (Tiny.reaction (eng s) id);
          Tiny.r_pending := false |}) /\
  TinyFacts.schedules_kept (eng s) (eng s') /\
  TinyFacts.marks_kept (eng s) (eng s') /\
  CancelTiny.red_pin (usr s') = false /\ CancelTiny.grn_pin (usr s') = false.
Proof.
  intros Hwf Hlast s'. split; [reflexivity|].
  exact (CancelTinyFacts.cancel_reset_LEDs_effect s Hwf Hlast).
Qed.

Lemma sequence_started_wf : Tiny.wf 4 4 (eng (sys sequence_started)).
Proof. unfold Tiny.wf. concrete. Qed.

Lemma X23_witness :
  Tiny.reaction
    (eng (CancelTiny.cancel_reset_LEDs (sys sequence_started))) 1 =
    {| Tiny.r_predicate :=
         Tiny.r_predicate (Tiny.reaction (eng (sys sequence_started)) 1);
       Tiny.r_action :=
         Tiny.r_action (Tiny.reaction (eng (sys sequence_started)) 1);
       Tiny.r_timeout :=
         Tiny.r_timeout (Tiny.reaction (eng (sys sequence_started)) 1);
       Tiny.r_delay :=
         Tiny.r_delay (Tiny.reaction (eng (sys sequence_started)) 1);
       Tiny.r_next_trigger_check :=
         Tiny.r_next_trigger_check
           (Tiny.reaction (eng (sys sequence_started)) 1);
       Tiny.r_next_execution :=
         Tiny.r_next_execution (Tiny.reaction (eng (sys sequence_started)) 1);
       Tiny.r_pending := false |}.
Proof.
  exact (proj1 (proj2 (proj2 (X23_cancel_reset_LEDs (sys sequence_started)
                                sequence_started_wf ltac:(concrete))))
           1 ltac:(lia)).
Defined.

(** X24. Hence, in that sketch, once [cancel_reset_LEDs] has run nothing at
    all happens before the debounce that the first press of the button
    started has run out: while the clock is not past the next trigger
    checks the reactions 1 to 3 had before the cancellation, [run()]
    calls no predicate and no action and leaves engine, LEDs and trace
    untouched, however the button is pressed. *)
Theorem X24_cancelled_sequence_sleeps (s : Sys Tiny.Engine CancelTiny.Vars)
    (N : Z) (ts : list Z) (tr : list Event) :
  Tiny.wf 4 4 (eng s) ->
  Tiny.last_rct (eng s) = 3 -> Tiny.last_schd (eng s) = -1 ->
  Tiny.r_pending (Tiny.reaction (eng s) 0) = false ->
  (forall id, 1 <= id <= 3 ->
     N <= Tiny.r_next_trigger_check (Tiny.reaction (eng s) id)) ->
  Forall (fun t => t <= N /\ t <= ULONG_MAX) ts ->
  let s' := CancelTiny.cancel_reset_LEDs s in
  let m' := CancelTiny.loops ts {| sys := s'; trace := tr |} in
  eng (sys m') = eng s' /\ usr (sys m') = usr s' /\ trace m' = tr.
Proof.
  intros Hwf Hr Hs Hp HN Hts s' m'.
  destruct (CancelTinyFacts.cancel_reset_LEDs_effect s Hwf Hr)
    as (R0 & R13 & _ & (M1 & M2 & _) & _).
  fold s' in R0, R13, M1, M2.
  apply (TinyMore.tiny_ticks_idle 4 4 CancelTiny.action CancelTiny.check ts
           {| sys := s'; trace := tr |}).
  eapply Forall_impl; [exact Hts|]. intros t (Ht & Hmax).
  cbn [sys eng]. split.
  - intros i Hi. rewrite M1, Hs in Hi. lia.
  - intros i Hi. rewrite M2, Hr in Hi.
    destruct (Z.eq_dec i 0) as [->|Hne].
    + rewrite R0. cbn [Tiny.r_pending Tiny.r_next_execution
                       Tiny.r_next_trigger_check]. rewrite Hp.
      split; [reflexivity|]. unfold CancelTiny.far_future.
      unfold ULONG_MAX in Hmax. change ULONG_MOD with 4294967296 in Hmax. lia.
    + rewrite (R13 i) by lia.
      cbn [Tiny.r_pending Tiny.r_next_execution Tiny.r_next_trigger_check].
      split; [reflexivity|]. specialize (HN i ltac:(lia)). lia.
Qed.

Lemma X24_witness :
  eng (sys (CancelTiny.loops [400; 2000; 4100]
              {| sys := CancelTiny.cancel_reset_LEDs (sys sequence_started);
                 trace := [] |})) =
    eng (CancelTiny.cancel_reset_LEDs (sys sequence_started)) /\
  usr (sys (CancelTiny.loops [400; 2000; 4100]
              {| sys := CancelTiny.cancel_reset_LEDs (sys sequence_started);
                 trace := [] |})) =
    usr (CancelTiny.cancel_reset_LEDs (sys sequence_started)) /\
  trace (CancelTiny.loops [400; 2000; 4100]
           {| sys := CancelTiny.cancel_reset_LEDs (sys sequence_started);
              trace := [] |}) = [].
Proof.
  refine (X24_cancelled_sequence_sleeps (sys sequence_started) 4100
            [400; 2000; 4100] [] sequence_started_wf
            ltac:(concrete) ltac:(concrete) ltac:(concrete) _ _).
  - intros id Hid. assert (H : id = 1 \/ id = 2 \/ id = 3) by lia.
    destruct H as [->|[->| ->]]; vm_compute; discriminate.
  - repeat (constructor; [concrete|]). constructor.
Defined.
